(** * winxp-board: the data-mutation and consistency layer

    A shallow embedding of the Firestore service functions of the board
    (services/firebase/firestore.ts, services/admin/auth.ts,
    services/admin/categories.ts, services/admin/backup.ts) and the
    properties the specification states about them.

    The TypeScript functions are asynchronous and talk to a remote document
    store.  They are embedded as computations in a state-and-exception monad
    over a [World]: the document store, the browser's local storage, the wall
    clock, and three oracles standing for what the code cannot control (which
    store round-trips fail and how, which identifiers the SDK mints, what
    [Math.random] returns).  Every store round-trip and every back-off sleep
    is recorded in a trace, so that "attempted exactly n times" and "before
    any store read or write" are statements about the trace. *)

From stdpp Require Import gmap strings list fin_maps.
From Stdlib Require Import ZArith Lia Ascii.

#[local] Set Warnings "-register-all,-clear-no-such-hyp".
#[local] Open Scope string_scope.
#[local] Open Scope Z_scope.

(** ** JavaScript values, as far as the documents of the board need them *)

(** A Firestore [Timestamp]: seconds since the epoch and a nanosecond part. *)
Record Timestamp := mkTimestamp { seconds : Z; nanoseconds : Z }.

(** Document field values.  Objects are association lists in insertion order,
    which is how a JavaScript object enumerates its own string keys. *)
Inductive value :=
| VNull
| VBool (b : bool)
| VNum (n : Z)
| VStr (s : string)
| VTime (t : Timestamp)
| VInvalidTime
| VArr (items : list value)
| VObj (fields : list (string * value)).

Abbreviation object := (list (string * value)).

(** [VInvalidTime] is the [Timestamp] object that [Timestamp.fromDate] makes
    of an invalid [Date]: its fields are [NaN]. *)

(** The values of JSON texts: what [JSON.parse] returns. *)
Inductive json :=
| JNull
| JBool (b : bool)
| JNum (n : Z)
| JStr (s : string)
| JArr (items : list json)
| JObj (fields : list (string * json)).

Section value_induction.
Variable P : value → Prop.
Hypothesis Hnull : P VNull.
Hypothesis Hbool : ∀ b, P (VBool b).
Hypothesis Hnum : ∀ n, P (VNum n).
Hypothesis Hstr : ∀ s, P (VStr s).
Hypothesis Htime : ∀ t, P (VTime t).
Hypothesis Hinvalid : P VInvalidTime.
Hypothesis Harr : ∀ l, Forall P l → P (VArr l).
Hypothesis Hobj : ∀ o : object, Forall (λ kv, P kv.2) o → P (VObj o).

Fixpoint value_ind' (v : value) : P v :=
  match v with
  | VNull => Hnull
  | VBool b => Hbool b
  | VNum n => Hnum n
  | VStr s => Hstr s
  | VTime t => Htime t
  | VInvalidTime => Hinvalid
  | VArr l =>
      Harr l ((fix go (l : list value) : Forall P l :=
                 match l with
                 | [] => Forall_nil_2 P
                 | x :: l' => Forall_cons_2 P x l' (value_ind' x) (go l')
                 end) l)
  | VObj o =>
      Hobj o ((fix go (o : object) : Forall (λ kv, P kv.2) o :=
                 match o with
                 | [] => Forall_nil_2 _
                 | kv :: o' => Forall_cons_2 _ kv o' (value_ind' kv.2) (go o')
                 end) o)
  end.
End value_induction.

Section json_induction.
Variable P : json → Prop.
Hypothesis Hnull : P JNull.
Hypothesis Hbool : ∀ b, P (JBool b).
Hypothesis Hnum : ∀ n, P (JNum n).
Hypothesis Hstr : ∀ s, P (JStr s).
Hypothesis Harr : ∀ l, Forall P l → P (JArr l).
Hypothesis Hobj : ∀ o : list (string * json), Forall (λ kv, P kv.2) o → P (JObj o).

Fixpoint json_ind' (j : json) : P j :=
  match j with
  | JNull => Hnull
  | JBool b => Hbool b
  | JNum n => Hnum n
  | JStr s => Hstr s
  | JArr l =>
      Harr l ((fix go (l : list json) : Forall P l :=
                 match l with
                 | [] => Forall_nil_2 P
                 | x :: l' => Forall_cons_2 P x l' (json_ind' x) (go l')
                 end) l)
  | JObj o =>
      Hobj o ((fix go (o : list (string * json)) : Forall (λ kv, P kv.2) o :=
                 match o with
                 | [] => Forall_nil_2 _
                 | kv :: o' => Forall_cons_2 _ kv o' (json_ind' kv.2) (go o')
                 end) o)
  end.
End json_induction.

#[global] Instance Timestamp_eq_dec : EqDecision Timestamp.
Proof. solve_decision. Defined.

(** Structural equality of values, as a boolean function that computes. *)
Fixpoint value_eqb (v w : value) : bool :=
  match v, w with
  | VNull, VNull => true
  | VBool a, VBool b => bool_decide (a = b)
  | VNum a, VNum b => bool_decide (a = b)
  | VStr a, VStr b => bool_decide (a = b)
  | VTime a, VTime b => bool_decide (a = b)
  | VInvalidTime, VInvalidTime => true
  | VArr l, VArr l' =>
      (fix go (l l' : list value) : bool :=
         match l, l' with
         | [], [] => true
         | x :: l, y :: l' => value_eqb x y && go l l'
         | _, _ => false
         end) l l'
  | VObj o, VObj o' =>
      (fix go (o o' : object) : bool :=
         match o, o' with
         | [], [] => true
         | (k, x) :: o, (k', y) :: o' =>
             bool_decide (k = k') && value_eqb x y && go o o'
         | _, _ => false
         end) o o'
  | _, _ => false
  end.

Lemma value_eqb_eq (v w : value) : value_eqb v w = true ↔ v = w.
Proof.
  revert w. induction v as [| | | | | |l IH|o IH] using value_ind';
    intros [] ; simpl; try (split; [done | congruence]);
    try (rewrite bool_decide_eq_true; split; congruence).
  - revert items. induction IH as [|x l Hx _ IHl]; intros [|y l'];
      try (split; [done | congruence]).
    rewrite andb_true_iff, Hx. split.
    + intros [-> H]. apply IHl in H. congruence.
    + intros [= -> ->]. split; [done|]. by apply IHl.
  - revert fields. induction IH as [|[k x] o Hx _ IHo]; intros [|[k' y] o'];
      try (split; [done | congruence]).
    simpl in Hx. rewrite !andb_true_iff, bool_decide_eq_true, Hx. split.
    + intros [[-> ->] H]. apply IHo in H. congruence.
    + intros [= -> -> ->]. split; [done|]. by apply IHo.
Qed.

#[global] Instance value_eq_dec : EqDecision value.
Proof.
  refine (λ v w, cast_if (decide (value_eqb v w = true)));
    abstract (by rewrite <- value_eqb_eq).
Defined.

(** *** Objects *)

(** [o[k]], where [None] is JavaScript's [undefined]. *)
Fixpoint obj_get {V} (k : string) (o : list (string * V)) : option V :=
  match o with
  | [] => None
  | (k', v) :: o' => if decide (k' = k) then Some v else obj_get k o'
  end.

(** [o[k] = v]: an existing key keeps its place, a new key goes last. *)
Fixpoint obj_set {V} (k : string) (v : V) (o : list (string * V)) : list (string * V) :=
  match o with
  | [] => [(k, v)]
  | (k', v') :: o' =>
      if decide (k' = k) then (k, v) :: o' else (k', v') :: obj_set k v o'
  end.

(** [delete o[k]]. *)
Definition obj_del {V} (k : string) (o : list (string * V)) : list (string * V) :=
  filter (λ kv, kv.1 ≠ k) o.

(** [k in o]. *)
Definition obj_has {V} (k : string) (o : list (string * V)) : bool :=
  bool_decide (is_Some (obj_get k o)).

(** [{...a, ...b}]: the keys of [b] are assigned onto [a] in order. *)
Definition obj_assign {V} (a b : list (string * V)) : list (string * V) :=
  foldl (λ acc kv, obj_set kv.1 kv.2 acc) a b.

(** JavaScript truthiness of a possibly undefined value. *)
Definition truthy (v : option value) : bool :=
  match v with
  | None | Some VNull => false
  | Some (VBool b) => b
  | Some (VNum n) => negb (bool_decide (n = 0))
  | Some (VStr s) => negb (bool_decide (s = ""))
  | Some _ => true
  end.

(** [x === s] for a string [s]. *)
Definition is_str (s : string) (v : option value) : bool :=
  bool_decide (v = Some (VStr s)).


(** ** Errors, the world, and the monad of the service functions *)

(** A thrown JavaScript error.  [code] is the store SDK's error code
    ([FirebaseError.code]); errors made with [new Error(msg)] have none. *)
Record JsError := mkError { code : option string; message : string }.

Definition Error (msg : string) : JsError := mkError None msg.

(** One round-trip to the document store. *)
Inductive Request :=
| ReqGet (c id : string)
| ReqSet (c id : string)
| ReqUpdate (c id : string)
| ReqDelete (c id : string)
| ReqQuery (c : string)
| ReqCommit.

Inductive Event :=
| Call (r : Request)
| Sleep (ms : Z).

(** A string that is handed to [JSON.parse] is represented by what
    [JSON.parse] makes of it: [JsonText v] parses to [v] and is what
    [JSON.stringify] returns for [v]; [RawText] is any text that does not
    parse. *)
Inductive text :=
| JsonText (j : json)
| RawText (raw : string).

Record World := mkWorld {
  now : Z;                                    (* Date.now(), milliseconds *)
  db : gmap (string * string) object;         (* (collection, id) -> fields *)
  localStorage : gmap string text;
  trace : list Event;                         (* most recent first *)
  net : nat → Request → option JsError;       (* which round-trips fail *)
  autoId : nat → string;                      (* ids minted by doc(collection) *)
  minted : nat;
  random : nat → Z;                           (* Math.random, scaled by caller *)
  Date_parse : string → option Z              (* the engine's Date.parse *)
}.

Definition set_db (f : gmap (string * string) object → gmap (string * string) object)
    (w : World) : World :=
  mkWorld (now w) (f (db w)) (localStorage w) (trace w) (net w) (autoId w)
    (minted w) (random w) (Date_parse w).

Definition set_localStorage (f : gmap string text → gmap string text)
    (w : World) : World :=
  mkWorld (now w) (db w) (f (localStorage w)) (trace w) (net w) (autoId w)
    (minted w) (random w) (Date_parse w).

Definition log (e : Event) (w : World) : World :=
  mkWorld (now w) (db w) (localStorage w) (e :: trace w) (net w) (autoId w)
    (minted w) (random w) (Date_parse w).

Definition advance (ms : Z) (w : World) : World :=
  mkWorld (now w + ms) (db w) (localStorage w) (trace w) (net w) (autoId w)
    (minted w) (random w) (Date_parse w).

Definition mint (w : World) : World :=
  mkWorld (now w) (db w) (localStorage w) (trace w) (net w) (autoId w)
    (S (minted w)) (random w) (Date_parse w).

Inductive Res (A : Type) :=
| Ok (a : A)
| Throw (e : JsError).
Arguments Ok {A} a.
Arguments Throw {A} e.

Definition M (A : Type) : Type := World → Res A * World.

Definition ret {A} (a : A) : M A := λ w, (Ok a, w).

Definition bind {A B} (m : M A) (k : A → M B) : M B :=
  λ w, match m w with
       | (Ok a, w') => k a w'
       | (Throw e, w') => (Throw e, w')
       end.

Definition throw {A} (e : JsError) : M A := λ w, (Throw e, w).

(** [try { m } catch (e) { h e }] *)
Definition try_catch {A} (m : M A) (h : JsError → M A) : M A :=
  λ w, match m w with
       | (Ok a, w') => (Ok a, w')
       | (Throw e, w') => h e w'
       end.

Definition get {A} (f : World → A) : M A := λ w, (Ok (f w), w).
Definition modify (f : World → World) : M unit := λ w, (Ok tt, f w).

Notation "'let*' x ':=' m 'in' k" := (bind m (λ x, k))
  (at level 10, x name, m at level 100, k at level 200).

(** The number of store round-trips recorded in a trace. *)
Definition is_call (e : Event) : bool :=
  match e with Call _ => true | Sleep _ => false end.

Definition calls (t : list Event) : nat := length (List.filter is_call t).

(** *** Timestamps *)

(** [Timestamp.fromMillis] *)
Definition Timestamp_fromMillis (ms : Z) : Timestamp :=
  mkTimestamp (ms `div` 1000) ((ms `mod` 1000) * 1000000).

(** [Timestamp.now()] *)
Definition Timestamp_now : M Timestamp := get (λ w, Timestamp_fromMillis (now w)).

(** *** The store SDK *)

(** A round-trip: recorded, and failed when the network oracle says so. *)
Definition rpc (r : Request) : M unit :=
  λ w, let w' := log (Call r) w in
       match net w (length (trace w)) r with
       | Some e => (Throw e, w')
       | None => (Ok tt, w')
       end.

(** What a field is set to in [updateDoc]: a plain value or a sentinel. *)
Inductive FieldValue :=
| Plain (v : value)
| increment (n : Z)
| arrayRemove (x : value).

Definition resolve (cur : option value) (f : FieldValue) : value :=
  match f with
  | Plain v => v
  | increment n =>
      match cur with
      | Some (VNum m) => VNum (m + n)
      | _ => VNum n
      end
  | arrayRemove x =>
      match cur with
      | Some (VArr l) => VArr (filter (λ y, y ≠ x) l)
      | _ => VArr []
      end
  end.

(** What [updateDoc] makes of a document.  The SDK reads each key of the
    update as a field path: segments separated by dots, none of them empty,
    and none of the characters [~ * / [ ]] anywhere; it refuses other keys,
    and a key with a dot addresses a field of a nested object.  The
    embedding takes every key as the name of one top-level field, which is
    what the SDK does with a key that is not empty and has no dot and none
    of these characters.  The keys that the modelled functions write
    themselves are of that kind; a property about keys that come from a
    caller is stated for such keys ([field_name] below). *)
Definition apply_update (upd : list (string * FieldValue)) (d : object) : object :=
  foldl (λ acc kf, obj_set kf.1 (resolve (obj_get kf.1 d) kf.2) acc) d upd.

Definition plain (o : object) : list (string * FieldValue) :=
  map (λ kv, (kv.1, Plain kv.2)) o.

Definition not_found (c id : string) : JsError :=
  mkError (Some "not-found") ("No document to update: " +:+ c +:+ "/" +:+ id).

(** [getDoc(doc(db, c, id))]: [None] is a snapshot with [exists() = false]. *)
Definition getDoc (c id : string) : M (option object) :=
  let* _ := rpc (ReqGet c id) in
  get (λ w, db w !! (c, id)).

(** [setDoc(doc(db, c, id), data)] replaces the document. *)
Definition setDoc (c id : string) (data : object) : M unit :=
  let* _ := rpc (ReqSet c id) in
  modify (set_db (insert (c, id) data)).

(** [updateDoc(doc(db, c, id), upd)] fails when the document is missing. *)
Definition updateDoc (c id : string) (upd : list (string * FieldValue)) : M unit :=
  let* _ := rpc (ReqUpdate c id) in
  let* cur := get (λ w, db w !! (c, id)) in
  match cur with
  | None => throw (not_found c id)
  | Some d => modify (set_db (insert (c, id) (apply_update upd d)))
  end.

Definition deleteDoc (c id : string) : M unit :=
  let* _ := rpc (ReqDelete c id) in
  modify (set_db (delete (c, id))).

(** [doc(collection(db, c))]: a reference with a newly minted id. *)
Definition newDocId : M string :=
  let* id := get (λ w, autoId w (minted w)) in
  let* _ := modify mint in
  ret id.

(** A query: equality filters on a collection, and an optional limit.
    [orderBy] clauses are left out: no modelled function depends on the
    order in which a snapshot lists its documents. *)
Record Query := mkQuery {
  q_from : string;
  q_where : list (string * value);
  q_limit : option nat
}.

Definition matches (q : Query) (kd : (string * string) * object) : Prop :=
  kd.1.1 = q_from q ∧ Forall (λ fv, obj_get fv.1 kd.2 = Some fv.2) (q_where q).

#[global] Instance matches_dec q kd : Decision (matches q kd).
Proof. unfold matches. apply _. Defined.

Definition run_query (q : Query) (store : gmap (string * string) object)
    : list (string * object) :=
  let hits := map (λ kd : (string * string) * object, (kd.1.2, kd.2))
                (map_to_list (filter (matches q) store)) in
  match q_limit q with
  | Some n => take n hits
  | None => hits
  end.

(** [getDocs(q)]: the documents of the snapshot, as (id, data) pairs. *)
Definition getDocs (q : Query) : M (list (string * object)) :=
  let* _ := rpc (ReqQuery (q_from q)) in
  get (λ w, run_query q (db w)).

(** Writes buffered by a transaction. *)
Inductive Write :=
| TxSet (c id : string) (data : object)
| TxUpdate (c id : string) (upd : list (string * FieldValue))
| TxDelete (c id : string).

Definition apply_write (wr : Write) (store : gmap (string * string) object)
    : option (gmap (string * string) object) :=
  match wr with
  | TxSet c id data => Some (<[(c, id) := data]> store)
  | TxUpdate c id upd =>
      match store !! (c, id) with
      | Some d => Some (<[(c, id) := apply_update upd d]> store)
      | None => None
      end
  | TxDelete c id => Some (delete (c, id) store)
  end.

Fixpoint apply_writes (ws : list Write) (store : gmap (string * string) object)
    : option (gmap (string * string) object) :=
  match ws with
  | [] => Some store
  | wr :: ws' =>
      match apply_write wr store with
      | Some store' => apply_writes ws' store'
      | None => None
      end
  end.

(** [runTransaction(db, fn)].  [fn] returns its result together with the
    writes it buffered on the transaction object, in call order; they are
    committed in one round-trip, all or none.  When [fn] throws nothing is
    committed. *)
Definition runTransaction {A} (fn : M (A * list Write)) : M A :=
  let* r := fn in
  let* _ := rpc ReqCommit in
  let* store := get db in
  match apply_writes r.2 store with
  | Some store' => let* _ := modify (set_db (λ _, store')) in ret r.1
  | None => throw (mkError (Some "not-found") "No document to update")
  end.

(** ** Strings *)

(** [hay.includes(needle)] *)
Fixpoint includes (needle hay : string) : bool :=
  String.prefix needle hay ||
  match hay with
  | EmptyString => false
  | String _ rest => includes needle rest
  end.

(** The suffix of [hay] that starts at the first occurrence of [needle]. *)
Fixpoint from_first (needle hay : string) : option string :=
  if String.prefix needle hay then Some hay
  else match hay with
       | EmptyString => None
       | String _ rest => from_first needle rest
       end.

Fixpoint drop_n (n : nat) (s : string) : string :=
  match n, s with
  | S n', String _ rest => drop_n n' rest
  | _, _ => s
  end.

Definition between (lo hi : nat) (a : ascii) : bool :=
  (lo <=? nat_of_ascii a)%nat && (nat_of_ascii a <=? hi)%nat.

(** [0-9] and [a-z] *)
Definition is_digit (a : ascii) : bool := between 48 57 a.
Definition is_lower (a : ascii) : bool := between 97 122 a.
Definition is_upper (a : ascii) : bool := between 65 90 a.

(** ASCII white space; the other code points of the regular expression class
    [\s] lie outside ASCII. *)
Definition is_space (a : ascii) : bool :=
  between 32 32 a || between 9 13 a.

Definition dquote : ascii := ascii_of_nat 34.

(** The string of the given bytes. *)
Definition bytes (l : list nat) : string :=
  String.string_of_list_ascii (map ascii_of_nat l).

(** The white space of the class [\s] outside ASCII, in UTF-8: U+00A0,
    U+1680, U+2000 to U+200A, U+2028, U+2029, U+202F, U+205F, U+3000 and
    U+FEFF. *)
Definition wide_spaces : list string :=
  map bytes
    (([194; 160]%nat :: [225; 154; 128]%nat ::
      map (λ n, [226; 128; n]%nat) (seq 128 11)) ++
     [ [226; 128; 168]%nat; [226; 128; 169]%nat; [226; 128; 175]%nat;
       [226; 129; 159]%nat; [227; 128; 128]%nat; [239; 187; 191]%nat ])%list.

(** [s] begins with a character of the class [\s]. *)
Definition starts_space (s : string) : bool :=
  match s with
  | String a _ => is_space a
  | EmptyString => false
  end || existsb (λ p, String.prefix p s) wide_spaces.

(** What a run of characters other than white space and the double quote
    matches at the start of [s]: the characters up to the first white space
    or double quote. *)
Fixpoint take_url (s : string) : string :=
  match s with
  | EmptyString => EmptyString
  | String a rest =>
      if starts_space s || bool_decide (a = dquote) then EmptyString
      else String a (take_url rest)
  end.

Fixpoint chars (s : string) : list ascii :=
  match s with
  | EmptyString => []
  | String a rest => a :: chars rest
  end.

(** ** Dates *)

Module JsDate.

(** Days since 1970-01-01 to (year, month, day) in the proleptic Gregorian
    calendar, and back. *)
Definition civil_from_days (days : Z) : Z * Z * Z :=
  let z := days + 719468 in
  let era := z `div` 146097 in
  let doe := z - era * 146097 in
  let yoe := (doe - doe `div` 1460 + doe `div` 36524 - doe `div` 146096) `div` 365 in
  let doy := doe - (365 * yoe + yoe `div` 4 - yoe `div` 100) in
  let mp := (5 * doy + 2) `div` 153 in
  let d := doy - (153 * mp + 2) `div` 5 + 1 in
  let m := if decide (mp < 10) then mp + 3 else mp - 9 in
  let y := yoe + era * 400 + (if decide (m ≤ 2) then 1 else 0) in
  (y, m, d).

Definition days_from_civil (y m d : Z) : Z :=
  let y := if decide (m ≤ 2) then y - 1 else y in
  let era := y `div` 400 in
  let yoe := y - era * 400 in
  let doy := (153 * (if decide (m > 2) then m - 3 else m + 9) + 2) `div` 5 + d - 1 in
  let doe := yoe * 365 + yoe `div` 4 - yoe `div` 100 + doy in
  era * 146097 + doe - 719468.

Definition msPerDay : Z := 86400000.

(** The largest time value of a valid [Date]. *)
Definition maxTime : Z := 8640000000000000.

Definition digit (n : Z) : ascii := ascii_of_nat (48 + Z.to_nat (n `mod` 10)).

(** The last [width] decimal digits of [n], most significant first. *)
Fixpoint pad (width : nat) (n : Z) : string :=
  match width with
  | O => EmptyString
  | S w => pad w (n `div` 10) +:+ String (digit n) EmptyString
  end.

(** [new Date(ms).toISOString()]; [None] is the [RangeError] for an
    invalid date. *)
Definition toISOString (ms : Z) : option string :=
  if decide (- maxTime ≤ ms ≤ maxTime) then
    let days := ms `div` msPerDay in
    let t := ms `mod` msPerDay in
    let '(y, m, d) := civil_from_days days in
    let year :=
      if decide (0 ≤ y ≤ 9999) then pad 4 y
      else if decide (y < 0) then "-" +:+ pad 6 (- y)
      else "+" +:+ pad 6 y in
    Some (year +:+ "-" +:+ pad 2 m +:+ "-" +:+ pad 2 d +:+ "T" +:+
          pad 2 (t `div` 3600000) +:+ ":" +:+ pad 2 ((t `div` 60000) `mod` 60) +:+ ":" +:+
          pad 2 ((t `div` 1000) `mod` 60) +:+ "." +:+ pad 3 (t `mod` 1000) +:+ "Z")
  else None.

(** A timestamp of whole milliseconds: what [Timestamp.now()],
    [Timestamp.fromMillis] and [Timestamp.fromDate] make.  The SDK computes
    [seconds * 1000 + nanoseconds / 1e6] in floating point; on a timestamp of
    whole milliseconds that sum is an integer and exact.  On another
    timestamp the sum has a fraction and is rounded to a double, which can
    give the next millisecond; this is outside the embedding, and every
    property that reads the time of a stored timestamp is stated for
    timestamps of whole milliseconds. *)
Definition whole_millis (t : Timestamp) : Prop := nanoseconds t `mod` 1000000 = 0.

#[global] Instance whole_millis_dec t : Decision (whole_millis t).
Proof. unfold whole_millis. apply _. Defined.

(** [timestamp.toDate().getTime()], the time in milliseconds, of a
    timestamp of whole milliseconds. *)
Definition ofTimestamp (t : Timestamp) : Z :=
  (seconds t * 1000000000 + nanoseconds t) `quot` 1000000.

(** [timestamp.toMillis()] of a timestamp of whole milliseconds. *)
Definition toMillis (t : Timestamp) : Z :=
  seconds t * 1000 + nanoseconds t `div` 1000000.

End JsDate.

(** ** services/firebase/firestore.ts *)

Module Firestore.

Definition POSTS_COLLECTION := "posts".
Definition COMMENTS_COLLECTION := "comments".
Definition BOOKMARKS_COLLECTION := "bookmarks".
Definition SETTINGS_COLLECTION := "settings".
Definition GLOBAL_SETTINGS_ID := "global-settings".

Definition MAX_RETRY_COUNT : nat := 3.

(** [delay(attempts)]: sleeps 1 s, 2 s, 4 s, ... *)
Definition delay (attempts : nat) : M unit :=
  let waitTime := 2 ^ (Z.of_nat attempts - 1) * 1000 in
  modify (λ w, advance waitTime (log (Sleep waitTime) w)).

(** [a || b] *)
Definition or_else (a : option value) (b : value) : value :=
  match a with
  | Some v => if truthy a then v else b
  | None => b
  end.

Definition TypeError (msg : string) : JsError := Error msg.
Definition RangeError (msg : string) : JsError := Error msg.

(** [v.toMillis()] *)
Definition call_toMillis (v : value) : M Z :=
  match v with
  | VTime t => ret (JsDate.toMillis t)
  | _ => throw (TypeError "toMillis is not a function")
  end.

(** [v.toDate().toISOString()] *)
Definition call_toDate_toISOString (v : value) : M string :=
  match v with
  | VTime t =>
      match JsDate.toISOString (JsDate.ofTimestamp t) with
      | Some s => ret s
      | None => throw (RangeError "Invalid time value")
      end
  | _ => throw (TypeError "toDate is not a function")
  end.

Definition mapDocToPost (doc : string * object) : M object :=
  let data := doc.2 in
  let* now1 := Timestamp_now in
  let* now2 := Timestamp_now in
  let* isNew :=
    match obj_get "createdAt" data with
    | Some c =>
        if truthy (Some c) then
          let* now3 := Timestamp_now in
          let* created := call_toMillis c in
          ret (bool_decide (JsDate.toMillis now3 - created < 24 * 60 * 60 * 1000))
        else ret false
    | None => ret false
    end in
  ret [ ("id", VStr doc.1);
        ("title", or_else (obj_get "title" data) (VStr "제목 없음"));
        ("content", or_else (obj_get "content" data) (VStr ""));
        ("category", or_else (obj_get "category" data) (VStr "general"));
        ("author", or_else (obj_get "author" data) (VObj [("name", VStr "알 수 없음")]));
        ("authorId", or_else (obj_get "authorId" data) (VStr ""));
        ("tags", or_else (obj_get "tags" data) (VArr []));
        ("createdAt", or_else (obj_get "createdAt" data) (VTime now1));
        ("updatedAt", or_else (obj_get "updatedAt" data) (VTime now2));
        ("commentCount", or_else (obj_get "commentCount" data) (VNum 0));
        ("viewCount", or_else (obj_get "viewCount" data) (VNum 0));
        ("isNew", VBool isNew) ].

(** A field that [mapDocToPost] always sets. *)
Definition field (k : string) (o : object) : value := default VNull (obj_get k o).

Definition convertToUIPost (post : object) : M object :=
  let* date := call_toDate_toISOString (field "createdAt" post) in
  ret [ ("id", field "id" post);
        ("title", field "title" post);
        ("content", field "content" post);
        ("category", field "category" post);
        ("author", or_else (obj_get "author" post) (VObj [("name", VStr "알 수 없음")]));
        ("authorId", field "authorId" post);
        ("date", VStr date);
        ("comments", field "commentCount" post);
        ("isNew", or_else (obj_get "isNew" post) (VBool false));
        ("tags", or_else (obj_get "tags" post) (VArr [])) ].

(** [xs.map(f)] for an [f] that may throw. *)
Fixpoint mapM {A B} (f : A → M B) (xs : list A) : M (list B) :=
  match xs with
  | [] => ret []
  | x :: xs' =>
      let* y := f x in
      let* ys := mapM f xs' in
      ret (y :: ys)
  end.

(** The loop [while (attempts < MAX_RETRY_COUNT) { try { attempts++; body }
    catch (error) { handler } }] followed by a final [throw].  [fuel] bounds
    the number of iterations; the loop is entered with more fuel than
    [MAX_RETRY_COUNT], so the exit is always the one of the [while]
    condition. *)
Section retry.
Context {A : Type}.
Variable body : M A.
(** What the handler does before the common tail of the [catch] block:
    [Some e'] when it re-throws at once. *)
Variable rethrow : JsError → option JsError.
Variable exhausted : JsError.

Fixpoint retry_loop (fuel attempts : nat) : M A :=
  match fuel with
  | O => throw exhausted
  | S fuel' =>
      if (attempts <? MAX_RETRY_COUNT)%nat then
        let attempts := S attempts in
        try_catch body (λ error,
          match rethrow error with
          | Some e' => throw e'
          | None =>
              if (MAX_RETRY_COUNT <=? attempts)%nat then throw exhausted
              else let* _ := delay attempts in retry_loop fuel' attempts
          end)
      else throw exhausted
  end.
End retry.

Definition fetchPosts : M (list object) :=
  retry_loop
    (let* docs := getDocs (mkQuery POSTS_COLLECTION [] None) in
     let* posts := mapM mapDocToPost docs in
     mapM convertToUIPost posts)
    (λ _, None)
    (Error "게시물 데이터를 가져오지 못했습니다. 잠시 후 다시 시도해주세요.")
    (S MAX_RETRY_COUNT) 0.

(** [error.message?.match(re)?.[0]] for the console-link expression: the
    first occurrence of the host, extended by the characters that follow
    it up to white space or a double quote. *)
Definition match_indexUrl (msg : string) : option string :=
  let host := "https://console.firebase.google.com" in
  match from_first host msg with
  | Some rest =>
      Some (host +:+ take_url (drop_n (String.length host) rest))
  | None => None
  end.

(** The test of the index branch of the [catch] blocks. *)
Definition is_index_error (error : JsError) : bool :=
  bool_decide (code error = Some "failed-precondition")
  || includes "requires an index" (message error).

Definition indexMessage (error : JsError) : string :=
  match match_indexUrl (message error) with
  | Some indexUrl =>
      if bool_decide (indexUrl = "") then
        "Firebase 복합 인덱스가 필요합니다. Firebase 콘솔에서 인덱스를 생성해주세요."
      else
        "Firebase 복합 인덱스가 필요합니다. 다음 링크에서 인덱스를 생성해주세요: " +:+ indexUrl
  | None => "Firebase 복합 인덱스가 필요합니다. Firebase 콘솔에서 인덱스를 생성해주세요."
  end.

Definition fetchPostsByCategory (category : string) : M (list object) :=
  if bool_decide (category = "") || bool_decide (category = "all") then fetchPosts
  else
    retry_loop
      (let* docs := getDocs (mkQuery POSTS_COLLECTION [("category", VStr category)] None) in
       let* posts := mapM mapDocToPost docs in
       mapM convertToUIPost posts)
      (λ error,
         if is_index_error error then
           Some (Error (category +:+ " 카테고리 조회를 위한 " +:+ indexMessage error))
         else None)
      (Error (category +:+ " 카테고리 게시물을 가져오지 못했습니다. 잠시 후 다시 시도해주세요."))
      (S MAX_RETRY_COUNT) 0.

(** A post id as the callers pass it: a string or a number. *)
Inductive PostId :=
| IdStr (s : string)
| IdNum (n : Z).

Fixpoint decimal (fuel : nat) (n : Z) : string :=
  match fuel with
  | O => EmptyString
  | S fuel' =>
      (if decide (n < 10) then EmptyString else decimal fuel' (n `div` 10))
      +:+ String (JsDate.digit n) EmptyString
  end.

(** [n.toString()] for an integer below the exponent notation. *)
Definition Number_toString (n : Z) : string :=
  if decide (n < 0) then "-" +:+ decimal (Z.to_nat (Z.log2 (- n)) + 1) (- n)
  else decimal (Z.to_nat (Z.log2 n) + 1) n.

Definition postIdString (postId : PostId) : string :=
  match postId with
  | IdStr s => s
  | IdNum n => Number_toString n
  end.

(** [if (userId)] for an optional string argument. *)
Definition given (userId : option string) : option string :=
  match userId with
  | Some u => if bool_decide (u = "") then None else Some u
  | None => None
  end.

(** The [catch] block that ends the mutating functions:
    [throw new Error(error instanceof Error ? error.message : fallback)]. *)
Definition rewrap {A} (m : M A) : M A :=
  try_catch m (λ error, throw (Error (message error))).

Record PostInput := mkPostInput {
  pi_title : option string;
  pi_content : option string;
  pi_category : option string;
  pi_author : option object;
  pi_authorId : option string;
  pi_tags : option (list value)
}.

(** [!x] for an optional string. *)
Definition blank (x : option string) : bool :=
  match x with
  | Some s => bool_decide (s = "")
  | None => true
  end.

(** [addDoc(collection(db, c), data)] *)
Definition addDoc (c : string) (data : object) : M string :=
  let* id := newDocId in
  let* _ := setDoc c id data in
  ret id.

Definition createPost (postData : PostInput) : M string :=
  try_catch (
    if blank (pi_title postData) || blank (pi_content postData)
       || blank (pi_category postData) || negb (bool_decide (is_Some (pi_author postData)))
       || blank (pi_authorId postData)
    then throw (Error "필수 필드가 누락되었습니다.")
    else
      let* now1 := Timestamp_now in
      let* now2 := Timestamp_now in
      addDoc POSTS_COLLECTION
        [ ("title", VStr (default "" (pi_title postData)));
          ("content", VStr (default "" (pi_content postData)));
          ("category", VStr (default "" (pi_category postData)));
          ("author", VObj (default [] (pi_author postData)));
          ("authorId", VStr (default "" (pi_authorId postData)));
          ("tags", VArr (default [] (pi_tags postData)));
          ("createdAt", VTime now1); ("updatedAt", VTime now2);
          ("commentCount", VNum 0); ("viewCount", VNum 0) ])
    (λ _, throw (Error "게시물을 생성하지 못했습니다. 잠시 후 다시 시도해주세요.")).

(** [doc(db, c, id)]: the SDK refuses an empty id when the reference is
    built.  An id with a slash names another path; such ids are refused
    here as well, and the properties below are stated for ids without one. *)
Definition doc (c id : string) : M string :=
  if bool_decide (id = "") || includes "/" id
  then throw (mkError (Some "invalid-argument") "Invalid document reference")
  else ret id.

(** The object [updateData] that [updatePost] builds from its payload and
    hands to [updateDoc]. *)
Definition updateData (postData : object) (now : Timestamp) : object :=
  let updateData := postData in
  let updateData := obj_set "updatedAt" (VTime now) updateData in
  let updateData :=
    if obj_has "date" updateData then obj_del "date" updateData else updateData in
  let updateData :=
    match obj_get "comments" updateData with
    | Some comments => obj_del "comments" (obj_set "commentCount" comments updateData)
    | None => updateData
    end in
  let updateData := obj_del "createdAt" updateData in
  let updateData := obj_del "id" updateData in
  updateData.

Definition updatePost (postId : PostId) (postData : object) (userId : option string)
    : M unit :=
  rewrap (
    let postIdString := postIdString postId in
    let* docRef := doc POSTS_COLLECTION postIdString in
    let* _ :=
      match given userId with
      | Some userId =>
          let* docSnap := getDoc POSTS_COLLECTION docRef in
          match docSnap with
          | None => throw (Error "게시물을 찾을 수 없습니다.")
          | Some data =>
              if is_str userId (obj_get "authorId" data) then ret tt
              else throw (Error "자신이 작성한 게시물만 수정할 수 있습니다.")
          end
      | None => ret tt
      end in
    let* now := Timestamp_now in
    updateDoc POSTS_COLLECTION docRef (plain (updateData postData now))).


Record CommentData := mkCommentData {
  cd_postId : string;
  cd_content : string;
  cd_author : object;
  cd_authorId : string
}.

Definition createComment (commentData : CommentData) : M string :=
  rewrap (
    let postId := cd_postId commentData in
    let content := cd_content commentData in
    let author := cd_author commentData in
    let authorId := cd_authorId commentData in
    if bool_decide (postId = "") || bool_decide (content = "") || bool_decide (authorId = "")
    then throw (Error "필수 필드가 누락되었습니다.")
    else
      runTransaction (
        let* commentRef := newDocId in
        let* now1 := Timestamp_now in
        let* now2 := Timestamp_now in
        let* now3 := Timestamp_now in
        ret (commentRef,
             [ TxSet COMMENTS_COLLECTION commentRef
                 [ ("postId", VStr postId); ("content", VStr content);
                   ("author", VObj author); ("authorId", VStr authorId);
                   ("createdAt", VTime now1); ("updatedAt", VTime now2) ];
               TxUpdate POSTS_COLLECTION postId
                 [ ("commentCount", increment 1); ("updatedAt", Plain (VTime now3)) ] ]))).

Definition deleteComment (commentId postId userId : string) : M unit :=
  rewrap (
    let* commentSnap := getDoc COMMENTS_COLLECTION commentId in
    match commentSnap with
    | None => throw (Error "댓글을 찾을 수 없습니다.")
    | Some data =>
        if is_str userId (obj_get "authorId" data) then
          runTransaction (
            let* now := Timestamp_now in
            ret (tt,
                 [ TxDelete COMMENTS_COLLECTION commentId;
                   TxUpdate POSTS_COLLECTION postId
                     [ ("commentCount", increment (-1)); ("updatedAt", Plain (VTime now)) ] ]))
        else throw (Error "자신이 작성한 댓글만 삭제할 수 있습니다.")
    end).

Definition bookmarkQuery (userId postId : string) : Query :=
  mkQuery BOOKMARKS_COLLECTION [("userId", VStr userId); ("postId", VStr postId)] (Some 1%nat).

Definition isBookmarked (userId postId : string) : M bool :=
  try_catch (
    if bool_decide (userId = "") || bool_decide (postId = "") then ret false
    else
      let* docs := getDocs (bookmarkQuery userId postId) in
      ret (negb (bool_decide (docs = []))))
    (λ _, ret false).

Definition addBookmark (userId postId : string) : M string :=
  rewrap (
    if bool_decide (userId = "") || bool_decide (postId = "") then
      throw (Error "사용자 ID와 게시물 ID는 필수입니다.")
    else
      let* isAlreadyBookmarked := isBookmarked userId postId in
      if isAlreadyBookmarked then throw (Error "이미 북마크된 게시물입니다.")
      else
        let* bookmarkRef := newDocId in
        let* now := Timestamp_now in
        let* _ := setDoc BOOKMARKS_COLLECTION bookmarkRef
                    [ ("userId", VStr userId); ("postId", VStr postId);
                      ("createdAt", VTime now) ] in
        ret bookmarkRef).

Definition removeBookmark (userId postId : string) : M unit :=
  rewrap (
    if bool_decide (userId = "") || bool_decide (postId = "") then
      throw (Error "사용자 ID와 게시물 ID는 필수입니다.")
    else
      let* docs := getDocs (bookmarkQuery userId postId) in
      match docs with
      | [] => throw (Error "북마크를 찾을 수 없습니다.")
      | bookmarkDoc :: _ => deleteDoc BOOKMARKS_COLLECTION bookmarkDoc.1
      end).

Definition fetchPostById (postId : string) : M (option object) :=
  retry_loop
    (let* docRef := doc POSTS_COLLECTION postId in
     let* docSnap := getDoc POSTS_COLLECTION docRef in
     match docSnap with
     | Some data =>
         let* post := mapDocToPost (docRef, data) in
         let* uiPost := convertToUIPost post in
         ret (Some uiPost)
     | None => ret None
     end)
    (λ _, None)
    (Error "게시물 상세 정보를 가져오지 못했습니다. 잠시 후 다시 시도해주세요.")
    (S MAX_RETRY_COUNT) 0.

Definition deletePost (postId : PostId) (userId : option string) : M unit :=
  rewrap (
    let postIdString := postIdString postId in
    let* docRef := doc POSTS_COLLECTION postIdString in
    let* _ :=
      match given userId with
      | Some userId =>
          let* docSnap := getDoc POSTS_COLLECTION docRef in
          match docSnap with
          | None => throw (Error "게시물을 찾을 수 없습니다.")
          | Some data =>
              if is_str userId (obj_get "authorId" data) then ret tt
              else throw (Error "자신이 작성한 게시물만 삭제할 수 있습니다.")
          end
      | None => ret tt
      end in
    deleteDoc POSTS_COLLECTION docRef).

(** [s.trim()] for the ASCII white space; the white space characters
    outside ASCII are not recognised by the embedding, and the properties
    below are stated for contents they do not matter for. *)
Fixpoint trim_start (s : string) : string :=
  match s with
  | String a rest => if is_space a then trim_start rest else s
  | EmptyString => EmptyString
  end.

Fixpoint trim_end (s : string) : string :=
  match s with
  | String a rest =>
      let rest' := trim_end rest in
      if is_space a && bool_decide (rest' = "") then EmptyString else String a rest'
  | EmptyString => EmptyString
  end.

Definition trim (s : string) : string := trim_end (trim_start s).

Definition updateComment (commentId content userId : string) : M unit :=
  rewrap (
    let* commentRef := doc COMMENTS_COLLECTION commentId in
    let* commentSnap := getDoc COMMENTS_COLLECTION commentRef in
    match commentSnap with
    | None => throw (Error "댓글을 찾을 수 없습니다.")
    | Some data =>
        if is_str userId (obj_get "authorId" data) then
          if bool_decide (trim content = "") then throw (Error "댓글 내용을 입력해주세요.")
          else
            let* now := Timestamp_now in
            updateDoc COMMENTS_COLLECTION commentRef
              [ ("content", Plain (VStr content)); ("updatedAt", Plain (VTime now)) ]
        else throw (Error "자신이 작성한 댓글만 수정할 수 있습니다.")
    end).

(** [cat.k] for an element of the stored array: reading a property of
    [null] throws, a value that is no object has none. *)
Definition prop (k : string) (v : value) : M (option value) :=
  match v with
  | VNull => throw (TypeError "Cannot read properties of null")
  | VObj o => ret (obj_get k o)
  | _ => ret None
  end.

(** The object [{id: cat.id, name: cat.name, icon: cat.icon}]; [None] is
    [undefined]. *)
Record CategoryView := mkCategoryView {
  cv_id : option value;
  cv_name : option value;
  cv_icon : option value
}.

Definition defaultCategories : list CategoryView :=
  [ mkCategoryView (Some (VStr "general")) (Some (VStr "자유게시판")) (Some (VStr "📝")) ].

Definition fetchCategoriesFromFirestore : M (list CategoryView) :=
  retry_loop
    (let* settingsSnap := getDoc SETTINGS_COLLECTION GLOBAL_SETTINGS_ID in
     match settingsSnap with
     | None =>
         try_catch (
           let* now1 := Timestamp_now in
           let* now2 := Timestamp_now in
           let* _ := setDoc SETTINGS_COLLECTION GLOBAL_SETTINGS_ID
                       [ ("categories",
                          VArr [ VObj [ ("id", VStr "general"); ("name", VStr "자유게시판");
                                        ("icon", VStr "📝") ] ]);
                         ("createdAt", VTime now1); ("updatedAt", VTime now2) ] in
           ret defaultCategories)
           (λ initError,
              throw (Error ("설정 초기화에 실패했습니다: " +:+ message initError)))
     | Some settingsData =>
         match or_else (obj_get "categories" settingsData) (VArr []) with
         | VArr categories =>
             mapM (λ cat,
                     let* i := prop "id" cat in
                     let* n := prop "name" cat in
                     let* c := prop "icon" cat in
                     ret (mkCategoryView i n c))
               categories
         | _ => throw (TypeError "categories.map is not a function")
         end
     end)
    (λ _, None)
    (Error "카테고리 목록을 가져오지 못했습니다. 잠시 후 다시 시도해주세요.")
    (S MAX_RETRY_COUNT) 0.

End Firestore.

(** ** services/admin/auth.ts *)

Module AdminAuth.

Definition ADMIN_AUTH_KEY := "mac_board_admin_auth".
Definition SESSION_DURATION : Z := 2 * 60 * 60 * 1000.

(** [String(j)] for a parsed JSON value, as [new Date(j)] takes it for
    arrays and objects, and as a template literal prints it. *)
Fixpoint toPrimitiveString (j : json) : string :=
  match j with
  | JNull => "null"
  | JBool b => if b then "true" else "false"
  | JNum n => Firestore.Number_toString n
  | JStr s => s
  | JObj _ => "[object Object]"
  | JArr l =>
      (fix join (l : list json) : string :=
         match l with
         | [] => ""
         | [x] => match x with JNull => "" | _ => toPrimitiveString x end
         | x :: l' =>
             match x with JNull => "" | _ => toPrimitiveString x end +:+ "," +:+ join l'
         end) l
  end.

(** The time value of [new Date(x)] for a parsed JSON value or
    [undefined]; [None] is an invalid date. *)
Definition newDate (parse : string → option Z) (x : option json) : option Z :=
  let clip (t : Z) :=
    if decide (- JsDate.maxTime ≤ t ≤ JsDate.maxTime) then Some t else None in
  match x with
  | None => None
  | Some JNull => Some 0
  | Some (JBool b) => Some (if b then 1 else 0)
  | Some (JNum n) => clip n
  | Some (JStr s) => t ← parse s; clip t
  | Some j => t ← parse (toPrimitiveString j); clip t
  end.

(** The object [{...adminData, loggedInAt, expiresAt}]: the parsed session
    and its two dates. *)
Record Admin := mkAdmin {
  adminData : json;
  loggedInAt : option Z;
  expiresAt : option Z
}.

(** [safeLocalStorage] *)
Definition getItem (key : string) : M (option text) :=
  get (λ w, localStorage w !! key).
Definition removeItem (key : string) : M unit :=
  modify (set_localStorage (delete key)).

(** [adminData.k]: reading a property of [null] throws. *)
Definition property (k : string) (j : json) : M (option json) :=
  match j with
  | JNull => throw (Firestore.TypeError "Cannot read properties of null")
  | JObj o => ret (obj_get k o)
  | _ => ret None
  end.

Definition getAdminSession : M (option Admin) :=
  try_catch (
    let* storedSession := getItem ADMIN_AUTH_KEY in
    match storedSession with
    | None => ret None
    | Some (RawText raw) =>
        if bool_decide (raw = "") then ret None
        else throw (Error "Unexpected token in JSON")
    | Some (JsonText adminData) =>
        let* parse := get Date_parse in
        let* l := property "loggedInAt" adminData in
        let* e := property "expiresAt" adminData in
        let admin := mkAdmin adminData (newDate parse l) (newDate parse e) in
        let* now := get now in
        match expiresAt admin with
        | Some t =>
            if decide (t < now) then
              let* _ := removeItem ADMIN_AUTH_KEY in ret None
            else ret (Some admin)
        | None => ret (Some admin)
        end
    end)
    (λ _, let* _ := removeItem ADMIN_AUTH_KEY in ret None).

Definition isAdminAuthenticated : M bool :=
  try_catch
    (let* s := getAdminSession in ret (bool_decide (is_Some s)))
    (λ _, ret false).

Definition setItem (key : string) (value : text) : M bool :=
  let* _ := modify (set_localStorage (insert key value)) in ret true.

(** [date.toISOString()] for a [Date] given by its time value. *)
Definition Date_toISOString (date : option Z) : M string :=
  match date ≫= JsDate.toISOString with
  | Some s => ret s
  | None => throw (Firestore.RangeError "Invalid time value")
  end.

(** The own properties that [{...adminData}] copies from a parsed JSON
    value: those of an object, the indexed elements of an array, nothing
    for [null], a boolean or a number.  (A string would give its indexed
    characters; a session whose stored value is a string has no valid
    date and is never saved again, so the case is left empty.) *)
Definition own_properties (j : json) : list (string * json) :=
  match j with
  | JObj o => o
  | JArr l => imap (λ i x, (Firestore.Number_toString (Z.of_nat i), x)) l
  | _ => []
  end.

Definition saveAdminSession (admin : Admin) : M bool :=
  try_catch (
    let* l := Date_toISOString (loggedInAt admin) in
    let* e := Date_toISOString (expiresAt admin) in
    let adminData :=
      obj_set "expiresAt" (JStr e)
        (obj_set "loggedInAt" (JStr l) (own_properties (adminData admin))) in
    setItem ADMIN_AUTH_KEY (JsonText (JObj adminData)))
    (λ _, ret false).

(** [new Date(t)] for a number [t]. *)
Definition Date_of_time (t : Z) : option Z :=
  if decide (- JsDate.maxTime ≤ t ≤ JsDate.maxTime) then Some t else None.

(** [adminLogin(id, password)]; [adminId] and [adminPw] are the two
    variables of the build environment. *)
Definition adminLogin (adminId adminPw : option string) (id password : string)
    : M (option Admin) :=
  try_catch (
    if negb (truthy (VStr <$> adminId)) || negb (truthy (VStr <$> adminPw)) then ret None
    else if bool_decide (Some id = adminId) && bool_decide (Some password = adminPw) then
      let* now := get now in
      let expiresAt := Date_of_time (now + SESSION_DURATION) in
      let admin := mkAdmin (JObj [("id", JStr id); ("isAdmin", JBool true)])
                     (Some now) expiresAt in
      let* saved := saveAdminSession admin in
      if saved then ret (Some admin) else ret (Some admin)
    else ret None)
    (λ _, ret None).

Definition adminLogout : M unit :=
  try_catch (removeItem ADMIN_AUTH_KEY) (λ _, ret tt).

Definition refreshAdminSession : M (option Admin) :=
  try_catch (
    let* currentSession := getAdminSession in
    match currentSession with
    | None => ret None
    | Some currentSession =>
        let* now := get now in
        let expiresAt := Date_of_time (now + SESSION_DURATION) in
        let refreshedAdmin :=
          mkAdmin (adminData currentSession) (loggedInAt currentSession) expiresAt in
        let* saved := saveAdminSession refreshedAdmin in
        if saved then ret (Some refreshedAdmin) else ret (Some currentSession)
    end)
    (λ _, ret None).

End AdminAuth.

(** ** services/firebase/initFirestore.ts *)

Module InitFirestore.

Definition samplePosts : list object :=
[
  [ ("title", VStr "리액트 19 새로운 기능");
    ("content", VStr "<p>리액트 19가 드디어 출시되었습니다! 이번 업데이트에는 Automatic Batching, 새로운 Concurrent features, 그리고 Server Components 개선 사항이 포함되어 있습니다.</p><p>특히 <strong>useTransition</strong> 훅은 UI 끊김 없이 상태를 업데이트하는 데 큰 도움이 될 것입니다.</p>");
    ("category", VStr "tech");
    ("author", VObj [ ("name", VStr "김민준"); ("avatarUrl", VStr "https://picsum.photos/id/1005/100/100") ]);
    ("authorId", VStr "user_sample_1");
    ("tags", VArr [VStr "리액트"; VStr "프론트엔드"; VStr "자바스크립트"]);
    ("commentCount", VNum 5); ("viewCount", VNum 120) ];
  [ ("title", VStr "Tailwind CSS vs. Styled Components");
    ("content", VStr "<p>스타일링 방법에 대한 오랜 논쟁이죠. Tailwind CSS는 유틸리티-우선 접근 방식으로 빠르게 프로토타이핑할 수 있는 장점이 있고, Styled Components는 컴포넌트 레벨에서 스타일을 캡슐화하는 데 강력합니다. 여러분의 선택은 무엇인가요?</p>");
    ("category", VStr "tech");
    ("author", VObj [ ("name", VStr "이수진"); ("avatarUrl", VStr "https://picsum.photos/id/1011/100/100") ]);
    ("authorId", VStr "user_sample_2");
    ("tags", VArr [VStr "CSS"; VStr "프론트엔드"; VStr "스타일링"]);
    ("commentCount", VNum 12); ("viewCount", VNum 85) ];
  [ ("title", VStr "주말에 가볼만한 곳 추천");
    ("content", VStr "<h2>서울 근교 나들이</h2><p>이번 주말, 날씨가 좋다면 양평 두물머리에 가보는 건 어떠세요? 강과 산이 어우러진 풍경이 정말 아름답습니다. 맛있는 핫도그도 놓치지 마세요!</p><ul><li>두물머리</li><li>세미원</li><li>양평 레일바이크</li></ul>");
    ("category", VStr "general");
    ("author", VObj [ ("name", VStr "박서연"); ("avatarUrl", VStr "https://picsum.photos/id/1027/100/100") ]);
    ("authorId", VStr "user_sample_3");
    ("tags", VArr [VStr "여행"; VStr "주말"; VStr "나들이"]);
    ("commentCount", VNum 8); ("viewCount", VNum 64) ];
  [ ("title", VStr "Gemini API 사용 후기");
    ("content", VStr "<p>Google의 새로운 Gemini API를 사용해봤습니다. 텍스트 생성 능력뿐만 아니라 이미지 인식 능력도 뛰어나서 다양한 애플리케이션에 활용할 수 있을 것 같습니다. 특히 JSON 모드로 구조화된 데이터를 받아오는 기능이 인상적이었습니다.</p>");
    ("category", VStr "tech");
    ("author", VObj [ ("name", VStr "최현우"); ("avatarUrl", VStr "https://picsum.photos/id/10/100/100") ]);
    ("authorId", VStr "user_sample_4");
    ("tags", VArr [VStr "AI"; VStr "API"; VStr "Gemini"]);
    ("commentCount", VNum 21); ("viewCount", VNum 132) ]
].

(** [defaultSettings]; its two [Timestamp.now()] are taken when the module
    is loaded. *)
Definition defaultSettings (loaded1 loaded2 : Timestamp) : object :=
  [ ("id", VStr "global-settings");
    ("categories", VArr [ VObj [ ("id", VStr "general"); ("name", VStr "자유게시판") ] ]);
    ("allowAnonymousPosting", VBool true); ("allowComments", VBool true);
    ("createdAt", VTime loaded1); ("updatedAt", VTime loaded2) ].

Definition initSettings (loaded1 loaded2 : Timestamp) : M unit :=
  try_catch (
    let* settingsSnap := getDoc "settings" "global-settings" in
    match settingsSnap with
    | None => setDoc "settings" "global-settings" (defaultSettings loaded1 loaded2)
    | Some _ => ret tt
    end)
    (λ error, throw error).

(** [new Timestamp(seconds, nanoseconds)]: the constructor checks both
    ranges. *)
Definition Timestamp_new (seconds nanoseconds : Z) : M Timestamp :=
  if decide (0 ≤ nanoseconds < 1000000000) then
    if decide (-62135596800 ≤ seconds < 253402300800) then
      ret (mkTimestamp seconds nanoseconds)
    else throw (mkError (Some "invalid-argument") "Timestamp seconds out of range")
  else throw (mkError (Some "invalid-argument") "Timestamp nanoseconds out of range").

(** The callback of [samplePosts.forEach]: the write it puts in the batch. *)
Definition sample_write (post : object) (index : nat) : M Write :=
  let* postRef := newDocId in
  let* now := Timestamp_now in
  let* createdAt := Timestamp_new (seconds now - Z.of_nat index * 86400) (nanoseconds now) in
  ret (TxSet "posts" postRef
         (post ++ [ ("createdAt", VTime createdAt); ("updatedAt", VTime createdAt) ])%list).

Fixpoint forEach (posts : list object) (index : nat) : M (list Write) :=
  match posts with
  | [] => ret []
  | post :: posts' =>
      let* wr := sample_write post index in
      let* ws := forEach posts' (S index) in
      ret (wr :: ws)
  end.

(** [batch.commit()] on the writes of a batch: one round-trip that applies
    all of them or none; a batch without writes resolves at once. *)
Definition commit (ws : list Write) : M unit :=
  match ws with
  | [] => ret tt
  | _ :: _ =>
      let* _ := rpc ReqCommit in
      let* store := get db in
      match apply_writes ws store with
      | Some store' => modify (set_db (λ _, store'))
      | None => throw (mkError (Some "not-found") "No document to update")
      end
  end.

Definition addSamplePosts : M unit :=
  try_catch (
    let* ws := forEach samplePosts 0 in
    commit ws)
    (λ error, throw error).

Definition initFirestore (loaded1 loaded2 : Timestamp) : M unit :=
  try_catch (
    let* _ := initSettings loaded1 loaded2 in
    addSamplePosts)
    (λ error, throw error).

End InitFirestore.

(** ** services/admin/categories.ts *)

Module Categories.
Import AdminAuth.

Definition SETTINGS_COLLECTION := "settings".
Definition GLOBAL_SETTINGS_ID := "global-settings".
Definition POSTS_COLLECTION := "posts".

Definition ADMIN_AUTH_ERROR := "관리자 권한이 필요합니다.".
Definition NOT_FOUND_ERROR := "설정 데이터를 찾을 수 없습니다.".

Definition MAX_RETRY_COUNT : nat := 5.

(** [delay(attempts)]: 2 s, 4 s, 8 s, ... plus a jitter below a quarter of
    that, drawn from the world's [random]. *)
Definition delay (attempts : nat) : M unit :=
  let baseWaitTime := 2 ^ Z.of_nat attempts * 1000 in
  let* r := get (λ w, random w (length (trace w))) in
  let jitter := r `mod` (baseWaitTime `div` 4) in
  let waitTime := baseWaitTime + jitter in
  modify (λ w, advance waitTime (log (Sleep waitTime) w)).

Definition getErrorMessage (error : JsError) : string := message error.

Record CategoryItem := mkCategory {
  id : string;
  name : string;
  icon : option string
}.

(** The object of a [CategoryItem]; an absent icon is an absent key. *)
Definition item (c : CategoryItem) : value :=
  VObj ([("id", VStr (id c)); ("name", VStr (name c))] ++
        match icon c with Some i => [("icon", VStr i)] | None => [] end)%list.

Definition verifyAdminAuth : M unit :=
  let* ok := isAdminAuthenticated in
  if ok then ret tt else throw (Error ADMIN_AUTH_ERROR).

(** The retry loop that the five functions of the file share word for
    word, up to the text [what] of the error message.  [fuel] is as in
    [Firestore.retry_loop]. *)
Section retry.
Context {A : Type}.
Variable body : M A.
Variable what : string.

Fixpoint retry_loop (fuel attempts : nat) : M A :=
  match fuel with
  | O => throw (Error (what +:+ ": 재시도 횟수 초과"))
  | S fuel' =>
      if (attempts <? MAX_RETRY_COUNT)%nat then
        let attempts := S attempts in
        try_catch body (λ error,
          let errorMsg := getErrorMessage error in
          if includes "resource-exhausted" errorMsg && (attempts <? MAX_RETRY_COUNT)%nat
          then let* _ := delay attempts in retry_loop fuel' attempts
          else if (MAX_RETRY_COUNT <=? attempts)%nat
          then throw (Error (what +:+ ": " +:+ errorMsg))
          else let* _ := delay attempts in retry_loop fuel' attempts)
      else throw (Error (what +:+ ": 재시도 횟수 초과"))
  end.
End retry.

(** [settingsData.categories || []], used as an array. *)
Definition categories_of (settingsData : object) : M (list value) :=
  match Firestore.or_else (obj_get "categories" settingsData) (VArr []) with
  | VArr l => ret l
  | _ => throw (Firestore.TypeError "categories is not iterable")
  end.

(** [xs.some(p)], [xs.find(p)], [xs.filter(p)] for a [p] that may throw. *)
Fixpoint someM {A} (p : A → M bool) (xs : list A) : M bool :=
  match xs with
  | [] => ret false
  | x :: xs' => let* b := p x in if b then ret true else someM p xs'
  end.

Fixpoint findM {A} (p : A → M bool) (xs : list A) : M (option A) :=
  match xs with
  | [] => ret None
  | x :: xs' => let* b := p x in if b then ret (Some x) else findM p xs'
  end.

Fixpoint filterM {A} (p : A → M bool) (xs : list A) : M (list A) :=
  match xs with
  | [] => ret []
  | x :: xs' =>
      let* b := p x in
      let* ys := filterM p xs' in
      ret (if b then x :: ys else ys)
  end.

(** [cat.k]: reading a property of [null] throws. *)
Definition property (k : string) (v : value) : M (option value) :=
  match v with
  | VNull => throw (Firestore.TypeError "Cannot read properties of null")
  | VObj o => ret (obj_get k o)
  | _ => ret None
  end.

(** [cat => cat.k === s] *)
Definition prop_is (k s : string) (cat : value) : M bool :=
  let* v := property k cat in ret (is_str s v).

Definition fetchCategories : M value :=
  retry_loop
    (let* settingsSnap := getDoc SETTINGS_COLLECTION GLOBAL_SETTINGS_ID in
     match settingsSnap with
     | None => throw (Error NOT_FOUND_ERROR)
     | Some settingsData =>
         ret (Firestore.or_else (obj_get "categories" settingsData) (VArr []))
     end)
    "카테고리 목록을 가져오는 중 오류가 발생했습니다"
    (S MAX_RETRY_COUNT) 0.

(** The small letter of an ASCII capital. *)
Definition lower (a : ascii) : ascii :=
  if is_upper a then ascii_of_nat (nat_of_ascii a + 32) else a.

Definition is_byte (n : nat) (a : ascii) : bool := (nat_of_ascii a =? n)%nat.

(** [.toLowerCase()].  A name is held as the bytes of its UTF-8 encoding.
    ASCII capitals become small letters.  Outside ASCII two code points
    lower-case to text with an ASCII letter: U+0130, the capital I with a
    dot (bytes C4 B0), becomes [i] followed by U+0307 (bytes CC 87), and
    U+212A, the Kelvin sign (bytes E2 84 AA), becomes [k].  Every other
    code point outside ASCII lower-cases to code points outside ASCII; its
    bytes are left as they are, since [newId] turns all of them into hyphens
    whatever they are. *)
Fixpoint toLowerCase (s : string) : string :=
  match s with
  | EmptyString => EmptyString
  | String a tl =>
      match tl with
      | String b tl2 =>
          if is_byte 196 a && is_byte 176 b then
            String "i" (String (ascii_of_nat 204) (String (ascii_of_nat 135)
              (toLowerCase tl2)))
          else
            match tl2 with
            | String c tl3 =>
                if is_byte 226 a && is_byte 132 b && is_byte 170 c
                then String "k" (toLowerCase tl3)
                else String (lower a) (toLowerCase tl)
            | EmptyString => String (lower a) (toLowerCase tl)
            end
      | EmptyString => String (lower a) EmptyString
      end
  end.

Fixpoint map_string (f : ascii → ascii) (s : string) : string :=
  match s with
  | EmptyString => EmptyString
  | String a rest => String (f a) (map_string f rest)
  end.

(** [.replace(/-+/g, '-')] *)
Fixpoint collapse_hyphens (s : string) : string :=
  match s with
  | String a rest =>
      match rest with
      | String b _ =>
          if bool_decide (a = "-"%char) && bool_decide (b = "-"%char)
          then collapse_hyphens rest
          else String a (collapse_hyphens rest)
      | EmptyString => s
      end
  | EmptyString => EmptyString
  end.

Fixpoint drop_last_hyphen (s : string) : string :=
  match s with
  | EmptyString => EmptyString
  | String a EmptyString => if bool_decide (a = "-"%char) then EmptyString else s
  | String a rest => String a (drop_last_hyphen rest)
  end.

(** [.replace(/^-|-$/g, '')] *)
Definition strip_hyphens (s : string) : string :=
  match s with
  | String a rest =>
      if bool_decide (a = "-"%char) then drop_last_hyphen rest else drop_last_hyphen s
  | EmptyString => EmptyString
  end.

(** The id derived from a category name:
    [name.toLowerCase().trim().replace(/[^a-z0-9]/g, '-')
         .replace(/-+/g, '-').replace(/^-|-$/g, '')].
    After [toLowerCase] every byte that is no small ASCII letter and no
    digit becomes a hyphen: a character outside ASCII becomes a run of
    hyphens where JavaScript makes one hyphen for each of its code units,
    and the runs are collapsed either way; [trim] is absorbed likewise,
    white space becoming hyphens that are stripped at both ends. *)
Definition newId (name : string) : string :=
  strip_hyphens (collapse_hyphens
    (map_string (λ a, if is_lower a || is_digit a then a else "-"%char)
       (toLowerCase name))).

Record CategoryInput := mkInput { in_name : string; in_icon : option string }.

(** The [try] block of [addCategory]: one attempt. *)
Definition addCategory_attempt (category : CategoryInput) : M string :=
  let newId := newId (in_name category) in
  if bool_decide (newId = "") then
    throw (Error "유효한 카테고리 ID를 생성할 수 없습니다. 카테고리 이름을 확인해주세요.")
  else
    let* settingsSnap := getDoc SETTINGS_COLLECTION GLOBAL_SETTINGS_ID in
    match settingsSnap with
    | None =>
        try_catch (
          let* now1 := Timestamp_now in
          let* now2 := Timestamp_now in
          let* _ := setDoc SETTINGS_COLLECTION GLOBAL_SETTINGS_ID
                      [ ("categories", VArr []); ("createdAt", VTime now1);
                        ("updatedAt", VTime now2) ] in
          let newCategory := item (mkCategory newId (in_name category) (in_icon category)) in
          let* now3 := Timestamp_now in
          let* _ := updateDoc SETTINGS_COLLECTION GLOBAL_SETTINGS_ID
                      [ ("categories", Plain (VArr [newCategory]));
                        ("updatedAt", Plain (VTime now3)) ] in
          ret newId)
          (λ initError,
             throw (Error ("설정 초기화에 실패했습니다: " +:+ getErrorMessage initError)))
    | Some settingsData =>
        let* categories := categories_of settingsData in
        let* dupId := someM (prop_is "id" newId) categories in
        if dupId then
          throw (Error ("ID '" +:+ newId +:+ "'는 이미 사용 중입니다. 다른 카테고리 이름을 선택해주세요."))
        else
          let* dupName := someM (prop_is "name" (in_name category)) categories in
          if dupName then
            throw (Error ("이름 '" +:+ in_name category +:+
                          "'은(는) 이미 사용 중입니다. 다른 카테고리 이름을 선택해주세요."))
          else
            let newCategory :=
              item (mkCategory newId (in_name category) (in_icon category)) in
            let updatedCategories := (categories ++ [newCategory])%list in
            let* now := Timestamp_now in
            let* _ := updateDoc SETTINGS_COLLECTION GLOBAL_SETTINGS_ID
                        [ ("categories", Plain (VArr updatedCategories));
                          ("updatedAt", Plain (VTime now)) ] in
            ret newId
    end.

Definition addCategory (category : CategoryInput) : M string :=
  let* _ := verifyAdminAuth in
  retry_loop (addCategory_attempt category)
    "카테고리 추가 중 오류가 발생했습니다"
    (S MAX_RETRY_COUNT) 0.

(** [categories.findIndex(cat => cat.id === categoryId)] *)
Fixpoint findIndexM {A} (p : A → M bool) (xs : list A) (i : nat) : M (option nat) :=
  match xs with
  | [] => ret None
  | x :: xs' => let* b := p x in if b then ret (Some i) else findIndexM p xs' (S i)
  end.

(** [categories.some((cat, index) => cat.name === s && index !== skip)] *)
Fixpoint some_otherM (s : string) (skip : nat) (xs : list value) (i : nat) : M bool :=
  match xs with
  | [] => ret false
  | x :: xs' =>
      let* b := prop_is "name" s x in
      if b && negb (bool_decide (i = skip)) then ret true
      else some_otherM s skip xs' (S i)
  end.

(** [{...v}] for an element of the array. *)
Definition spread (v : value) : object :=
  match v with
  | VObj o => o
  | _ => []
  end.

(** The [try] block of [updateCategory]: one attempt. *)
Definition updateCategory_attempt (categoryId updatedName : string) (icon : option string)
    : M bool :=
  let* settingsSnap := getDoc SETTINGS_COLLECTION GLOBAL_SETTINGS_ID in
  match settingsSnap with
  | None => throw (Error NOT_FOUND_ERROR)
  | Some settingsData =>
      let* categories := categories_of settingsData in
      let* categoryIndex := findIndexM (prop_is "id" categoryId) categories 0 in
      match categoryIndex with
      | None =>
          throw (Error ("ID가 '" +:+ categoryId +:+ "'인 카테고리를 찾을 수 없습니다."))
      | Some categoryIndex =>
          let* dup := some_otherM updatedName categoryIndex categories 0 in
          if dup then
            throw (Error ("이름 '" +:+ updatedName +:+
                          "'은(는) 이미 사용 중입니다. 다른 카테고리 이름을 선택해주세요."))
          else
            let existingCategory := spread (default VNull (categories !! categoryIndex)) in
            let updatedCategory := obj_set "name" (VStr updatedName) existingCategory in
            match icon with
            | Some "" =>
                (* [icon: undefined] is refused by the SDK before any round-trip *)
                throw (mkError (Some "invalid-argument")
                         "Unsupported field value: undefined")
            | _ =>
                let updatedCategory :=
                  match icon with
                  | Some i => obj_set "icon" (VStr i) updatedCategory
                  | None => updatedCategory
                  end in
                let updatedCategories :=
                  <[categoryIndex := VObj updatedCategory]> categories in
                let* now := Timestamp_now in
                let* _ := updateDoc SETTINGS_COLLECTION GLOBAL_SETTINGS_ID
                            [ ("categories", Plain (VArr updatedCategories));
                              ("updatedAt", Plain (VTime now)) ] in
                ret true
            end
      end
  end.

Definition updateCategory (categoryId updatedName : string) (icon : option string)
    : M bool :=
  let* _ := verifyAdminAuth in
  retry_loop (updateCategory_attempt categoryId updatedName icon)
    "카테고리 수정 중 오류가 발생했습니다"
    (S MAX_RETRY_COUNT) 0.

(** The [try] block of [deleteCategory]: one attempt. *)
Definition deleteCategory_attempt (categoryId : string) : M bool :=
  let* settingsSnap := getDoc SETTINGS_COLLECTION GLOBAL_SETTINGS_ID in
  match settingsSnap with
  | None => throw (Error NOT_FOUND_ERROR)
  | Some settingsData =>
      let* categories := categories_of settingsData in
      let* categoryToDelete := findM (prop_is "id" categoryId) categories in
      match categoryToDelete with
      | None =>
          throw (Error ("ID가 '" +:+ categoryId +:+ "'인 카테고리를 찾을 수 없습니다."))
      | Some categoryToDelete =>
          runTransaction (
            let* postsSnapshot :=
              getDocs (mkQuery POSTS_COLLECTION [("category", VStr categoryId)] None) in
            let* remainingCategories :=
              filterM (λ cat, let* b := prop_is "id" categoryId cat in ret (negb b))
                categories in
            let* targetCategoryId :=
              match remainingCategories with
              | first :: _ => let* i := property "id" first in ret i
              | [] => ret (Some (VStr ""))
              end in
            let* moves :=
              match postsSnapshot with
              | [] => ret []
              | _ =>
                  match targetCategoryId with
                  | Some target =>
                      if truthy targetCategoryId then
                        Firestore.mapM (λ postDoc : string * object,
                          let* now := Timestamp_now in
                          ret (TxUpdate POSTS_COLLECTION postDoc.1
                                 [ ("category", Plain target);
                                   ("updatedAt", Plain (VTime now)) ]))
                          postsSnapshot
                      else throw (Error "게시물을 이동할 카테고리가 없습니다. 최소한 하나의 카테고리가 필요합니다.")
                  | None => throw (Error "게시물을 이동할 카테고리가 없습니다. 최소한 하나의 카테고리가 필요합니다.")
                  end
              end in
            let* now := Timestamp_now in
            ret (true,
                 (moves ++
                  [ TxUpdate SETTINGS_COLLECTION GLOBAL_SETTINGS_ID
                      [ ("categories", arrayRemove categoryToDelete);
                        ("updatedAt", Plain (VTime now)) ] ])%list))
      end
  end.

Definition deleteCategory (categoryId : string) : M bool :=
  let* _ := verifyAdminAuth in
  retry_loop (deleteCategory_attempt categoryId)
    "카테고리 삭제 중 오류가 발생했습니다"
    (S MAX_RETRY_COUNT) 0.

(** [id] is an element of [new Set(ids)], where [ids] are strings. *)
Definition has (ids : list string) (id : option value) : bool :=
  match id with
  | Some (VStr s) => bool_decide (s ∈ ids)
  | _ => false
  end.

(** [String(v)], as a template literal prints a value. *)
Fixpoint toString (v : value) : string :=
  match v with
  | VNull => "null"
  | VBool b => if b then "true" else "false"
  | VNum n => Firestore.Number_toString n
  | VStr s => s
  | VTime t =>
      "Timestamp(seconds=" +:+ Firestore.Number_toString (seconds t) +:+
      ", nanoseconds=" +:+ Firestore.Number_toString (nanoseconds t) +:+ ")"
  | VInvalidTime => "Timestamp(seconds=NaN, nanoseconds=NaN)"
  | VObj _ => "[object Object]"
  | VArr l =>
      (fix join (l : list value) : string :=
         match l with
         | [] => ""
         | [x] => match x with VNull => "" | _ => toString x end
         | x :: l' => match x with VNull => "" | _ => toString x end +:+ "," +:+ join l'
         end) l
  end.

Definition show_id (id : option value) : string :=
  match id with
  | Some v => toString v
  | None => "undefined"
  end.

(** The [try] block of [reorderCategories]: one attempt. *)
Definition reorderCategories_attempt (sortedCategories : list CategoryItem) : M bool :=
  let* settingsSnap := getDoc SETTINGS_COLLECTION GLOBAL_SETTINGS_ID in
  match settingsSnap with
  | None => throw (Error NOT_FOUND_ERROR)
  | Some settingsData =>
      let* existingCategories := categories_of settingsData in
      let* existingIds := Firestore.mapM (property "id") existingCategories in
      let newIds := map id sortedCategories in
      match filter (λ i, has newIds i = false) existingIds with
      | missing :: _ =>
          throw (Error ("카테고리 ID '" +:+ show_id missing +:+
                        "'가 누락되었습니다. 모든 기존 카테고리를 포함해야 합니다."))
      | [] =>
          match filter (λ i, Some (VStr i) ∉ existingIds) newIds with
          | added :: _ =>
              throw (Error ("카테고리 ID '" +:+ added +:+
                            "'는 기존에 존재하지 않습니다. 새 카테고리는 추가할 수 없습니다."))
          | [] =>
              let* now := Timestamp_now in
              let* _ := updateDoc SETTINGS_COLLECTION GLOBAL_SETTINGS_ID
                          [ ("categories", Plain (VArr (map item sortedCategories)));
                            ("updatedAt", Plain (VTime now)) ] in
              ret true
          end
      end
  end.

Definition reorderCategories (sortedCategories : list CategoryItem) : M bool :=
  let* _ := verifyAdminAuth in
  retry_loop (reorderCategories_attempt sortedCategories)
    "카테고리 순서 변경 중 오류가 발생했습니다"
    (S MAX_RETRY_COUNT) 0.

End Categories.

(** ** services/admin/backup.ts *)

Module Backup.
Import AdminAuth.

Definition POSTS_COLLECTION := "posts".
Definition COMMENTS_COLLECTION := "comments".
Definition SETTINGS_COLLECTION := "settings".
Definition USERS_COLLECTION := "users".
Definition BOOKMARKS_COLLECTION := "bookmarks".

Definition ADMIN_AUTH_ERROR := "관리자 권한이 필요합니다.".

Definition handleError {A} (error : JsError) (msg : string) : M A :=
  throw (Error (msg +:+ ": " +:+ message error)).

Definition verifyAdminAuth : M unit :=
  let* ok := isAdminAuthenticated in
  if ok then ret tt else throw (Error ADMIN_AUTH_ERROR).

Definition res_bind {A B} (r : Res A) (k : A → Res B) : Res B :=
  match r with
  | Ok a => k a
  | Throw e => Throw e
  end.

(** [timestamp.toDate().toISOString()] inside [timestampToISOString]. *)
Definition timestampToISOString (t : Timestamp) : Res string :=
  match JsDate.toISOString (JsDate.ofTimestamp t) with
  | Some s => Ok s
  | None => Throw (Firestore.RangeError "Invalid time value")
  end.

Fixpoint convertTimestampsToISOStrings (data : value) : Res json :=
  match data with
  | VNull => Ok JNull
  | VBool b => Ok (JBool b)
  | VNum n => Ok (JNum n)
  | VStr s => Ok (JStr s)
  | VTime t => res_bind (timestampToISOString t) (λ s, Ok (JStr s))
  | VInvalidTime => Throw (Firestore.RangeError "Invalid time value")
  | VArr l =>
      res_bind
        ((fix go (l : list value) : Res (list json) :=
            match l with
            | [] => Ok []
            | x :: l' =>
                res_bind (convertTimestampsToISOStrings x) (λ y,
                res_bind (go l') (λ ys, Ok (y :: ys)))
            end) l)
        (λ ys, Ok (JArr ys))
  | VObj o =>
      res_bind
        ((fix go (o : object) : Res (list (string * json)) :=
            match o with
            | [] => Ok []
            | (k, x) :: o' =>
                res_bind (convertTimestampsToISOStrings x) (λ y,
                res_bind (go o') (λ ys, Ok ((k, y) :: ys)))
            end) o)
        (λ ys, Ok (JObj ys))
  end.

(** The range a [Timestamp] accepts for its seconds: years 1 to 9999. *)
Definition MIN_SECONDS : Z := -62135596800.
Definition MAX_SECONDS : Z := 253402300800.

(** [new Date(s)] for a string. *)
Definition Date_of_string (parse : string → option Z) (s : string) : option Z :=
  t ← parse s;
  if decide (- JsDate.maxTime ≤ t ≤ JsDate.maxTime) then Some t else None.

(** [Timestamp.fromDate(date)]: an invalid date passes the range checks of
    the constructor, a valid one outside the range makes it throw. *)
Definition Timestamp_fromDate (date : option Z) : Res value :=
  match date with
  | None => Ok VInvalidTime
  | Some ms =>
      let t := Timestamp_fromMillis ms in
      if decide (MIN_SECONDS ≤ seconds t < MAX_SECONDS) then Ok (VTime t)
      else Throw (mkError (Some "invalid-argument") "Timestamp seconds out of range")
  end.

Definition isoStringToTimestamp (parse : string → option Z) (isoString : string) : value :=
  if bool_decide (isoString = "") then VNull
  else
    match Date_of_string parse isoString with
    | None => VNull
    | Some ms =>
        match Timestamp_fromDate (Some ms) with
        | Ok v => v
        | Throw _ => VNull
        end
    end.

(** A prefix of [s] whose characters satisfy the tests of [pat] one by
    one; the rest of [s] is returned. *)
Fixpoint match_seq (pat : list (ascii → bool)) (s : string) : option string :=
  match pat, s with
  | [], _ => Some s
  | p :: pat', String a rest => if p a then match_seq pat' rest else None
  | _ :: _, EmptyString => None
  end.

Definition is_char (c : ascii) (a : ascii) : bool := bool_decide (a = c).

(** [/^\d{4}-\d{2}-\d{2}T\d{2}:\d{2}:\d{2}(?:\.\d{1,3})?Z$/.test(s)] *)
Definition isoDatePattern (s : string) : bool :=
  let d := is_digit in
  match match_seq [d; d; d; d; is_char "-"; d; d; is_char "-"; d; d; is_char "T";
                   d; d; is_char ":"; d; d; is_char ":"; d; d] s with
  | Some rest =>
      bool_decide (rest = "Z")
      || bool_decide (match_seq [is_char "."; d; is_char "Z"] rest = Some "")
      || bool_decide (match_seq [is_char "."; d; d; is_char "Z"] rest = Some "")
      || bool_decide (match_seq [is_char "."; d; d; d; is_char "Z"] rest = Some "")
  | None => false
  end.

Definition is_date_key (k : string) : bool :=
  bool_decide (k = "createdAt") || bool_decide (k = "updatedAt")
  || bool_decide (k = "editedAt").

Fixpoint convertISOStringsToTimestamps (parse : string → option Z) (data : json) : value :=
  match data with
  | JNull => VNull
  | JBool b => VBool b
  | JNum n => VNum n
  | JStr s =>
      if bool_decide (s = "") then VStr s
      else if isoDatePattern s then isoStringToTimestamp parse s
      else VStr s
  | JArr l => VArr (map (convertISOStringsToTimestamps parse) l)
  | JObj o =>
      VObj ((fix go (o : list (string * json)) : object :=
               match o with
               | [] => []
               | (k, x) :: o' =>
                   (k, match x with
                       | JStr s =>
                           if is_date_key k then
                             match Timestamp_fromDate (Date_of_string parse s) with
                             | Ok v => v
                             | Throw _ => VStr s
                             end
                           else convertISOStringsToTimestamps parse x
                       | _ => convertISOStringsToTimestamps parse x
                       end) :: go o'
               end) o)
  end.

(** [fetchCollectionData]: every document as [{id: doc.id, ...data}] with
    the timestamps of [data] made strings. *)
Fixpoint dump (docs : list (string * object)) : Res (list json) :=
  match docs with
  | [] => Ok []
  | doc :: docs' =>
      res_bind (convertTimestampsToISOStrings (VObj doc.2)) (λ data,
      res_bind (dump docs') (λ rest,
        Ok (JObj (obj_assign [("id", JStr doc.1)]
                    (match data with JObj o => o | _ => [] end)) :: rest)))
  end.

Definition lift {A} (r : Res A) : M A :=
  match r with
  | Ok a => ret a
  | Throw e => throw e
  end.

(** [collection(db, collectionName)]: the SDK refuses an empty path when
    the reference is built.  A path with a slash names a subcollection (an
    odd number of segments) or is no collection path at all (an even number,
    which the SDK refuses as well); the store of the embedding has root
    collections only, so every path with a slash is refused here, and the
    properties below are stated for collection names without one. *)
Definition collection (collectionName : string) : M string :=
  if bool_decide (collectionName = "") || includes "/" collectionName
  then throw (mkError (Some "invalid-argument") "Invalid collection reference")
  else ret collectionName.

Definition fetchCollectionData (collectionName : string) : M (list json) :=
  try_catch (
    let* collectionRef := collection collectionName in
    let* docs := getDocs (mkQuery collectionRef [] None) in
    lift (dump docs))
    (λ error, handleError error
                (collectionName +:+ " 컬렉션 데이터 조회 중 오류가 발생했습니다")).

Definition default_collections : list string :=
  [POSTS_COLLECTION; COMMENTS_COLLECTION; SETTINGS_COLLECTION; BOOKMARKS_COLLECTION].

(** The loop over the requested collections, filling [backupData]. *)
Fixpoint backup_collections (includeUsers : bool) (collections : list string)
    (backupData : list (string * json)) : M (list (string * json)) :=
  match collections with
  | [] => ret backupData
  | collectionName :: rest =>
      if bool_decide (collectionName = USERS_COLLECTION) && negb includeUsers then
        backup_collections includeUsers rest backupData
      else
        let* data := fetchCollectionData collectionName in
        backup_collections includeUsers rest (obj_set collectionName (JArr data) backupData)
  end.

(** [array.length] of a collection dump. *)
Definition json_length (j : json) : Z :=
  match j with
  | JArr l => Z.of_nat (length l)
  | _ => 0
  end.

Definition JSON_stringify (j : json) : text := JsonText j.

Definition backupData (collections : option (list string)) (includeUsers : option bool)
    : M text :=
  let* _ := verifyAdminAuth in
  try_catch (
    let collections := default default_collections collections in
    let includeUsers := default false includeUsers in
    let* backupData := backup_collections includeUsers collections [] in
    let* backupData :=
      if includeUsers && negb (bool_decide (USERS_COLLECTION ∈ collections)) then
        let* data := fetchCollectionData USERS_COLLECTION in
        ret (obj_set USERS_COLLECTION (JArr data) backupData)
      else ret backupData in
    let* now := get now in
    let* createdAt :=
      match JsDate.toISOString now with
      | Some s => ret s
      | None => throw (Firestore.RangeError "Invalid time value")
      end in
    let backupResult :=
      JObj [ ("metadata",
              JObj [ ("createdAt", JStr createdAt);
                     ("version", JStr "1.0");
                     ("collections", JArr (map (λ kv, JStr kv.1) backupData));
                     ("counts", JObj (map (λ kv, (kv.1, JNum (json_length kv.2))) backupData)) ]);
             ("data", JObj backupData) ] in
    ret (JSON_stringify backupResult))
    (λ error, handleError error "데이터 백업 중 오류가 발생했습니다").

(** [writeBatch(db)] with its buffered writes, then [batch.commit()]. *)
Definition commitBatch (ws : list Write) : M unit :=
  let* _ := rpc ReqCommit in
  let* store := get db in
  match apply_writes ws store with
  | Some store' => modify (set_db (λ _, store'))
  | None => throw (mkError (Some "not-found") "No document to update")
  end.

Definition batchSize : nat := 500.

Fixpoint clear_loop (fuel : nat) (collectionRef : string) : M unit :=
  match fuel with
  | O => ret tt
  | S fuel' =>
      let* snapshot := getDocs (mkQuery collectionRef [] (Some batchSize)) in
      if bool_decide (length snapshot = 0%nat) then ret tt
      else
        let* _ := commitBatch (map (λ doc, TxDelete collectionRef doc.1) snapshot) in
        if bool_decide (length snapshot < batchSize)%nat then ret tt
        else clear_loop fuel' collectionRef
  end.

(** [clearCollection]: the [while (true)] loop removes at least one
    document per round, so one round per stored document and one more is
    enough fuel. *)
Definition clearCollection (collectionName : string) : M unit :=
  try_catch (
    let* collectionRef := collection collectionName in
    let* n := get (λ w, size (db w)) in
    clear_loop (S n) collectionRef)
    (λ error, handleError error
                (collectionName +:+ " 컬렉션 초기화 중 오류가 발생했습니다")).

(** [Timestamp.fromDate(new Date(data.k))] for a truthy string field. *)
Definition fix_date (parse : string → option Z) (k : string) (data : object)
    : Res object :=
  match obj_get k data with
  | Some (VStr s) =>
      if bool_decide (s = "") then Ok data
      else res_bind (Timestamp_fromDate (Date_of_string parse s))
             (λ v, Ok (obj_set k v data))
  | _ => Ok data
  end.

Definition processCollectionSpecificData (parse : string → option Z)
    (collectionName : string) (data : object) : Res object :=
  let processedData := data in
  if bool_decide (collectionName = POSTS_COLLECTION)
     || bool_decide (collectionName = COMMENTS_COLLECTION) then
    res_bind (fix_date parse "createdAt" processedData) (λ processedData,
    fix_date parse "updatedAt" processedData)
  else if bool_decide (collectionName = SETTINGS_COLLECTION) then
    fix_date parse "updatedAt" processedData
  else Ok processedData.

(** A [Timestamp] with [NaN] fields somewhere in the data: the SDK fails
    to serialise it. *)
Fixpoint has_invalid_time (v : value) : bool :=
  match v with
  | VInvalidTime => true
  | VArr l => existsb has_invalid_time l
  | VObj o => existsb (λ kv, has_invalid_time kv.2) o
  | _ => false
  end.

(** [doc(db, collectionName, id)]: the collection name is checked as by
    [collection], and the id has to be a non-empty string; ids with a
    slash, which address subcollections, are refused here. *)
Definition docRef (collectionName : string) (id : option json) : M string :=
  let* _ := collection collectionName in
  match id with
  | Some (JStr s) =>
      if bool_decide (s = "") || includes "/" s
      then throw (mkError (Some "invalid-argument") "Invalid document reference")
      else ret s
  | _ => throw (mkError (Some "invalid-argument") "Invalid document reference")
  end.

Record Progress := mkProgress {
  restoredCount : nat;
  failedCount : nat;
  warnings : list string
}.

(** The body of the loop over the documents of one collection. *)
Definition restore_item (collectionName : string) (overwrite : bool) (item : json)
    (p : Progress) : M Progress :=
  let* parts :=
    match item with
    | JNull => throw (Firestore.TypeError "Cannot destructure null")
    | JObj o => ret (obj_get "id" o, obj_del "id" o)
    | _ => ret (None, [])
    end in
  let id := parts.1 in
  let docData := parts.2 in
  try_catch (
    let* docId := docRef collectionName id in
    let* skip :=
      if overwrite then ret false
      else let* docSnapshot := getDoc collectionName docId in
           ret (bool_decide (is_Some docSnapshot)) in
    if skip then ret p
    else
      let* parse := get Date_parse in
      let processedData :=
        match convertISOStringsToTimestamps parse (JObj docData) with
        | VObj o => o
        | _ => []
        end in
      let* finalData := lift (processCollectionSpecificData parse collectionName processedData) in
      let* _ :=
        if has_invalid_time (VObj finalData)
        then throw (Firestore.RangeError "Invalid time value")
        else setDoc collectionName docId finalData in
      ret (mkProgress (S (restoredCount p)) (failedCount p) (warnings p)))
    (λ docError,
       ret (mkProgress (restoredCount p) (S (failedCount p))
              (warnings p ++
               [collectionName +:+ "/" +:+ match id with Some j => toPrimitiveString j | None => "undefined" end
                +:+ " 문서 복원에 실패했습니다: " +:+ message docError])%list)).

Fixpoint restore_items (collectionName : string) (overwrite : bool) (items : list json)
    (p : Progress) : M Progress :=
  match items with
  | [] => ret p
  | item :: items' =>
      let* p' := restore_item collectionName overwrite item p in
      restore_items collectionName overwrite items' p'
  end.

(** [for (const item of collectionData)]: arrays are iterated, a string
    is iterated character by character, other values are not iterable. *)
Definition iterate (collectionData : json) : M (list json) :=
  match collectionData with
  | JArr l => ret l
  | JStr s => ret (map (λ a, JStr (String a EmptyString)) (chars s))
  | _ => throw (Firestore.TypeError "collectionData is not iterable")
  end.

(** [backupContent.data[collectionName]] for the object [data]; an array
    [data] is taken to have none of the collections. *)
Definition collection_of (data : json) (collectionName : string) : option json :=
  match data with
  | JObj o => obj_get collectionName o
  | _ => None
  end.

Definition json_truthy (j : option json) : bool :=
  match j with
  | None | Some JNull => false
  | Some (JBool b) => b
  | Some (JNum n) => negb (bool_decide (n = 0))
  | Some (JStr s) => negb (bool_decide (s = ""))
  | Some _ => true
  end.

Record Tally := mkTally {
  restoredCounts : list (string * nat);
  failedCounts : list (string * nat);
  t_warnings : list string
}.

Fixpoint restore_collections (data : json) (overwrite deleteBeforeRestore : bool)
    (collections : list string) (t : Tally) : M Tally :=
  match collections with
  | [] => ret t
  | collectionName :: rest =>
      match collection_of data collectionName with
      | Some collectionData =>
          if json_truthy (Some collectionData) then
            let* w1 :=
              if deleteBeforeRestore then
                try_catch
                  (let* _ := clearCollection collectionName in ret (t_warnings t))
                  (λ _, ret (t_warnings t ++
                             [collectionName +:+ " 컬렉션 초기화 중 오류가 발생했습니다. 일부 데이터만 복원될 수 있습니다."])%list)
              else ret (t_warnings t) in
            let* items := iterate collectionData in
            let* p := restore_items collectionName overwrite items (mkProgress 0 0 w1) in
            restore_collections data overwrite deleteBeforeRestore rest
              (mkTally (obj_set collectionName (restoredCount p) (restoredCounts t))
                       (obj_set collectionName (failedCount p) (failedCounts t))
                       (warnings p))
          else restore_collections data overwrite deleteBeforeRestore rest t
      | None => restore_collections data overwrite deleteBeforeRestore rest t
      end
  end.

Record RestoreResult := mkResult {
  success : bool;
  r_message : string;
  r_restoredCounts : list (string * nat);
  r_warnings : option (list string)
}.

(** [JSON.parse(jsonData)], followed by the logging of
    [backupContent.metadata?.version], which reads a property of the
    parsed value inside the same [try]. *)
Definition parse_backup (jsonData : text) : M json :=
  try_catch (
    match jsonData with
    | RawText _ => throw (Error "Unexpected token in JSON")
    | JsonText backupContent =>
        let* _ := property "metadata" backupContent in
        ret backupContent
    end)
    (λ _, throw (Error "올바른 JSON 형식이 아닙니다. 백업 파일을 확인해주세요.")).

Definition restoreData (jsonData : text) (collections : option (list string))
    (overwrite deleteBeforeRestore : option bool) : M RestoreResult :=
  let* _ := verifyAdminAuth in
  try_catch (
    let collections := default default_collections collections in
    let overwrite := default false overwrite in
    let deleteBeforeRestore := default false deleteBeforeRestore in
    let* backupContent := parse_backup jsonData in
    let* data := property "data" backupContent in
    match data with
    | Some ((JArr _ | JObj _) as data) =>
        let* t := restore_collections data overwrite deleteBeforeRestore collections
                    (mkTally [] [] []) in
        let totalFailed := foldr (λ kv n, (kv.2 + n)%nat) 0%nat (failedCounts t) in
        let warnings :=
          if bool_decide (0 < totalFailed)%nat then
            (t_warnings t ++
             ["총 " +:+ Firestore.Number_toString (Z.of_nat totalFailed) +:+
              "개 문서가 복원에 실패했습니다. 자세한 내용은 콘솔 로그를 확인하세요."])%list
          else t_warnings t in
        ret (mkResult true
               (match warnings with
                | [] => "데이터 복원이 성공적으로 완료되었습니다."
                | _ => "데이터 복원이 일부 경고와 함께 완료되었습니다."
                end)
               (restoredCounts t)
               (match warnings with [] => None | _ => Some warnings end))
    | _ => throw (Error "백업 데이터 형식이 올바르지 않습니다.")
    end)
    (λ error, handleError error "데이터 복원 중 오류가 발생했습니다").

End Backup.

(** ** services/admin/posts.ts *)

Module AdminPosts.
Import AdminAuth.

Definition POSTS_COLLECTION : string := "posts".
Definition COMMENTS_COLLECTION : string := "comments".
Definition ADMIN_AUTH_ERROR : string := "관리자 권한이 필요합니다.".

Definition verifyAdminAuth : M unit :=
  let* ok := isAdminAuthenticated in
  if ok then ret tt else throw (Error ADMIN_AUTH_ERROR).

(** [query(collection(db, COMMENTS_COLLECTION), where('postId', '==', postId))] *)
Definition commentsQuery (postId : string) : Query :=
  mkQuery COMMENTS_COLLECTION [("postId", VStr postId)] None.

(** [transaction.delete] / [batch.delete] of each document of a snapshot. *)
Definition delete_each (docs : list (string * object)) : list Write :=
  map (λ commentDoc, TxDelete COMMENTS_COLLECTION commentDoc.1) docs.

Definition deletePostAdmin (postId : string) : M unit :=
  let* _ := verifyAdminAuth in
  try_catch (
    let* postRef := Firestore.doc POSTS_COLLECTION postId in
    let* postSnap := getDoc POSTS_COLLECTION postRef in
    match postSnap with
    | None => throw (Error ("ID가 " +:+ postId +:+ "인 게시물을 찾을 수 없습니다."))
    | Some _ =>
        runTransaction (
          let* commentsSnap := getDocs (commentsQuery postId) in
          ret (tt, TxDelete POSTS_COLLECTION postRef :: delete_each commentsSnap))
    end)
    (λ error, throw (Error ("게시물 삭제 중 오류가 발생했습니다: " +:+ message error))).

(** The first loop of [bulkDeletePostsAdmin]: one read for each listed id;
    [deletedCount] and the batch grow for each id that names a post. *)
Fixpoint collect (postIds : list string) (deletedCount : nat) (batch : list Write)
    : M (nat * list Write) :=
  match postIds with
  | [] => ret (deletedCount, batch)
  | postId :: rest =>
      let* postRef := Firestore.doc POSTS_COLLECTION postId in
      let* postSnap := getDoc POSTS_COLLECTION postRef in
      match postSnap with
      | Some _ =>
          collect rest (S deletedCount) (batch ++ [TxDelete POSTS_COLLECTION postRef])
      | None => collect rest deletedCount batch
      end
  end.

(** The second loop: for each listed id, one query and, when it finds
    comments, one batch of its own. *)
Fixpoint deleteComments (postIds : list string) : M unit :=
  match postIds with
  | [] => ret tt
  | postId :: rest =>
      let* commentsSnap := getDocs (commentsQuery postId) in
      let* _ :=
        if bool_decide (0 < length commentsSnap)%nat
        then InitFirestore.commit (delete_each commentsSnap)
        else ret tt in
      deleteComments rest
  end.

(** Returns [deletedCount]. *)
Definition bulkDeletePostsAdmin (postIds : list string) : M nat :=
  let* _ := verifyAdminAuth in
  if bool_decide (length postIds = 0%nat) then ret 0%nat
  else
    try_catch (
      let* r := collect postIds 0 [] in
      let* _ := InitFirestore.commit r.2 in
      let* _ := deleteComments postIds in
      ret r.1)
      (λ error,
         throw (Error ("게시물 일괄 삭제 중 오류가 발생했습니다: " +:+ message error))).

End AdminPosts.

(** * Properties *)

(** A name of a collection at the root of the store: not empty and without
    a slash. *)
Definition collection_name (c : string) : Prop := c ≠ "" ∧ includes "/" c = false.

(** A field name that the SDK takes in the data of a document: not empty
    and not reserved.  Reserved are the names of the form [__name__]; every
    name that begins with two underscores is left out here. *)
Definition document_key (k : string) : bool :=
  negb (bool_decide (k = "")) && negb (String.prefix "__" k).

Definition is_array (v : value) : bool :=
  match v with
  | VArr _ => true
  | _ => false
  end.

(** A value that [setDoc], [addDoc] and [updateDoc] write as it is.  When it
    serialises the data the SDK refuses a timestamp that is no time, an
    empty or reserved field name and an array directly inside an array, and
    it cuts a timestamp to whole microseconds; the properties about data
    that comes from a caller are stated for values without any of these. *)
Fixpoint storable (v : value) : bool :=
  match v with
  | VNull | VBool _ | VNum _ | VStr _ => true
  | VTime t =>
      bool_decide (Backup.MIN_SECONDS ≤ seconds t < Backup.MAX_SECONDS ∧
                   0 ≤ nanoseconds t < 1000000000 ∧ nanoseconds t `mod` 1000 = 0)
  | VInvalidTime => false
  | VArr l => forallb (λ x, storable x && negb (is_array x)) l
  | VObj o => forallb (λ kv, storable kv.2 && document_key kv.1) o
  end.

(** A key that [updateDoc] takes as the name of one top-level field: a
    field name of a document, without a dot, and without the characters
    that a field path may not contain. *)
Definition field_name (k : string) : Prop :=
  document_key k = true ∧
  Forall (λ c, includes c k = false) ["."; "~"; "*"; "/"; "["; "]"].

#[global] Instance field_name_dec k : Decision (field_name k).
Proof. unfold field_name. apply _. Defined.

#[global] Instance collection_name_dec c : Decision (collection_name c).
Proof. unfold collection_name. apply _. Defined.

Lemma collection_run (c : string) (w : World) :
  collection_name c → Backup.collection c w = (Ok c, w).
Proof.
  intros [Hne Hslash]. unfold Backup.collection.
  by rewrite bool_decide_eq_false_2, Hslash by done.
Qed.

Lemma obj_get_set_eq {V} k (v : V) o : obj_get k (obj_set k v o) = Some v.
Proof.
  induction o as [|[k' v'] o IH]; simpl.
  - by rewrite decide_True.
  - destruct (decide (k' = k)); simpl.
    + by rewrite decide_True.
    + by rewrite decide_False.
Qed.

Lemma obj_get_set_ne {V} k k' (v : V) o :
  k ≠ k' → obj_get k' (obj_set k v o) = obj_get k' o.
Proof.
  intros Hne. induction o as [|[k0 v0] o IH]; simpl.
  - by rewrite decide_False.
  - destruct (decide (k0 = k)) as [->|]; simpl.
    + by rewrite !decide_False.
    + by rewrite IH.
Qed.

Lemma obj_get_del_eq {V} k (o : list (string * V)) : obj_get k (obj_del k o) = None.
Proof.
  unfold obj_del. induction o as [|[k' v'] o IH]; [done|].
  rewrite filter_cons. simpl. destruct (decide (k' ≠ k)); simpl; [|done].
  by rewrite decide_False.
Qed.

Lemma obj_get_del_ne {V} k k' (o : list (string * V)) :
  k ≠ k' → obj_get k' (obj_del k o) = obj_get k' o.
Proof.
  intros Hne. unfold obj_del. induction o as [|[k0 v0] o IH]; [done|].
  rewrite filter_cons. simpl. destruct (decide (k0 ≠ k)) as [|Heq]; simpl.
  - by rewrite IH.
  - apply dec_stable in Heq. subst. by rewrite decide_False.
Qed.

(** ** Running the monad *)

(** Unfolds the monad and the store SDK down to functions on worlds. *)
Ltac mrun :=
  cbv [try_catch bind get throw ret modify rpc getDoc setDoc updateDoc deleteDoc
       getDocs runTransaction newDocId Timestamp_now];
  unfold log, advance, set_db, mint, set_localStorage.

(** ** Worlds used in examples *)

(** A [Date.parse] for the example worlds: it accepts the 24 characters that
    [toISOString] writes for the years 0 to 9999, and nothing else. *)
Definition number (s : string) : Z :=
  foldl (λ n a, 10 * n + (Z.of_nat (nat_of_ascii a) - 48)) 0 (chars s).

Definition substring (start len : nat) (s : string) : string :=
  String.substring start len s.

Definition iso_parse (s : string) : option Z :=
  let d := is_digit in
  if bool_decide
       (Backup.match_seq
          [d; d; d; d; Backup.is_char "-"; d; d; Backup.is_char "-"; d; d; Backup.is_char "T";
           d; d; Backup.is_char ":"; d; d; Backup.is_char ":"; d; d; Backup.is_char ".";
           d; d; d; Backup.is_char "Z"] s = Some "")
  then
    let y := number (substring 0 4 s) in
    let m := number (substring 5 2 s) in
    let dd := number (substring 8 2 s) in
    let hh := number (substring 11 2 s) in
    let mm := number (substring 14 2 s) in
    let ss := number (substring 17 2 s) in
    let ms := number (substring 20 3 s) in
    let days := JsDate.days_from_civil y m dd in
    if bool_decide (JsDate.civil_from_days days = (y, m, dd))
       && bool_decide (hh < 24) && bool_decide (mm < 60) && bool_decide (ss < 60)
    then Some (days * JsDate.msPerDay + hh * 3600000 + mm * 60000 + ss * 1000 + ms)
    else None
  else None.

(** A world in which every round-trip succeeds, ids are minted as
    [auto0], [auto1], ..., and [Math.random] returns zero. *)
Definition quiet_world (t : Z) (store : gmap (string * string) object)
    (ls : gmap string text) (parse : string → option Z) : World :=
  mkWorld t store ls [] (λ _ _, None)
    (λ n, "auto" +:+ Firestore.Number_toString (Z.of_nat n)) 0 (λ _, 0) parse.

Module MovePost.
Import Firestore.

Definition post1 : object :=
  [ ("title", VStr "hello"); ("category", VStr "tech"); ("authorId", VStr "u1");
    ("updatedAt", VTime (mkTimestamp 1700000000 0)) ].

Definition w0 : World :=
  quiet_world 1718454645123 {[ ("posts", "p1") := post1 ]} ∅ (λ _, None).



End MovePost.

(** ** Objects, continued *)

Lemma obj_get_None {V} k (o : list (string * V)) : obj_get k o = None ↔ k ∉ o.*1.
Proof.
  induction o as [|[k' v] o IH]; simpl.
  - split; [intros _; apply not_elem_of_nil | done].
  - rewrite not_elem_of_cons. destruct (decide (k' = k)) as [->|]; [naive_solver|].
    rewrite IH. naive_solver.
Qed.

Lemma obj_set_keys {V} k (v : V) (o : list (string * V)) k' :
  k' ∈ (obj_set k v o).*1 ↔ k' = k ∨ k' ∈ o.*1.
Proof.
  induction o as [|[k0 v0] o IH]; simpl.
  - rewrite list_elem_of_singleton. split; [by left | intros [|H]; [done|]].
    by apply elem_of_nil in H.
  - destruct (decide (k0 = k)) as [->|]; simpl; rewrite !elem_of_cons.
    + naive_solver.
    + rewrite IH. naive_solver.
Qed.

Lemma obj_set_NoDup {V} k (v : V) (o : list (string * V)) :
  NoDup o.*1 → NoDup (obj_set k v o).*1.
Proof.
  induction o as [|[k0 v0] o IH]; simpl; intros Hnd.
  - apply NoDup_singleton.
  - apply NoDup_cons in Hnd as [Hnotin Hnd].
    destruct (decide (k0 = k)) as [->|]; simpl.
    + by apply NoDup_cons.
    + apply NoDup_cons. split; [|by apply IH].
      rewrite obj_set_keys. naive_solver.
Qed.

Lemma obj_del_NoDup {V} k (o : list (string * V)) :
  NoDup o.*1 → NoDup (obj_del k o).*1.
Proof.
  unfold obj_del. induction o as [|[k0 v0] o IH]; [done|].
  simpl. intros [Hnotin Hnd]%NoDup_cons. rewrite filter_cons. simpl.
  destruct (decide (k0 ≠ k)); [|by apply IH].
  simpl. apply NoDup_cons. split; [|by apply IH].
  intros Hin. apply Hnotin. apply list_elem_of_fmap in Hin as [[k1 v1] [-> Hin]].
  apply list_elem_of_filter in Hin as [_ Hin].
  apply list_elem_of_fmap. by exists (k1, v1).
Qed.

Lemma obj_get_assign {V} k (a b : list (string * V)) :
  NoDup b.*1 →
  obj_get k (obj_assign a b) =
    match obj_get k b with Some v => Some v | None => obj_get k a end.
Proof.
  unfold obj_assign. revert a. induction b as [|[k0 v0] b IH]; intros a Hnd; [done|].
  simpl in *. apply NoDup_cons in Hnd as [Hnotin Hnd]. rewrite IH by done.
  destruct (decide (k0 = k)) as [->|Hne].
  - apply obj_get_None in Hnotin. by rewrite Hnotin, obj_get_set_eq.
  - by rewrite obj_get_set_ne.
Qed.

Lemma apply_update_plain (o d : object) : apply_update (plain o) d = obj_assign d o.
Proof.
  unfold apply_update, obj_assign, plain.
  generalize d at 2 3 as acc. induction o as [|[k v] o IH]; intros acc; [done|].
  simpl. apply IH.
Qed.

(** ** updatePost *)

Module UpdatePost.
Import Firestore.

Definition post1 : object :=
  [ ("title", VStr "hello"); ("category", VStr "tech"); ("authorId", VStr "u1");
    ("createdAt", VTime (mkTimestamp 1700000000 0));
    ("updatedAt", VTime (mkTimestamp 1700000000 0)) ].

Definition w0 : World :=
  quiet_world 1718454645123 {[ ("posts", "p1") := post1 ]} ∅ (λ _, None).

(** The payload of a [UIPost]: it carries [date]. *)
Definition payload1 : object :=
  [ ("title", VStr "edited"); ("date", VStr "2024-06-15T12:30:45.123Z") ].

(** What [updateData] holds for each key of a well-formed payload. *)
Lemma updateData_get (postData : object) (ts : Timestamp) (k : string) :
  obj_get k (updateData postData ts) =
    if decide (k ∈ ["id"; "createdAt"; "comments"; "date"]) then None
    else if decide (k = "updatedAt") then Some (VTime ts)
    else if decide (k = "commentCount") then
      match obj_get "comments" postData with
      | Some v => Some v
      | None => obj_get "commentCount" postData
      end
    else obj_get k postData.
Proof.
  unfold updateData.
  assert (Hc : obj_get "comments" (if obj_has "date" (obj_set "updatedAt" (VTime ts) postData)
                 then obj_del "date" (obj_set "updatedAt" (VTime ts) postData)
                 else obj_set "updatedAt" (VTime ts) postData)
               = obj_get "comments" postData).
  { destruct (obj_has _ _); rewrite ?obj_get_del_ne, obj_get_set_ne by done; done. }
  assert (Hg : ∀ k', k' ≠ "date" → k' ≠ "updatedAt" →
            obj_get k' (if obj_has "date" (obj_set "updatedAt" (VTime ts) postData)
                 then obj_del "date" (obj_set "updatedAt" (VTime ts) postData)
                 else obj_set "updatedAt" (VTime ts) postData)
            = obj_get k' postData).
  { intros k' H1 H2. destruct (obj_has _ _);
      rewrite ?obj_get_del_ne, obj_get_set_ne by done; done. }
  assert (Hu : obj_get "updatedAt" (if obj_has "date" (obj_set "updatedAt" (VTime ts) postData)
                 then obj_del "date" (obj_set "updatedAt" (VTime ts) postData)
                 else obj_set "updatedAt" (VTime ts) postData)
               = Some (VTime ts)).
  { destruct (obj_has _ _); rewrite ?obj_get_del_ne, obj_get_set_eq by done; done. }
  assert (Hd : obj_get "date" (if obj_has "date" (obj_set "updatedAt" (VTime ts) postData)
                 then obj_del "date" (obj_set "updatedAt" (VTime ts) postData)
                 else obj_set "updatedAt" (VTime ts) postData)
               = None).
  { destruct (obj_has _ _) eqn:Hhas; [apply obj_get_del_eq|].
    unfold obj_has in Hhas. apply bool_decide_eq_false in Hhas.
    by apply eq_None_not_Some. }
  revert Hc Hg Hu Hd. generalize (if obj_has "date" (obj_set "updatedAt" (VTime ts) postData)
                 then obj_del "date" (obj_set "updatedAt" (VTime ts) postData)
                 else obj_set "updatedAt" (VTime ts) postData) as o2.
  intros o2 Hc Hg Hu Hd. rewrite Hc.
  destruct (decide (k = "id")) as [->|Hid].
  { rewrite decide_True by set_solver. apply obj_get_del_eq. }
  rewrite obj_get_del_ne by done.
  destruct (decide (k = "createdAt")) as [->|Hcr].
  { rewrite decide_True by set_solver. apply obj_get_del_eq. }
  rewrite obj_get_del_ne by done.
  destruct (decide (k = "comments")) as [->|Hco].
  { rewrite decide_True by set_solver.
    destruct (obj_get "comments" postData); [apply obj_get_del_eq | done]. }
  destruct (decide (k = "date")) as [->|Hda].
  { rewrite decide_True by set_solver.
    destruct (obj_get "comments" postData);
      [by rewrite obj_get_del_ne, obj_get_set_ne | done]. }
  rewrite decide_False by set_solver.
  destruct (decide (k = "updatedAt")) as [->|Hup].
  { destruct (obj_get "comments" postData);
      [by rewrite obj_get_del_ne, obj_get_set_ne | done]. }
  destruct (decide (k = "commentCount")) as [->|Hcc].
  { destruct (obj_get "comments" postData);
      [by rewrite obj_get_del_ne, obj_get_set_eq | by apply Hg]. }
  destruct (obj_get "comments" postData);
    [rewrite obj_get_del_ne, obj_get_set_ne by done|]; by apply Hg.
Qed.

Lemma updateData_NoDup (postData : object) (ts : Timestamp) :
  NoDup postData.*1 → NoDup (updateData postData ts).*1.
Proof.
  intros Hnd. unfold updateData.
  do 2 apply obj_del_NoDup.
  assert (NoDup (if obj_has "date" (obj_set "updatedAt" (VTime ts) postData)
                 then obj_del "date" (obj_set "updatedAt" (VTime ts) postData)
                 else obj_set "updatedAt" (VTime ts) postData).*1) as H.
  { destruct (obj_has _ _); [apply obj_del_NoDup|]; by apply obj_set_NoDup. }
  revert H. generalize (if obj_has "date" (obj_set "updatedAt" (VTime ts) postData)
                 then obj_del "date" (obj_set "updatedAt" (VTime ts) postData)
                 else obj_set "updatedAt" (VTime ts) postData) as o2.
  intros o2 H. destruct (obj_get "comments" o2); [|done].
  by apply obj_del_NoDup, obj_set_NoDup.
Qed.

(** The effect of [updatePost] on the store: none when it throws, and one
    [updateDoc] of the post with [updateData] when it returns. *)
Lemma updatePost_run (w : World) (pid : PostId) (postData : object) (u : option string) :
  let key := (POSTS_COLLECTION, postIdString pid) in
  (∃ e w', updatePost pid postData u w = (Throw e, w') ∧ db w' = db w) ∨
  (∃ d w', updatePost pid postData u w = (Ok tt, w') ∧ db w !! key = Some d ∧
           db w' = <[key := obj_assign d (updateData postData (Timestamp_fromMillis (now w)))]> (db w)).
Proof.
  intros key. unfold updatePost, rewrap, given, doc.
  destruct (bool_decide (postIdString pid = "") || includes "/" (postIdString pid)).
  { left. mrun. by eexists _, _. }
  mrun.
  destruct u as [u|]; [destruct (bool_decide (u = "")) eqn:Hu|].
  2:{ destruct (net w (length (trace w)) (ReqGet _ _)) as [e|]; simpl.
      { left. by eexists _, _. }
      destruct (db w !! (POSTS_COLLECTION, postIdString pid)) as [d|] eqn:Hd; simpl.
      2:{ left. by eexists _, _. }
      destruct (is_str u (obj_get "authorId" d)); simpl.
      2:{ left. by eexists _, _. }
      destruct (net w _ (ReqUpdate _ _)) as [e|]; simpl.
      { left. by eexists _, _. }
      rewrite Hd. right. eexists d, _. rewrite apply_update_plain. done. }
  all: simpl; destruct (net w _ (ReqUpdate _ _)) as [e|]; simpl;
    [left; by eexists _, _|];
    destruct (db w !! (POSTS_COLLECTION, postIdString pid)) as [d|] eqn:Hd; simpl;
    [|left; by eexists _, _];
    right; eexists d, _; rewrite apply_update_plain; done.
Qed.

(** C7, as stated, fails: a supplied [date] field is not written. *)
Lemma updatePost_drops_date :
  ¬ (∀ (w w' : World) (pid : PostId) (postData d : object) (u : option string),
       NoDup postData.*1 →
       db w !! (POSTS_COLLECTION, postIdString pid) = Some d →
       updatePost pid postData u w = (Ok tt, w') →
       ∃ d', db w' !! (POSTS_COLLECTION, postIdString pid) = Some d' ∧
             obj_get "createdAt" d' = obj_get "createdAt" d ∧
             obj_get "id" d' = obj_get "id" d ∧
             obj_get "updatedAt" d' = Some (VTime (Timestamp_fromMillis (now w))) ∧
             ∀ k v, obj_get k postData = Some v →
                    k ∉ ["createdAt"; "id"; "updatedAt"] → obj_get k d' = Some v).
Proof.
  intros H.
  destruct (H w0 (updatePost (IdStr "p1") payload1 None w0).2 (IdStr "p1") payload1 post1 None)
    as (d' & Hd' & _ & _ & _ & Hk).
  - vm_compute. apply NoDup_cons. split; [set_solver|]. apply NoDup_singleton.
  - reflexivity.
  - vm_compute. reflexivity.
  - specialize (Hk "date" (VStr "2024-06-15T12:30:45.123Z") eq_refl).
    vm_compute in Hd'. injection Hd' as <-. 
    assert (Hnotin : "date" ∉ ["createdAt"; "id"; "updatedAt"]) by set_solver.
    specialize (Hk Hnotin). vm_compute in Hk. discriminate Hk.
Qed.

(** C7 (amended): for a payload whose keys are plain field names (not
    empty, not reserved, without a dot and without the characters that a
    field path may not contain) and whose values the SDK writes as they
    are, a failed [updatePost] leaves the store as it was.  A
    successful one rewrites only the addressed post; there the stored
    [createdAt] and [id] (and [date], [comments]) are what they were,
    [updatedAt] is the current time, a supplied [comments] is stored as
    [commentCount], every other supplied field is stored as supplied, and
    every field not supplied is kept. *)
Theorem updatePost_frame
    (w : World) (pid : PostId) (postData : object) (u : option string) :
  NoDup postData.*1 → Forall field_name postData.*1 →
  Forall (λ v, storable v = true) postData.*2 →
  let key := (POSTS_COLLECTION, postIdString pid) in
  let '(r, w') := updatePost pid postData u w in
  match r with
  | Throw _ => db w' = db w
  | Ok _ =>
      ∃ d d', db w !! key = Some d ∧ db w' = <[key := d']> (db w) ∧
        obj_get "createdAt" d' = obj_get "createdAt" d ∧
        obj_get "id" d' = obj_get "id" d ∧
        obj_get "date" d' = obj_get "date" d ∧
        obj_get "comments" d' = obj_get "comments" d ∧
        obj_get "updatedAt" d' = Some (VTime (Timestamp_fromMillis (now w))) ∧
        (∀ v, obj_get "comments" postData = Some v → obj_get "commentCount" d' = Some v) ∧
        (∀ k v, obj_get k postData = Some v →
                k ∉ ["createdAt"; "id"; "date"; "comments"; "updatedAt"; "commentCount"] →
                obj_get k d' = Some v) ∧
        (∀ k, obj_get k postData = None → k ∉ ["updatedAt"; "commentCount"] →
              obj_get k d' = obj_get k d)
  end.
Proof.
  intros Hnd _ _ key.
  destruct (updatePost_run w pid postData u) as [(e & w' & -> & Hdb)|(d & w' & -> & Hd & Hdb)];
    [done|].
  exists d, (obj_assign d (updateData postData (Timestamp_fromMillis (now w)))).
  split; [done|]. split; [done|].
  pose proof (updateData_NoDup postData (Timestamp_fromMillis (now w)) Hnd) as Hnd'.
  repeat split.
  1-5: rewrite obj_get_assign, updateData_get by done; simpl; done.
  - intros v Hv. rewrite obj_get_assign, updateData_get by done. simpl. by rewrite Hv.
  - intros k v Hk Hnotin. rewrite obj_get_assign, updateData_get by done.
    rewrite decide_False by set_solver.
    rewrite decide_False by set_solver.
    rewrite decide_False by set_solver. by rewrite Hk.
  - intros k Hk Hnotin. rewrite obj_get_assign, updateData_get by done.
    destruct (decide (k ∈ _)); [done|].
    rewrite decide_False by set_solver.
    rewrite decide_False by set_solver. by rewrite Hk.
Qed.

Lemma updatePost_frame_witness :
  let '(r, w') := updatePost (IdStr "p1") payload1 (Some "u1") w0 in
  match r with
  | Throw _ => db w' = db w0
  | Ok _ =>
      ∃ d d', db w0 !! (POSTS_COLLECTION, "p1") = Some d ∧
        db w' = <[(POSTS_COLLECTION, "p1") := d']> (db w0) ∧
        obj_get "createdAt" d' = obj_get "createdAt" d ∧
        obj_get "id" d' = obj_get "id" d ∧
        obj_get "date" d' = obj_get "date" d ∧
        obj_get "comments" d' = obj_get "comments" d ∧
        obj_get "updatedAt" d' = Some (VTime (Timestamp_fromMillis (now w0))) ∧
        (∀ v, obj_get "comments" payload1 = Some v → obj_get "commentCount" d' = Some v) ∧
        (∀ k v, obj_get k payload1 = Some v →
                k ∉ ["createdAt"; "id"; "date"; "comments"; "updatedAt"; "commentCount"] →
                obj_get k d' = Some v) ∧
        (∀ k, obj_get k payload1 = None → k ∉ ["updatedAt"; "commentCount"] →
              obj_get k d' = obj_get k d)
  end.
Proof.
  apply (updatePost_frame w0 (IdStr "p1") payload1 (Some "u1")).
  - vm_compute. apply NoDup_cons. split; [set_solver|]. apply NoDup_singleton.
  - apply (bool_decide_unpack _). vm_compute. exact I.
  - apply (bool_decide_unpack _). vm_compute. exact I.
Defined.
End UpdatePost.

(** ** The retry loop of the read paths *)

Module ReadRetry.
Import Firestore.

(** Every round-trip of the world fails, with an error satisfying [P]. *)
Definition always_fails (P : JsError → Prop) (w : World) : Prop :=
  ∀ n r, ∃ e, net w n r = Some e ∧ P e.

(** A transient error: one the index branch of the handler does not claim. *)
Definition transient (e : JsError) : Prop := is_index_error e = false.

Definition categoryQuery (category : string) : Query :=
  mkQuery POSTS_COLLECTION [("category", VStr category)] None.

Definition slept (ms : Z) (w : World) : World := advance ms (log (Sleep ms) w).

Lemma always_fails_log P e w : always_fails P w → always_fails P (log e w).
Proof. done. Qed.

Lemma always_fails_slept P ms w : always_fails P w → always_fails P (slept ms w).
Proof. done. Qed.

(** A failing query: one round-trip, and the store's error is thrown. *)
Lemma query_fails_run {B} (q : Query) (k : list (string * object) → M B) (w : World) e :
  net w (length (trace w)) (ReqQuery (q_from q)) = Some e →
  (let* docs := getDocs q in k docs) w = (Throw e, log (Call (ReqQuery (q_from q))) w).
Proof. intros Hnet. mrun. by rewrite Hnet. Qed.

Section loop.
Context {A : Type} (body : M A) (rethrow : JsError → option JsError)
  (exhausted : JsError).

Lemma retry_loop_S fuel attempts :
  retry_loop body rethrow exhausted (S fuel) attempts =
  if (attempts <? MAX_RETRY_COUNT)%nat then
    try_catch body (λ error,
      match rethrow error with
      | Some e' => throw e'
      | None =>
          if (MAX_RETRY_COUNT <=? S attempts)%nat then throw exhausted
          else let* _ := delay (S attempts) in
               retry_loop body rethrow exhausted fuel (S attempts)
      end)
  else throw exhausted.
Proof. reflexivity. Qed.

Lemma retry_loop_rethrow fuel attempts w e e' w1 :
  (attempts < MAX_RETRY_COUNT)%nat →
  body w = (Throw e, w1) → rethrow e = Some e' →
  retry_loop body rethrow exhausted (S fuel) attempts w = (Throw e', w1).
Proof.
  intros Hlt Hbody Hre. rewrite retry_loop_S.
  rewrite (proj2 (Nat.ltb_lt _ _) Hlt).
  unfold try_catch. rewrite Hbody, Hre. done.
Qed.

Lemma retry_loop_again fuel attempts w e w1 :
  (S attempts < MAX_RETRY_COUNT)%nat →
  body w = (Throw e, w1) → rethrow e = None →
  retry_loop body rethrow exhausted (S fuel) attempts w =
  retry_loop body rethrow exhausted fuel (S attempts)
    (slept (2 ^ (Z.of_nat (S attempts) - 1) * 1000) w1).
Proof.
  intros Hlt Hbody Hre. rewrite retry_loop_S.
  rewrite (proj2 (Nat.ltb_lt attempts _)) by lia.
  unfold try_catch. rewrite Hbody, Hre.
  rewrite (proj2 (Nat.leb_gt _ _)) by lia.
  done.
Qed.

Lemma retry_loop_last fuel attempts w e w1 :
  S attempts = MAX_RETRY_COUNT →
  body w = (Throw e, w1) → rethrow e = None →
  retry_loop body rethrow exhausted (S fuel) attempts w = (Throw exhausted, w1).
Proof.
  intros Hlt Hbody Hre. rewrite retry_loop_S.
  rewrite (proj2 (Nat.ltb_lt attempts _)) by lia.
  unfold try_catch. rewrite Hbody, Hre.
  rewrite (proj2 (Nat.leb_le _ _)) by lia.
  done.
Qed.
End loop.

(** A read whose query always fails with a transient error is attempted
    exactly [MAX_RETRY_COUNT = 3] times, with sleeps of 1 s and 2 s in
    between, and ends with the "try again later" error. *)
Lemma fetchPostsByCategory_transient (category : string) (w : World) :
  category ≠ "" → category ≠ "all" →
  always_fails transient w →
  let q := Call (ReqQuery POSTS_COLLECTION) in
  ∃ w', fetchPostsByCategory category w =
          (Throw (Error (category +:+ " 카테고리 게시물을 가져오지 못했습니다. 잠시 후 다시 시도해주세요.")), w')
        ∧ trace w' = ([q; Sleep 2000; q; Sleep 1000; q] ++ trace w)%list
        ∧ db w' = db w.
Proof.
  intros H1 H2 Hfail q. unfold fetchPostsByCategory.
  rewrite !bool_decide_eq_false_2 by done. cbn [orb].
  change (S MAX_RETRY_COUNT) with 4%nat.
  destruct (Hfail (length (trace w)) (ReqQuery POSTS_COLLECTION)) as (e1 & Hn1 & Ht1).
  erewrite retry_loop_again;
    [|unfold MAX_RETRY_COUNT; lia | by apply (query_fails_run (categoryQuery category))
     | by rewrite Ht1].
  set (w1 := slept _ _).
  destruct (Hfail (length (trace w1)) (ReqQuery POSTS_COLLECTION)) as (e2 & Hn2 & Ht2).
  erewrite retry_loop_again;
    [|unfold MAX_RETRY_COUNT; lia | by apply (query_fails_run (categoryQuery category))
     | by rewrite Ht2].
  set (w2 := slept _ _).
  destruct (Hfail (length (trace w2)) (ReqQuery POSTS_COLLECTION)) as (e3 & Hn3 & Ht3).
  erewrite retry_loop_last;
    [|done | by apply (query_fails_run (categoryQuery category)) | by rewrite Ht3].
  eexists. split; [done|]. split; done.
Qed.

(** A read whose first query fails with a missing-index error is attempted
    once: the handler re-throws the configuration error at once. *)
Lemma fetchPostsByCategory_index (category : string) (w : World) (e : JsError) :
  category ≠ "" → category ≠ "all" →
  net w (length (trace w)) (ReqQuery POSTS_COLLECTION) = Some e →
  is_index_error e = true →
  ∃ w', fetchPostsByCategory category w =
          (Throw (Error (category +:+ " 카테고리 조회를 위한 " +:+ indexMessage e)), w')
        ∧ trace w' = Call (ReqQuery POSTS_COLLECTION) :: trace w
        ∧ db w' = db w.
Proof.
  intros H1 H2 Hnet Hidx. unfold fetchPostsByCategory.
  rewrite !bool_decide_eq_false_2 by done. cbn [orb].
  change (S MAX_RETRY_COUNT) with 4%nat.
  erewrite retry_loop_rethrow;
    [|unfold MAX_RETRY_COUNT; lia | by apply (query_fails_run (categoryQuery category))
     | by rewrite Hidx].
  eexists. split; [done|]. split; done.
Qed.
End ReadRetry.

(** ** The admin gate *)

Module Gate.
Import AdminAuth.

(** No session is stored. *)
Definition session_missing (w : World) : Prop :=
  localStorage w !! ADMIN_AUTH_KEY = None.

(** A session is stored and its [expiresAt] is a date before now. *)
Definition session_expired (w : World) : Prop :=
  ∃ o e t, localStorage w !! ADMIN_AUTH_KEY = Some (JsonText (JObj o)) ∧
           obj_get "expiresAt" o = Some e ∧
           newDate (Date_parse w) (Some e) = Some t ∧ t < now w.

(** A session is stored and its [expiresAt] is not a date before now. *)
Definition session_valid (w : World) : Prop :=
  ∃ o, localStorage w !! ADMIN_AUTH_KEY = Some (JsonText (JObj o)) ∧
       match newDate (Date_parse w) (obj_get "expiresAt" o) with
       | Some t => now w ≤ t
       | None => True
       end.

Lemma isAdminAuthenticated_denied (w : World) :
  session_missing w ∨ session_expired w →
  ∃ w', isAdminAuthenticated w = (Ok false, w') ∧ db w' = db w ∧ trace w' = trace w.
Proof.
  intros [Hm|(o & e & t & Hls & He & Ht & Hlt)];
    unfold isAdminAuthenticated, getAdminSession, getItem, removeItem, property; mrun.
  - red in Hm. rewrite Hm. by eexists.
  - rewrite Hls, He, Ht. simpl. rewrite decide_True by done. by eexists.
Qed.

Lemma isAdminAuthenticated_granted (w : World) :
  session_valid w → isAdminAuthenticated w = (Ok true, w).
Proof.
  intros (o & Hls & Ht).
  unfold isAdminAuthenticated, getAdminSession, getItem, removeItem, property; mrun.
  rewrite Hls. simpl. destruct (newDate _ _) as [t|]; [|done].
  by rewrite decide_False by lia.
Qed.

(** What a gated function does when the gate is shut. *)
Definition denied {A} (f : M A) (w : World) : Prop :=
  ∃ w', f w = (Throw (Error Categories.ADMIN_AUTH_ERROR), w') ∧
        db w' = db w ∧ trace w' = trace w.

Lemma gated_denied {A} (k : M A) (w : World) :
  session_missing w ∨ session_expired w →
  denied (let* _ := Categories.verifyAdminAuth in k) w.
Proof.
  intros H. destruct (isAdminAuthenticated_denied w H) as (w' & Hrun & Hdb & Htr).
  exists w'. unfold Categories.verifyAdminAuth, bind, throw. by rewrite Hrun.
Qed.

Lemma gated_granted {A} (k : M A) (w : World) :
  session_valid w → (let* _ := Categories.verifyAdminAuth in k) w = k w.
Proof.
  intros H. unfold Categories.verifyAdminAuth, bind, ret.
  by rewrite (isAdminAuthenticated_granted w H).
Qed.

(** C10: with no stored session, or with one whose [expiresAt] lies before
    now, each of the six admin mutations throws the authorisation error
    without a single store round-trip, and the store is as it was. *)
Theorem admin_mutations_gated (w : World) :
  session_missing w ∨ session_expired w →
  (∀ category, denied (Categories.addCategory category) w) ∧
  (∀ categoryId updatedName icon,
      denied (Categories.updateCategory categoryId updatedName icon) w) ∧
  (∀ categoryId, denied (Categories.deleteCategory categoryId) w) ∧
  (∀ sortedCategories, denied (Categories.reorderCategories sortedCategories) w) ∧
  (∀ collections includeUsers, denied (Backup.backupData collections includeUsers) w) ∧
  (∀ jsonData collections overwrite deleteBeforeRestore,
      denied (Backup.restoreData jsonData collections overwrite deleteBeforeRestore) w).
Proof.
  intros H. repeat split; intros; by apply gated_denied.
Qed.

(** A session that expired one millisecond ago. *)
Definition expired_session : json :=
  JObj [ ("id", JStr "admin"); ("isAdmin", JBool true);
         ("loggedInAt", JStr "2024-06-15T10:30:45.122Z");
         ("expiresAt", JStr "2024-06-15T12:30:45.122Z") ].

Definition w_expired : World :=
  quiet_world 1718454645123
    {[ ("settings", "global-settings") := [("categories", VArr [])] ]}
    {[ ADMIN_AUTH_KEY := JsonText expired_session ]} iso_parse.

Lemma admin_mutations_gated_witness :
  (∀ category, denied (Categories.addCategory category) w_expired) ∧
  (∀ categoryId updatedName icon,
      denied (Categories.updateCategory categoryId updatedName icon) w_expired) ∧
  (∀ categoryId, denied (Categories.deleteCategory categoryId) w_expired) ∧
  (∀ sortedCategories, denied (Categories.reorderCategories sortedCategories) w_expired) ∧
  (∀ collections includeUsers, denied (Backup.backupData collections includeUsers) w_expired) ∧
  (∀ jsonData collections overwrite deleteBeforeRestore,
      denied (Backup.restoreData jsonData collections overwrite deleteBeforeRestore) w_expired).
Proof.
  apply (admin_mutations_gated w_expired). right.
  exists [ ("id", JStr "admin"); ("isAdmin", JBool true);
           ("loggedInAt", JStr "2024-06-15T10:30:45.122Z");
           ("expiresAt", JStr "2024-06-15T12:30:45.122Z") ],
         (JStr "2024-06-15T12:30:45.122Z"), 1718454645122.
  split; [reflexivity|]. split; [reflexivity|]. split; [vm_compute; reflexivity|].
  vm_compute. reflexivity.
Defined.
End Gate.

(** ** The retry loop of the admin functions *)

Module AdminRetry.
Import Categories.

(** Every round-trip of the world succeeds. *)
Definition reliable (w : World) : Prop := ∀ n r, net w n r = None.

(** The number of back-off sleeps recorded in a trace. *)
Definition sleeps (t : list Event) : nat :=
  length (List.filter (λ e, negb (is_call e)) t).

Definition slept (ms : Z) (w : World) : World := advance ms (log (Sleep ms) w).

(** [w1] is [w] after [n] more round-trips that left the store alone. *)
Definition after_calls (n : nat) (w w1 : World) : Prop :=
  db w1 = db w ∧ now w1 = now w ∧
  calls (trace w1) = (calls (trace w) + n)%nat ∧
  sleeps (trace w1) = sleeps (trace w).

Lemma delay_run (attempts : nat) (w : World) :
  ∃ ms, 2 ^ Z.of_nat attempts * 1000 ≤ ms ∧ delay attempts w = (Ok tt, slept ms w).
Proof.
  unfold delay. mrun. eexists. split; [|reflexivity].
  assert (0 < 2 ^ Z.of_nat attempts) by (apply Z.pow_pos_nonneg; lia).
  assert (0 < (2 ^ Z.of_nat attempts * 1000) `div` 4).
  { apply Z.div_str_pos. lia. }
  pose proof (Z.mod_pos_bound (random w (length (trace w)))
                ((2 ^ Z.of_nat attempts * 1000) `div` 4)). lia.
Qed.

Section loop.
Context {A : Type} (body : M A) (what : string).

Lemma attempt_loop_S fuel attempts :
  retry_loop body what (S fuel) attempts =
  if (attempts <? MAX_RETRY_COUNT)%nat then
    try_catch body (λ error,
      let errorMsg := getErrorMessage error in
      if includes "resource-exhausted" errorMsg && (S attempts <? MAX_RETRY_COUNT)%nat
      then let* _ := delay (S attempts) in retry_loop body what fuel (S attempts)
      else if (MAX_RETRY_COUNT <=? S attempts)%nat
      then throw (Error (what +:+ ": " +:+ errorMsg))
      else let* _ := delay (S attempts) in retry_loop body what fuel (S attempts))
  else throw (Error (what +:+ ": 재시도 횟수 초과")).
Proof. reflexivity. Qed.

Lemma retry_loop_ok fuel attempts w a w1 :
  (attempts < MAX_RETRY_COUNT)%nat →
  body w = (Ok a, w1) →
  retry_loop body what (S fuel) attempts w = (Ok a, w1).
Proof.
  intros Hlt Hbody. rewrite attempt_loop_S.
  rewrite (proj2 (Nat.ltb_lt attempts _)) by lia.
  unfold try_catch. by rewrite Hbody.
Qed.

Lemma attempt_loop_again fuel attempts w e w1 :
  (S attempts < MAX_RETRY_COUNT)%nat →
  body w = (Throw e, w1) →
  ∃ ms, 2 ^ Z.of_nat (S attempts) * 1000 ≤ ms ∧
        retry_loop body what (S fuel) attempts w =
        retry_loop body what fuel (S attempts) (slept ms w1).
Proof.
  intros Hlt Hbody. rewrite attempt_loop_S.
  rewrite (proj2 (Nat.ltb_lt attempts _)) by lia.
  unfold try_catch. rewrite Hbody. cbv zeta.
  rewrite (proj2 (Nat.ltb_lt (S attempts) _)) by lia.
  rewrite (proj2 (Nat.leb_gt _ _)) by lia.
  destruct (delay_run (S attempts) w1) as (ms & Hms & Hrun).
  exists ms. split; [done|].
  destruct (includes _ _); simpl; unfold bind; by rewrite Hrun.
Qed.

Lemma attempt_loop_last fuel attempts w e w1 :
  S attempts = MAX_RETRY_COUNT →
  body w = (Throw e, w1) →
  retry_loop body what (S fuel) attempts w =
  (Throw (Error (what +:+ ": " +:+ message e)), w1).
Proof.
  intros Hlt Hbody. rewrite attempt_loop_S.
  rewrite (proj2 (Nat.ltb_lt attempts _)) by lia.
  unfold try_catch. rewrite Hbody. cbv zeta.
  rewrite (proj2 (Nat.ltb_ge (S attempts) _)) by lia.
  rewrite (proj2 (Nat.leb_le _ _)) by lia.
  by rewrite andb_false_r.
Qed.

Lemma retry_loop_from (I : World → Prop) (Q : JsError → Prop) (n : nat) :
  (∀ w, I w → ∃ e w1, body w = (Throw e, w1) ∧ Q e ∧ I w1 ∧ after_calls n w w1) →
  (∀ w ms, I w → I (slept ms w)) →
  ∀ k attempts fuel w,
    (attempts + S k = MAX_RETRY_COUNT)%nat → (k < fuel)%nat → I w →
    ∃ e w', retry_loop body what fuel attempts w =
              (Throw (Error (what +:+ ": " +:+ message e)), w') ∧
            Q e ∧ db w' = db w ∧
            calls (trace w') = (calls (trace w) + S k * n)%nat ∧
            sleeps (trace w') = (sleeps (trace w) + k)%nat ∧
            now w + (2 ^ Z.of_nat MAX_RETRY_COUNT - 2 ^ Z.of_nat (S attempts)) * 1000
              ≤ now w'.
Proof.
  intros Hbody Hsleep k. induction k as [|k IH]; intros attempts fuel w Hk Hfuel HI;
    (destruct fuel as [|fuel]; [lia|]);
    destruct (Hbody w HI) as (e & w1 & Hb & HQ & HI1 & Hd & Hn & Hc & Hs).
  - rewrite (attempt_loop_last fuel attempts w e w1) by (done || lia).
    exists e, w1. repeat split; try done; try lia.
    replace (S attempts) with MAX_RETRY_COUNT by lia. lia.
  - destruct (attempt_loop_again fuel attempts w e w1) as (ms & Hms & ->); [lia | done |].
    destruct (IH (S attempts) fuel (slept ms w1)) as (e' & w' & Hrun & HQ' & Hd' & Hc' & Hs' & Hn');
      [lia | lia | by apply Hsleep |].
    exists e', w'. split; [done|]. split; [done|].
    unfold slept, advance, log, sleeps, calls in *. simpl in *.
    split; [congruence|]. split; [lia|]. split; [lia|].
    assert (2 ^ Z.of_nat (S (S attempts)) = 2 * 2 ^ Z.of_nat (S attempts)) as Hp.
    { rewrite (Nat2Z.inj_succ (S attempts)), Z.pow_succ_r by lia. done. }
    lia.
Qed.

(** A body that fails in every world of an invariant [I], through [n]
    round-trips that leave the store alone, is run five times with four
    sleeps of at least 2, 4, 8 and 16 seconds in between; the error of the
    last run is then thrown under the message of the function. *)
Lemma retry_loop_exhausts (I : World → Prop) (Q : JsError → Prop) (n : nat) :
  (∀ w, I w → ∃ e w1, body w = (Throw e, w1) ∧ Q e ∧ I w1 ∧ after_calls n w w1) →
  (∀ w ms, I w → I (slept ms w)) →
  ∀ w, I w →
  ∃ e w', retry_loop body what (S MAX_RETRY_COUNT) 0 w =
            (Throw (Error (what +:+ ": " +:+ message e)), w') ∧
          Q e ∧ db w' = db w ∧
          calls (trace w') = (calls (trace w) + 5 * n)%nat ∧
          sleeps (trace w') = (sleeps (trace w) + 4)%nat ∧
          now w + 30000 ≤ now w'.
Proof.
  intros Hbody Hsleep w HI.
  destruct (retry_loop_from I Q n Hbody Hsleep 4 0 (S MAX_RETRY_COUNT) w)
    as (e & w' & Hrun & HQ & Hd & Hc & Hs & Hn); [done | unfold MAX_RETRY_COUNT; lia | done |].
  exists e, w'. by repeat split.
Qed.
End loop.
End AdminRetry.

(** ** Category administration *)

Module CategoryAdmin.
Import AdminAuth Categories AdminRetry Gate.

Definition settingsKey : string * string := (SETTINGS_COLLECTION, GLOBAL_SETTINGS_ID).

(** The settings document of [w] is [d] and holds the categories [cs]. *)
Definition settings_hold (w : World) (d : object) (cs : list CategoryItem) : Prop :=
  db w !! settingsKey = Some d ∧ obj_get "categories" d = Some (VArr (map item cs)).

Lemma reliable_slept w ms : reliable w → reliable (slept ms w).
Proof. done. Qed.

Lemma after_calls_log (r : Request) (w : World) : after_calls 1 w (log (Call r) w).
Proof. unfold after_calls, calls, sleeps. simpl. repeat split; lia. Qed.

Lemma getDoc_run {B} c id (k : option object → M B) (w : World) :
  (let* x := getDoc c id in k x) w =
  match net w (length (trace w)) (ReqGet c id) with
  | Some e => (Throw e, log (Call (ReqGet c id)) w)
  | None => k (db w !! (c, id)) (log (Call (ReqGet c id)) w)
  end.
Proof. mrun. by destruct (net w _ _). Qed.

Lemma getDocs_run {B} (q : Query) (k : list (string * object) → M B) (w : World) :
  (let* x := getDocs q in k x) w =
  match net w (length (trace w)) (ReqQuery (q_from q)) with
  | Some e => (Throw e, log (Call (ReqQuery (q_from q))) w)
  | None => k (run_query q (db w)) (log (Call (ReqQuery (q_from q))) w)
  end.
Proof. mrun. by destruct (net w _ _). Qed.

Lemma categories_of_items d cs w :
  obj_get "categories" d = Some (VArr (map item cs)) →
  categories_of d w = (Ok (map item cs), w).
Proof. intros H. unfold categories_of. by rewrite H. Qed.

Lemma property_item k c w :
  property k (item c) w =
  (Ok (obj_get k ([("id", VStr (id c)); ("name", VStr (name c))] ++
                  match icon c with Some i => [("icon", VStr i)] | None => [] end)%list), w).
Proof. done. Qed.

Lemma prop_is_id s c w : prop_is "id" s (item c) w = (Ok (bool_decide (id c = s)), w).
Proof.
  unfold prop_is, bind. rewrite property_item. simpl. unfold ret, is_str.
  do 2 f_equal. apply bool_decide_ext. split; congruence.
Qed.

Lemma prop_is_name s c w : prop_is "name" s (item c) w = (Ok (bool_decide (name c = s)), w).
Proof.
  unfold prop_is, bind. rewrite property_item. simpl. unfold ret, is_str.
  do 2 f_equal. apply bool_decide_ext. split; congruence.
Qed.

Lemma someM_id s cs w :
  someM (prop_is "id" s) (map item cs) w = (Ok (bool_decide (s ∈ map id cs)), w).
Proof.
  induction cs as [|c cs IH]; simpl.
  - done.
  - unfold bind. rewrite prop_is_id. destruct (decide (id c = s)) as [<-|Hne].
    + rewrite bool_decide_eq_true_2 by done. unfold ret. do 2 f_equal.
      symmetry. apply bool_decide_eq_true. apply list_elem_of_here.
    + rewrite bool_decide_eq_false_2 by done. rewrite IH. do 2 f_equal.
      apply bool_decide_ext. rewrite elem_of_cons. naive_solver.
Qed.

Lemma someM_name s cs w :
  someM (prop_is "name" s) (map item cs) w = (Ok (bool_decide (s ∈ map name cs)), w).
Proof.
  induction cs as [|c cs IH]; simpl.
  - done.
  - unfold bind. rewrite prop_is_name. destruct (decide (name c = s)) as [<-|Hne].
    + rewrite bool_decide_eq_true_2 by done. unfold ret. do 2 f_equal.
      symmetry. apply bool_decide_eq_true. apply list_elem_of_here.
    + rewrite bool_decide_eq_false_2 by done. rewrite IH. do 2 f_equal.
      apply bool_decide_ext. rewrite elem_of_cons. naive_solver.
Qed.

Lemma mapM_pure {A B} (f : A → M B) (g : A → B) (xs : list A) (w : World) :
  (∀ x, x ∈ xs → f x w = (Ok (g x), w)) →
  Firestore.mapM f xs w = (Ok (map g xs), w).
Proof.
  induction xs as [|x xs IH]; intros Hf; [done|].
  simpl. unfold bind. rewrite Hf by apply list_elem_of_here.
  rewrite IH; [done|]. intros y Hy. apply Hf. by apply list_elem_of_further.
Qed.

Lemma existingIds_items cs w :
  Firestore.mapM (property "id") (map item cs) w =
  (Ok (map (λ c, Some (VStr (id c))) cs), w).
Proof.
  rewrite (mapM_pure _ (λ v, match v with VObj o => obj_get "id" o | _ => None end)).
  - by rewrite map_map.
  - intros v Hv. apply list_elem_of_fmap in Hv as (c & -> & _). done.
Qed.

(** *** reorderCategories *)

(** The proposed list and the stored list have the same set of ids. *)
Definition same_ids (l cs : list CategoryItem) : Prop :=
  ∀ i, i ∈ map id l ↔ i ∈ map id cs.

Lemma filter_nil_Forall {A} (P : A → Prop) `{∀ x, Decision (P x)} (l : list A) :
  filter P l = [] ↔ Forall (λ x, ¬ P x) l.
Proof.
  induction l as [|x l IH]; [by split|].
  rewrite filter_cons, Forall_cons. destruct (decide (P x)); [|by rewrite IH; naive_solver].
  split; [done | naive_solver].
Qed.

Lemma missing_nil (l cs : list CategoryItem) :
  filter (λ i, has (map id l) i = false) (map (λ c, Some (VStr (id c))) cs) = [] ↔
  ∀ i, i ∈ map id cs → i ∈ map id l.
Proof.
  rewrite filter_nil_Forall, Forall_fmap, Forall_forall. split.
  - intros H i Hi. apply list_elem_of_fmap in Hi as (c & -> & Hc).
    specialize (H c Hc). simpl in H. apply not_false_is_true in H.
    by apply bool_decide_eq_true in H.
  - intros H c Hc. simpl. rewrite bool_decide_eq_true_2; [done|].
    apply H. apply list_elem_of_fmap. by exists c.
Qed.

Lemma added_nil (l cs : list CategoryItem) :
  filter (λ i, Some (VStr i) ∉ map (λ c, Some (VStr (id c))) cs) (map id l) = [] ↔
  ∀ i, i ∈ map id l → i ∈ map id cs.
Proof.
  rewrite filter_nil_Forall, Forall_forall.
  assert (∀ i, Some (VStr i) ∈ map (λ c, Some (VStr (id c))) cs ↔ i ∈ map id cs) as Hin.
  { intros i. rewrite !list_elem_of_fmap. split; intros (c & Hc & ?); exists c; split; congruence || done. }
  split.
  - intros H i Hi. apply Hin. by apply dec_stable, H.
  - intros H i Hi Hn. apply Hn, Hin, H, Hi.
Qed.

#[global] Instance same_ids_dec l cs : Decision (same_ids l cs).
Proof.
  refine (cast_if_and (decide (Forall (λ i, i ∈ map id cs) (map id l)))
                      (decide (Forall (λ i, i ∈ map id l) (map id cs))));
    unfold same_ids; rewrite ?Forall_forall in *; naive_solver.
Defined.

(** What the stored settings become when a reorder is accepted. *)
Definition reordered (d : object) (l : list CategoryItem) (t : Z) : object :=
  obj_set "updatedAt" (VTime (Timestamp_fromMillis t))
    (obj_set "categories" (VArr (map item l)) d).

(** One attempt of [reorderCategories] on a reliable store: it is accepted
    exactly when the two id sets agree. *)
Lemma reorderCategories_attempt_run l w d cs :
  reliable w → settings_hold w d cs →
  let w1 := log (Call (ReqGet SETTINGS_COLLECTION GLOBAL_SETTINGS_ID)) w in
  if decide (same_ids l cs) then
    reorderCategories_attempt l w =
    (Ok true, set_db (insert settingsKey (reordered d l (now w)))
                (log (Call (ReqUpdate SETTINGS_COLLECTION GLOBAL_SETTINGS_ID)) w1))
  else ∃ e, reorderCategories_attempt l w = (Throw e, w1).
Proof.
  intros Hrel [Hd Hcs] w1.
  assert (Hrun : reorderCategories_attempt l w =
    (match filter (λ i, has (map id l) i = false) (map (λ c, Some (VStr (id c))) cs) with
     | missing :: _ =>
         throw (Error ("카테고리 ID '" +:+ show_id missing +:+
                       "'가 누락되었습니다. 모든 기존 카테고리를 포함해야 합니다."))
     | [] =>
         match filter (λ i, Some (VStr i) ∉ map (λ c, Some (VStr (id c))) cs) (map id l) with
         | added :: _ =>
             throw (Error ("카테고리 ID '" +:+ added +:+
                           "'는 기존에 존재하지 않습니다. 새 카테고리는 추가할 수 없습니다."))
         | [] =>
             let* now := Timestamp_now in
             let* _ := updateDoc SETTINGS_COLLECTION GLOBAL_SETTINGS_ID
                         [ ("categories", Plain (VArr (map item l)));
                           ("updatedAt", Plain (VTime now)) ] in
             ret true
         end
     end) w1).
  { unfold reorderCategories_attempt.
    rewrite getDoc_run, Hrel. fold settingsKey. rewrite Hd.
    unfold bind at 1. rewrite (categories_of_items d cs) by done.
    unfold bind at 1. rewrite existingIds_items. done. }
  rewrite Hrun. clear Hrun.
  destruct (decide (same_ids l cs)) as [Hsame|Hdiff].
  - assert (filter (λ i, has (map id l) i = false) (map (λ c, Some (VStr (id c))) cs) = []) as ->.
    { apply missing_nil. intros i. apply Hsame. }
    assert (filter (λ i, Some (VStr i) ∉ map (λ c, Some (VStr (id c))) cs) (map id l) = []) as ->.
    { apply added_nil. intros i. apply Hsame. }
    mrun. simpl. rewrite Hrel. fold settingsKey. simpl. rewrite Hd. done.
  - destruct (filter (λ i, has (map id l) i = false)
                (map (λ c, Some (VStr (id c))) cs)) as [|missing ?] eqn:Hm;
      [|by eexists].
    destruct (filter (λ i, Some (VStr i) ∉ map (λ c, Some (VStr (id c))) cs)
                (map id l)) as [|added ?] eqn:Ha;
      [|by eexists].
    exfalso. apply Hdiff. intros i. split.
    + by apply added_nil.
    + by apply missing_nil.
Qed.

(** The invariant of the retries on a reliable store. *)
Definition steady (w0 : World) (w : World) : Prop := reliable w ∧ db w = db w0.

Lemma steady_slept w0 w ms : steady w0 w → steady w0 (slept ms w).
Proof. done. Qed.

Lemma steady_log w0 w e : steady w0 w → steady w0 (log e w).
Proof. done. Qed.

Lemma settings_hold_steady w0 w d cs : steady w0 w → settings_hold w0 d cs → settings_hold w d cs.
Proof. intros [_ Hdb] [Hd Hcs]. split; [by rewrite Hdb | done]. Qed.

(** A world with a valid session, a reliable store and two categories. *)
Definition valid_session : json :=
  JObj [ ("id", JStr "admin"); ("isAdmin", JBool true);
         ("loggedInAt", JStr "2024-06-15T12:00:00.000Z");
         ("expiresAt", JStr "2024-06-15T14:00:00.000Z") ].

Definition general : CategoryItem := mkCategory "general" "General" None.
Definition tech : CategoryItem := mkCategory "tech" "Tech" (Some "laptop").

Definition settings1 : object :=
  [ ("id", VStr "global-settings"); ("categories", VArr [item general; item tech]);
    ("updatedAt", VTime (mkTimestamp 1700000000 0)) ].

Definition post_in (category : string) : object :=
  [ ("title", VStr "hello"); ("category", VStr category); ("authorId", VStr "u1");
    ("updatedAt", VTime (mkTimestamp 1700000000 0)) ].

Definition w_admin : World :=
  quiet_world 1718454645123
    {[ settingsKey := settings1; ("posts", "p1") := post_in "tech" ]}
    {[ ADMIN_AUTH_KEY := JsonText valid_session ]} iso_parse.

Lemma w_admin_valid : session_valid w_admin.
Proof.
  exists [ ("id", JStr "admin"); ("isAdmin", JBool true);
           ("loggedInAt", JStr "2024-06-15T12:00:00.000Z");
           ("expiresAt", JStr "2024-06-15T14:00:00.000Z") ].
  split; [reflexivity|]. vm_compute. discriminate.
Qed.

Lemma w_admin_reliable : reliable w_admin.
Proof. done. Qed.

Lemma w_admin_settings : settings_hold w_admin settings1 [general; tech].
Proof. split; reflexivity. Qed.

(** C2, as stated, fails: a list that repeats an id is accepted although it
    is no permutation of the stored ids. *)
Lemma reorderCategories_accepts_repeated_id :
  ¬ (∀ (w : World) (d : object) (cs l : list CategoryItem),
       session_valid w → reliable w → settings_hold w d cs →
       (∃ w', reorderCategories l w = (Ok true, w')) ↔ map id l ≡ₚ map id cs).
Proof.
  intros H.
  destruct (H w_admin settings1 [general; tech] [tech; general; tech]
              w_admin_valid w_admin_reliable w_admin_settings) as [Hperm _].
  assert (∃ w', reorderCategories [tech; general; tech] w_admin = (Ok true, w')) as Hok.
  { assert ((reorderCategories [tech; general; tech] w_admin).1 = Ok true) as Hfst
      by (vm_compute; reflexivity).
    destruct (reorderCategories [tech; general; tech] w_admin) as [r w'].
    simpl in Hfst. subst r. by exists w'. }
  apply Hperm, Permutation_length in Hok. discriminate Hok.
Qed.

(** C2 (amended): on a reliable store and with a valid session,
    [reorderCategories] succeeds exactly when the proposed list has the same
    set of ids as the stored one, and then stores the proposed list; when it
    fails, which it does after its retries, the store is as it was. *)
Theorem reorderCategories_same_ids (w : World) (d : object) (cs l : list CategoryItem) :
  session_valid w → reliable w → settings_hold w d cs →
  let '(r, w') := reorderCategories l w in
  match r with
  | Ok _ => same_ids l cs ∧ db w' = <[settingsKey := reordered d l (now w)]> (db w)
  | Throw _ => ¬ same_ids l cs ∧ db w' = db w
  end.
Proof.
  intros Hvalid Hrel Hset. unfold reorderCategories. rewrite gated_granted by done.
  pose proof (reorderCategories_attempt_run l w d cs Hrel Hset) as Hrun. simpl in Hrun.
  destruct (decide (same_ids l cs)) as [Hsame|Hdiff].
  - erewrite retry_loop_ok; [|unfold MAX_RETRY_COUNT; lia | exact Hrun].
    split; done.
  - destruct (retry_loop_exhausts (reorderCategories_attempt l)
                "카테고리 순서 변경 중 오류가 발생했습니다" (steady w) (λ _, True) 1)
      with (w := w) as (e & w' & -> & _ & Hdb & _); [| |done|done].
    + intros w1 Hst.
      pose proof (reorderCategories_attempt_run l w1 d cs (proj1 Hst)
                    (settings_hold_steady w w1 d cs Hst Hset)) as Hrun1. simpl in Hrun1.
      rewrite decide_False in Hrun1 by done. destruct Hrun1 as (e & Hrun1).
      exists e, (log (Call (ReqGet SETTINGS_COLLECTION GLOBAL_SETTINGS_ID)) w1).
      split; [done|]. split; [done|]. split; [by apply steady_log|]. apply after_calls_log.
    + intros. by apply steady_slept.
Qed.

Lemma reorderCategories_same_ids_witness :
  let '(r, w') := reorderCategories [tech; general] w_admin in
  match r with
  | Ok _ => same_ids [tech; general] [general; tech] ∧
            db w' = <[settingsKey := reordered settings1 [tech; general] (now w_admin)]> (db w_admin)
  | Throw _ => ¬ same_ids [tech; general] [general; tech] ∧ db w' = db w_admin
  end.
Proof.
  apply (reorderCategories_same_ids w_admin settings1 [general; tech] [tech; general]
           w_admin_valid w_admin_reliable w_admin_settings).
Defined.

(** *** Validation failures inside the retry loop *)

(** What an exhausted admin function has done: it threw [what: e], made
    [5 * n] round-trips and slept four times, for 30 seconds at least, and
    the store is as it was. *)
Definition exhausted {A} (f : M A) (what : string) (n : nat) (Q : JsError → Prop)
    (w : World) : Prop :=
  ∃ e w', f w = (Throw (Error (what +:+ ": " +:+ message e)), w') ∧ Q e ∧
          db w' = db w ∧
          calls (trace w') = (calls (trace w) + 5 * n)%nat ∧
          sleeps (trace w') = (sleeps (trace w) + 4)%nat ∧
          now w + 30000 ≤ now w'.

Definition id_taken (newId : string) (e : JsError) : Prop :=
  e = Error ("ID '" +:+ newId +:+ "'는 이미 사용 중입니다. 다른 카테고리 이름을 선택해주세요.").

Definition name_taken (name : string) (e : JsError) : Prop :=
  e = Error ("이름 '" +:+ name +:+ "'은(는) 이미 사용 중입니다. 다른 카테고리 이름을 선택해주세요.").

Lemma addCategory_attempt_taken category w d cs :
  reliable w → settings_hold w d cs →
  newId (in_name category) ≠ "" →
  newId (in_name category) ∈ map id cs ∨ in_name category ∈ map name cs →
  ∃ e, addCategory_attempt category w =
         (Throw e, log (Call (ReqGet SETTINGS_COLLECTION GLOBAL_SETTINGS_ID)) w) ∧
       (id_taken (newId (in_name category)) e ∨ name_taken (in_name category) e).
Proof.
  intros Hrel [Hd Hcs] Hne Htaken. unfold addCategory_attempt. cbv zeta.
  rewrite bool_decide_eq_false_2 by done.
  rewrite getDoc_run, Hrel. fold settingsKey. rewrite Hd.
  unfold bind at 1. rewrite (categories_of_items d cs) by done.
  unfold bind at 1. rewrite someM_id.
  destruct (decide (newId (in_name category) ∈ map id cs)) as [Hid|Hid].
  - rewrite bool_decide_eq_true_2 by done. eexists. split; [done|]. by left.
  - rewrite bool_decide_eq_false_2 by done.
    unfold bind at 1. rewrite someM_name.
    destruct Htaken as [?|Hname]; [done|].
    rewrite bool_decide_eq_true_2 by done. eexists. split; [done|]. by right.
Qed.

(** A category whose id or name is taken: the check fails five times over. *)
Lemma addCategory_taken category w d cs :
  session_valid w → reliable w → settings_hold w d cs →
  newId (in_name category) ≠ "" →
  newId (in_name category) ∈ map id cs ∨ in_name category ∈ map name cs →
  exhausted (addCategory category) "카테고리 추가 중 오류가 발생했습니다" 1
    (λ e, id_taken (newId (in_name category)) e ∨ name_taken (in_name category) e) w.
Proof.
  intros Hvalid Hrel Hset Hne Htaken. unfold exhausted, addCategory.
  rewrite gated_granted by done.
  apply (retry_loop_exhausts _ _ (steady w)); [| |done].
  - intros w1 Hst.
    destruct (addCategory_attempt_taken category w1 d cs (proj1 Hst)
                (settings_hold_steady w w1 d cs Hst Hset) Hne Htaken) as (e & Hrun & He).
    exists e, (log (Call (ReqGet SETTINGS_COLLECTION GLOBAL_SETTINGS_ID)) w1).
    split; [done|]. split; [done|]. split; [by apply steady_log|]. apply after_calls_log.
  - intros. by apply steady_slept.
Qed.

(** A reorder list with another id set: likewise. *)
Lemma reorderCategories_mismatch l w d cs :
  session_valid w → reliable w → settings_hold w d cs →
  ¬ same_ids l cs →
  exhausted (reorderCategories l) "카테고리 순서 변경 중 오류가 발생했습니다" 1 (λ _, True) w.
Proof.
  intros Hvalid Hrel Hset Hdiff. unfold exhausted, reorderCategories.
  rewrite gated_granted by done.
  apply (retry_loop_exhausts _ _ (steady w)); [| |done].
  - intros w1 Hst.
    pose proof (reorderCategories_attempt_run l w1 d cs (proj1 Hst)
                  (settings_hold_steady w w1 d cs Hst Hset)) as Hrun1. simpl in Hrun1.
    rewrite decide_False in Hrun1 by done. destruct Hrun1 as (e & Hrun1).
    exists e, (log (Call (ReqGet SETTINGS_COLLECTION GLOBAL_SETTINGS_ID)) w1).
    split; [done|]. split; [done|]. split; [by apply steady_log|]. apply after_calls_log.
  - intros. by apply steady_slept.
Qed.

(** *** A store that is down *)

(** Every round-trip of the world fails. *)
Definition down (w : World) : Prop := ∀ n r, is_Some (net w n r).

Lemma down_slept w ms : down w → down (slept ms w).
Proof. done. Qed.

(** An error with which the store of [w] answers a read of the settings. *)
Definition settings_error (w : World) (e : JsError) : Prop :=
  ∃ n, net w n (ReqGet SETTINGS_COLLECTION GLOBAL_SETTINGS_ID) = Some e.

Lemma attempt_down {A} (k : option object → M A) (w0 w : World) :
  down w0 → net w = net w0 →
  ∃ e w1, (let* settingsSnap := getDoc SETTINGS_COLLECTION GLOBAL_SETTINGS_ID in
           k settingsSnap) w = (Throw e, w1) ∧
          settings_error w0 e ∧ net w1 = net w0 ∧ after_calls 1 w w1.
Proof.
  intros Hdown Hnet. rewrite getDoc_run.
  destruct (Hdown (length (trace w)) (ReqGet SETTINGS_COLLECTION GLOBAL_SETTINGS_ID))
    as [e He].
  rewrite Hnet, He. eexists _, _. split; [done|]. split; [by eexists|].
  split; [done|]. apply after_calls_log.
Qed.

(** With the store down, each category mutation makes five attempts, one
    round-trip each, and then throws the error of its last read under its
    own message. *)
Lemma category_mutations_down (w : World) :
  session_valid w → down w →
  (∀ category, newId (in_name category) ≠ "" →
     exhausted (addCategory category) "카테고리 추가 중 오류가 발생했습니다" 1
       (settings_error w) w) ∧
  (∀ categoryId updatedName icon,
     exhausted (updateCategory categoryId updatedName icon)
       "카테고리 수정 중 오류가 발생했습니다" 1 (settings_error w) w) ∧
  (∀ categoryId,
     exhausted (deleteCategory categoryId) "카테고리 삭제 중 오류가 발생했습니다" 1
       (settings_error w) w) ∧
  (∀ sortedCategories,
     exhausted (reorderCategories sortedCategories)
       "카테고리 순서 변경 중 오류가 발생했습니다" 1 (settings_error w) w).
Proof.
  intros Hvalid Hdown. repeat split; intros; unfold exhausted;
    unfold addCategory, updateCategory, deleteCategory, reorderCategories;
    rewrite gated_granted by done;
    (apply (retry_loop_exhausts _ _ (λ w1, net w1 = net w)); [| by intros | done]);
    intros w1 Hw1.
  - unfold addCategory_attempt. cbv zeta. rewrite bool_decide_eq_false_2 by done.
    by apply attempt_down.
  - by apply attempt_down.
  - by apply attempt_down.
  - by apply attempt_down.
Qed.

(** *** deleteCategory *)

Lemma findM_id s cs w :
  findM (prop_is "id" s) (map item cs) w =
  (Ok (item <$> List.find (λ c, bool_decide (id c = s)) cs), w).
Proof.
  induction cs as [|c cs IH]; [done|].
  simpl. unfold bind. rewrite prop_is_id. destruct (bool_decide (id c = s)); [done|].
  by rewrite IH.
Qed.

(** The categories that remain when [c] is taken out, by id. *)
Definition remaining (c : string) (cs : list CategoryItem) : list CategoryItem :=
  List.filter (λ c', negb (bool_decide (id c' = c))) cs.

(** The id of the first remaining category, or the empty string. *)
Definition target (c : string) (cs : list CategoryItem) : string :=
  match remaining c cs with
  | first :: _ => id first
  | [] => ""
  end.

Lemma filterM_id s cs w :
  filterM (λ cat, let* b := prop_is "id" s cat in ret (negb b)) (map item cs) w =
  (Ok (map item (remaining s cs)), w).
Proof.
  induction cs as [|c cs IH]; [done|].
  simpl. unfold bind at 1 2. rewrite prop_is_id. unfold ret at 1.
  unfold bind at 1. rewrite IH. unfold ret. by destruct (bool_decide (id c = s)).
Qed.

(** The posts that reference category [c]. *)
Definition postsQuery (c : string) : Query :=
  mkQuery POSTS_COLLECTION [("category", VStr c)] None.

Lemma run_query_elem (q : Query) (store : gmap (string * string) object)
    (i : string) (p : object) :
  q_limit q = None →
  (i, p) ∈ run_query q store ↔
  store !! (q_from q, i) = Some p ∧ Forall (λ fv, obj_get fv.1 p = Some fv.2) (q_where q).
Proof.
  intros Hlim. unfold run_query. rewrite Hlim, list_elem_of_fmap. split.
  - intros ([[c i'] p'] & [= -> ->] & Hin). apply elem_of_map_to_list in Hin.
    apply map_lookup_filter_Some in Hin as [Hl [Hc Hw]]. simpl in *. by subst.
  - intros [Hl Hw]. exists ((q_from q, i), p). split; [done|].
    apply elem_of_map_to_list, map_lookup_filter_Some. by repeat split.
Qed.

Lemma run_query_NoDup (q : Query) (store : gmap (string * string) object) :
  q_limit q = None → NoDup (run_query q store).*1.
Proof.
  intros Hlim. unfold run_query. rewrite Hlim.
  pose proof (NoDup_fst_map_to_list (filter (matches q) store)) as Hnd.
  assert (Forall (λ kd : (string * string) * object, kd.1.1 = q_from q)
            (map_to_list (filter (matches q) store))) as Hall.
  { apply Forall_forall. intros [[c i] p] Hin. apply elem_of_map_to_list in Hin.
    apply map_lookup_filter_Some in Hin as [_ [Hc _]]. done. }
  induction (map_to_list (filter (matches q) store)) as [|[[c i] p] l IH]; [constructor|].
  simpl in *. apply NoDup_cons in Hnd as [Hnotin Hnd].
  apply Forall_cons in Hall as [Hc Hall]. simpl in Hc. subst c.
  apply NoDup_cons. split; [|by apply IH].
  intros Hin. apply Hnotin. apply list_elem_of_fmap in Hin as ([i' p'] & Hi & Hin).
  simpl in Hi. subst i'.
  apply list_elem_of_fmap in Hin as ([[c'' i''] p''] & Heq & Hin).
  simpl in Heq. injection Heq as -> ->.
  rewrite Forall_forall in Hall. pose proof (Hall _ Hin) as Hc. simpl in Hc. subst c''.
  apply list_elem_of_fmap. by exists ((q_from q, i''), p'').
Qed.

Lemma apply_writes_app (ws1 ws2 : list Write) (store : gmap (string * string) object) :
  apply_writes (ws1 ++ ws2) store = apply_writes ws1 store ≫= apply_writes ws2.
Proof.
  revert store. induction ws1 as [|wr ws1 IH]; intros store; [done|].
  simpl. destruct (apply_write wr store); [apply IH | done].
Qed.

(** A batch of updates of distinct, existing documents of one collection. *)
Lemma apply_updates (c : string) (upd : list (string * FieldValue)) (ids : list string)
    (store : gmap (string * string) object) :
  NoDup ids → (∀ i, i ∈ ids → is_Some (store !! (c, i))) →
  ∃ store', apply_writes (map (λ i, TxUpdate c i upd) ids) store = Some store' ∧
    ∀ k, store' !! k =
         if decide (k.1 = c ∧ k.2 ∈ ids) then apply_update upd <$> store !! k
         else store !! k.
Proof.
  revert store. induction ids as [|i ids IH]; intros store Hnd Hin.
  - exists store. split; [done|]. intros k. rewrite decide_False; [done|].
    intros [_ H]. by apply elem_of_nil in H.
  - apply NoDup_cons in Hnd as [Hnotin Hnd].
    destruct (Hin i) as [d Hd]; [apply list_elem_of_here|].
    simpl. rewrite Hd.
    destruct (IH (<[(c, i) := apply_update upd d]> store) Hnd) as (store' & -> & Hlook).
    { intros j Hj. rewrite lookup_insert_ne; [apply Hin; by apply list_elem_of_further|].
      intros [= ->]. done. }
    exists store'. split; [done|]. intros [kc ki]. rewrite Hlook. simpl.
    destruct (decide (kc = c ∧ ki ∈ ids)) as [[-> Hki]|Hno].
    + rewrite decide_True by (split; [done | by apply list_elem_of_further]).
      rewrite lookup_insert_ne; [done|]. intros [= ->]. done.
    + destruct (decide ((kc, ki) = (c, i))) as [[= -> ->]|Hne].
      * rewrite lookup_insert_eq, decide_True by (split; [done | apply list_elem_of_here]).
        by rewrite Hd.
      * rewrite lookup_insert_ne by done.
        rewrite decide_False; [done|]. intros [-> Hki].
        apply elem_of_cons in Hki as [->|Hki]; [done | by apply Hno].
Qed.

(** The writes that a successful [deleteCategory] commits. *)
Definition moves (c : string) (cs : list CategoryItem) (t : Z)
    (posts : list (string * object)) : list Write :=
  map (λ postDoc : string * object,
         TxUpdate POSTS_COLLECTION postDoc.1
           [ ("category", Plain (VStr (target c cs)));
             ("updatedAt", Plain (VTime (Timestamp_fromMillis t))) ]) posts.

Definition removal (cat0 : CategoryItem) (t : Z) : Write :=
  TxUpdate SETTINGS_COLLECTION GLOBAL_SETTINGS_ID
    [ ("categories", arrayRemove (item cat0));
      ("updatedAt", Plain (VTime (Timestamp_fromMillis t))) ].

Definition notFound (c : string) : JsError :=
  Error ("ID가 '" +:+ c +:+ "'인 카테고리를 찾을 수 없습니다.").

Definition noTarget : JsError :=
  Error "게시물을 이동할 카테고리가 없습니다. 최소한 하나의 카테고리가 필요합니다.".

Definition commitFailed : JsError := mkError (Some "not-found") "No document to update".

(** One attempt of [deleteCategory] on a reliable store. *)
Lemma deleteCategory_attempt_run c w d cs :
  reliable w → settings_hold w d cs →
  let w1 := log (Call (ReqGet SETTINGS_COLLECTION GLOBAL_SETTINGS_ID)) w in
  let w2 := log (Call (ReqQuery POSTS_COLLECTION)) w1 in
  let w3 := log (Call ReqCommit) w2 in
  let posts := run_query (postsQuery c) (db w) in
  deleteCategory_attempt c w =
  match List.find (λ c', bool_decide (id c' = c)) cs with
  | None => (Throw (notFound c), w1)
  | Some cat0 =>
      if decide (posts ≠ [] ∧ target c cs = "") then (Throw noTarget, w2)
      else
        match apply_writes (moves c cs (now w) posts ++ [removal cat0 (now w)]) (db w) with
        | Some store' => (Ok true, set_db (λ _, store') w3)
        | None => (Throw commitFailed, w3)
        end
  end.
Proof.
  intros Hrel [Hd Hcs] w1 w2 w3 posts. unfold deleteCategory_attempt.
  rewrite getDoc_run, Hrel. fold settingsKey. rewrite Hd.
  unfold bind at 1. rewrite (categories_of_items d cs) by done.
  unfold bind at 1. rewrite findM_id.
  destruct (List.find _ cs) as [cat0|]; simpl; [|done].
  unfold runTransaction. unfold bind at 1.
  rewrite (getDocs_run (postsQuery c)).
  fold w1. change (net w1) with (net w). rewrite Hrel.
  change (db w1) with (db w). simpl q_from. fold w2. fold posts. clearbody posts.
  unfold bind at 1. rewrite filterM_id.
  unfold moves, target.
  destruct (remaining c cs) as [|first rest] eqn:Hrem.
  - unfold bind at 1. unfold ret at 1.
    destruct posts as [|post posts'] eqn:Hposts.
    + rewrite decide_False by (intros [? _]; done).
      mrun. cbn -[apply_writes]. rewrite !Hrel. cbn -[apply_writes].
      by destruct (apply_writes _ (db w)).
    + rewrite decide_True by done. mrun. simpl. done.
  - cbn [map]. unfold bind at 1. unfold bind at 1. rewrite property_item. simpl obj_get.
    unfold ret at 1. unfold ret at 1.
    destruct posts as [|post posts'] eqn:Hposts.
    + rewrite decide_False by (intros [? _]; done).
      mrun. cbn -[apply_writes]. rewrite !Hrel. cbn -[apply_writes].
      by destruct (apply_writes _ (db w)).
    + destruct (decide (id first = "")) as [Hempty|Hfull].
      * rewrite decide_True by done. rewrite Hempty. mrun. simpl. done.
      * rewrite decide_False by (intros [_ ?]; done).
        unfold truthy. rewrite bool_decide_eq_false_2 by done. simpl negb. cbv iota.
        unfold bind at 1.
        rewrite (mapM_pure _ (λ postDoc : string * object,
                   TxUpdate POSTS_COLLECTION postDoc.1
                     [ ("category", Plain (VStr (id first)));
                       ("updatedAt", Plain (VTime (Timestamp_fromMillis (now w)))) ]))
          by done.
        mrun. cbn -[apply_writes]. rewrite !Hrel. cbn -[apply_writes].
        by destruct (apply_writes _ _).
Qed.

Lemma item_inj c1 c2 : item c1 = item c2 → c1 = c2.
Proof.
  destruct c1 as [i1 n1 [o1|]], c2 as [i2 n2 [o2|]]; unfold item; simpl;
    intros [= ]; congruence.
Qed.

Lemma find_Some_id c cs cat0 :
  List.find (λ c', bool_decide (id c' = c)) cs = Some cat0 → id cat0 = c ∧ cat0 ∈ cs.
Proof.
  intros H. apply find_some in H as [Hin Hid].
  apply bool_decide_eq_true in Hid. split; [done|]. by apply list_elem_of_In.
Qed.


(** With distinct ids, removing the stored object of [cat0] leaves exactly
    the categories with another id. *)
Lemma arrayRemove_remaining c cs cat0 :
  NoDup (map id cs) → id cat0 = c → cat0 ∈ cs →
  filter (λ v, v ≠ item cat0) (map item cs) = map item (remaining c cs).
Proof.
  intros Hnd Hid Hin. unfold remaining.
  assert (∀ c', c' ∈ cs → (item c' ≠ item cat0 ↔ id c' ≠ c)) as Hiff.
  { intros c' Hc'. split.
    - intros Hne Heq. apply Hne. f_equal.
      apply list_elem_of_lookup in Hc' as [i Hi]. apply list_elem_of_lookup in Hin as [j Hj].
      assert (i = j) as ->.
      { apply (NoDup_lookup (map id cs) i j c); [done|..];
          rewrite list_lookup_fmap; [by rewrite Hi; simpl; f_equal | by rewrite Hj; simpl; f_equal]. }
      congruence.
    - intros Hne Heq. apply item_inj in Heq. congruence. }
  clear Hnd Hin. induction cs as [|c' cs IH]; [done|].
  simpl. rewrite filter_cons.
  assert (item c' ≠ item cat0 ↔ id c' ≠ c) as H1 by (apply Hiff, list_elem_of_here).
  rewrite IH by (intros; apply Hiff; by apply list_elem_of_further).
  destruct (decide (item c' ≠ item cat0)) as [Hne|Heq].
  - rewrite bool_decide_eq_false_2 by (by apply H1). done.
  - rewrite bool_decide_eq_true_2; [done|]. apply dec_stable. intros Hn. by apply Heq, H1.
Qed.

(** What the commit of a successful [deleteCategory] does to the store. *)
Lemma delete_commit (c : string) (cs : list CategoryItem) (cat0 : CategoryItem) (t : Z)
    (store : gmap (string * string) object) (d : object) :
  store !! settingsKey = Some d →
  let upd := [ ("category", Plain (VStr (target c cs)));
               ("updatedAt", Plain (VTime (Timestamp_fromMillis t))) ] in
  let rem := [ ("categories", arrayRemove (item cat0));
               ("updatedAt", Plain (VTime (Timestamp_fromMillis t))) ] in
  ∃ store',
    apply_writes (moves c cs t (run_query (postsQuery c) store) ++ [removal cat0 t]) store
      = Some store' ∧
    store' !! settingsKey = Some (apply_update rem d) ∧
    (∀ pid p, store !! (POSTS_COLLECTION, pid) = Some p →
              obj_get "category" p = Some (VStr c) →
              store' !! (POSTS_COLLECTION, pid) = Some (apply_update upd p)) ∧
    (∀ k, k ≠ settingsKey →
          (∀ p, store !! k = Some p →
                ¬ (k.1 = POSTS_COLLECTION ∧ obj_get "category" p = Some (VStr c))) →
          store' !! k = store !! k).
Proof.
  intros Hd upd rem.
  set (posts := run_query (postsQuery c) store).
  assert (moves c cs t posts = map (λ i, TxUpdate POSTS_COLLECTION i upd) posts.*1) as ->.
  { unfold moves. by rewrite <- list_fmap_compose. }
  destruct (apply_updates POSTS_COLLECTION upd posts.*1 store) as (store1 & Hw & Hlook).
  { by apply run_query_NoDup. }
  { intros i Hi. apply list_elem_of_fmap in Hi as ([i' p] & -> & Hin).
    apply run_query_elem in Hin as [Hl _]; [|done]. by eexists. }
  assert (∀ pid, pid ∈ posts.*1 ↔
            ∃ p, store !! (POSTS_COLLECTION, pid) = Some p ∧
                 obj_get "category" p = Some (VStr c)) as Hids.
  { intros pid. rewrite list_elem_of_fmap. split.
    - intros ([i' p] & -> & Hin). apply run_query_elem in Hin as [Hl Hw']; [|done].
      simpl in Hw'. apply Forall_cons in Hw' as [Hc _]. by exists p.
    - intros (p & Hl & Hc). exists (pid, p). split; [done|].
      apply run_query_elem; [done|]. split; [done|]. simpl. by apply Forall_singleton. }
  assert (store1 !! settingsKey = Some d) as Hd1.
  { rewrite Hlook, decide_False; [done|]. intros [Hc _]. discriminate Hc. }
  exists (<[settingsKey := apply_update rem d]> store1). split; [|split; [|split]].
  - rewrite apply_writes_app, Hw. simpl. fold settingsKey. by rewrite Hd1.
  - apply lookup_insert_eq.
  - intros pid p Hl Hc. rewrite lookup_insert_ne by discriminate.
    rewrite Hlook, decide_True; [by rewrite Hl|].
    split; [done|]. apply Hids. by exists p.
  - intros k Hk Hno. rewrite lookup_insert_ne by done.
    rewrite Hlook, decide_False; [done|]. intros [Hc Hin].
    apply Hids in Hin as (p & Hl & Hcat). destruct k as [kc ki]. simpl in *. subst kc.
    by apply (Hno p).
Qed.

Lemma after_calls_2 (r1 r2 : Request) (w : World) :
  after_calls 2 w (log (Call r2) (log (Call r1) w)).
Proof. unfold after_calls, calls, sleeps. simpl. repeat split; lia. Qed.

(** On a reliable store and with a valid session, [deleteCategory c] fails,
    after its retries and with the store as it was, when no stored category
    has id [c], and when posts reference [c] while the first category with
    another id is missing or has an empty id.  Otherwise it succeeds: the
    settings lose every array element equal to the first category with id
    [c] (with distinct ids: exactly the categories with id [c]), every post
    of category [c] gets the id of the first remaining category and a new
    [updatedAt], and all other documents are as they were. *)
Lemma deleteCategory_cases (w : World) (d : object) (cs : list CategoryItem)
    (c : string) :
  session_valid w → reliable w → settings_hold w d cs →
  let posts := run_query (postsQuery c) (db w) in
  let stamp := VTime (Timestamp_fromMillis (now w)) in
  let '(r, w') := deleteCategory c w in
  match List.find (λ c', bool_decide (id c' = c)) cs with
  | None => (∃ e, r = Throw e) ∧ db w' = db w
  | Some cat0 =>
      if decide (posts ≠ [] ∧ target c cs = "") then (∃ e, r = Throw e) ∧ db w' = db w
      else
        r = Ok true ∧
        db w' !! settingsKey =
          Some (obj_set "updatedAt" stamp
                  (obj_set "categories"
                     (VArr (filter (λ v, v ≠ item cat0) (map item cs))) d)) ∧
        (NoDup (map id cs) →
         filter (λ v, v ≠ item cat0) (map item cs) = map item (remaining c cs)) ∧
        (∀ pid p, db w !! (POSTS_COLLECTION, pid) = Some p →
                  obj_get "category" p = Some (VStr c) →
                  db w' !! (POSTS_COLLECTION, pid) =
                    Some (obj_set "updatedAt" stamp
                            (obj_set "category" (VStr (target c cs)) p))) ∧
        (∀ k, k ≠ settingsKey →
              (∀ p, db w !! k = Some p →
                    ¬ (k.1 = POSTS_COLLECTION ∧ obj_get "category" p = Some (VStr c))) →
              db w' !! k = db w !! k)
  end.
Proof.
  intros Hvalid Hrel Hset posts stamp. unfold deleteCategory.
  rewrite gated_granted by done.
  pose proof (deleteCategory_attempt_run c w d cs Hrel Hset) as Hrun. simpl in Hrun.
  fold posts in Hrun.
  assert (Hfail : ∀ (e : JsError) (n : nat) (wn : World → World),
            (∀ w1, steady w w1 → deleteCategory_attempt c w1 = (Throw e, wn w1)) →
            (∀ w1, steady w w1 → steady w (wn w1) ∧ after_calls n w1 (wn w1)) →
            let '(r, w') := retry_loop (deleteCategory_attempt c)
                              "카테고리 삭제 중 오류가 발생했습니다" (S MAX_RETRY_COUNT) 0 w in
            (∃ e, r = Throw e) ∧ db w' = db w).
  { intros e n wn Hatt Hwn.
    destruct (retry_loop_exhausts (deleteCategory_attempt c)
                "카테고리 삭제 중 오류가 발생했습니다" (steady w) (λ _, True) n)
      with (w := w) as (e' & w' & -> & _ & Hdb & _); [| |done|by split; [eexists|]].
    - intros w1 Hst. exists e, (wn w1). destruct (Hwn w1 Hst). by rewrite Hatt.
    - intros. by apply steady_slept. }
  destruct (List.find _ cs) as [cat0|] eqn:Hfind.
  - destruct (decide (posts ≠ [] ∧ target c cs = "")) as [Horphan|Hfine].
    + apply (Hfail noTarget 2%nat
               (λ w1, log (Call (ReqQuery POSTS_COLLECTION))
                        (log (Call (ReqGet SETTINGS_COLLECTION GLOBAL_SETTINGS_ID)) w1))).
      * intros w1 Hst.
        rewrite (deleteCategory_attempt_run c w1 d cs (proj1 Hst)
                   (settings_hold_steady w w1 d cs Hst Hset)).
        rewrite Hfind. rewrite (proj2 Hst). fold posts. by rewrite decide_True.
      * intros w1 Hst. split; [done | apply after_calls_2].
    + destruct (delete_commit c cs cat0 (now w) (db w) d (proj1 Hset))
        as (store' & Hw & Hs & Hp & Hk).
      fold posts in Hw. rewrite Hw in Hrun.
      erewrite retry_loop_ok; [|unfold MAX_RETRY_COUNT; lia | exact Hrun].
      split; [done|]. cbn [db set_db log]. split.
      { rewrite Hs. unfold apply_update. simpl. by rewrite (proj2 Hset). }
      split.
      { intros Hnd. apply find_Some_id in Hfind as [Hid Hin].
        by apply arrayRemove_remaining. }
      split; [|done].
      intros pid p Hl Hc. by rewrite (Hp pid p Hl Hc).
  - apply (Hfail (notFound c) 1%nat
             (λ w1, log (Call (ReqGet SETTINGS_COLLECTION GLOBAL_SETTINGS_ID)) w1)).
    + intros w1 Hst.
      rewrite (deleteCategory_attempt_run c w1 d cs (proj1 Hst)
                 (settings_hold_steady w w1 d cs Hst Hset)).
      by rewrite Hfind.
    + intros w1 Hst. split; [done | apply after_calls_log].
Qed.




End CategoryAdmin.

(** ** Validation failures and the retry ceiling *)

Module Failures.
Import AdminAuth Categories AdminRetry Gate CategoryAdmin.

(** A required field of a new post is missing or empty. *)
Definition incomplete (postData : Firestore.PostInput) : Prop :=
  Firestore.blank (Firestore.pi_title postData) = true ∨
  Firestore.blank (Firestore.pi_content postData) = true ∨
  Firestore.blank (Firestore.pi_category postData) = true ∨
  Firestore.pi_author postData = None ∨
  Firestore.blank (Firestore.pi_authorId postData) = true.

Lemma createPost_incomplete postData w :
  incomplete postData →
  Firestore.createPost postData w =
  (Throw (Error "게시물을 생성하지 못했습니다. 잠시 후 다시 시도해주세요."), w).
Proof.
  intros H. unfold Firestore.createPost, try_catch.
  assert (Firestore.blank (Firestore.pi_title postData)
          || Firestore.blank (Firestore.pi_content postData)
          || Firestore.blank (Firestore.pi_category postData)
          || negb (bool_decide (is_Some (Firestore.pi_author postData)))
          || Firestore.blank (Firestore.pi_authorId postData) = true) as ->; [|done].
  destruct H as [-> | [-> | [-> | [-> | ->] ] ] ]; rewrite ?orb_true_r; try done.
Qed.

Lemma createComment_incomplete commentData w :
  Firestore.cd_postId commentData = "" ∨ Firestore.cd_content commentData = "" ∨
  Firestore.cd_authorId commentData = "" →
  Firestore.createComment commentData w = (Throw (Error "필수 필드가 누락되었습니다."), w).
Proof.
  intros H. unfold Firestore.createComment, Firestore.rewrap, try_catch.
  assert (bool_decide (Firestore.cd_postId commentData = "")
          || bool_decide (Firestore.cd_content commentData = "")
          || bool_decide (Firestore.cd_authorId commentData = "") = true) as ->; [|done].
  destruct H as [-> | [-> | ->] ]; rewrite ?orb_true_r; done.
Qed.

Lemma restoreData_malformed raw collections overwrite deleteBeforeRestore w :
  session_valid w →
  Backup.restoreData (RawText raw) collections overwrite deleteBeforeRestore w =
  (Throw (Error "데이터 복원 중 오류가 발생했습니다: 올바른 JSON 형식이 아닙니다. 백업 파일을 확인해주세요."), w).
Proof.
  intros Hvalid. unfold Backup.restoreData.
  rewrite (gated_granted _ w Hvalid). done.
Qed.

(** C5, as stated, fails: a duplicate category name is not surfaced on the
    first attempt; the function sleeps and tries again. *)
Lemma addCategory_duplicate_is_retried :
  ¬ (∀ (w : World) (d : object) (cs : list CategoryItem) (category : CategoryInput),
       session_valid w → reliable w → settings_hold w d cs →
       in_name category ∈ map name cs →
       ∃ e w', addCategory category w = (Throw e, w') ∧
               calls (trace w') = (calls (trace w) + 1)%nat ∧
               sleeps (trace w') = sleeps (trace w)).
Proof.
  intros H.
  destruct (H w_admin settings1 [general; tech] (mkInput "General" None)
              w_admin_valid w_admin_reliable w_admin_settings)
    as (e & w' & Hrun & _ & Hsleeps).
  { simpl. apply list_elem_of_here. }
  destruct (addCategory_taken (mkInput "General" None) w_admin settings1 [general; tech]
              w_admin_valid w_admin_reliable w_admin_settings)
    as (e' & w'' & Hrun' & _ & _ & _ & Hsleeps' & _).
  { vm_compute. discriminate. }
  { right. simpl. apply list_elem_of_here. }
  rewrite Hrun in Hrun'. injection Hrun' as _ <-. lia.
Qed.

(** C5 (amended): a missing required field of a post or a comment and a
    backup text that is not JSON are surfaced at once, before any round-trip;
    a category id or name that is taken and a reorder list with another id
    set are raised inside the retry loop of the admin functions, which
    retries every error: the check is run five times with four sleeps of 30
    seconds in all before the error is surfaced.  The store is not changed
    in any of these cases. *)
Theorem validation_failures (w : World) :
  (∀ postData, incomplete postData →
     Firestore.createPost postData w =
     (Throw (Error "게시물을 생성하지 못했습니다. 잠시 후 다시 시도해주세요."), w)) ∧
  (∀ commentData,
     Firestore.cd_postId commentData = "" ∨ Firestore.cd_content commentData = "" ∨
     Firestore.cd_authorId commentData = "" →
     Firestore.createComment commentData w =
     (Throw (Error "필수 필드가 누락되었습니다."), w)) ∧
  (session_valid w →
   (∀ raw collections overwrite deleteBeforeRestore,
      Backup.restoreData (RawText raw) collections overwrite deleteBeforeRestore w =
      (Throw (Error "데이터 복원 중 오류가 발생했습니다: 올바른 JSON 형식이 아닙니다. 백업 파일을 확인해주세요."), w)) ∧
   (reliable w → ∀ d cs, settings_hold w d cs →
      (∀ category,
         newId (in_name category) ≠ "" →
         newId (in_name category) ∈ map id cs ∨ in_name category ∈ map name cs →
         exhausted (addCategory category) "카테고리 추가 중 오류가 발생했습니다" 1
           (λ e, id_taken (newId (in_name category)) e ∨ name_taken (in_name category) e) w) ∧
      (∀ l, ¬ same_ids l cs →
         exhausted (reorderCategories l) "카테고리 순서 변경 중 오류가 발생했습니다" 1
           (λ _, True) w))).
Proof.
  split; [intros; by apply createPost_incomplete|].
  split; [intros; by apply createComment_incomplete|].
  intros Hvalid. split; [intros; by apply restoreData_malformed|].
  intros Hrel d cs Hset. split.
  - intros. by eapply addCategory_taken.
  - intros. by eapply reorderCategories_mismatch.
Qed.

Lemma validation_failures_witness :
  exhausted (addCategory (mkInput "General" None)) "카테고리 추가 중 오류가 발생했습니다" 1
    (λ e, id_taken "general" e ∨ name_taken "General" e) w_admin ∧
  Backup.restoreData (RawText "{oops") None (Some true) None w_admin =
  (Throw (Error "데이터 복원 중 오류가 발생했습니다: 올바른 JSON 형식이 아닙니다. 백업 파일을 확인해주세요."), w_admin).
Proof.
  destruct (validation_failures w_admin) as (_ & _ & H).
  destruct (H w_admin_valid) as [Hrestore Hloop]. split; [|apply Hrestore].
  destruct (Hloop w_admin_reliable settings1 [general; tech] w_admin_settings) as [Hadd _].
  apply (Hadd (mkInput "General" None)).
  - vm_compute. discriminate.
  - left. vm_compute. apply list_elem_of_here.
Defined.

(** *** The retry ceiling *)

(** What a read that gave up has done: three round-trips [r] with sleeps of
    one and two seconds in between, the error [e] thrown, and the store as
    it was. *)
Definition gave_up {A} (f : M A) (r : Request) (e : JsError) (w : World) : Prop :=
  ∃ w', f w = (Throw e, w') ∧
        trace w' = ([Call r; Sleep 2000; Call r; Sleep 1000; Call r] ++ trace w)%list ∧
        db w' = db w.

(** What a read that was refused at once has done: one round-trip [r], the
    error [e] thrown, and the store as it was. *)
Definition refused {A} (f : M A) (r : Request) (e : JsError) (w : World) : Prop :=
  ∃ w', f w = (Throw e, w') ∧ trace w' = Call r :: trace w ∧ db w' = db w.

(** The host of the links that the store puts in its missing-index errors. *)
Definition console : string := "https://console.firebase.google.com".

(** A character of a link: visible ASCII other than the double quote. *)
Definition link_char (a : ascii) : Prop := between 33 126 a = true ∧ a ≠ dquote.

#[global] Instance link_char_dec a : Decision (link_char a).
Proof. unfold link_char. apply _. Defined.

(** Where a link ends: at the end of the text, at ASCII white space or at a
    double quote. *)
Definition link_end (rest : string) : Prop :=
  match rest with
  | EmptyString => True
  | String a _ => is_space a = true ∨ a = dquote
  end.

(** A store that is unreachable, and one that lacks the composite index. *)
Definition unavailable : JsError :=
  mkError (Some "unavailable") "Failed to get document because the client is offline.".

Definition index_missing : JsError :=
  mkError (Some "failed-precondition")
    "The query requires an index. You can create it here: https://console.firebase.google.com/v1/r/project/board/firestore/indexes?create_composite=abc".

Definition failing_world (e : JsError) : World :=
  mkWorld 1718454645123 ∅ {[ ADMIN_AUTH_KEY := JsonText valid_session ]} []
    (λ _ _, Some e) (λ _, "auto") 0 (λ _, 0) iso_parse.

Lemma failing_world_valid e : session_valid (failing_world e).
Proof.
  exists [ ("id", JStr "admin"); ("isAdmin", JBool true);
           ("loggedInAt", JStr "2024-06-15T12:00:00.000Z");
           ("expiresAt", JStr "2024-06-15T14:00:00.000Z") ].
  split; [reflexivity|]. vm_compute. discriminate.
Qed.

(** A loop that retries every error, around a body that fails after one
    round-trip whenever the store is down, gives up after three runs. *)
Lemma retry_loop_gives_up {A} (body : M A) (exhausted : JsError) (r : Request) (w : World) :
  down w →
  (∀ w1, down w1 → ∃ e, body w1 = (Throw e, log (Call r) w1)) →
  gave_up (Firestore.retry_loop body (λ _, None) exhausted (S Firestore.MAX_RETRY_COUNT) 0)
    r exhausted w.
Proof.
  intros Hdown Hbody. unfold gave_up. change (S Firestore.MAX_RETRY_COUNT) with 4%nat.
  destruct (Hbody w Hdown) as [e1 H1].
  erewrite ReadRetry.retry_loop_again;
    [|unfold Firestore.MAX_RETRY_COUNT; lia | exact H1 | done].
  set (w1 := ReadRetry.slept _ _).
  destruct (Hbody w1) as [e2 H2]; [done|].
  erewrite ReadRetry.retry_loop_again;
    [|unfold Firestore.MAX_RETRY_COUNT; lia | exact H2 | done].
  set (w2 := ReadRetry.slept _ _).
  destruct (Hbody w2) as [e3 H3]; [done|].
  erewrite ReadRetry.retry_loop_last; [|done | exact H3 | done].
  eexists. split; [done|]. split; done.
Qed.

Lemma reads_give_up (w : World) :
  down w →
  gave_up Firestore.fetchPosts (ReqQuery Firestore.POSTS_COLLECTION)
    (Error "게시물 데이터를 가져오지 못했습니다. 잠시 후 다시 시도해주세요.") w ∧
  (∀ postId, postId ≠ "" → includes "/" postId = false →
     gave_up (Firestore.fetchPostById postId) (ReqGet Firestore.POSTS_COLLECTION postId)
       (Error "게시물 상세 정보를 가져오지 못했습니다. 잠시 후 다시 시도해주세요.") w) ∧
  gave_up Firestore.fetchCategoriesFromFirestore
    (ReqGet Firestore.SETTINGS_COLLECTION Firestore.GLOBAL_SETTINGS_ID)
    (Error "카테고리 목록을 가져오지 못했습니다. 잠시 후 다시 시도해주세요.") w.
Proof.
  intros Hdown. split; [|split].
  - apply retry_loop_gives_up; [done|]. intros w1 Hw1.
    destruct (Hw1 (length (trace w1)) (ReqQuery Firestore.POSTS_COLLECTION)) as [e He].
    exists e. by apply (ReadRetry.query_fails_run (mkQuery Firestore.POSTS_COLLECTION [] None)).
  - intros postId Hne Hslash. apply retry_loop_gives_up; [done|]. intros w1 Hw1.
    destruct (Hw1 (length (trace w1)) (ReqGet Firestore.POSTS_COLLECTION postId)) as [e He].
    exists e. unfold Firestore.doc. rewrite bool_decide_eq_false_2, Hslash by done.
    cbn [orb]. mrun. by rewrite He.
  - apply retry_loop_gives_up; [done|]. intros w1 Hw1.
    destruct (Hw1 (length (trace w1))
                (ReqGet Firestore.SETTINGS_COLLECTION Firestore.GLOBAL_SETTINGS_ID)) as [e He].
    exists e. mrun. by rewrite He.
Qed.

Lemma prefix_nil (s : string) : String.prefix "" s = true.
Proof. by destruct s. Qed.

(** A needle that does not hold [c] and matches at the start of a text
    continued by [c] matches within the text. *)
Lemma prefix_skip (c : ascii) (n p y : string) :
  c ∉ chars n → String.prefix n (p +:+ String c y) = true → String.prefix n p = true.
Proof.
  revert p. induction n as [|b n IH]; intros p Hc Hp; [apply prefix_nil|].
  apply not_elem_of_cons in Hc as [Hcb Hc].
  destruct p as [|a p]; simpl in *.
  - by destruct (ascii_dec b c).
  - destruct (ascii_dec b a); [|done]. by apply IH.
Qed.

Lemma from_first_absent (n h : string) : includes n h = false → from_first n h = None.
Proof.
  induction h as [|a h IH]; simpl; intros H; apply orb_false_iff in H as [Hp Hr];
    rewrite Hp; [done | by apply IH].
Qed.

(** The first occurrence of the host is the one that follows a text
    without it: the host has its first letter nowhere else. *)
Lemma from_first_console (pre x : string) :
  includes console pre = false →
  from_first console (pre +:+ console +:+ x) = Some (console +:+ x).
Proof.
  induction pre as [|a pre IH]; intros Hpre.
  - simpl. by rewrite prefix_nil.
  - cbn [includes] in Hpre. apply orb_false_iff in Hpre as [Hp Hr].
    change (from_first console (String a pre +:+ console +:+ x))
      with (if String.prefix console (String a (pre +:+ console +:+ x))
            then Some (String a (pre +:+ console +:+ x))
            else from_first console (pre +:+ console +:+ x)).
    destruct (String.prefix console (String a (pre +:+ console +:+ x))) eqn:Hstr;
      [|by apply IH].
    exfalso. unfold console in Hstr, Hp. cbn [String.prefix String.append] in Hstr, Hp.
    destruct (ascii_dec "h" a); [|done].
    apply (prefix_skip "h" _ pre ("ttps://console.firebase.google.com" +:+ x)) in Hstr;
      [congruence|].
    apply (bool_decide_unpack _). vm_compute. exact I.
Qed.

Lemma link_char_goes_on (a : ascii) (s : string) :
  link_char a → starts_space (String a s) || bool_decide (a = dquote) = false.
Proof.
  intros [Hvis Hq]. rewrite (bool_decide_eq_false_2 _ Hq), orb_false_r. clear Hq.
  destruct a as [[] [] [] [] [] [] [] []]; first [discriminate Hvis | reflexivity].
Qed.

Lemma take_url_link (tail rest : string) :
  Forall link_char (chars tail) → link_end rest → take_url (tail +:+ rest) = tail.
Proof.
  intros Htail Hend. induction tail as [|a tail IH].
  - destruct rest as [|b rest]; [done|]. simpl in Hend.
    change (take_url ("" +:+ String b rest))
      with (if starts_space (String b rest) || bool_decide (b = dquote)
            then EmptyString else String b (take_url rest)).
    destruct Hend as [Hsp| ->].
    + unfold starts_space. by rewrite Hsp.
    + by rewrite bool_decide_eq_true_2, orb_true_r.
  - apply Forall_cons in Htail as [Ha Htail].
    change (take_url (String a tail +:+ rest))
      with (if starts_space (String a (tail +:+ rest)) || bool_decide (a = dquote)
            then EmptyString else String a (take_url (tail +:+ rest))).
    rewrite link_char_goes_on by done. by rewrite IH.
Qed.

(** The text for a missing index whose error has no link in it. *)
Lemma indexMessage_without_link (e : JsError) :
  includes console (message e) = false →
  Firestore.indexMessage e =
    "Firebase 복합 인덱스가 필요합니다. Firebase 콘솔에서 인덱스를 생성해주세요.".
Proof.
  intros H. unfold Firestore.indexMessage, Firestore.match_indexUrl. cbv zeta.
  fold console. by rewrite from_first_absent.
Qed.

(** The text for a missing index whose error has a link in it. *)
Lemma indexMessage_with_link (e : JsError) (pre tail rest : string) :
  message e = pre +:+ console +:+ tail +:+ rest →
  includes console pre = false → Forall link_char (chars tail) → link_end rest →
  Firestore.indexMessage e =
    "Firebase 복합 인덱스가 필요합니다. 다음 링크에서 인덱스를 생성해주세요: " +:+ console +:+ tail.
Proof.
  intros Hmsg Hpre Htail Hend.
  unfold Firestore.indexMessage, Firestore.match_indexUrl. cbv zeta.
  fold console. rewrite Hmsg, from_first_console by done.
  change (drop_n (String.length console) (console +:+ tail +:+ rest)) with (tail +:+ rest).
  rewrite take_url_link by done.
  by rewrite bool_decide_eq_false_2.
Qed.

(** C4, as stated, fails: of the reads, only those that filter or sort (here
    [fetchPostsByCategory]) tell a missing index from a transient fault.
    [fetchPosts] does not: when its queries fail with the missing-index
    error of the store, it tries three times, sleeping one and two seconds
    in between, and ends with its general error. *)
Lemma fetchPosts_retries_missing_index :
  let q := Call (ReqQuery Firestore.POSTS_COLLECTION) in
  Firestore.is_index_error index_missing = true ∧
  ∃ w', Firestore.fetchPosts (failing_world index_missing) =
          (Throw (Error "게시물 데이터를 가져오지 못했습니다. 잠시 후 다시 시도해주세요."), w') ∧
        trace w' = [q; Sleep 2000; q; Sleep 1000; q].
Proof.
  cbv zeta. split; [reflexivity|].
  destruct (reads_give_up (failing_world index_missing)) as [(w' & Hrun & Htrace & _) _].
  { intros n r. by eexists. }
  exists w'. split; [exact Hrun | exact Htrace].
Qed.

(** C4 (amended): the loops of [fetchPosts], [fetchPostById] and
    [fetchCategoriesFromFirestore] retry every error, a missing index
    included: with the store down each makes three attempts, one round-trip
    each, sleeps one and two seconds in between and then throws its own
    general error.  [fetchPostsByCategory], which is [fetchPosts] for the
    categories [""] and ["all"], does the same for another category when
    the errors are transient; when the query fails with a missing-index
    error (code [failed-precondition], or a message with "requires an
    index") it makes that one attempt and throws at once an error that names
    the category and the missing index, with the link to the console when
    the message of the store has one, and with the advice to go to the
    console otherwise.  A category mutation of the admin panel retries every
    error as well: with the store down it makes five attempts with four
    sleeps and then throws, under its own message, the error that the
    store gave to its last read.  The store is unchanged in every case. *)
Theorem retry_ceiling (w : World) :
  (down w →
   gave_up Firestore.fetchPosts (ReqQuery Firestore.POSTS_COLLECTION)
     (Error "게시물 데이터를 가져오지 못했습니다. 잠시 후 다시 시도해주세요.") w ∧
   (∀ postId, postId ≠ "" → includes "/" postId = false →
      gave_up (Firestore.fetchPostById postId) (ReqGet Firestore.POSTS_COLLECTION postId)
        (Error "게시물 상세 정보를 가져오지 못했습니다. 잠시 후 다시 시도해주세요.") w) ∧
   gave_up Firestore.fetchCategoriesFromFirestore
     (ReqGet Firestore.SETTINGS_COLLECTION Firestore.GLOBAL_SETTINGS_ID)
     (Error "카테고리 목록을 가져오지 못했습니다. 잠시 후 다시 시도해주세요.") w) ∧
  (Firestore.fetchPostsByCategory "" = Firestore.fetchPosts ∧
   Firestore.fetchPostsByCategory "all" = Firestore.fetchPosts) ∧
  (∀ category, category ≠ "" → category ≠ "all" →
     (ReadRetry.always_fails ReadRetry.transient w →
      gave_up (Firestore.fetchPostsByCategory category) (ReqQuery Firestore.POSTS_COLLECTION)
        (Error (category +:+ " 카테고리 게시물을 가져오지 못했습니다. 잠시 후 다시 시도해주세요.")) w) ∧
     (∀ e, net w (length (trace w)) (ReqQuery Firestore.POSTS_COLLECTION) = Some e →
           Firestore.is_index_error e = true →
           refused (Firestore.fetchPostsByCategory category)
             (ReqQuery Firestore.POSTS_COLLECTION)
             (Error (category +:+ " 카테고리 조회를 위한 " +:+ Firestore.indexMessage e)) w ∧
           (includes console (message e) = false →
            Firestore.indexMessage e =
              "Firebase 복합 인덱스가 필요합니다. Firebase 콘솔에서 인덱스를 생성해주세요.") ∧
           (∀ pre tail rest,
              message e = pre +:+ console +:+ tail +:+ rest →
              includes console pre = false → Forall link_char (chars tail) →
              link_end rest →
              Firestore.indexMessage e =
                "Firebase 복합 인덱스가 필요합니다. 다음 링크에서 인덱스를 생성해주세요: "
                +:+ console +:+ tail))) ∧
  (session_valid w → down w →
   (∀ c, newId (in_name c) ≠ "" →
      exhausted (addCategory c) "카테고리 추가 중 오류가 발생했습니다" 1 (settings_error w) w) ∧
   (∀ categoryId updatedName icon,
      exhausted (updateCategory categoryId updatedName icon)
        "카테고리 수정 중 오류가 발생했습니다" 1 (settings_error w) w) ∧
   (∀ categoryId,
      exhausted (deleteCategory categoryId) "카테고리 삭제 중 오류가 발생했습니다" 1
        (settings_error w) w) ∧
   (∀ sortedCategories,
      exhausted (reorderCategories sortedCategories)
        "카테고리 순서 변경 중 오류가 발생했습니다" 1 (settings_error w) w)).
Proof.
  split; [apply reads_give_up|]. split; [by split|]. split.
  - intros category H1 H2. split.
    + intros Hfail. by apply ReadRetry.fetchPostsByCategory_transient.
    + intros e Hnet Hidx. split; [by apply ReadRetry.fetchPostsByCategory_index|].
      split; [apply indexMessage_without_link|]. intros pre tail rest.
      apply indexMessage_with_link.
  - intros Hvalid Hdown. by apply category_mutations_down.
Qed.

Lemma retry_ceiling_witness :
  gave_up Firestore.fetchPosts (ReqQuery "posts")
    (Error "게시물 데이터를 가져오지 못했습니다. 잠시 후 다시 시도해주세요.")
    (failing_world unavailable) ∧
  gave_up (Firestore.fetchPostsByCategory "tech") (ReqQuery "posts")
    (Error "tech 카테고리 게시물을 가져오지 못했습니다. 잠시 후 다시 시도해주세요.")
    (failing_world unavailable) ∧
  refused (Firestore.fetchPostsByCategory "tech") (ReqQuery "posts")
    (Error "tech 카테고리 조회를 위한 Firebase 복합 인덱스가 필요합니다. 다음 링크에서 인덱스를 생성해주세요: https://console.firebase.google.com/v1/r/project/board/firestore/indexes?create_composite=abc")
    (failing_world index_missing) ∧
  exhausted (deleteCategory "tech") "카테고리 삭제 중 오류가 발생했습니다" 1
    (λ e, e = unavailable) (failing_world unavailable).
Proof.
  assert ("tech" ≠ "") as H1 by discriminate.
  assert ("tech" ≠ "all") as H2 by discriminate.
  assert (Hdown : ∀ e, down (failing_world e)) by (intros e n r; by eexists).
  destruct (retry_ceiling (failing_world unavailable)) as (Hreads & _ & Hcat & Hadmin).
  destruct (retry_ceiling (failing_world index_missing)) as (_ & _ & Hcat' & _).
  destruct (Hreads (Hdown _)) as [Hposts _].
  destruct (Hcat "tech" H1 H2) as [Htransient _].
  destruct (Hcat' "tech" H1 H2) as [_ Hindex].
  destruct (Hindex index_missing eq_refl eq_refl) as (Hrefused & _ & Hlink).
  rewrite (Hlink "The query requires an index. You can create it here: "
             "/v1/r/project/board/firestore/indexes?create_composite=abc" "")
    in Hrefused.
  - split; [exact Hposts|]. split; [|split; [exact Hrefused|]].
    + apply Htransient. intros n r. exists unavailable. split; [done|]. reflexivity.
    + destruct (Hadmin (failing_world_valid _) (Hdown _)) as (_ & _ & Hdel & _).
      destruct (Hdel "tech") as (e & w' & Hrun & [n He] & Hrest).
      exists e, w'. split; [exact Hrun|]. split; [|exact Hrest].
      by injection He.
  - reflexivity.
  - reflexivity.
  - apply (bool_decide_unpack _). vm_compute. exact I.
  - exact I.
Defined.
End Failures.

(** ** The comment counter *)

Module CommentCounter.
Import Firestore.

Inductive CommentCall :=
| Create (commentData : CommentData)
| Delete (commentId postId userId : string).

(** The world after a call, whatever the call returned. *)
Definition step (c : CommentCall) (w : World) : World :=
  match c with
  | Create commentData => (createComment commentData w).2
  | Delete commentId postId userId => (deleteComment commentId postId userId w).2
  end.

Definition run (cs : list CommentCall) (w : World) : World :=
  foldl (λ w c, step c w) w cs.

(** A comment document that references post [p]. *)
Definition references (p : string) (kd : (string * string) * object) : Prop :=
  kd.1.1 = COMMENTS_COLLECTION ∧ obj_get "postId" kd.2 = Some (VStr p).

#[global] Instance references_dec p kd : Decision (references p kd).
Proof. unfold references. apply _. Defined.

Definition comments_of (store : gmap (string * string) object) (p : string) : nat :=
  size (filter (references p) store).

Definition commentCount_of (store : gmap (string * string) object) (p : string)
    : option value :=
  store !! (POSTS_COLLECTION, p) ≫= obj_get "commentCount".

(** The counter of post [p] is the number of comments that reference it. *)
Definition count_ok (w : World) (p : string) : Prop :=
  commentCount_of (db w) p = Some (VNum (Z.of_nat (comments_of (db w) p))).

(** The id that [doc(collection(db, 'comments'))] mints is unused. *)
Definition mints_unused (w : World) : Prop :=
  db w !! (COMMENTS_COLLECTION, autoId w (minted w)) = None.

(** The [postId] handed to [deleteComment] is the one stored in the comment. *)
Definition names_its_post (commentId postId : string) (w : World) : Prop :=
  ∀ data, db w !! (COMMENTS_COLLECTION, commentId) = Some data →
          obj_get "postId" data = Some (VStr postId).

Definition ok_call (c : CommentCall) (w : World) : Prop :=
  match c with
  | Create _ => mints_unused w
  | Delete commentId postId _ => names_its_post commentId postId w
  end.

Fixpoint admissible (cs : list CommentCall) (w : World) : Prop :=
  match cs with
  | [] => True
  | c :: cs' => ok_call c w ∧ admissible cs' (step c w)
  end.

Definition newComment (commentData : CommentData) (t : Z) : object :=
  [ ("postId", VStr (cd_postId commentData)); ("content", VStr (cd_content commentData));
    ("author", VObj (cd_author commentData)); ("authorId", VStr (cd_authorId commentData));
    ("createdAt", VTime (Timestamp_fromMillis t));
    ("updatedAt", VTime (Timestamp_fromMillis t)) ].

Definition bump (n : Z) (t : Z) (d : object) : object :=
  obj_set "updatedAt" (VTime (Timestamp_fromMillis t))
    (obj_set "commentCount"
       (match obj_get "commentCount" d with
        | Some (VNum m) => VNum (m + n)
        | _ => VNum n
        end) d).

(** The store after [createComment]: as before, or with one new comment
    and the counter of its post raised. *)
Lemma createComment_db (commentData : CommentData) (w : World) :
  db (createComment commentData w).2 = db w ∨
  ∃ d, db w !! (POSTS_COLLECTION, cd_postId commentData) = Some d ∧
       db (createComment commentData w).2 =
         <[(POSTS_COLLECTION, cd_postId commentData) := bump 1 (now w) d]>
           (<[(COMMENTS_COLLECTION, autoId w (minted w)) := newComment commentData (now w)]>
              (db w)).
Proof.
  unfold createComment, rewrap.
  destruct (bool_decide (cd_postId commentData = "") || bool_decide (cd_content commentData = "")
            || bool_decide (cd_authorId commentData = "")); [by left|].
  mrun. cbn -[apply_writes]. destruct (net w _ _); [by left|]. cbn -[apply_writes].
  unfold apply_writes, apply_write.
  rewrite lookup_insert_ne by discriminate.
  destruct (db w !! (POSTS_COLLECTION, cd_postId commentData)) as [d|] eqn:Hd; [|by left].
  right. exists d. split; [done|]. done.
Qed.

(** The store after [deleteComment]: as before, or without the comment and
    with the counter of the named post lowered. *)
Lemma deleteComment_db (commentId postId userId : string) (w : World) :
  db (deleteComment commentId postId userId w).2 = db w ∨
  ∃ data d, db w !! (COMMENTS_COLLECTION, commentId) = Some data ∧
            db w !! (POSTS_COLLECTION, postId) = Some d ∧
            db (deleteComment commentId postId userId w).2 =
              <[(POSTS_COLLECTION, postId) := bump (-1) (now w) d]>
                (delete (COMMENTS_COLLECTION, commentId) (db w)).
Proof.
  unfold deleteComment, rewrap. mrun. cbn -[apply_writes].
  destruct (net w _ _); [by left|]. cbn -[apply_writes].
  destruct (db w !! (COMMENTS_COLLECTION, commentId)) as [data|] eqn:Hdata; [|by left].
  destruct (is_str userId (obj_get "authorId" data)); [|by left].
  cbn -[apply_writes]. destruct (net w _ _); [by left|]. cbn -[apply_writes].
  unfold apply_writes, apply_write.
  rewrite lookup_delete_ne by discriminate.
  destruct (db w !! (POSTS_COLLECTION, postId)) as [d|] eqn:Hd; [|by left].
  right. exists data, d. done.
Qed.
Lemma bump_commentCount (n m t : Z) (d : object) :
  obj_get "commentCount" d = Some (VNum m) →
  obj_get "commentCount" (bump n t d) = Some (VNum (m + n)).
Proof.
  intros Hd. unfold bump. rewrite Hd.
  rewrite obj_get_set_ne by discriminate. by rewrite obj_get_set_eq.
Qed.

Lemma comments_of_post_insert store (q p : string) (d : object) :
  comments_of (<[(POSTS_COLLECTION, q) := d]> store) p = comments_of store p.
Proof.
  unfold comments_of.
  destruct (store !! (POSTS_COLLECTION, q)) as [d0|] eqn:Hq.
  - rewrite map_filter_insert_False by (intros [Hc _]; discriminate Hc).
    rewrite map_filter_delete_not; [done|].
    intros y _ [Hc _]. discriminate Hc.
  - rewrite map_filter_insert_False by (intros [Hc _]; discriminate Hc).
    by rewrite delete_id.
Qed.

Lemma comments_of_insert_new store (i p : string) (data : object) :
  store !! (COMMENTS_COLLECTION, i) = None →
  comments_of (<[(COMMENTS_COLLECTION, i) := data]> store) p =
    if decide (obj_get "postId" data = Some (VStr p))
    then S (comments_of store p) else comments_of store p.
Proof.
  intros Hi. unfold comments_of. destruct (decide _) as [Hp|Hp].
  - rewrite map_filter_insert_True by done.
    rewrite map_size_insert_None; [done|].
    by rewrite map_lookup_filter_None; left.
  - rewrite map_filter_insert_False by (intros [_ H]; done).
    by rewrite delete_id.
Qed.

Lemma comments_of_delete store (i p : string) (data : object) :
  store !! (COMMENTS_COLLECTION, i) = Some data →
  comments_of store p =
    if decide (obj_get "postId" data = Some (VStr p))
    then S (comments_of (delete (COMMENTS_COLLECTION, i) store) p)
    else comments_of (delete (COMMENTS_COLLECTION, i) store) p.
Proof.
  intros Hi. unfold comments_of. rewrite map_filter_delete.
  destruct (decide _) as [Hp|Hp].
  - assert (Hin : filter (references p) store !! (COMMENTS_COLLECTION, i) = Some data)
      by (by rewrite map_lookup_filter_Some).
    rewrite <- (insert_delete_id _ _ _ Hin) at 1.
    rewrite map_size_insert_None; [done|]. apply lookup_delete_eq.
  - rewrite delete_id; [done|].
    rewrite map_lookup_filter_None. right. intros x Hx [_ H].
    rewrite Hi in Hx. by simplify_eq.
Qed.

Lemma commentCount_of_post_insert store (q p : string) (d : object) :
  commentCount_of (<[(POSTS_COLLECTION, q) := d]> store) p =
    if decide (q = p) then obj_get "commentCount" d else commentCount_of store p.
Proof.
  unfold commentCount_of. destruct (decide (q = p)) as [->|Hne].
  - by rewrite lookup_insert_eq.
  - rewrite lookup_insert_ne; [done|]. congruence.
Qed.

Lemma commentCount_of_comments_insert store (i p : string) (d : object) :
  commentCount_of (<[(COMMENTS_COLLECTION, i) := d]> store) p = commentCount_of store p.
Proof. unfold commentCount_of. by rewrite lookup_insert_ne by discriminate. Qed.

Lemma commentCount_of_comments_delete store (i p : string) :
  commentCount_of (delete (COMMENTS_COLLECTION, i) store) p = commentCount_of store p.
Proof. unfold commentCount_of. by rewrite lookup_delete_ne by discriminate. Qed.

(** One admissible call keeps the counter of every post right. *)
Lemma step_count_ok (c : CommentCall) (w : World) (p : string) :
  count_ok w p → ok_call c w → count_ok (step c w) p.
Proof.
  unfold count_ok. intros Hok Hc. destruct c as [commentData|commentId postId userId]; simpl in *.
  - destruct (createComment_db commentData w) as [->|(d & Hd & ->)]; [done|].
    rewrite commentCount_of_post_insert, comments_of_post_insert.
    rewrite comments_of_insert_new by done. simpl.
    rewrite commentCount_of_comments_insert.
    destruct (decide (cd_postId commentData = p)) as [Hp|Hp].
    + subst p. rewrite decide_True by done.
      unfold commentCount_of in Hok. rewrite Hd in Hok. simpl in Hok.
      rewrite (bump_commentCount 1 _ _ _ Hok). do 2 f_equal. lia.
    + rewrite decide_False by congruence. done.
  - destruct (deleteComment_db commentId postId userId w) as [->|(data & d & Hdata & Hd & ->)];
      [done|].
    rewrite commentCount_of_post_insert, comments_of_post_insert.
    rewrite commentCount_of_comments_delete.
    rewrite (comments_of_delete _ _ _ _ Hdata) in Hok.
    specialize (Hc _ Hdata). rewrite Hc in Hok.
    destruct (decide (postId = p)) as [Hp|Hp].
    + subst p. rewrite decide_True in Hok by done.
      unfold commentCount_of in Hok. rewrite Hd in Hok. simpl in Hok.
      rewrite (bump_commentCount (-1) _ _ _ Hok). do 2 f_equal. lia.
    + rewrite decide_False in Hok by congruence. done.
Qed.

Definition comment (p author : string) : object :=
  [ ("postId", VStr p); ("content", VStr "hello"); ("author", VObj []);
    ("authorId", VStr author) ].

Definition counted (n : Z) : object :=
  [ ("title", VStr "a post"); ("commentCount", VNum n) ].

(** Two posts with one comment each, both by user [u1]. *)
Definition store0 : gmap (string * string) object :=
  <[(POSTS_COLLECTION, "p") := counted 1]>
  (<[(POSTS_COLLECTION, "q") := counted 1]>
  (<[(COMMENTS_COLLECTION, "cp") := comment "p" "u1"]>
  (<[(COMMENTS_COLLECTION, "cq") := comment "q" "u1"]> ∅))).

Definition w0 : World := quiet_world 1700000000000 store0 ∅ iso_parse.

Lemma w0_count_ok : count_ok w0 "p".
Proof. vm_compute. reflexivity. Qed.

(** C3, as the specification states it: calls against post [p] keep its
    counter equal to the number of its comments.  This fails:
    [deleteComment] never compares its [postId] with the one stored in the
    comment, so deleting a comment of post [q] with [postId = p] lowers
    the counter of [p] and leaves the comments of [p] as they were. *)
Lemma deleteComment_of_other_post_breaks_count :
  count_ok w0 "p" ∧
  (deleteComment "cq" "p" "u1" w0).1 = Ok tt ∧
  let w' := run [Delete "cq" "p" "u1"] w0 in
  comments_of (db w') "p" = 1%nat ∧
  commentCount_of (db w') "p" = Some (VNum 0) ∧
  ¬ count_ok w' "p".
Proof.
  split; [exact w0_count_ok|]. split; [vm_compute; reflexivity|].
  assert (Hn : comments_of (db (run [Delete "cq" "p" "u1"] w0)) "p" = 1%nat)
    by (vm_compute; reflexivity).
  assert (Hc : commentCount_of (db (run [Delete "cq" "p" "u1"] w0)) "p" = Some (VNum 0))
    by (vm_compute; reflexivity).
  cbv zeta. split; [exact Hn|]. split; [exact Hc|].
  unfold count_ok. rewrite Hn, Hc. discriminate.
Qed.

(** C3, amended: after any sequence of [createComment] and
    [deleteComment] calls, successful or not, in which every minted comment
    id is unused and every [deleteComment] is given the [postId] stored in
    the comment it names, the counter of a post that was equal to the
    number of comments referencing the post is still equal to it. *)
Theorem comment_count_invariant (cs : list CommentCall) (w : World) (p : string) :
  count_ok w p → admissible cs w → count_ok (run cs w) p.
Proof.
  revert w. induction cs as [|c cs IH]; intros w Hok Hadm; [exact Hok|].
  destruct Hadm as [Hc Hadm]. unfold run. simpl. apply IH; [|exact Hadm].
  by apply step_count_ok.
Qed.

Definition calls0 : list CommentCall :=
  [ Create (mkCommentData "p" "first" [] "u2");
    Delete "cp" "p" "u1";
    Create (mkCommentData "q" "second" [] "u1");
    Delete "cq" "q" "u2";
    Create (mkCommentData "p" "" [] "u2");
    Delete "gone" "p" "u1" ].

Lemma comment_count_invariant_witness :
  count_ok w0 "p" ∧ admissible calls0 w0 ∧ count_ok (run calls0 w0) "p" ∧
  comments_of (db (run calls0 w0)) "p" = 1%nat.
Proof.
  assert (Hadm : admissible calls0 w0).
  { unfold calls0. cbn [admissible ok_call]. unfold mints_unused, names_its_post.
    repeat split; try (vm_compute; reflexivity);
      intros data; (vm_compute; intros H; by inversion H). }
  split; [exact w0_count_ok|]. split; [exact Hadm|].
  split; [exact (comment_count_invariant calls0 w0 "p" w0_count_ok Hadm)|].
  vm_compute. reflexivity.
Defined.
End CommentCounter.

(** ** Bookmarks *)

Module Bookmarks.
Import Firestore.

Inductive BookmarkCall :=
| Add (userId postId : string)
| Remove (userId postId : string).

(** The world after a call, whatever the call returned. *)
Definition step (c : BookmarkCall) (w : World) : World :=
  match c with
  | Add userId postId => (addBookmark userId postId w).2
  | Remove userId postId => (removeBookmark userId postId w).2
  end.

Definition run (cs : list BookmarkCall) (w : World) : World :=
  foldl (λ w c, step c w) w cs.

(** The bookmark documents of a pair: what the existence query selects
    before its limit. *)
Definition bookmarks_of (store : gmap (string * string) object) (userId postId : string)
    : gmap (string * string) object :=
  filter (matches (bookmarkQuery userId postId)) store.

Definition unique (store : gmap (string * string) object) (userId postId : string) : Prop :=
  (size (bookmarks_of store userId postId) ≤ 1)%nat.

(** No query round-trip fails. *)
Definition queries_succeed (w : World) : Prop :=
  ∀ n c, net w n (ReqQuery c) = None.

Definition newBookmark (userId postId : string) (t : Z) : object :=
  [ ("userId", VStr userId); ("postId", VStr postId);
    ("createdAt", VTime (Timestamp_fromMillis t)) ].

Definition already : JsError := Error "이미 북마크된 게시물입니다.".

Lemma run_query_bookmark_nil store (userId postId : string) :
  run_query (bookmarkQuery userId postId) store = [] ↔
  bookmarks_of store userId postId = ∅.
Proof.
  unfold run_query, bookmarks_of. simpl.
  rewrite <- map_to_list_empty_iff.
  destruct (map_to_list _) as [|kd l]; simpl; split; intros H; done.
Qed.

Lemma matches_newBookmark (userId postId u p id : string) (t : Z) :
  matches (bookmarkQuery u p) ((BOOKMARKS_COLLECTION, id), newBookmark userId postId t) →
  userId = u ∧ postId = p.
Proof.
  intros [_ Hw]. simpl in Hw.
  apply Forall_cons in Hw as [Hu Hw]. apply Forall_cons in Hw as [Hp _].
  simpl in Hu, Hp. split; congruence.
Qed.

(** What [addBookmark] does when its query goes through. *)
Lemma addBookmark_run (userId postId : string) (w : World) :
  net w (length (trace w)) (ReqQuery BOOKMARKS_COLLECTION) = None →
  let r := addBookmark userId postId w in
  net r.2 = net w ∧
  (db r.2 = db w ∧ (∃ e, r.1 = Throw e) ∧
     (userId ≠ "" → postId ≠ "" → bookmarks_of (db w) userId postId ≠ ∅ →
      r.1 = Throw already)
   ∨
   bookmarks_of (db w) userId postId = ∅ ∧
   ∃ id, db r.2 = <[(BOOKMARKS_COLLECTION, id) := newBookmark userId postId (now w)]> (db w)).
Proof.
  intros Hnet. unfold addBookmark, isBookmarked, rewrap.
  destruct (bool_decide (userId = "") || bool_decide (postId = "")) eqn:Hblank.
  { simpl. split; [done|]. left. split; [done|]. split; [by eexists|].
    intros Hu Hp. apply orb_true_iff in Hblank as [H|H]; apply bool_decide_eq_true in H; done. }
  mrun. simpl. rewrite Hnet. simpl.
  destruct (run_query (bookmarkQuery userId postId) (db w)) as [|hit hits] eqn:Hq.
  - apply run_query_bookmark_nil in Hq.
    rewrite bool_decide_eq_true_2 by done.
    simpl. destruct (net w (S _) _); simpl.
    + split; [done|]. left. split; [done|]. split; [by eexists|]. done.
    + split; [done|]. right. split; [done|]. by eexists.
  - rewrite bool_decide_eq_false_2 by done.
    simpl. split; [done|]. left. split; [done|]. split; [by eexists|]. done.
Qed.

(** What [removeBookmark] does: nothing, or it deletes one document. *)
Lemma removeBookmark_run (userId postId : string) (w : World) :
  let r := removeBookmark userId postId w in
  net r.2 = net w ∧ (db r.2 = db w ∨ ∃ k, db r.2 = delete k (db w)).
Proof.
  unfold removeBookmark, rewrap.
  destruct (bool_decide (userId = "") || bool_decide (postId = "")).
  { simpl. by split; [|left]. }
  mrun. simpl. destruct (net w _ _); simpl; [by split; [|left]|].
  destruct (run_query (bookmarkQuery userId postId) (db w)) as [|hit hits]; simpl.
  { by split; [|left]. }
  destruct (net w _ _); simpl; [by split; [|left]|].
  split; [done|]. right. by eexists.
Qed.

Lemma step_net (c : BookmarkCall) (w : World) :
  queries_succeed w → net (step c w) = net w.
Proof.
  intros Hq. destruct c as [userId postId|userId postId]; simpl.
  - by destruct (addBookmark_run userId postId w (Hq _ _)) as [-> _].
  - by destruct (removeBookmark_run userId postId w) as [-> _].
Qed.

Lemma unique_delete store (k : string * string) (u p : string) :
  unique store u p → unique (delete k store) u p.
Proof.
  unfold unique, bookmarks_of. intros H. rewrite map_filter_delete.
  etrans; [|exact H]. apply map_subseteq_size, delete_subseteq.
Qed.

(** One call, with its query going through, keeps a pair unique. *)
Lemma step_unique (c : BookmarkCall) (w : World) (u p : string) :
  queries_succeed w → unique (db w) u p → unique (db (step c w)) u p.
Proof.
  intros Hq Hun. destruct c as [userId postId|userId postId]; simpl.
  - destruct (addBookmark_run userId postId w (Hq _ _))
      as [_ [(-> & _)|(Hnone & id & ->)]]; [done|].
    unfold unique, bookmarks_of in *.
    destruct (decide (userId = u ∧ postId = p)) as [[-> ->]|Hne].
    + destruct (decide (matches (bookmarkQuery u p)
                  ((BOOKMARKS_COLLECTION, id), newBookmark u p (now w)))) as [Hm|Hm].
      * rewrite map_filter_insert_True by done.
        unfold bookmarks_of in Hnone. rewrite Hnone.
        rewrite insert_empty, map_size_singleton. done.
      * rewrite map_filter_insert_False by done.
        exact (unique_delete (db w) _ u p Hun).
    + rewrite map_filter_insert_False
        by (intros Hm; apply matches_newBookmark in Hm; done).
      exact (unique_delete (db w) _ u p Hun).
  - destruct (removeBookmark_run userId postId w) as [_ [->|(k & ->)]]; [done|].
    by apply unique_delete.
Qed.

Lemma run_unique (cs : list BookmarkCall) (w : World) (u p : string) :
  queries_succeed w → unique (db w) u p →
  queries_succeed (run cs w) ∧ unique (db (run cs w)) u p.
Proof.
  revert w. induction cs as [|c cs IH]; intros w Hq Hun; [done|].
  unfold run. simpl. apply IH.
  - unfold queries_succeed. rewrite step_net by done. exact Hq.
  - by apply step_unique.
Qed.

(** C9: when no query round-trip fails, a pair that has at most one
    bookmark document has at most one after any sequence of [addBookmark]
    and [removeBookmark] calls, each run to its end before the next; and
    [addBookmark] on a pair that has a bookmark fails with the "already
    bookmarked" error and leaves the store as it was. *)
Theorem bookmark_unique (cs : list BookmarkCall) (w : World) (userId postId : string) :
  queries_succeed w → unique (db w) userId postId →
  let w1 := run cs w in
  unique (db w1) userId postId ∧
  (userId ≠ "" → postId ≠ "" → bookmarks_of (db w1) userId postId ≠ ∅ →
   (addBookmark userId postId w1).1 = Throw already ∧
   db (addBookmark userId postId w1).2 = db w1).
Proof.
  intros Hq Hun. destruct (run_unique cs w userId postId Hq Hun) as [Hq1 Hun1].
  cbv zeta. split; [exact Hun1|]. intros Hu Hp Hsome.
  destruct (addBookmark_run userId postId (run cs w) (Hq1 _ _))
    as [_ [(Hdb & _ & Hthrow)|(Hnone & _)]]; [|done].
  split; [by apply Hthrow | exact Hdb].
Qed.

Definition empty_world : World := quiet_world 1700000000000 ∅ ∅ iso_parse.

Definition calls0 : list BookmarkCall :=
  [ Add "u1" "p1"; Add "u1" "p1"; Add "u2" "p1"; Remove "u1" "p1";
    Remove "u1" "p1"; Add "u1" "p1"; Add "" "p1" ].

Lemma bookmark_unique_witness :
  queries_succeed empty_world ∧ unique (db empty_world) "u1" "p1" ∧
  size (bookmarks_of (db (run calls0 empty_world)) "u1" "p1") = 1%nat ∧
  (addBookmark "u1" "p1" (run calls0 empty_world)).1 = Throw already.
Proof.
  assert (Hq : queries_succeed empty_world) by done.
  assert (Hun : unique (db empty_world) "u1" "p1") by (vm_compute; lia).
  assert (Hsize : size (bookmarks_of (db (run calls0 empty_world)) "u1" "p1") = 1%nat)
    by (vm_compute; reflexivity).
  split; [exact Hq|]. split; [exact Hun|]. split; [exact Hsize|].
  apply (bookmark_unique calls0 empty_world "u1" "p1" Hq Hun); [done|done|].
  intros Hnone. rewrite Hnone in Hsize. discriminate Hsize.
Defined.
End Bookmarks.

(** ** Backup and restore *)

Module RoundTrip.
Import AdminAuth Backup Gate AdminRetry.

(** A timestamp after [toDate()] and [Timestamp.fromDate].  A valid
    timestamp of whole milliseconds comes back as it was ([millis_whole]). *)
Definition millis (t : Timestamp) : Timestamp :=
  Timestamp_fromMillis (JsDate.ofTimestamp t).

(** A value with every timestamp taken through [millis]. *)
Fixpoint normalize (v : value) : value :=
  match v with
  | VTime t => VTime (millis t)
  | VArr l => VArr (map normalize l)
  | VObj o => VObj (map (λ kv, (kv.1, normalize kv.2)) o)
  | _ => v
  end.

Definition normalize_fields (o : object) : object :=
  map (λ kv, (kv.1, normalize kv.2)) o.

(** What the store accepts as a timestamp. *)
Definition valid_timestamp (t : Timestamp) : Prop :=
  MIN_SECONDS ≤ seconds t < MAX_SECONDS ∧ 0 ≤ nanoseconds t < 1000000000.

(** [Date.parse] reads back what [toISOString] wrote for [t]. *)
Definition parses_back (parse : string → option Z) (t : Timestamp) : Prop :=
  JsDate.toISOString (JsDate.ofTimestamp t) ≫= parse = Some (JsDate.ofTimestamp t).

#[global] Instance valid_timestamp_dec t : Decision (valid_timestamp t).
Proof. unfold valid_timestamp. apply _. Defined.

#[global] Instance parses_back_dec parse t : Decision (parses_back parse t).
Proof. unfold parses_back. apply _. Defined.

Definition is_string (v : value) : bool :=
  match v with
  | VStr _ => true
  | _ => false
  end.

(** A field name of a document that a JavaScript object keeps where it was
    added: not [__proto__] (it begins with two underscores), an assignment
    to which sets the prototype of the object instead of a field, and not a
    number, since the keys that are array indices are listed first,
    whatever the order in which they were added. *)
Definition plain_key (k : string) : bool :=
  document_key k && negb (forallb is_digit (chars k)).

(** The values that come back from a backup as they were: integers that a
    JavaScript number holds exactly, valid timestamps of whole milliseconds
    that [Date.parse] reads back, no string that looks like an ISO date, no
    string in a date field, plain field names, and no array directly inside
    an array. *)
Fixpoint restorable (parse : string → option Z) (v : value) : bool :=
  match v with
  | VNull | VBool _ => true
  | VNum n => bool_decide (- 2 ^ 53 < n < 2 ^ 53)
  | VStr s => negb (isoDatePattern s)
  | VTime t =>
      bool_decide (JsDate.whole_millis t) &&
      (bool_decide (valid_timestamp t) && bool_decide (parses_back parse t))
  | VInvalidTime => false
  | VArr l => forallb (λ x, restorable parse x && negb (is_array x)) l
  | VObj o =>
      forallb (λ kv, restorable parse kv.2 && negb (is_date_key kv.1 && is_string kv.2)
                     && plain_key kv.1) o
  end.

(** The JSON value of a stored value in a backup. *)
Fixpoint encode (v : value) : json :=
  match v with
  | VNull => JNull
  | VBool b => JBool b
  | VNum n => JNum n
  | VStr s => JStr s
  | VTime t => JStr (default "" (JsDate.toISOString (JsDate.ofTimestamp t)))
  | VInvalidTime => JNull
  | VArr l => JArr (map encode l)
  | VObj o => JObj (map (λ kv, (kv.1, encode kv.2)) o)
  end.

Definition encode_fields (o : object) : list (string * json) :=
  map (λ kv, (kv.1, encode kv.2)) o.

Lemma is_digit_digit (n : Z) : is_digit (JsDate.digit n) = true.
Proof.
  unfold JsDate.digit.
  assert (H : 0 ≤ n `mod` 10 < 10) by (apply Z.mod_pos_bound; lia).
  destruct (n `mod` 10) as [|p|p]; [reflexivity| |lia].
  do 4 (destruct p as [p|p|]; try lia; try reflexivity).
Qed.

Lemma ofTimestamp_bounds (t : Timestamp) :
  valid_timestamp t →
  MIN_SECONDS * 1000 ≤ JsDate.ofTimestamp t < MAX_SECONDS * 1000.
Proof.
  unfold valid_timestamp, JsDate.ofTimestamp, MIN_SECONDS, MAX_SECONDS.
  intros [Hs Hn]. Z.to_euclidean_division_equations. lia.
Qed.

Lemma civil_year_bounds (days : Z) :
  -719162 ≤ days < 2932897 →
  0 ≤ (JsDate.civil_from_days days).1.1 ≤ 9999.
Proof.
  intros Hd. unfold JsDate.civil_from_days. cbv zeta. simpl.
  repeat case_decide; Z.to_euclidean_division_equations; lia.
Qed.
Lemma toISOString_pattern (ms : Z) :
  MIN_SECONDS * 1000 ≤ ms < MAX_SECONDS * 1000 →
  ∃ s, JsDate.toISOString ms = Some s ∧ isoDatePattern s = true.
Proof.
  unfold MIN_SECONDS, MAX_SECONDS. intros Hms. unfold JsDate.toISOString.
  rewrite decide_True by (unfold JsDate.maxTime; lia).
  pose proof (civil_year_bounds (ms `div` JsDate.msPerDay)) as Hy.
  destruct (JsDate.civil_from_days (ms `div` JsDate.msPerDay)) as [[y m] d].
  simpl in Hy. rewrite decide_True.
  2:{ apply Hy. unfold JsDate.msPerDay. Z.to_euclidean_division_equations. lia. }
  eexists. split; [reflexivity|].
  cbn [JsDate.pad].
  repeat match goal with
         | |- context [JsDate.digit ?n] =>
             generalize (is_digit_digit n); generalize (JsDate.digit n); intros ? ?
         end.
  unfold isoDatePattern. simpl.
  repeat match goal with
         | H : is_digit ?a = true |- context [is_digit ?a] => rewrite H
         end.
  apply orb_true_iff. right. simpl.
  repeat match goal with
         | H : is_digit ?a = true |- context [is_digit ?a] => rewrite H
         end.
  by apply bool_decide_eq_true.
Qed.

(** A valid timestamp that [Date.parse] reads back goes through the
    backup text and comes back as [millis] of it. *)
Lemma time_round_trip (parse : string → option Z) (t : Timestamp) :
  valid_timestamp t → parses_back parse t →
  ∃ s, JsDate.toISOString (JsDate.ofTimestamp t) = Some s ∧
       isoDatePattern s = true ∧ s ≠ "" ∧
       Timestamp_fromDate (Date_of_string parse s) = Ok (VTime (millis t)) ∧
       isoStringToTimestamp parse s = VTime (millis t).
Proof.
  intros Hvalid Hparse. pose proof (ofTimestamp_bounds t Hvalid) as Hms.
  destruct (toISOString_pattern _ Hms) as (s & Hs & Hpat).
  unfold parses_back in Hparse. rewrite Hs in Hparse. simpl in Hparse.
  assert (Hne : s ≠ "") by (intros ->; discriminate Hpat).
  assert (Hdate : Date_of_string parse s = Some (JsDate.ofTimestamp t)).
  { unfold Date_of_string. rewrite Hparse. simpl. rewrite decide_True; [done|].
    unfold MIN_SECONDS, MAX_SECONDS, JsDate.maxTime in *. lia. }
  assert (Hfrom : Timestamp_fromDate (Some (JsDate.ofTimestamp t)) = Ok (VTime (millis t))).
  { unfold Timestamp_fromDate. rewrite decide_True; [done|].
    unfold Timestamp_fromMillis. simpl.
    unfold MIN_SECONDS, MAX_SECONDS in *. Z.to_euclidean_division_equations. lia. }
  exists s. split; [done|]. split; [done|]. split; [done|]. split.
  - by rewrite Hdate.
  - unfold isoStringToTimestamp. rewrite bool_decide_eq_false_2 by done.
    by rewrite Hdate, Hfrom.
Qed.

Lemma restorable_fields (parse : string → option Z) (k : string) (x : value) (o : object) :
  restorable parse (VObj ((k, x) :: o)) = true →
  restorable parse x = true ∧ (is_date_key k = true → is_string x = false) ∧
  restorable parse (VObj o) = true.
Proof.
  simpl. rewrite !andb_true_iff, (negb_true_iff (_ && _)), andb_false_iff.
  intros [[[Hx Hk] _] Ho]. split; [done|]. split; [|done].
  intros Hdate. destruct Hk as [Hk|Hk]; [congruence|done].
Qed.

(** A restorable value is written to the backup as [encode] says. *)
Lemma convertTimestampsToISOStrings_encode (parse : string → option Z) (v : value) :
  restorable parse v = true → convertTimestampsToISOStrings v = Ok (encode v).
Proof.
  induction v as [| | | |t| |l IH|o IH] using value_ind'; intros Hv; try done.
  - simpl in Hv. apply andb_true_iff in Hv as [_ Hv].
    apply andb_true_iff in Hv as [Hvalid Hparse].
    apply bool_decide_eq_true in Hvalid, Hparse.
    destruct (time_round_trip parse t Hvalid Hparse) as (s & Hs & _).
    simpl. unfold timestampToISOString. by rewrite Hs.
  - simpl in *. induction IH as [|x l Hx _ IHl]; [done|].
    simpl in Hv. apply andb_true_iff in Hv as [Hvx Hvl].
    apply andb_true_iff in Hvx as [Hvx _].
    rewrite (Hx Hvx). simpl. specialize (IHl Hvl).
    destruct ((fix go (l : list value) : Res (list json) := _) l) as [ys|e];
      simpl in *; congruence.
  - simpl in *. induction IH as [|[k x] o Hx _ IHo]; [done|].
    apply restorable_fields in Hv as (Hvx & _ & Hvo).
    simpl in Hx. rewrite (Hx Hvx). simpl. specialize (IHo Hvo).
    destruct ((fix go (o : object) : Res (list (string * json)) := _) o) as [ys|e];
      simpl in *; congruence.
Qed.

(** Reading the backup value of a restorable value gives the value back,
    with its timestamps taken through [millis]. *)
Lemma convertISOStringsToTimestamps_encode (parse : string → option Z) (v : value) :
  restorable parse v = true →
  convertISOStringsToTimestamps parse (encode v) = normalize v.
Proof.
  induction v as [| | |s|t| |l IH|o IH] using value_ind'; intros Hv; try done.
  - simpl in *. apply negb_true_iff in Hv. rewrite Hv. by case_bool_decide.
  - simpl in Hv. apply andb_true_iff in Hv as [_ Hv].
    apply andb_true_iff in Hv as [Hvalid Hparse].
    apply bool_decide_eq_true in Hvalid, Hparse.
    destruct (time_round_trip parse t Hvalid Hparse) as (s & Hs & Hpat & Hne & _ & Hback).
    simpl. rewrite Hs. simpl. rewrite bool_decide_eq_false_2 by done.
    by rewrite Hpat.
  - simpl in *. f_equal. induction IH as [|x l Hx _ IHl]; [done|].
    apply andb_true_iff in Hv as [Hvx Hvl].
    apply andb_true_iff in Hvx as [Hvx _]. simpl. rewrite (Hx Hvx). f_equal. by apply IHl.
  - simpl. f_equal. induction IH as [|[k x] o Hx _ IHo]; [done|].
    apply restorable_fields in Hv as (Hvx & Hk & Hvo). simpl in Hx.
    cbn [map fst snd]. rewrite (IHo Hvo). f_equal. f_equal.
    specialize (Hx Hvx).
    destruct x as [| | |s|t| |l|o']; try exact Hx.
    + destruct (is_date_key k) eqn:Hdate; [|exact Hx]. by specialize (Hk eq_refl).
    + destruct (is_date_key k) eqn:Hdate; [|exact Hx].
      simpl in Hvx. apply andb_true_iff in Hvx as [_ Hvx].
      apply andb_true_iff in Hvx as [Hvalid Hparse].
      apply bool_decide_eq_true in Hvalid, Hparse.
      destruct (time_round_trip parse t Hvalid Hparse) as (s & Hs & _ & _ & Hfrom & _).
      cbn [encode]. rewrite Hs. cbn [default]. cbv beta iota.
      change (id s) with s. by rewrite Hfrom.
Qed.

(** A valid timestamp of whole milliseconds is the same after [toDate()]
    and [Timestamp.fromDate]. *)
Lemma millis_whole (t : Timestamp) :
  valid_timestamp t → JsDate.whole_millis t → millis t = t.
Proof.
  destruct t as [s n]. unfold valid_timestamp, JsDate.whole_millis, millis,
    JsDate.ofTimestamp, Timestamp_fromMillis. cbn [seconds nanoseconds].
  intros [_ Hn] Hw. apply Z.div_exact in Hw; [|lia].
  set (k := n `div` 1000000) in *. assert (Hk : 0 ≤ k < 1000) by lia.
  replace (s * 1000000000 + n) with ((s * 1000 + k) * 1000000) by lia.
  rewrite Z.quot_mul by lia.
  replace (s * 1000 + k) with (k + s * 1000) by lia.
  rewrite Z.div_add, Z.mod_add by lia.
  rewrite Z.div_small, Z.mod_small by lia. f_equal; lia.
Qed.

(** A restorable value has nothing that [normalize] changes. *)
Lemma normalize_restorable (parse : string → option Z) (v : value) :
  restorable parse v = true → normalize v = v.
Proof.
  induction v as [| | | |t| |l IH|o IH] using value_ind'; intros Hv; try done.
  - simpl in Hv. apply andb_true_iff in Hv as [Hwhole Hv].
    apply andb_true_iff in Hv as [Hvalid _].
    apply bool_decide_eq_true in Hwhole, Hvalid. simpl. by rewrite millis_whole.
  - simpl in *. f_equal. induction IH as [|x l Hx _ IHl]; [done|].
    apply andb_true_iff in Hv as [Hvx Hvl].
    apply andb_true_iff in Hvx as [Hvx _]. simpl. rewrite (Hx Hvx). f_equal. by apply IHl.
  - simpl. f_equal. induction IH as [|[k x] o Hx _ IHo]; [done|].
    apply restorable_fields in Hv as (Hvx & _ & Hvo). simpl in Hx.
    cbn [map fst snd]. rewrite (Hx Hvx). f_equal. by apply IHo.
Qed.

Lemma has_invalid_time_normalize (parse : string → option Z) (v : value) :
  restorable parse v = true → has_invalid_time (normalize v) = false.
Proof.
  induction v as [| | | |t| |l IH|o IH] using value_ind'; intros Hv; try done.
  - simpl in *. induction IH as [|x l Hx _ IHl]; [done|].
    apply andb_true_iff in Hv as [Hvx Hvl].
    apply andb_true_iff in Hvx as [Hvx _]. simpl. rewrite (Hx Hvx). by apply IHl.
  - simpl. induction IH as [|[k x] o Hx _ IHo]; [done|].
    apply restorable_fields in Hv as (Hvx & _ & Hvo). simpl in *.
    rewrite (Hx Hvx). by apply IHo.
Qed.

Lemma obj_get_normalize_fields (k : string) (o : object) :
  obj_get k (normalize_fields o) = normalize <$> obj_get k o.
Proof.
  induction o as [|[k' x] o IH]; [done|]. simpl. by destruct (decide (k' = k)).
Qed.

Lemma obj_get_encode_fields (k : string) (o : object) :
  obj_get k (encode_fields o) = encode <$> obj_get k o.
Proof.
  induction o as [|[k' x] o IH]; [done|]. simpl. by destruct (decide (k' = k)).
Qed.

Lemma date_field_no_string (parse : string → option Z) (k : string) (o : object) :
  is_date_key k = true → restorable parse (VObj o) = true →
  ∀ s, obj_get k (normalize_fields o) ≠ Some (VStr s).
Proof.
  intros Hk Ho s. induction o as [|[k' x] o IH]; [done|].
  apply restorable_fields in Ho as (_ & Hx & Ho). simpl.
  destruct (decide (k' = k)) as [->|_]; [|by apply IH].
  specialize (Hx Hk). by destruct x.
Qed.

Lemma fix_date_normalize (parse : string → option Z) (k : string) (o : object) :
  is_date_key k = true → restorable parse (VObj o) = true →
  fix_date parse k (normalize_fields o) = Ok (normalize_fields o).
Proof.
  intros Hk Ho. unfold fix_date.
  pose proof (date_field_no_string parse k o Hk Ho) as Hno.
  destruct (obj_get k (normalize_fields o)) as [[]|]; try done.
  by destruct (Hno s).
Qed.

Lemma processCollectionSpecificData_normalize (parse : string → option Z)
    (collectionName : string) (o : object) :
  restorable parse (VObj o) = true →
  processCollectionSpecificData parse collectionName (normalize_fields o) =
    Ok (normalize_fields o).
Proof.
  intros Ho. unfold processCollectionSpecificData.
  destruct (_ || _).
  - rewrite (fix_date_normalize parse "createdAt") by done. simpl.
    by rewrite (fix_date_normalize parse "updatedAt").
  - destruct (bool_decide _); [|done].
    by rewrite (fix_date_normalize parse "updatedAt").
Qed.

Lemma obj_set_new {V} (k : string) (v : V) (o : list (string * V)) :
  k ∉ o.*1 → obj_set k v o = (o ++ [(k, v)])%list.
Proof.
  induction o as [|[k' v'] o IH]; [done|]. simpl. intros Hk.
  apply not_elem_of_cons in Hk as [Hne Hk].
  rewrite decide_False by done. by rewrite IH.
Qed.

Lemma obj_assign_new {V} (a b : list (string * V)) :
  NoDup b.*1 → (∀ k, k ∈ b.*1 → k ∉ a.*1) → obj_assign a b = (a ++ b)%list.
Proof.
  unfold obj_assign. revert a. induction b as [|[k v] b IH]; intros a Hnd Hdis.
  { by rewrite app_nil_r. }
  simpl in *. apply NoDup_cons in Hnd as [Hk Hnd].
  rewrite obj_set_new by (apply Hdis; left).
  rewrite IH; [by rewrite <- app_assoc|done|].
  intros k' Hk'. rewrite fmap_app, elem_of_app. simpl.
  intros [Hin|Hin%list_elem_of_singleton].
  - by apply (Hdis k'); [right|].
  - by subst.
Qed.

Lemma obj_del_absent {V} (k : string) (o : list (string * V)) :
  obj_get k o = None → obj_del k o = o.
Proof.
  unfold obj_del. induction o as [|[k' v] o IH]; [done|]. simpl.
  destruct (decide (k' = k)) as [->|Hne]; [done|]. intros H.
  rewrite filter_cons_True by done. by rewrite IH.
Qed.

Lemma obj_get_None_keys {V} (k : string) (o : list (string * V)) :
  obj_get k o = None ↔ k ∉ o.*1.
Proof.
  induction o as [|[k' v] o IH]; simpl.
  - split; [intros _; apply not_elem_of_nil|done].
  - rewrite not_elem_of_cons. destruct (decide (k' = k)) as [->|Hne].
    + split; [done|]. by intros [? _].
    + rewrite IH. split; [by split|by intros [_ ?]].
Qed.

(** The documents that come back as they were: a usable document id, an
    object with distinct keys and no [id] field, and restorable values. *)
Definition restorable_doc (parse : string → option Z) (id : string) (d : object) : Prop :=
  id ≠ "" ∧ includes "/" id = false ∧ NoDup d.*1 ∧ obj_get "id" d = None ∧
  restorable parse (VObj d) = true.

#[global] Instance restorable_doc_dec parse id d : Decision (restorable_doc parse id d).
Proof. unfold restorable_doc. apply _. Defined.

(** A document in a backup. *)
Definition dump_doc (doc : string * object) : json :=
  JObj (("id", JStr doc.1) :: encode_fields doc.2).

Lemma encode_fields_keys (o : object) : (encode_fields o).*1 = o.*1.
Proof. induction o as [|[k x] o IH]; [done|]. simpl. by f_equal. Qed.

Lemma dump_docs (parse : string → option Z) (docs : list (string * object)) :
  Forall (λ doc, restorable_doc parse doc.1 doc.2) docs →
  dump docs = Ok (map dump_doc docs).
Proof.
  induction 1 as [|[id d] docs (_ & _ & Hnd & Hid & Hd) _ IH]; [done|].
  simpl in *. rewrite IH.
  pose proof (convertTimestampsToISOStrings_encode parse (VObj d) Hd) as Henc.
  simpl in Henc. rewrite Henc. simpl. unfold dump_doc. simpl.
  fold (encode_fields d). rewrite obj_assign_new; [done| |].
  - by rewrite encode_fields_keys.
  - intros k Hk. cbn [fmap list_fmap fst]. rewrite list_elem_of_singleton. intros ->.
    apply obj_get_None_keys in Hid. apply Hid. by rewrite <- encode_fields_keys.
Qed.
(** The world after one document has been written back. *)
Definition written (collectionName : string) (doc : string * object) (w : World) : World :=
  set_db (insert (collectionName, doc.1) (normalize_fields doc.2))
    (log (Call (ReqSet collectionName doc.1)) w).

Definition restored (collectionName : string) (docs : list (string * object)) (w : World)
    : World :=
  foldl (λ w doc, written collectionName doc w) w docs.

Lemma restore_item_run (collectionName : string) (doc : string * object) (p : Progress)
    (w : World) :
  collection_name collectionName →
  reliable w → restorable_doc (Date_parse w) doc.1 doc.2 →
  restore_item collectionName true (dump_doc doc) p w =
    (Ok (mkProgress (S (restoredCount p)) (failedCount p) (warnings p)),
     written collectionName doc w).
Proof.
  destruct doc as [id d]. intros Hname Hrel (Hid & Hslash & Hnd & Hnoid & Hd).
  unfold restore_item, dump_doc. cbn [fst snd] in *.
  assert (Hget : obj_get "id" (("id", JStr id) :: encode_fields d) = Some (JStr id)) by done.
  assert (Hdel : obj_del "id" (("id", JStr id) :: encode_fields d) = encode_fields d).
  { unfold obj_del. rewrite filter_cons_False by (simpl; intros H; by apply H).
    apply obj_del_absent. by rewrite obj_get_encode_fields, Hnoid. }
  pose proof (convertISOStringsToTimestamps_encode (Date_parse w) (VObj d) Hd) as Hconv.
  cbn [encode normalize] in Hconv. fold (encode_fields d) in Hconv.
  fold (normalize_fields d) in Hconv.
  unfold bind at 1. unfold ret at 1. cbn [fst snd]. rewrite Hget, Hdel.
  unfold docRef. unfold try_catch. unfold bind at 1. unfold bind at 1.
  rewrite collection_run by done.
  rewrite bool_decide_eq_false_2 by done. rewrite Hslash.
  mrun. cbn [orb]. rewrite Hconv.
  rewrite (processCollectionSpecificData_normalize _ _ _ Hd).
  cbn [lift]. unfold ret.
  pose proof (has_invalid_time_normalize (Date_parse w) (VObj d) Hd) as Hinv.
  cbn [normalize] in Hinv. fold (normalize_fields d) in Hinv. rewrite Hinv.
  rewrite Hrel. done.
Qed.

Lemma written_reliable c doc w : reliable w → reliable (written c doc w).
Proof. done. Qed.

Lemma restored_net c docs w : net (restored c docs w) = net w.
Proof. revert w. induction docs as [|doc docs IH]; intros w; [done|]. simpl. by rewrite IH. Qed.

Lemma restored_parse c docs w : Date_parse (restored c docs w) = Date_parse w.
Proof. revert w. induction docs as [|doc docs IH]; intros w; [done|]. simpl. by rewrite IH. Qed.

Lemma restore_items_run (collectionName : string) (docs : list (string * object))
    (p : Progress) (w : World) :
  collection_name collectionName →
  reliable w → Forall (λ doc, restorable_doc (Date_parse w) doc.1 doc.2) docs →
  restore_items collectionName true (map dump_doc docs) p w =
    (Ok (mkProgress (restoredCount p + length docs) (failedCount p) (warnings p)),
     restored collectionName docs w).
Proof.
  intros Hname. revert p w. induction docs as [|doc docs IH]; intros p w Hrel Hdocs.
  { simpl. unfold ret. destruct p. simpl. by rewrite Nat.add_0_r. }
  apply Forall_cons in Hdocs as [Hdoc Hdocs].
  cbn [map restore_items]. unfold bind. rewrite restore_item_run by done.
  rewrite IH by done. cbn [restoredCount failedCount warnings length restored foldl].
  do 3 f_equal. lia.
Qed.

(** What a restore may do to a store, given the store [S] the backup was
    taken from: each document stays, or becomes the normalised document
    that [S] has under its key. *)
Definition frame (S : gmap (string * string) object) (w w' : World) : Prop :=
  ∀ k, db w' !! k = db w !! k ∨
       ∃ d, S !! k = Some d ∧ db w' !! k = Some (normalize_fields d).

(** Every document of the collection in [S] is in the store, normalised. *)
Definition settled (S : gmap (string * string) object) (c : string) (w : World) : Prop :=
  ∀ id d, S !! (c, id) = Some d → db w !! (c, id) = Some (normalize_fields d).

Lemma frame_refl S w : frame S w w.
Proof. intros k. by left. Qed.

Lemma frame_trans S w1 w2 w3 : frame S w1 w2 → frame S w2 w3 → frame S w1 w3.
Proof.
  intros H12 H23 k. destruct (H23 k) as [->|H]; [apply H12|by right].
Qed.

Lemma settled_frame S c w w' : settled S c w → frame S w w' → settled S c w'.
Proof.
  intros Hs Hf id d Hd. destruct (Hf (c, id)) as [->|(d' & Hd' & ->)]; [by apply Hs|].
  congruence.
Qed.

Lemma written_frame S c doc w : S !! (c, doc.1) = Some doc.2 → frame S w (written c doc w).
Proof.
  intros Hdoc k. unfold written. simpl. destruct (decide (k = (c, doc.1))) as [->|Hne].
  - right. exists doc.2. by rewrite lookup_insert_eq.
  - left. by rewrite lookup_insert_ne.
Qed.

Lemma restored_frame S c docs w :
  Forall (λ doc, S !! (c, doc.1) = Some doc.2) docs →
  frame S w (restored c docs w) ∧
  Forall (λ doc, db (restored c docs w) !! (c, doc.1) = Some (normalize_fields doc.2)) docs.
Proof.
  revert w. induction docs as [|doc docs IH]; intros w Hdocs.
  { split; [apply frame_refl|done]. }
  apply Forall_cons in Hdocs as [Hdoc Hdocs].
  destruct (IH (written c doc w) Hdocs) as [Hf Hall]. simpl. split.
  - eapply frame_trans; [by apply written_frame|exact Hf].
  - apply Forall_cons. split; [|exact Hall].
    destruct (Hf (c, doc.1)) as [->|(d & Hd & ->)].
    + unfold written. simpl. by rewrite lookup_insert_eq.
    + congruence.
Qed.

(** The documents of a collection, as a backup reads them. *)
Definition docs_of (S : gmap (string * string) object) (c : string)
    : list (string * object) :=
  run_query (mkQuery c [] None) S.

Lemma docs_of_elem S c id d : (id, d) ∈ docs_of S c ↔ S !! (c, id) = Some d.
Proof.
  unfold docs_of. rewrite CategoryAdmin.run_query_elem by done. simpl.
  split; [by intros [? _]|by split].
Qed.

Lemma normalize_fields_restorable (parse : string → option Z) (id : string) (d : object) :
  restorable_doc parse id d → normalize_fields d = d.
Proof.
  intros (_ & _ & _ & _ & Hd). apply (normalize_restorable parse) in Hd.
  simpl in Hd. by injection Hd.
Qed.

Definition all_restorable (parse : string → option Z) (S : gmap (string * string) object)
    : Prop :=
  map_Forall (λ k d, restorable_doc parse k.2 d) S.

Lemma docs_of_restorable parse S c :
  all_restorable parse S →
  Forall (λ doc, restorable_doc parse doc.1 doc.2) (docs_of S c).
Proof.
  intros Hall. apply Forall_forall. intros [id d] Hin%docs_of_elem.
  exact (Hall _ _ Hin).
Qed.

Lemma restored_settled S c w :
  frame S w (restored c (docs_of S c) w) ∧ settled S c (restored c (docs_of S c) w).
Proof.
  destruct (restored_frame S c (docs_of S c) w) as [Hf Hall].
  { apply Forall_forall. by intros [id d] Hin%docs_of_elem. }
  split; [exact Hf|]. intros id d Hd. apply docs_of_elem in Hd.
  rewrite Forall_forall in Hall. exact (Hall _ Hd).
Qed.
(** The [data] object of a backup of [S]: each collection it has is the
    dump of the documents of [S]. *)
Definition dump_of (S : gmap (string * string) object) (bd : list (string * json)) : Prop :=
  ∀ c, obj_get c bd = None ∨ obj_get c bd = Some (JArr (map dump_doc (docs_of S c))).

Definition none_failed (t : Tally) : Prop :=
  Forall (λ kv : string * nat, kv.2 = 0%nat) (failedCounts t) ∧ t_warnings t = [].

Lemma obj_set_Forall {V} (P : string * V → Prop) (k : string) (v : V)
    (o : list (string * V)) :
  P (k, v) → Forall P o → Forall P (obj_set k v o).
Proof.
  intros Hkv. induction 1 as [|[k' v'] o Hx Ho IH]; simpl.
  - by repeat constructor.
  - destruct (decide (k' = k)); by constructor.
Qed.

Lemma restore_collections_run (S : gmap (string * string) object)
    (bd : list (string * json)) (collections : list string) (t : Tally) (w : World) :
  Forall collection_name collections →
  reliable w → all_restorable (Date_parse w) S → dump_of S bd → none_failed t →
  ∃ t' w', restore_collections (JObj bd) true false collections t w = (Ok t', w') ∧
           none_failed t' ∧ frame S w w' ∧
           ∀ c, c ∈ collections → obj_get c bd ≠ None → settled S c w'.
Proof.
  intros Hnames Hrel Hall Hbd. revert t w Hrel Hall.
  induction Hnames as [|c cs Hname _ IH]; intros t w Hrel Hall Ht.
  { exists t, w. split; [done|]. split; [done|]. split; [apply frame_refl|].
    intros c Hc. by apply elem_of_nil in Hc. }
  cbn [restore_collections collection_of].
  destruct (Hbd c) as [Hc|Hc]; rewrite Hc.
  - destruct (IH t w Hrel Hall Ht) as (t' & w' & Hrun & Ht' & Hf & Hs).
    exists t', w'. split; [done|]. split; [done|]. split; [done|].
    intros c' [->|Hin]%elem_of_cons Hc'; [done|by apply Hs].
  - cbn [json_truthy iterate]. unfold bind at 1. unfold ret at 1.
    unfold bind at 1. unfold ret at 1. unfold bind at 1.
    rewrite restore_items_run by (done || by apply docs_of_restorable).
    destruct Ht as [Hfailed Hwarn].
    destruct (restored_settled S c w) as [Hf1 Hs1].
    cbn [restoredCount failedCount warnings].
    match goal with
    | |- ∃ t' w', restore_collections _ _ _ _ ?t0 ?w0 = _ ∧ _ =>
        destruct (IH t0 w0) as (t' & w' & Hrun & Ht' & Hf & Hs)
    end.
    + unfold reliable. by rewrite restored_net.
    + by rewrite restored_parse.
    + split; [|exact Hwarn]. cbn [failedCounts failedCount].
      by apply obj_set_Forall.
    + exists t', w'. split; [done|]. split; [done|].
      split; [by eapply frame_trans|].
      intros c' [->|Hin]%elem_of_cons Hc'; [|by apply Hs].
      by eapply settled_frame.
Qed.

Lemma fetchCollectionData_run (parse : string → option Z) (collectionName : string)
    (w : World) :
  collection_name collectionName →
  reliable w → all_restorable parse (db w) →
  fetchCollectionData collectionName w =
    (Ok (map dump_doc (docs_of (db w) collectionName)),
     log (Call (ReqQuery collectionName)) w).
Proof.
  intros Hname Hrel Hall. unfold fetchCollectionData, try_catch. unfold bind at 1.
  rewrite collection_run by done. mrun. cbn [q_from]. rewrite Hrel.
  fold (docs_of (db w) collectionName).
  by rewrite (dump_docs parse) by by apply docs_of_restorable.
Qed.

(** A world that differs from [w] in its trace only. *)
Definition same_store (w w' : World) : Prop :=
  db w' = db w ∧ now w' = now w ∧ net w' = net w.

Lemma obj_set_dump_of S c bd :
  dump_of S bd → dump_of S (obj_set c (JArr (map dump_doc (docs_of S c))) bd).
Proof.
  intros Hbd c'. destruct (decide (c' = c)) as [->|Hne].
  - right. by rewrite obj_get_set_eq.
  - rewrite obj_get_set_ne by done. apply Hbd.
Qed.

Lemma backup_collections_run (parse : string → option Z) (includeUsers : bool)
    (collections : list string) (bd : list (string * json)) (w : World) :
  Forall collection_name collections →
  reliable w → all_restorable parse (db w) → dump_of (db w) bd →
  ∃ bd' w', backup_collections includeUsers collections bd w = (Ok bd', w') ∧
            same_store w w' ∧ dump_of (db w) bd' ∧
            (∀ c, obj_get c bd ≠ None → obj_get c bd' ≠ None) ∧
            ∀ c, c ∈ collections → c ≠ USERS_COLLECTION ∨ includeUsers = true →
                 obj_get c bd' ≠ None.
Proof.
  intros Hnames Hrel Hall. revert bd w Hrel Hall.
  induction Hnames as [|c cs Hname _ IH]; intros bd w Hrel Hall Hbd.
  { exists bd, w. split; [done|]. split; [done|]. split; [done|]. split; [done|].
    intros c Hc. by apply elem_of_nil in Hc. }
  cbn [backup_collections].
  destruct (bool_decide (c = USERS_COLLECTION) && negb includeUsers) eqn:Hskip.
  - destruct (IH bd w Hrel Hall Hbd) as (bd' & w' & Hrun & Hsame & Hbd' & Hkeep & Hin).
    exists bd', w'. split; [done|]. split; [done|]. split; [done|]. split; [done|].
    intros c' [->|Hc']%elem_of_cons Hnot; [|by apply Hin].
    apply andb_true_iff in Hskip as [Hu Hi]. apply bool_decide_eq_true in Hu.
    apply negb_true_iff in Hi. destruct Hnot; congruence.
  - unfold bind at 1. rewrite (fetchCollectionData_run parse) by done.
    edestruct (IH (obj_set c (JArr (map dump_doc (docs_of (db w) c))) bd)
                 (log (Call (ReqQuery c)) w))
      as (bd' & w' & Hrun & Hsame & Hbd' & Hkeep & Hin);
      [done|done|by apply obj_set_dump_of|].
    exists bd', w'. split; [done|]. split; [done|]. split; [done|]. split.
    + intros c' Hc'. apply Hkeep. destruct (decide (c' = c)) as [->|Hne].
      * by rewrite obj_get_set_eq.
      * by rewrite obj_get_set_ne.
    + intros c' [->|Hc']%elem_of_cons Hnot; [|by apply Hin].
      apply Hkeep. by rewrite obj_get_set_eq.
Qed.
Lemma toISOString_Some (ms : Z) :
  - JsDate.maxTime ≤ ms ≤ JsDate.maxTime → is_Some (JsDate.toISOString ms).
Proof.
  intros Hms. unfold JsDate.toISOString. rewrite decide_True by done.
  destruct (JsDate.civil_from_days _) as [[y m] d]. by eexists.
Qed.

(** The clock shows a time that a [Date] can hold. *)
Definition clock_valid (w : World) : Prop :=
  - JsDate.maxTime ≤ now w ≤ JsDate.maxTime.

(** The collections that end up in a backup. *)
Definition backed_up (collections : option (list string)) (includeUsers : option bool)
    (c : string) : Prop :=
  c ∈ default default_collections collections ∧
  (c ≠ USERS_COLLECTION ∨ includeUsers = Some true).

Lemma backupData_run (parse : string → option Z) (collections : option (list string))
    (includeUsers : option bool) (w : World) :
  Forall collection_name (default default_collections collections) →
  session_valid w → reliable w → clock_valid w → all_restorable parse (db w) →
  ∃ meta bd w1,
    backupData collections includeUsers w =
      (Ok (JsonText (JObj [("metadata", meta); ("data", JObj bd)])), w1) ∧
    db w1 = db w ∧ dump_of (db w) bd ∧
    ∀ c, backed_up collections includeUsers c → obj_get c bd ≠ None.
Proof.
  intros Hnames Hvalid Hrel Hclock Hall. unfold backupData.
  rewrite (gated_granted _ w Hvalid). unfold try_catch.
  destruct (backup_collections_run parse (default false includeUsers)
              (default default_collections collections) [] w Hnames Hrel Hall)
    as (bd & w1 & Hrun & (Hdb & Hnow & Hnet) & Hbd & _ & Hin).
  { intros c. by left. }
  unfold bind at 1. rewrite Hrun.
  assert (Hrel1 : reliable w1) by (unfold reliable; by rewrite Hnet).
  assert (Hall1 : all_restorable parse (db w1)) by by rewrite Hdb.
  destruct (toISOString_Some (now w) Hclock) as [s Hs].
  assert (Hin' : ∀ c, backed_up collections includeUsers c → obj_get c bd ≠ None).
  { intros c [Hc Hu]. apply Hin; [done|]. destruct Hu as [? | ->]; [by left|by right]. }
  destruct (default false includeUsers
            && negb (bool_decide (USERS_COLLECTION ∈ default default_collections collections))).
  - unfold bind at 1. unfold bind at 1.
    rewrite (fetchCollectionData_run parse) by done.
    unfold ret at 1. mrun. cbn [now]. rewrite Hnow, Hs, Hdb.
    eexists _, _, _. split; [reflexivity|]. split; [done|].
    split; [by apply obj_set_dump_of|].
    intros c Hc. destruct (decide (c = USERS_COLLECTION)) as [->|Hne].
    + by rewrite obj_get_set_eq.
    + rewrite obj_get_set_ne by done. by apply Hin'.
  - unfold bind at 1. unfold ret at 1. mrun. rewrite Hnow, Hs.
    eexists _, _, _. split; [reflexivity|]. done.
Qed.
Lemma none_failed_total (t : Tally) :
  none_failed t → foldr (λ (kv : string * nat) n, (kv.2 + n)%nat) 0%nat (failedCounts t) = 0%nat.
Proof.
  intros [Hall _]. induction Hall as [|[k n] l Hn _ IH]; [done|].
  simpl in *. by rewrite Hn, IH.
Qed.

Lemma restoreData_run (S : gmap (string * string) object) (meta : json)
    (bd : list (string * json)) (collections : option (list string)) (w : World) :
  Forall collection_name (default default_collections collections) →
  session_valid w → reliable w → all_restorable (Date_parse w) S → dump_of S bd →
  ∃ result w',
    restoreData (JsonText (JObj [("metadata", meta); ("data", JObj bd)]))
      collections (Some true) None w = (Ok result, w') ∧
    success result = true ∧ r_warnings result = None ∧ frame S w w' ∧
    ∀ c, c ∈ default default_collections collections → obj_get c bd ≠ None →
         settled S c w'.
Proof.
  intros Hnames Hvalid Hrel Hall Hbd. unfold restoreData.
  rewrite (gated_granted _ w Hvalid). unfold parse_backup, property.
  destruct (restore_collections_run S bd (default default_collections collections)
              (mkTally [] [] []) w Hnames Hrel Hall Hbd) as (t & w' & Hrun & Ht & Hf & Hs).
  { by split. }
  mrun.
  change (obj_get "data" [("metadata", meta); ("data", JObj bd)]) with (Some (JObj bd)).
  cbv beta iota. change (default false (Some true)) with true.
  change (default false None) with false. rewrite Hrun.
  rewrite (none_failed_total t Ht). destruct Ht as [_ ->].
  rewrite bool_decide_eq_false_2 by lia.
  eexists _, w'. split; [reflexivity|]. done.
Qed.

(** The store after a backup of [w] has been restored into the store of
    [w] itself with [overwrite], when both calls succeed. *)
Definition round_trip (collections : option (list string)) (w : World)
    : option (gmap (string * string) object) :=
  match backupData collections None w with
  | (Ok backup, w1) =>
      match restoreData backup collections (Some true) None w1 with
      | (Ok result, w') => if success result then Some (db w') else None
      | (Throw _, _) => None
      end
  | (Throw _, _) => None
  end.

(** The settings document that [initSettings] writes. *)
Definition defaultSettings : object :=
  [ ("id", VStr "global-settings");
    ("categories", VArr [VObj [("id", VStr "general"); ("name", VStr "자유게시판")]]);
    ("allowAnonymousPosting", VBool true); ("allowComments", VBool true);
    ("createdAt", VTime (mkTimestamp 1700000000 0));
    ("updatedAt", VTime (mkTimestamp 1700000000 0)) ].

Definition session : json :=
  JObj [ ("id", JStr "admin"); ("isAdmin", JBool true);
         ("loggedInAt", JStr "2024-06-15T12:00:00.000Z");
         ("expiresAt", JStr "2024-06-15T14:00:00.000Z") ].

Definition admin_world (store : gmap (string * string) object) : World :=
  quiet_world 1718454645123 store {[ ADMIN_AUTH_KEY := JsonText session ]} iso_parse.

Definition w_settings : World :=
  admin_world {[ (SETTINGS_COLLECTION, "global-settings") := defaultSettings ]}.

(** C6, as stated, fails: the backup stores the document id under the
    key [id] of each document, so a document that has an [id] field of its
    own, as the settings document of this application has, comes back
    without it. *)
Lemma restore_drops_id_field :
  let key := (SETTINGS_COLLECTION, "global-settings") in
  db w_settings !! key = Some defaultSettings ∧
  ∃ store, round_trip None w_settings = Some store ∧
           store !! key = Some (obj_del "id" defaultSettings) ∧
           store !! key ≠ Some defaultSettings.
Proof.
  cbv zeta. split; [reflexivity|].
  assert (Hkey : round_trip None w_settings ≫=
                   (λ st, st !! (SETTINGS_COLLECTION, "global-settings")) =
                 Some (obj_del "id" defaultSettings))
    by (vm_compute; reflexivity).
  destruct (round_trip None w_settings) as [store|]; [|discriminate Hkey].
  exists store. split; [done|]. simpl in Hkey. rewrite Hkey. split; [done|].
  vm_compute. discriminate.
Qed.

(** C6 (amended): with a valid session, a reliable store and a clock that a
    [Date] can hold, [backupData] of collections with plain names (not
    empty, without a slash, and not [__proto__]) succeeds on a store whose
    documents are restorable (usable ids, no [id] field, plain field names,
    integers that a JavaScript number holds exactly, valid timestamps of
    whole milliseconds that [Date.parse] reads back, no string that looks
    like an ISO date and no string in a [createdAt], [updatedAt] or
    [editedAt] field), and [restoreData] of its
    output with [overwrite], in any world with a valid session and a
    reliable store, succeeds without warnings and leaves every document of
    the backed-up collections in the store with the fields and values it
    had, in their order; every other document of the target store is as it
    was. *)
Theorem backup_restore_round_trip (w w2 : World) (collections : option (list string))
    (includeUsers : option bool) :
  Forall collection_name (default default_collections collections) →
  "__proto__" ∉ default default_collections collections →
  session_valid w → reliable w → clock_valid w →
  session_valid w2 → reliable w2 →
  all_restorable (Date_parse w2) (db w) →
  ∃ backup w1,
    backupData collections includeUsers w = (Ok backup, w1) ∧ db w1 = db w ∧
    ∃ result w',
      restoreData backup collections (Some true) None w2 = (Ok result, w') ∧
      success result = true ∧ r_warnings result = None ∧
      (∀ c id d, backed_up collections includeUsers c →
                 db w !! (c, id) = Some d →
                 db w' !! (c, id) = Some d) ∧
      (∀ k, db w' !! k = db w2 !! k ∨
            ∃ d, db w !! k = Some d ∧ db w' !! k = Some d).
Proof.
  intros Hnames _ Hvalid Hrel Hclock Hvalid2 Hrel2 Hall.
  destruct (backupData_run (Date_parse w2) collections includeUsers w)
    as (meta & bd & w1 & Hbackup & Hdb & Hbd & Hin); [done..|].
  destruct (restoreData_run (db w) meta bd collections w2)
    as (result & w' & Hrestore & Hok & Hwarn & Hframe & Hsettled); [done..|].
  assert (Hsame : ∀ k d, db w !! k = Some d → normalize_fields d = d).
  { intros k d Hd. apply (normalize_fields_restorable (Date_parse w2) k.2).
    exact (Hall k d Hd). }
  eexists _, w1. split; [exact Hbackup|]. split; [exact Hdb|].
  exists result, w'. split; [exact Hrestore|]. split; [exact Hok|].
  split; [exact Hwarn|]. split.
  - intros c id d Hc Hd. rewrite <- (Hsame _ _ Hd).
    apply (Hsettled c); [apply Hc|by apply Hin|exact Hd].
  - intros k. destruct (Hframe k) as [Hk|(d & Hd & Hk)]; [by left|].
    right. exists d. split; [exact Hd|]. by rewrite <- (Hsame _ _ Hd).
Qed.

Definition post1 : object :=
  [ ("title", VStr "hello"); ("content", VStr "first post"); ("category", VStr "general");
    ("author", VObj [("name", VStr "kim")]); ("authorId", VStr "u1");
    ("tags", VArr [VStr "a"; VStr "b"]); ("commentCount", VNum 1);
    ("createdAt", VTime (mkTimestamp 1700000000 123000000));
    ("updatedAt", VTime (mkTimestamp 1700000100 999000000)) ].

Definition comment1 : object :=
  [ ("postId", VStr "p1"); ("content", VStr "nice"); ("authorId", VStr "u2");
    ("createdAt", VTime (mkTimestamp (-1) 250000000)) ].

Definition bookmark1 : object :=
  [ ("userId", VStr "u2"); ("postId", VStr "p1");
    ("createdAt", VTime (mkTimestamp 1700000200 0)) ].

Definition store1 : gmap (string * string) object :=
  {[ (POSTS_COLLECTION, "p1") := post1; (COMMENTS_COLLECTION, "c1") := comment1;
     (BOOKMARKS_COLLECTION, "b1") := bookmark1 ]}.

Definition w_source : World := admin_world store1.
Definition w_target : World := admin_world {[ (POSTS_COLLECTION, "p9") := post1 ]}.

Lemma admin_world_valid store : session_valid (admin_world store).
Proof.
  exists [ ("id", JStr "admin"); ("isAdmin", JBool true);
           ("loggedInAt", JStr "2024-06-15T12:00:00.000Z");
           ("expiresAt", JStr "2024-06-15T14:00:00.000Z") ].
  split; [reflexivity|]. vm_compute. discriminate.
Qed.

Lemma store1_restorable : all_restorable iso_parse store1.
Proof. unfold all_restorable. apply (bool_decide_unpack _). vm_compute. exact I. Qed.

Lemma backup_restore_round_trip_witness :
  ∃ backup w1,
    backupData None None w_source = (Ok backup, w1) ∧ db w1 = db w_source ∧
    ∃ result w',
      restoreData backup None (Some true) None w_target = (Ok result, w') ∧
      success result = true ∧ r_warnings result = None ∧
      (∀ c id d, backed_up None None c →
                 db w_source !! (c, id) = Some d →
                 db w' !! (c, id) = Some d) ∧
      (∀ k, db w' !! k = db w_target !! k ∨
            ∃ d, db w_source !! k = Some d ∧ db w' !! k = Some d).
Proof.
  apply (backup_restore_round_trip w_source w_target None None).
  - apply (bool_decide_unpack _). vm_compute. exact I.
  - apply (bool_decide_unpack _). vm_compute. exact I.
  - apply admin_world_valid.
  - done.
  - unfold clock_valid. vm_compute. split; discriminate.
  - apply admin_world_valid.
  - done.
  - exact store1_restorable.
Defined.
End RoundTrip.

(** ** The admin session: login, refresh, logout *)

Module AdminSession.
Import AdminAuth Gate.

(** [Date.parse] reads the time [t] back from what [toISOString] writes
    for it. *)
Definition reads_back (w : World) (t : Z) : Prop :=
  JsDate.toISOString t ≫= Date_parse w = Some t.

(** A time that a [Date] can hold. *)
Definition in_range (t : Z) : Prop := - JsDate.maxTime ≤ t ≤ JsDate.maxTime.

Lemma toISOString_in_range (t : Z) :
  in_range t → ∃ s, JsDate.toISOString t = Some s.
Proof. intros Ht. by destruct (RoundTrip.toISOString_Some t Ht) as [s Hs]; exists s. Qed.

Lemma newDate_reads_back (w : World) (t : Z) (s : string) :
  in_range t → JsDate.toISOString t = Some s → reads_back w t →
  newDate (Date_parse w) (Some (JStr s)) = Some t.
Proof.
  intros Ht Hs Hback. unfold reads_back in Hback. rewrite Hs in Hback. simpl in *.
  rewrite Hback. simpl. by rewrite decide_True.
Qed.

(** What [isAdminAuthenticated] answers for a stored session object, by
    the date its [expiresAt] reads as. *)
Lemma isAdminAuthenticated_stored (w : World) (o : list (string * json)) :
  localStorage w !! ADMIN_AUTH_KEY = Some (JsonText (JObj o)) →
  isAdminAuthenticated w =
    match newDate (Date_parse w) (obj_get "expiresAt" o) with
    | Some t =>
        if decide (t < now w)
        then (Ok false, set_localStorage (delete ADMIN_AUTH_KEY) w)
        else (Ok true, w)
    | None => (Ok true, w)
    end.
Proof.
  intros Hls. unfold isAdminAuthenticated, getAdminSession, getItem, removeItem, property.
  mrun. rewrite Hls. simpl. destruct (newDate _ _) as [t|]; [|done].
  by destruct (decide (t < now w)).
Qed.

(** Wrong credentials, or a build without the two variables, log nobody
    in: the answer is [null] and nothing is stored. *)
Theorem adminLogin_rejects (adminId adminPw : option string) (id password : string)
    (w : World) :
  adminId = None ∨ adminId = Some "" ∨ adminPw = None ∨ adminPw = Some "" ∨
  Some id ≠ adminId ∨ Some password ≠ adminPw →
  adminLogin adminId adminPw id password w = (Ok None, w).
Proof.
  intros H. unfold adminLogin, try_catch.
  destruct adminId as [a|], adminPw as [p|]; simpl; try done.
  - destruct (bool_decide (a = "")) eqn:Ha; [done|].
    destruct (bool_decide (p = "")) eqn:Hp; [done|]. simpl.
    apply bool_decide_eq_false in Ha, Hp.
    destruct (bool_decide (Some id = Some a)) eqn:Hid;
      destruct (bool_decide (Some password = Some p)) eqn:Hpw; try done.
    apply bool_decide_eq_true in Hid, Hpw. naive_solver.
  - by destruct (bool_decide (a = "")).
Qed.

Lemma adminLogin_rejects_witness :
  adminLogin (Some "root") (Some "secret") "root" "guess"
    (quiet_world 1718454645123 ∅ ∅ iso_parse) =
  (Ok None, quiet_world 1718454645123 ∅ ∅ iso_parse).
Proof. apply adminLogin_rejects. do 5 right. discriminate. Defined.

(** The session that a login at time [t] stores. *)
Definition login_session (id : string) (l e : string) : json :=
  JObj [ ("id", JStr id); ("isAdmin", JBool true);
         ("loggedInAt", JStr l); ("expiresAt", JStr e) ].

(** With the configured credentials, [adminLogin] stores a session that
    [isAdminAuthenticated] accepts for exactly [SESSION_DURATION]: at every
    later time up to two hours after the login the answer is [true] and
    the admin gate is open; after that the answer is [false] and the stored
    session is removed. *)
Theorem adminLogin_session (id password : string) (w : World) :
  id ≠ "" → password ≠ "" →
  in_range (now w) → in_range (now w + SESSION_DURATION) →
  reads_back w (now w + SESSION_DURATION) →
  ∃ admin w1,
    adminLogin (Some id) (Some password) id password w = (Ok (Some admin), w1) ∧
    expiresAt admin = Some (now w + SESSION_DURATION) ∧
    db w1 = db w ∧ now w1 = now w ∧
    ∀ dt, 0 ≤ dt →
      if decide (dt ≤ SESSION_DURATION) then
        isAdminAuthenticated (advance dt w1) = (Ok true, advance dt w1) ∧
        session_valid (advance dt w1)
      else
        ∃ w2, isAdminAuthenticated (advance dt w1) = (Ok false, w2) ∧
              session_missing w2.
Proof.
  intros Hid Hpw Hnow Hexp Hback.
  destruct (toISOString_in_range _ Hnow) as [l Hl].
  destruct (toISOString_in_range _ Hexp) as [e He].
  unfold adminLogin, saveAdminSession, Date_toISOString, Date_of_time, setItem, try_catch.
  simpl. rewrite !bool_decide_eq_false_2 by done. simpl.
  rewrite !bool_decide_eq_true_2 by done. simpl.
  mrun. rewrite decide_True by done. simpl. rewrite Hl, He. simpl.
  eexists _, _. split; [reflexivity|]. split; [done|]. split; [done|]. split; [done|].
  intros dt Hdt.
  match goal with
  | |- context [isAdminAuthenticated ?w2] =>
      assert (Hls : localStorage w2 !! ADMIN_AUTH_KEY =
                    Some (JsonText (login_session id l e)))
        by (simpl; by rewrite lookup_insert_eq);
      pose proof (isAdminAuthenticated_stored w2 _ Hls) as Hrun;
      assert (Hdate : newDate (Date_parse w2) (Some (JStr e)) =
                      Some (now w + SESSION_DURATION))
        by (by apply (newDate_reads_back w))
  end.
  change (obj_get "expiresAt" _) with (Some (JStr e)) in Hrun.
  rewrite Hdate in Hrun. cbn [now advance] in Hrun.
  destruct (decide (dt ≤ SESSION_DURATION)) as [Hle|Hgt].
  - rewrite decide_False in Hrun by lia. split; [exact Hrun|].
    eexists. split; [exact Hls|].
    change (obj_get "expiresAt" _) with (Some (JStr e)). rewrite Hdate. simpl. lia.
  - rewrite decide_True in Hrun by lia. eexists. split; [exact Hrun|].
    unfold session_missing. simpl. apply lookup_delete_eq.
Qed.

Definition w_login : World := quiet_world 1718454645123 ∅ ∅ iso_parse.

Lemma adminLogin_session_witness :
  ∃ admin w1,
    adminLogin (Some "root") (Some "secret") "root" "secret" w_login = (Ok (Some admin), w1) ∧
    expiresAt admin = Some (now w_login + SESSION_DURATION) ∧
    db w1 = db w_login ∧ now w1 = now w_login ∧
    ∀ dt, 0 ≤ dt →
      if decide (dt ≤ SESSION_DURATION) then
        isAdminAuthenticated (advance dt w1) = (Ok true, advance dt w1) ∧
        session_valid (advance dt w1)
      else
        ∃ w2, isAdminAuthenticated (advance dt w1) = (Ok false, w2) ∧
              session_missing w2.
Proof.
  apply adminLogin_session.
  - discriminate.
  - discriminate.
  - unfold in_range. vm_compute. split; discriminate.
  - unfold in_range. vm_compute. split; discriminate.
  - vm_compute. reflexivity.
Defined.
(** After [adminLogout] nobody is authenticated, whatever was stored
    and whatever the clock shows, and every admin function is refused
    before it touches the store; the documents are as they were. *)
Theorem adminLogout_closes_gate (w : World) :
  let w1 := set_localStorage (delete ADMIN_AUTH_KEY) w in
  adminLogout w = (Ok tt, w1) ∧
  ∀ dt, isAdminAuthenticated (advance dt w1) = (Ok false, advance dt w1) ∧
        (∀ category, denied (Categories.addCategory category) (advance dt w1)) ∧
        (∀ categoryId, denied (Categories.deleteCategory categoryId) (advance dt w1)) ∧
        (∀ jsonData collections overwrite deleteBeforeRestore,
           denied (Backup.restoreData jsonData collections overwrite deleteBeforeRestore)
             (advance dt w1)).
Proof.
  cbv zeta. split; [done|]. intros dt.
  assert (Hmiss : session_missing (advance dt (set_localStorage (delete ADMIN_AUTH_KEY) w)))
    by (unfold session_missing; simpl; apply lookup_delete_eq).
  split.
  - unfold isAdminAuthenticated, getAdminSession, getItem. mrun.
    simpl. by rewrite lookup_delete_eq.
  - repeat split; intros; apply gated_denied; by left.
Qed.

(** A session found expired is deleted from the storage: from then on
    nobody is authenticated, even when the clock is set back. *)
Theorem expired_session_is_removed (w : World) :
  session_expired w →
  ∃ w1, isAdminAuthenticated w = (Ok false, w1) ∧ db w1 = db w ∧
        ∀ dt, isAdminAuthenticated (advance dt w1) = (Ok false, advance dt w1).
Proof.
  intros (o & e & t & Hls & He & Ht & Hlt).
  rewrite (isAdminAuthenticated_stored w o Hls), He, Ht.
  rewrite decide_True by done. eexists. split; [reflexivity|]. split; [done|].
  intros dt. unfold isAdminAuthenticated, getAdminSession, getItem. mrun.
  simpl. by rewrite lookup_delete_eq.
Qed.

Definition w_stale : World :=
  quiet_world 1718454645123 ∅
    {[ ADMIN_AUTH_KEY :=
         JsonText (login_session "root" "2024-06-15T10:00:00.000Z" "2024-06-15T12:00:00.000Z") ]}
    iso_parse.

Lemma expired_session_is_removed_witness :
  ∃ w1, isAdminAuthenticated w_stale = (Ok false, w1) ∧ db w1 = db w_stale ∧
        ∀ dt, isAdminAuthenticated (advance dt w1) = (Ok false, advance dt w1).
Proof.
  apply expired_session_is_removed.
  exists [ ("id", JStr "root"); ("isAdmin", JBool true);
           ("loggedInAt", JStr "2024-06-15T10:00:00.000Z");
           ("expiresAt", JStr "2024-06-15T12:00:00.000Z") ],
         (JStr "2024-06-15T12:00:00.000Z"), 1718452800000.
  split; [reflexivity|]. split; [reflexivity|]. split; [vm_compute; reflexivity|].
  vm_compute. reflexivity.
Defined.

(** The stored value need not be a session at all: any JSON value other
    than [null] whose [expiresAt] does not read as a date, such as [{}], a
    number or a string, is accepted as a session that never expires. *)
Theorem session_without_expiry_never_expires (w : World) (j : json) :
  localStorage w !! ADMIN_AUTH_KEY = Some (JsonText j) →
  match j with
  | JNull => False
  | JObj o => newDate (Date_parse w) (obj_get "expiresAt" o) = None
  | _ => True
  end →
  ∀ dt, isAdminAuthenticated (advance dt w) = (Ok true, advance dt w) ∧
        ∀ k : M bool,
          (let* _ := Categories.verifyAdminAuth in k) (advance dt w) = k (advance dt w).
Proof.
  intros Hls Hj dt.
  assert (Hauth : isAdminAuthenticated (advance dt w) = (Ok true, advance dt w)).
  { unfold isAdminAuthenticated, getAdminSession, getItem, removeItem, property. mrun.
    simpl. rewrite Hls. destruct j; try done. simpl. by rewrite Hj. }
  split; [exact Hauth|]. intros k.
  unfold Categories.verifyAdminAuth, bind, ret. by rewrite Hauth.
Qed.

Definition w_empty_session : World :=
  quiet_world 1718454645123 ∅ {[ ADMIN_AUTH_KEY := JsonText (JObj []) ]} iso_parse.

(** Ten years later the empty object is still accepted. *)
Lemma session_without_expiry_never_expires_witness :
  isAdminAuthenticated (advance 315360000000 w_empty_session) =
    (Ok true, advance 315360000000 w_empty_session) ∧
  ∀ k : M bool,
    (let* _ := Categories.verifyAdminAuth in k) (advance 315360000000 w_empty_session) =
    k (advance 315360000000 w_empty_session).
Proof.
  apply (session_without_expiry_never_expires w_empty_session (JObj [])); reflexivity.
Defined.

(** [refreshAdminSession] on a valid session whose two dates read as
    dates stores the session again with [expiresAt] two hours from now and
    the login time it had, and it is then accepted until that time. *)
Theorem refreshAdminSession_extends (w : World) (o : list (string * json)) (l e : Z) :
  localStorage w !! ADMIN_AUTH_KEY = Some (JsonText (JObj o)) →
  newDate (Date_parse w) (obj_get "loggedInAt" o) = Some l →
  newDate (Date_parse w) (obj_get "expiresAt" o) = Some e →
  now w ≤ e →
  in_range (now w + SESSION_DURATION) → reads_back w (now w + SESSION_DURATION) →
  ∃ admin w1,
    refreshAdminSession w = (Ok (Some admin), w1) ∧
    loggedInAt admin = Some l ∧ expiresAt admin = Some (now w + SESSION_DURATION) ∧
    db w1 = db w ∧
    ∀ dt, 0 ≤ dt ≤ SESSION_DURATION →
          isAdminAuthenticated (advance dt w1) = (Ok true, advance dt w1).
Proof.
  intros Hls Hl He Hle Hexp Hback.
  assert (Hlr : in_range l).
  { unfold newDate in Hl. unfold in_range.
    destruct (obj_get "loggedInAt" o) as [[]|]; simplify_option_eq; try done;
      try (unfold JsDate.maxTime; lia); try (destruct b; unfold JsDate.maxTime; lia). }
  destruct (toISOString_in_range _ Hlr) as [ls Hls'].
  destruct (toISOString_in_range _ Hexp) as [es Hes].
  unfold refreshAdminSession, getAdminSession, getItem, removeItem, property,
    saveAdminSession, Date_toISOString, Date_of_time, setItem.
  mrun. rewrite Hls. simpl. rewrite Hl, He. simpl.
  rewrite decide_False by lia. simpl. rewrite decide_True by done. simpl.
  rewrite Hls', Hes. simpl.
  eexists _, _. split; [reflexivity|]. split; [done|]. split; [done|]. split; [done|].
  intros dt Hdt.
  match goal with
  | |- isAdminAuthenticated ?w2 = _ =>
      rewrite (isAdminAuthenticated_stored w2
                 (obj_set "expiresAt" (JStr es) (obj_set "loggedInAt" (JStr ls) o)))
        by (simpl; by rewrite lookup_insert_eq)
  end.
  rewrite obj_get_set_eq.
  change (Date_parse _) with (Date_parse w).
  rewrite (newDate_reads_back w _ es Hexp Hes Hback).
  cbn [now advance]. by rewrite decide_False by lia.
Qed.

Definition w_session : World :=
  quiet_world 1718454645123 ∅
    {[ ADMIN_AUTH_KEY :=
         JsonText (login_session "root" "2024-06-15T12:00:00.000Z" "2024-06-15T14:00:00.000Z") ]}
    iso_parse.

Lemma refreshAdminSession_extends_witness :
  ∃ admin w1,
    refreshAdminSession w_session = (Ok (Some admin), w1) ∧
    loggedInAt admin = Some 1718452800000 ∧
    expiresAt admin = Some (now w_session + SESSION_DURATION) ∧
    db w1 = db w_session ∧
    ∀ dt, 0 ≤ dt ≤ SESSION_DURATION →
          isAdminAuthenticated (advance dt w1) = (Ok true, advance dt w1).
Proof.
  apply (refreshAdminSession_extends w_session
           [ ("id", JStr "root"); ("isAdmin", JBool true);
             ("loggedInAt", JStr "2024-06-15T12:00:00.000Z");
             ("expiresAt", JStr "2024-06-15T14:00:00.000Z") ]
           1718452800000 1718460000000).
  - reflexivity.
  - vm_compute. reflexivity.
  - vm_compute. reflexivity.
  - vm_compute. discriminate.
  - unfold in_range. vm_compute. split; discriminate.
  - vm_compute. reflexivity.
Defined.
End AdminSession.

(** ** What a computation leaves alone *)

Module Frames.

(** [m] takes every world to one that [R] relates it to, whether it
    returns or throws. *)
Definition stable (R : World → World → Prop) {A} (m : M A) : Prop :=
  ∀ w, R w (m w).2.

Section stable.
Variable R : World → World → Prop.
Hypothesis R_refl : ∀ w, R w w.
Hypothesis R_trans : ∀ w1 w2 w3, R w1 w2 → R w2 w3 → R w1 w3.

Lemma stable_ret {A} (a : A) : stable R (ret a).
Proof. intros w. apply R_refl. Qed.

Lemma stable_throw {A} (e : JsError) : stable R (throw e : M A).
Proof. intros w. apply R_refl. Qed.

Lemma stable_get {A} (f : World → A) : stable R (get f).
Proof. intros w. apply R_refl. Qed.

Lemma stable_bind {A B} (m : M A) (k : A → M B) :
  stable R m → (∀ a, stable R (k a)) → stable R (bind m k).
Proof.
  intros Hm Hk w. unfold bind. specialize (Hm w).
  destruct (m w) as [[a|e] w1]; simpl in *; [|done].
  eapply R_trans; [exact Hm|apply Hk].
Qed.

Lemma stable_try_catch {A} (m : M A) (h : JsError → M A) :
  stable R m → (∀ e, stable R (h e)) → stable R (try_catch m h).
Proof.
  intros Hm Hh w. unfold try_catch. specialize (Hm w).
  destruct (m w) as [[a|e] w1]; simpl in *; [done|].
  eapply R_trans; [exact Hm|apply Hh].
Qed.

Lemma stable_mapM {A B} (f : A → M B) (xs : list A) :
  (∀ x, stable R (f x)) → stable R (Firestore.mapM f xs).
Proof.
  intros Hf. induction xs as [|x xs IH]; simpl; [apply stable_ret|].
  apply stable_bind; [apply Hf|]. intros y.
  apply stable_bind; [apply IH|]. intros ys. apply stable_ret.
Qed.

Lemma stable_lift {A} (r : Res A) : stable R (Backup.lift r).
Proof. destruct r; [apply stable_ret|apply stable_throw]. Qed.

Lemma stable_modify (f : World → World) : (∀ w, R w (f w)) → stable R (modify f).
Proof. intros Hf w. apply Hf. Qed.
End stable.

(** The documents are as they were. *)
Definition same_db (w w' : World) : Prop := db w' = db w.

Lemma same_db_refl w : same_db w w.
Proof. done. Qed.

Lemma same_db_trans w1 w2 w3 : same_db w1 w2 → same_db w2 w3 → same_db w1 w3.
Proof. unfold same_db. congruence. Qed.

Definition reads {A} (m : M A) : Prop := stable same_db m.

Lemma reads_rpc r : reads (rpc r).
Proof. intros w. unfold rpc. by destruct (net w _ _). Qed.

Lemma reads_getDoc c id : reads (getDoc c id).
Proof. intros w. unfold getDoc. mrun. by destruct (net w _ _). Qed.

Lemma reads_getDocs q : reads (getDocs q).
Proof. intros w. unfold getDocs. mrun. by destruct (net w _ _). Qed.

Lemma reads_delay attempts : reads (Firestore.delay attempts).
Proof. done. Qed.

Lemma reads_admin_delay attempts : reads (Categories.delay attempts).
Proof. done. Qed.

Lemma reads_isAdminAuthenticated : reads AdminAuth.isAdminAuthenticated.
Proof.
  intros w. unfold AdminAuth.isAdminAuthenticated, AdminAuth.getAdminSession,
    AdminAuth.getItem, AdminAuth.removeItem, AdminAuth.property. mrun.
  destruct (localStorage w !! _) as [[j|raw]|]; simpl; try done.
  - destruct j; simpl; try done.
    destruct (AdminAuth.newDate _ _) as [t|]; [|done]. by destruct (decide _).
  - by destruct (bool_decide _).
Qed.

Ltac reads_step :=
  first
    [ apply (stable_ret same_db same_db_refl)
    | apply (stable_throw same_db same_db_refl)
    | apply (stable_get same_db same_db_refl)
    | apply reads_rpc | apply reads_getDoc | apply reads_getDocs
    | apply reads_delay | apply reads_admin_delay
    | apply (stable_lift same_db same_db_refl)
    | apply (stable_mapM same_db same_db_refl same_db_trans); intros ?
    | apply (stable_bind same_db same_db_trans); [|intros ?]
    | apply (stable_try_catch same_db same_db_trans); [|intros ?] ].

Ltac reads_tac :=
  repeat first
    [ progress reads_step
    | match goal with
      | |- stable same_db (match ?x with _ => _ end) => destruct x
      | |- stable same_db (if ?b then _ else _) => destruct b
      | |- reads (match ?x with _ => _ end) => destruct x
      | |- reads (if ?b then _ else _) => destruct b
      | |- reads _ => unfold reads
      end ].

Lemma reads_mapDocToPost doc : reads (Firestore.mapDocToPost doc).
Proof.
  unfold Firestore.mapDocToPost, Firestore.call_toMillis, Timestamp_now. reads_tac.
Qed.

Lemma reads_convertToUIPost post : reads (Firestore.convertToUIPost post).
Proof.
  unfold Firestore.convertToUIPost, Firestore.call_toDate_toISOString. reads_tac.
Qed.

Lemma reads_retry_loop {A} (body : M A) rethrow exhausted fuel attempts :
  reads body → reads (Firestore.retry_loop body rethrow exhausted fuel attempts).
Proof.
  intros Hbody. revert attempts.
  induction fuel as [|fuel IH]; intros attempts; cbn [Firestore.retry_loop].
  - reads_tac.
  - destruct (attempts <? Firestore.MAX_RETRY_COUNT)%nat; [|reads_tac].
    apply (stable_try_catch same_db same_db_trans); [done|]. intros e.
    destruct (rethrow e); [reads_tac|].
    destruct (Firestore.MAX_RETRY_COUNT <=? S attempts)%nat; [reads_tac|].
    apply (stable_bind same_db same_db_trans); [apply reads_delay|]. intros _. apply IH.
Qed.

Lemma reads_admin_retry_loop {A} (body : M A) what fuel attempts :
  reads body → reads (Categories.retry_loop body what fuel attempts).
Proof.
  intros Hbody. revert attempts.
  induction fuel as [|fuel IH]; intros attempts; cbn [Categories.retry_loop].
  - reads_tac.
  - destruct (attempts <? Categories.MAX_RETRY_COUNT)%nat; [|reads_tac].
    apply (stable_try_catch same_db same_db_trans); [done|]. intros e. cbv zeta.
    destruct (includes _ _ && _).
    + apply (stable_bind same_db same_db_trans); [apply reads_admin_delay|].
      intros _. apply IH.
    + destruct (Categories.MAX_RETRY_COUNT <=? S attempts)%nat; [reads_tac|].
      apply (stable_bind same_db same_db_trans); [apply reads_admin_delay|].
      intros _. apply IH.
Qed.
Lemma reads_doc c id : reads (Firestore.doc c id).
Proof. unfold Firestore.doc. reads_tac. Qed.

Ltac reads_posts :=
  repeat first
    [ apply reads_mapDocToPost | apply reads_convertToUIPost | apply reads_doc
    | progress reads_step
    | match goal with
      | |- stable same_db (match ?x with _ => _ end) => destruct x
      | |- stable same_db (if ?b then _ else _) => destruct b
      end ].

Lemma reads_fetchPosts : reads Firestore.fetchPosts.
Proof. apply reads_retry_loop. unfold reads. reads_posts. Qed.

Lemma reads_fetchPostsByCategory category : reads (Firestore.fetchPostsByCategory category).
Proof.
  unfold Firestore.fetchPostsByCategory. destruct (_ || _); [apply reads_fetchPosts|].
  apply reads_retry_loop. unfold reads. reads_posts.
Qed.

Lemma reads_fetchPostById postId : reads (Firestore.fetchPostById postId).
Proof. apply reads_retry_loop. unfold reads. reads_posts. Qed.

Lemma reads_isBookmarked userId postId : reads (Firestore.isBookmarked userId postId).
Proof. unfold Firestore.isBookmarked. reads_tac. Qed.

(** The read functions of the board never change a document: whatever
    the arguments, the stored data and the behaviour of the network, the
    store after [fetchPosts], [fetchPostsByCategory], [fetchPostById] and
    [isBookmarked] is the store before, retries included. *)
Theorem readers_never_write (w : World) :
  db (Firestore.fetchPosts w).2 = db w ∧
  (∀ category, db (Firestore.fetchPostsByCategory category w).2 = db w) ∧
  (∀ postId, db (Firestore.fetchPostById postId w).2 = db w) ∧
  (∀ userId postId, db (Firestore.isBookmarked userId postId w).2 = db w).
Proof.
  split; [apply reads_fetchPosts|]. split; [intros; apply reads_fetchPostsByCategory|].
  split; [intros; apply reads_fetchPostById|]. intros. apply reads_isBookmarked.
Qed.

Lemma reads_verifyAdminAuth : reads Backup.verifyAdminAuth.
Proof.
  unfold Backup.verifyAdminAuth.
  apply (stable_bind same_db same_db_trans); [apply reads_isAdminAuthenticated|].
  intros ok. reads_tac.
Qed.

Lemma reads_fetchCollectionData collectionName :
  reads (Backup.fetchCollectionData collectionName).
Proof.
  unfold Backup.fetchCollectionData, Backup.handleError, Backup.collection. reads_tac.
Qed.

Lemma reads_backup_collections includeUsers collections backupData :
  reads (Backup.backup_collections includeUsers collections backupData).
Proof.
  revert backupData. induction collections as [|c cs IH]; intros backupData; simpl.
  - reads_tac.
  - destruct (_ && _); [apply IH|].
    apply (stable_bind same_db same_db_trans); [apply reads_fetchCollectionData|].
    intros data. apply IH.
Qed.

(** [backupData] is read-only: with any arguments, any session and any
    behaviour of the network, and whether it returns the backup or fails,
    every document is as it was. *)
Theorem backupData_never_writes (collections : option (list string))
    (includeUsers : option bool) (w : World) :
  db (Backup.backupData collections includeUsers w).2 = db w.
Proof.
  revert w. change (reads (Backup.backupData collections includeUsers)).
  unfold Backup.backupData, Backup.handleError.
  apply (stable_bind same_db same_db_trans); [apply reads_verifyAdminAuth|]. intros _.
  apply (stable_try_catch same_db same_db_trans); [|intros e; reads_tac].
  apply (stable_bind same_db same_db_trans); [apply reads_backup_collections|].
  intros backupData.
  apply (stable_bind same_db same_db_trans).
  { destruct (_ && _); [|reads_tac].
    apply (stable_bind same_db same_db_trans); [apply reads_fetchCollectionData|].
    intros data. reads_tac. }
  intros backupData'. reads_tac.
Qed.
(** Every document that was there is still there, unchanged. *)
Definition keeps (w w' : World) : Prop :=
  ∀ k d, db w !! k = Some d → db w' !! k = Some d.

Lemma keeps_refl w : keeps w w.
Proof. by intros k d. Qed.

Lemma keeps_trans w1 w2 w3 : keeps w1 w2 → keeps w2 w3 → keeps w1 w3.
Proof. intros H12 H23 k d Hk. by apply H23, H12. Qed.

Lemma same_db_keeps w w' : db w' = db w → keeps w w'.
Proof. intros H k d Hk. by rewrite H. Qed.

Lemma reads_keeps {A} (m : M A) : reads m → stable keeps m.
Proof. intros Hm w k d Hk. by rewrite (Hm w). Qed.

Lemma restore_item_keeps collectionName item p :
  stable keeps (Backup.restore_item collectionName false item p).
Proof.
  intros w. unfold Backup.restore_item.
  apply (stable_bind keeps keeps_trans).
  { destruct item; first [apply (stable_ret keeps keeps_refl)
                         |apply (stable_throw keeps keeps_refl)]. }
  clear w. intros parts.
  apply (stable_try_catch keeps keeps_trans);
    [|intros e; apply (stable_ret keeps keeps_refl)].
  apply (stable_bind keeps keeps_trans).
  { unfold Backup.docRef, Backup.collection.
    apply (stable_bind keeps keeps_trans).
    { destruct (_ || _); [apply (stable_throw keeps keeps_refl)
                         |apply (stable_ret keeps keeps_refl)]. }
    intros _. destruct parts.1 as [[]|];
      try apply (stable_throw keeps keeps_refl).
    destruct (_ || _); [apply (stable_throw keeps keeps_refl)
                       |apply (stable_ret keeps keeps_refl)]. }
  intros docId w. mrun. simpl.
  destruct (net w _ _); [by apply same_db_keeps|]. simpl.
  destruct (db w !! (collectionName, docId)) as [d0|] eqn:Hnone; [by apply same_db_keeps|].
  simpl. unfold Backup.lift.
  destruct (Backup.processCollectionSpecificData _ _ _) as [finalData|e];
    [|by apply same_db_keeps].
  simpl. destruct (existsb _ finalData); [by apply same_db_keeps|]. simpl.
  destruct (net w _ _); [by apply same_db_keeps|]. simpl.
  intros k d Hk. simpl. rewrite lookup_insert_ne; [done|]. congruence.
Qed.

Lemma restore_items_keeps collectionName items p :
  stable keeps (Backup.restore_items collectionName false items p).
Proof.
  revert p. induction items as [|item items IH]; intros p; simpl.
  - apply (stable_ret keeps keeps_refl).
  - apply (stable_bind keeps keeps_trans); [apply restore_item_keeps|]. intros p'. apply IH.
Qed.

Lemma restore_collections_keeps data collections t :
  stable keeps (Backup.restore_collections data false false collections t).
Proof.
  revert t. induction collections as [|c cs IH]; intros t; cbn [Backup.restore_collections].
  - apply (stable_ret keeps keeps_refl).
  - destruct (Backup.collection_of data c) as [collectionData|]; [|apply IH].
    destruct (Backup.json_truthy (Some collectionData)); [|apply IH].
    apply (stable_bind keeps keeps_trans); [apply (stable_ret keeps keeps_refl)|].
    intros w1. apply (stable_bind keeps keeps_trans).
    { unfold Backup.iterate. destruct collectionData;
        first [apply (stable_ret keeps keeps_refl)|apply (stable_throw keeps keeps_refl)]. }
    intros items. apply (stable_bind keeps keeps_trans); [apply restore_items_keeps|].
    intros p. apply IH.
Qed.

(** Without [overwrite] (and without [deleteBeforeRestore]) a restore
    only adds documents: whatever the backup text holds, valid or not,
    whatever the session and the network do, every document that was in
    the store is there afterwards with the data it had. *)
Theorem restoreData_without_overwrite_keeps_documents (jsonData : text)
    (collections : option (list string)) (overwrite deleteBeforeRestore : option bool)
    (w : World) :
  default false overwrite = false → default false deleteBeforeRestore = false →
  ∀ k d, db w !! k = Some d →
         db (Backup.restoreData jsonData collections overwrite deleteBeforeRestore w).2 !! k
         = Some d.
Proof.
  intros Ho Hd. revert w.
  change (stable keeps (Backup.restoreData jsonData collections overwrite deleteBeforeRestore)).
  unfold Backup.restoreData, Backup.handleError. rewrite Ho, Hd.
  apply (stable_bind keeps keeps_trans); [apply reads_keeps, reads_verifyAdminAuth|].
  intros _. apply (stable_try_catch keeps keeps_trans);
    [|intros e; apply (stable_throw keeps keeps_refl)].
  apply (stable_bind keeps keeps_trans).
  { apply reads_keeps. unfold Backup.parse_backup, AdminAuth.property. reads_tac. }
  intros backupContent. apply (stable_bind keeps keeps_trans).
  { apply reads_keeps. unfold AdminAuth.property. reads_tac. }
  intros data. destruct data as [[]|]; try apply (stable_throw keeps keeps_refl).
  - apply (stable_bind keeps keeps_trans); [apply restore_collections_keeps|].
    intros t. apply (stable_ret keeps keeps_refl).
  - apply (stable_bind keeps keeps_trans); [apply restore_collections_keeps|].
    intros t. apply (stable_ret keeps keeps_refl).
Qed.

(** A backup that holds another version of the stored post [p1]. *)
Definition backup_changed : text :=
  JsonText (JObj [ ("data",
    JObj [ ("posts", JArr [ JObj [ ("id", JStr "p1"); ("title", JStr "changed") ] ]) ]) ]).

Lemma restoreData_without_overwrite_keeps_documents_witness :
  db (Backup.restoreData backup_changed None None None RoundTrip.w_source).2
    !! (Firestore.POSTS_COLLECTION, "p1") = Some RoundTrip.post1.
Proof.
  apply restoreData_without_overwrite_keeps_documents; reflexivity.
Defined.
End Frames.

(** ** Posts and comments: deleting, editing, reading one *)

Module Posts.
Import Firestore.

(** A document id that names a document of the collection. *)
Definition valid_id (id : string) : Prop := id ≠ "" ∧ includes "/" id = false.

#[global] Instance valid_id_dec id : Decision (valid_id id).
Proof. unfold valid_id. apply _. Defined.

Lemma doc_valid c id w : valid_id id → doc c id w = (Ok id, w).
Proof.
  intros [Hne Hslash]. unfold doc.
  by rewrite bool_decide_eq_false_2, Hslash by done.
Qed.

Lemma doc_run c id w :
  doc c id w = (if decide (valid_id id) then Ok id
                else Throw (mkError (Some "invalid-argument") "Invalid document reference"),
                w).
Proof.
  destruct (decide (valid_id id)) as [Hv|Hv]; [by apply doc_valid|].
  unfold doc. destruct (bool_decide (id = "")) eqn:He; [done|].
  destruct (includes "/" id) eqn:Hs; [done|].
  destruct Hv. split; [by apply bool_decide_eq_false in He|done].
Qed.

(** No round-trip fails. *)
Definition reliable (w : World) : Prop := ∀ n r, net w n r = None.

(** [deletePost] removes the post and nothing else: when it returns, the
    store is the old one without that post, so the comments and the
    bookmarks that reference the post are all still there, and a caller who
    gave a [userId] is the post's author; when it throws, nothing has
    changed.  On a reliable store it returns whenever the id is valid and
    the caller gave no [userId] or is the author. *)
Theorem deletePost_frame (postId : PostId) (userId : option string) (w : World) :
  includes "/" (postIdString postId) = false →
  let key := (POSTS_COLLECTION, postIdString postId) in
  let r := deletePost postId userId w in
  let authorised :=
    match given userId with
    | Some u => ∃ d, db w !! key = Some d ∧ obj_get "authorId" d = Some (VStr u)
    | None => True
    end in
  match r.1 with
  | Ok _ => db r.2 = delete key (db w) ∧ postIdString postId ≠ "" ∧ authorised
  | Throw _ => db r.2 = db w
  end ∧
  (reliable w → postIdString postId ≠ "" → authorised → r.1 = Ok tt).
Proof.
  intros Hslash key r authorised.
  assert (Hrun : r = deletePost postId userId w) by done. clearbody r.
  unfold deletePost, rewrap in Hrun. unfold try_catch, bind at 1 in Hrun.
  rewrite doc_run in Hrun.
  destruct (decide (valid_id (postIdString postId))) as [Hv|Hv].
  2:{ subst r. simpl. split; [done|]. intros _ Hne _. destruct Hv. by split. }
  destruct Hv as [Hne _]. subst authorised.
  destruct (given userId) as [u|] eqn:Hu.
  - revert Hrun. mrun. destruct (net w (length (trace w)) _) as [e|] eqn:Hnet; simpl.
    { intros ->. split; [done|]. intros Hrel. by rewrite Hrel in Hnet. }
    fold key. destruct (db w !! key) as [d|] eqn:Hd; simpl.
    2:{ intros ->. split; [done|]. by intros _ _ (d & ? & _). }
    unfold is_str. case_bool_decide as Hauth; simpl.
    2:{ intros ->. split; [done|]. intros _ _ (d' & [= <-] & ?). done. }
    destruct (net w _ (ReqDelete _ _)) as [e|] eqn:Hnet2; simpl.
    { intros ->. split; [done|]. intros Hrel. by rewrite Hrel in Hnet2. }
    intros ->. split; [|done]. split; [done|]. split; [done|]. by exists d.
  - revert Hrun. mrun. simpl.
    destruct (net w _ (ReqDelete _ _)) as [e|] eqn:Hnet2; simpl.
    { intros ->. split; [done|]. intros Hrel. by rewrite Hrel in Hnet2. }
    by intros ->.
Qed.

Definition post0 : object :=
  [ ("title", VStr "hello"); ("authorId", VStr "u1"); ("commentCount", VNum 1);
    ("createdAt", VTime (mkTimestamp 1700000000 0)) ].

Definition comment0 : object :=
  [ ("postId", VStr "p1"); ("content", VStr "nice"); ("authorId", VStr "u2");
    ("createdAt", VTime (mkTimestamp 1700000100 0)) ].

Definition w_posts : World :=
  quiet_world 1700000200000
    {[ (POSTS_COLLECTION, "p1") := post0; (COMMENTS_COLLECTION, "c1") := comment0 ]}
    ∅ iso_parse.

Lemma deletePost_frame_witness :
  (deletePost (IdStr "p1") (Some "u1") w_posts).1 = Ok tt ∧
  db (deletePost (IdStr "p1") (Some "u1") w_posts).2 !! (COMMENTS_COLLECTION, "c1")
    = Some comment0 ∧
  db (deletePost (IdStr "p1") (Some "u2") w_posts).2 = db w_posts.
Proof.
  destruct (deletePost_frame (IdStr "p1") (Some "u1") w_posts eq_refl) as [Hres Hok].
  destruct (deletePost_frame (IdStr "p1") (Some "u2") w_posts eq_refl) as [Hres2 _].
  assert (H1 : (deletePost (IdStr "p1") (Some "u1") w_posts).1 = Ok tt).
  { apply Hok; [done|done|]. exists post0. split; reflexivity. }
  split; [exact H1|]. rewrite H1 in Hres. destruct Hres as [-> _].
  split; [reflexivity|].
  destruct (deletePost (IdStr "p1") (Some "u2") w_posts).1 as [[]|e] eqn:H2; [|exact Hres2].
  destruct Hres2 as (_ & _ & d & Hd & Hauth). vm_compute in Hd. injection Hd as <-.
  discriminate Hauth.
Defined.
Lemma trim_end_blank (s : string) :
  trim_end s = "" ↔ forallb is_space (chars s) = true.
Proof.
  induction s as [|a s IH]; [done|]. simpl.
  destruct (is_space a); simpl; [|done].
  case_bool_decide as H; [by rewrite <- IH|]. split; [done|].
  intros Hs. by apply IH in Hs.
Qed.

Lemma trim_start_blank (s : string) :
  forallb is_space (chars (trim_start s)) = forallb is_space (chars s).
Proof. induction s as [|a s IH]; [done|]. simpl. by destruct (is_space a) eqn:Ha; simpl; rewrite ?Ha. Qed.

Lemma trim_blank (s : string) : trim s = "" ↔ forallb is_space (chars s) = true.
Proof. unfold trim. by rewrite trim_end_blank, trim_start_blank. Qed.

(** A printable ASCII character other than the space. *)
Definition visible (a : ascii) : bool := between 33 126 a.

Lemma visible_not_space a : visible a = true → is_space a = false.
Proof.
  unfold visible, is_space, between. intros H.
  apply andb_true_iff in H as [H1 H2]. apply Nat.leb_le in H1, H2.
  apply orb_false_iff. split; apply andb_false_iff.
  - right. apply Nat.leb_gt. lia.
  - right. apply Nat.leb_gt. lia.
Qed.

Lemma visible_not_blank (s : string) (a : ascii) :
  a ∈ chars s → visible a = true → forallb is_space (chars s) = false.
Proof.
  intros Hin Hvis. apply not_true_iff_false. intros Hall.
  rewrite forallb_forall in Hall. specialize (Hall a).
  rewrite (visible_not_space a Hvis) in Hall.
  assert (Hf : false = true) by (apply Hall; by apply list_elem_of_In).
  discriminate Hf.
Qed.

(** [updateComment] changes the text of a comment and nothing else: when
    it returns, the caller is the comment's author, the content has a
    character that is no white space, and the store differs in the
    [content] and [updatedAt] of that comment only; when it throws, nothing
    has changed.  The author's edit to white space is refused, and on a
    reliable store the author's edit to a text with a visible character
    goes through. *)
Theorem updateComment_frame (commentId content userId : string) (w : World) :
  includes "/" commentId = false →
  let key := (COMMENTS_COLLECTION, commentId) in
  let r := updateComment commentId content userId w in
  let author d := obj_get "authorId" d = Some (VStr userId) in
  match r.1 with
  | Ok _ =>
      ∃ d, db w !! key = Some d ∧ author d ∧
           forallb is_space (chars content) = false ∧
           db r.2 = <[key := obj_set "updatedAt" (VTime (Timestamp_fromMillis (now w)))
                               (obj_set "content" (VStr content) d)]> (db w)
  | Throw _ => db r.2 = db w
  end ∧
  (∀ d, reliable w → commentId ≠ "" → db w !! key = Some d → author d →
        (forallb is_space (chars content) = true →
         r.1 = Throw (Error "댓글 내용을 입력해주세요.")) ∧
        ((∃ a, a ∈ chars content ∧ visible a = true) → r.1 = Ok tt)).
Proof.
  intros Hslash key r author.
  assert (Hrun : r = updateComment commentId content userId w) by done. clearbody r.
  unfold updateComment, rewrap in Hrun. unfold try_catch, bind at 1 in Hrun.
  rewrite doc_run in Hrun.
  destruct (decide (valid_id commentId)) as [Hv|Hv].
  2:{ subst r. simpl. split; [done|]. intros d _ Hne. destruct Hv. by split. }
  revert Hrun. mrun. destruct (net w (length (trace w)) _) as [e|] eqn:Hnet; simpl.
  { intros ->. split; [done|]. intros d Hrel. by rewrite Hrel in Hnet. }
  fold key. destruct (db w !! key) as [d|] eqn:Hd; simpl.
  2:{ by intros ->. }
  unfold is_str. case_bool_decide as Hauth; simpl.
  2:{ intros ->. split; [done|]. intros d' _ _ [= <-] ?. done. }
  case_bool_decide as Hblank; simpl.
  { intros ->. split; [done|]. intros d' _ _ _ _. split; [done|].
    intros (a & Hin & Hvis). apply trim_blank in Hblank.
    by rewrite (visible_not_blank content a) in Hblank. }
  assert (Hnb : forallb is_space (chars content) = false).
  { apply not_true_iff_false. by rewrite <- trim_blank. }
  destruct (net w _ (ReqUpdate _ _)) as [e|] eqn:Hnet2; simpl.
  { intros ->. split; [done|]. intros d' Hrel. by rewrite Hrel in Hnet2. }
  fold key. rewrite Hd. intros ->. simpl. split.
  - exists d. done.
  - intros d' _ _ _ _. split; [|done]. intros Hb. congruence.
Qed.

Lemma updateComment_frame_witness :
  (updateComment "c1" "better" "u2" w_posts).1 = Ok tt ∧
  (updateComment "c1" "   " "u2" w_posts).1 = Throw (Error "댓글 내용을 입력해주세요.") ∧
  db (updateComment "c1" "better" "u1" w_posts).2 = db w_posts.
Proof.
  destruct (updateComment_frame "c1" "better" "u2" w_posts eq_refl) as [_ Hok].
  destruct (Hok comment0) as [_ Hgood]; [done|done|reflexivity|reflexivity|].
  destruct (updateComment_frame "c1" "   " "u2" w_posts eq_refl) as [_ Hblank].
  destruct (Hblank comment0) as [Hbad _]; [done|done|reflexivity|reflexivity|].
  destruct (updateComment_frame "c1" "better" "u1" w_posts eq_refl) as [Hres _].
  split; [|split].
  - apply Hgood. exists "b"%char. split; [|reflexivity]. simpl. set_solver.
  - by apply Hbad.
  - destruct (updateComment "c1" "better" "u1" w_posts).1 as [[]|e]; [|exact Hres].
    destruct Hres as (d & Hd & Hauth & _). vm_compute in Hd. injection Hd as <-.
    discriminate Hauth.
Defined.
(** The post as the board shows it: what [convertToUIPost] makes of what
    [mapDocToPost] makes of a stored document. *)
Definition shown (postId : string) (d : object) (date : string) (isNew : bool) : object :=
  [ ("id", VStr postId);
    ("title", or_else (obj_get "title" d) (VStr "제목 없음"));
    ("content", or_else (obj_get "content" d) (VStr ""));
    ("category", or_else (obj_get "category" d) (VStr "general"));
    ("author", or_else (obj_get "author" d) (VObj [("name", VStr "알 수 없음")]));
    ("authorId", or_else (obj_get "authorId" d) (VStr ""));
    ("date", VStr date);
    ("comments", or_else (obj_get "commentCount" d) (VNum 0));
    ("isNew", VBool isNew);
    ("tags", or_else (obj_get "tags" d) (VArr [])) ].

(** Less than a day old. *)
Definition is_new (d : object) (now : Z) : bool :=
  match obj_get "createdAt" d with
  | Some (VTime t) =>
      bool_decide (JsDate.toMillis (Timestamp_fromMillis now) - JsDate.toMillis t
                   < 24 * 60 * 60 * 1000)
  | _ => false
  end.

Lemma or_else_idem (a : option value) (b : value) :
  (if truthy (Some (or_else a b)) then or_else a b else b) = or_else a b.
Proof.
  destruct (truthy (Some (or_else a b))) eqn:H; [done|].
  unfold or_else in *. destruct a as [v|]; [|done].
  destruct (truthy (Some v)) eqn:Hv; [congruence|done].
Qed.

Lemma shown_run (postId : string) (d : object) (t : Timestamp) (s : string) (w : World) :
  or_else (obj_get "createdAt" d) (VTime (Timestamp_fromMillis (now w))) = VTime t →
  JsDate.toISOString (JsDate.ofTimestamp t) = Some s →
  (let* post := mapDocToPost (postId, d) in
   let* uiPost := convertToUIPost post in
   ret (Some uiPost)) w = (Ok (Some (shown postId d s (is_new d (now w)))), w).
Proof.
  intros Hc Hs. unfold mapDocToPost, convertToUIPost, call_toMillis,
    call_toDate_toISOString, field, Timestamp_now, is_new, shown.
  cbn [fst snd].
  assert (Hdate : or_else (obj_get "createdAt" d) (VTime (Timestamp_fromMillis (now w)))
                  = VTime t) by exact Hc.
  destruct (obj_get "createdAt" d) as [c|] eqn:Hcd.
  - destruct (truthy (Some c)) eqn:Htr.
    + unfold or_else in Hc. rewrite Htr in Hc. subst c.
      mrun. simpl. rewrite Hs.
      repeat f_equal; first [apply or_else_idem | by destruct (bool_decide _)].
    + unfold or_else in Hc. rewrite Htr in Hc. injection Hc as <-.
      mrun. simpl. simpl in Htr. rewrite Htr, Hs.
      repeat f_equal; first [apply or_else_idem | by destruct c].
  - simpl in Hc. injection Hc as <-.
    mrun. simpl. rewrite Hs.
    repeat f_equal; apply or_else_idem.
Qed.

(** The first attempt of [fetchPostById] when the read goes through. *)
Lemma fetchPostById_run (postId : string) (w : World) :
  valid_id postId →
  net w (length (trace w)) (ReqGet POSTS_COLLECTION postId) = None →
  let w1 := log (Call (ReqGet POSTS_COLLECTION postId)) w in
  match db w !! (POSTS_COLLECTION, postId) with
  | None => fetchPostById postId w = (Ok None, w1)
  | Some d =>
      ∀ t s,
        or_else (obj_get "createdAt" d) (VTime (Timestamp_fromMillis (now w))) = VTime t →
        JsDate.whole_millis t →
        JsDate.toISOString (JsDate.ofTimestamp t) = Some s →
        fetchPostById postId w = (Ok (Some (shown postId d s (is_new d (now w)))), w1)
  end.
Proof.
  intros Hv Hnet w1.
  assert (Hrun : fetchPostById postId w =
            let '(r, w') :=
              match db w !! (POSTS_COLLECTION, postId) with
              | Some data =>
                  let* post := mapDocToPost (postId, data) in
                  let* uiPost := convertToUIPost post in
                  ret (Some uiPost)
              | None => ret None
              end w1 in
            match r with
            | Ok a => (Ok a, w')
            | Throw _ =>
                (let* _ := delay 1 in
                 retry_loop
                   (let* docRef := doc POSTS_COLLECTION postId in
                    let* docSnap := getDoc POSTS_COLLECTION docRef in
                    match docSnap with
                    | Some data =>
                        let* post := mapDocToPost (docRef, data) in
                        let* uiPost := convertToUIPost post in
                        ret (Some uiPost)
                    | None => ret None
                    end)
                   (λ _, None)
                   (Error "게시물 상세 정보를 가져오지 못했습니다. 잠시 후 다시 시도해주세요.")
                   MAX_RETRY_COUNT 1) w'
            end).
  { unfold fetchPostById. rewrite ReadRetry.retry_loop_S.
    change (0 <? MAX_RETRY_COUNT)%nat with true. cbv iota.
    unfold try_catch, bind at 1. rewrite doc_valid by done.
    rewrite CategoryAdmin.getDoc_run, Hnet. done. }
  rewrite Hrun. clear Hrun.
  destruct (db w !! (POSTS_COLLECTION, postId)) as [d|] eqn:Hd; [|done].
  intros t s Hc _ Hs. by rewrite (shown_run postId d t s w1 Hc Hs).
Qed.

(** [fetchPostById] on a readable store: [null] for an id that names no
    post, after one round-trip and without a retry; for a stored post whose
    [createdAt] is a timestamp of whole milliseconds, or is missing, the
    post as the board shows it, with the document id, the creation time (or
    the current time) as an ISO string, the mark [isNew] when the post is
    less than 24 hours old, and the defaults for the fields the document
    lacks. *)
Theorem fetchPostById_result (postId : string) (w : World) :
  valid_id postId →
  net w (length (trace w)) (ReqGet POSTS_COLLECTION postId) = None →
  let w1 := log (Call (ReqGet POSTS_COLLECTION postId)) w in
  match db w !! (POSTS_COLLECTION, postId) with
  | None => fetchPostById postId w = (Ok None, w1)
  | Some d =>
      ∀ t s,
        or_else (obj_get "createdAt" d) (VTime (Timestamp_fromMillis (now w))) = VTime t →
        JsDate.whole_millis t →
        JsDate.toISOString (JsDate.ofTimestamp t) = Some s →
        fetchPostById postId w = (Ok (Some (shown postId d s (is_new d (now w)))), w1)
  end.
Proof. exact (fetchPostById_run postId w). Qed.

Lemma fetchPostById_result_witness :
  fetchPostById "p9" w_posts = (Ok None, log (Call (ReqGet POSTS_COLLECTION "p9")) w_posts) ∧
  fetchPostById "p1" w_posts =
    (Ok (Some (shown "p1" post0 "2023-11-14T22:13:20.000Z" true)),
     log (Call (ReqGet POSTS_COLLECTION "p1")) w_posts).
Proof.
  split.
  - apply (fetchPostById_result "p9" w_posts); [by split|done].
  - assert (Hv : valid_id "p1") by (by split).
    pose proof (fetchPostById_result "p1" w_posts Hv eq_refl) as H.
    change (db w_posts !! (POSTS_COLLECTION, "p1")) with (Some post0) in H.
    apply (H (mkTimestamp 1700000000 0) "2023-11-14T22:13:20.000Z"); vm_compute; reflexivity.
Defined.
(** A post document whose [createdAt] is set to something that is no
    timestamp. *)
Definition poisoned (d : object) : Prop :=
  ∃ c, obj_get "createdAt" d = Some c ∧ truthy (Some c) = true ∧ ∀ t, c ≠ VTime t.

(** [m] throws in every world, and leaves the documents alone. *)
Definition always_throws {A} (m : M A) : Prop :=
  ∀ w, ∃ e w', m w = (Throw e, w') ∧ db w' = db w.

Lemma mapDocToPost_poisoned (doc : string * object) :
  poisoned doc.2 → always_throws (mapDocToPost doc).
Proof.
  intros (c & Hc & Htr & Hnt) w. unfold mapDocToPost, call_toMillis, Timestamp_now.
  rewrite Hc, Htr. mrun.
  destruct c as [| | | |t| | |]; [| | | |by destruct (Hnt t)| | |];
    (eexists _, _; split; [reflexivity|done]).
Qed.

Lemma mapM_throws {A B} (f : A → M B) (xs : list A) (x : A) :
  x ∈ xs → always_throws (f x) → (∀ y, Frames.reads (f y)) →
  always_throws (mapM f xs).
Proof.
  intros Hin Hx Hreads. induction xs as [|y xs IH]; [by apply elem_of_nil in Hin|].
  intros w. cbn [mapM]. unfold bind at 1.
  apply elem_of_cons in Hin as [<-|Hin].
  - destruct (Hx w) as (e & w' & -> & Hdb). by exists e, w'.
  - pose proof (Hreads y w) as Hy. destruct (f y w) as [[b|e] w1]; simpl in Hy.
    + destruct (IH Hin w1) as (e & w' & Hrun & Hdb). unfold bind. rewrite Hrun.
      exists e, w'. split; [done|]. by rewrite Hdb.
    + by exists e, w1.
Qed.

(** One post whose [createdAt] is a string, a number or another value
    that is no timestamp makes the whole listing fail: [fetchPosts] throws
    its "try again later" error after its retries in every state of the
    network, for as long as the document is stored. *)
Theorem fetchPosts_poisoned (w : World) (postId : string) (d : object) :
  db w !! (POSTS_COLLECTION, postId) = Some d → poisoned d →
  ∃ w', fetchPosts w =
          (Throw (Error "게시물 데이터를 가져오지 못했습니다. 잠시 후 다시 시도해주세요."), w') ∧
        db w' = db w.
Proof.
  intros Hd Hp.
  assert (Hbody : ∀ w1, db w1 = db w →
            ∃ e w', (let* docs := getDocs (mkQuery POSTS_COLLECTION [] None) in
                     let* posts := mapM mapDocToPost docs in
                     mapM convertToUIPost posts) w1 = (Throw e, w') ∧ db w' = db w).
  { intros w1 Hdb. rewrite CategoryAdmin.getDocs_run. cbn [q_from].
    destruct (net w1 _ _) as [e|]; [by exists e, (log (Call (ReqQuery POSTS_COLLECTION)) w1)|].
    assert (Hin : (postId, d) ∈ run_query (mkQuery POSTS_COLLECTION [] None) (db w1)).
    { apply CategoryAdmin.run_query_elem; [done|]. simpl. by rewrite Hdb. }
    destruct (mapM_throws mapDocToPost _ (postId, d) Hin
                (mapDocToPost_poisoned (postId, d) Hp) Frames.reads_mapDocToPost
                (log (Call (ReqQuery POSTS_COLLECTION)) w1)) as (e & w' & Hrun & Hdb').
    unfold bind. rewrite Hrun. exists e, w'. split; [done|]. by rewrite Hdb'. }
  unfold fetchPosts.
  assert (Hgen : ∀ fuel attempts w1, db w1 = db w →
            ∃ w', retry_loop
                    (let* docs := getDocs (mkQuery POSTS_COLLECTION [] None) in
                     let* posts := mapM mapDocToPost docs in
                     mapM convertToUIPost posts) (λ _, None)
                    (Error "게시물 데이터를 가져오지 못했습니다. 잠시 후 다시 시도해주세요.")
                    fuel attempts w1 = (Throw (Error "게시물 데이터를 가져오지 못했습니다. 잠시 후 다시 시도해주세요."), w') ∧
                  db w' = db w).
  { induction fuel as [|fuel IH]; intros attempts w1 Hdb; [by exists w1|].
    rewrite ReadRetry.retry_loop_S.
    destruct (attempts <? MAX_RETRY_COUNT)%nat; [|by exists w1].
    unfold try_catch. destruct (Hbody w1 Hdb) as (e & w2 & -> & Hdb2).
    destruct (MAX_RETRY_COUNT <=? S attempts)%nat; [by exists w2|].
    unfold bind, delay, modify. apply IH. done. }
  by apply Hgen.
Qed.

Definition w_poisoned : World :=
  quiet_world 1700000200000
    {[ (POSTS_COLLECTION, "p1") := post0;
       (POSTS_COLLECTION, "p2") :=
         [ ("title", VStr "imported"); ("createdAt", VStr "2024-06-15T12:30:45.123Z") ] ]}
    ∅ iso_parse.

Lemma fetchPosts_poisoned_witness :
  ∃ w', fetchPosts w_poisoned =
          (Throw (Error "게시물 데이터를 가져오지 못했습니다. 잠시 후 다시 시도해주세요."), w') ∧
        db w' = db w_poisoned.
Proof.
  apply (fetchPosts_poisoned w_poisoned "p2"
           [ ("title", VStr "imported"); ("createdAt", VStr "2024-06-15T12:30:45.123Z") ]).
  - reflexivity.
  - exists (VStr "2024-06-15T12:30:45.123Z"). split; [reflexivity|]. split; [reflexivity|].
    discriminate.
Defined.

(** [createComment] writes the comment and the counter together or not
    at all: for a post that is not stored it throws, and no comment
    document has been created although the comment was written first in
    the transaction. *)
Theorem createComment_needs_post (commentData : CommentData) (w : World) :
  db w !! (POSTS_COLLECTION, cd_postId commentData) = None →
  ∃ e w', createComment commentData w = (Throw e, w') ∧ db w' = db w.
Proof.
  intros Hnone. unfold createComment, rewrap.
  destruct (bool_decide (cd_postId commentData = "") || bool_decide (cd_content commentData = "")
            || bool_decide (cd_authorId commentData = "")); [by eexists _, _|].
  mrun. cbn -[apply_writes]. destruct (net w _ _); [by eexists _, _|]. cbn -[apply_writes].
  unfold apply_writes, apply_write.
  rewrite lookup_insert_ne by discriminate. rewrite Hnone. by eexists _, _.
Qed.

Lemma createComment_needs_post_witness :
  ∃ e w', createComment (mkCommentData "gone" "hello" [] "u1") w_posts = (Throw e, w') ∧
          db w' = db w_posts.
Proof. apply createComment_needs_post. reflexivity. Defined.
End Posts.

(** ** Bookmarks: the round trip, and the unchecked insert *)

Module BookmarkEdges.
Import Firestore Bookmarks.

Lemma bookmarks_of_insert_match store (id userId postId : string) (t : Z) :
  bookmarks_of (<[(BOOKMARKS_COLLECTION, id) := newBookmark userId postId t]> store)
    userId postId =
  <[(BOOKMARKS_COLLECTION, id) := newBookmark userId postId t]>
    (bookmarks_of store userId postId).
Proof.
  unfold bookmarks_of. apply map_filter_insert_True.
  split; [done|]. simpl. repeat constructor; simpl; by rewrite ?decide_True.
Qed.

Lemma bookmarks_of_fresh store (id userId postId : string) :
  store !! (BOOKMARKS_COLLECTION, id) = None →
  bookmarks_of store userId postId !! (BOOKMARKS_COLLECTION, id) = None.
Proof. intros H. unfold bookmarks_of. rewrite map_lookup_filter_None. by left. Qed.

(** When the existence check of [addBookmark] fails, [isBookmarked]
    answers [false] and the bookmark is inserted unchecked: the pair has
    one bookmark document more than before, also when it had one. *)
Theorem addBookmark_unchecked_on_failed_query (userId postId : string) (w : World)
    (e : JsError) :
  userId ≠ "" → postId ≠ "" →
  net w (length (trace w)) (ReqQuery BOOKMARKS_COLLECTION) = Some e →
  net w (S (length (trace w))) (ReqSet BOOKMARKS_COLLECTION (autoId w (minted w))) = None →
  db w !! (BOOKMARKS_COLLECTION, autoId w (minted w)) = None →
  let r := addBookmark userId postId w in
  r.1 = Ok (autoId w (minted w)) ∧
  size (bookmarks_of (db r.2) userId postId) = S (size (bookmarks_of (db w) userId postId)).
Proof.
  intros Hu Hp Hq Hset Hfresh r.
  assert (Hrun : r = (Ok (autoId w (minted w)),
                      set_db (insert (BOOKMARKS_COLLECTION, autoId w (minted w))
                                (newBookmark userId postId (now w)))
                        (log (Call (ReqSet BOOKMARKS_COLLECTION (autoId w (minted w))))
                           (mint (log (Call (ReqQuery BOOKMARKS_COLLECTION)) w))))).
  { subst r. unfold addBookmark, isBookmarked, rewrap.
    rewrite !bool_decide_eq_false_2 by done. mrun. simpl. rewrite Hq. simpl.
    rewrite Hset. done. }
  rewrite Hrun. split; [done|]. simpl.
  rewrite bookmarks_of_insert_match.
  rewrite map_size_insert_None; [done|]. by apply bookmarks_of_fresh.
Qed.

Definition bookmark0 : object :=
  [ ("userId", VStr "u1"); ("postId", VStr "p1");
    ("createdAt", VTime (mkTimestamp 1700000000 0)) ].

(** A world whose first query round-trip fails. *)
Definition w_offline : World :=
  mkWorld 1700000200000 {[ (BOOKMARKS_COLLECTION, "b1") := bookmark0 ]} ∅ []
    (λ n r, match n, r with
            | O, ReqQuery _ => Some (mkError (Some "unavailable") "offline")
            | _, _ => None
            end)
    (λ n, "auto" +:+ Number_toString (Z.of_nat n)) 0 (λ _, 0) iso_parse.

Lemma addBookmark_unchecked_on_failed_query_witness :
  size (bookmarks_of (db w_offline) "u1" "p1") = 1%nat ∧
  size (bookmarks_of (db (addBookmark "u1" "p1" w_offline).2) "u1" "p1") = 2%nat.
Proof.
  assert (H1 : size (bookmarks_of (db w_offline) "u1" "p1") = 1%nat)
    by (vm_compute; reflexivity).
  split; [exact H1|].
  destruct (addBookmark_unchecked_on_failed_query "u1" "p1" w_offline
              (mkError (Some "unavailable") "offline")) as [_ H];
    [discriminate|discriminate|reflexivity|reflexivity|reflexivity|].
  rewrite H, H1. reflexivity.
Defined.

Lemma run_query_bookmark_singleton store (userId postId : string) (k : string * string)
    (d : object) :
  bookmarks_of store userId postId = {[ k := d ]} →
  run_query (bookmarkQuery userId postId) store = [(k.2, d)].
Proof.
  unfold run_query, bookmarks_of. intros ->. simpl. by rewrite map_to_list_singleton.
Qed.

Lemma isBookmarked_run (userId postId : string) (w : World) :
  userId ≠ "" → postId ≠ "" →
  net w (length (trace w)) (ReqQuery BOOKMARKS_COLLECTION) = None →
  isBookmarked userId postId w =
    (Ok (negb (bool_decide (run_query (bookmarkQuery userId postId) (db w) = []))),
     log (Call (ReqQuery BOOKMARKS_COLLECTION)) w).
Proof.
  intros Hu Hp Hnet. unfold isBookmarked. rewrite !bool_decide_eq_false_2 by done.
  mrun. simpl. by rewrite Hnet.
Qed.

Lemma addBookmark_ok (userId postId : string) (w : World) :
  userId ≠ "" → postId ≠ "" →
  net w (length (trace w)) (ReqQuery BOOKMARKS_COLLECTION) = None →
  run_query (bookmarkQuery userId postId) (db w) = [] →
  net w (S (length (trace w))) (ReqSet BOOKMARKS_COLLECTION (autoId w (minted w))) = None →
  addBookmark userId postId w =
    (Ok (autoId w (minted w)),
     set_db (insert (BOOKMARKS_COLLECTION, autoId w (minted w))
               (newBookmark userId postId (now w)))
       (log (Call (ReqSet BOOKMARKS_COLLECTION (autoId w (minted w))))
          (mint (log (Call (ReqQuery BOOKMARKS_COLLECTION)) w)))).
Proof.
  intros Hu Hp Hq Hempty Hset. unfold addBookmark, rewrap.
  rewrite !bool_decide_eq_false_2 by done. cbn [orb]. unfold try_catch, bind at 1.
  rewrite isBookmarked_run, Hempty by done.
  mrun. simpl. by rewrite Hset.
Qed.

Lemma removeBookmark_ok (userId postId : string) (w : World) (id : string) (d : object)
    (rest : list (string * object)) :
  userId ≠ "" → postId ≠ "" →
  net w (length (trace w)) (ReqQuery BOOKMARKS_COLLECTION) = None →
  run_query (bookmarkQuery userId postId) (db w) = (id, d) :: rest →
  net w (S (length (trace w))) (ReqDelete BOOKMARKS_COLLECTION id) = None →
  removeBookmark userId postId w =
    (Ok tt,
     set_db (delete (BOOKMARKS_COLLECTION, id))
       (log (Call (ReqDelete BOOKMARKS_COLLECTION id))
          (log (Call (ReqQuery BOOKMARKS_COLLECTION)) w))).
Proof.
  intros Hu Hp Hq Hhits Hdel. unfold removeBookmark, rewrap.
  rewrite !bool_decide_eq_false_2 by done. mrun. simpl. rewrite Hq. simpl.
  rewrite Hhits. simpl. by rewrite Hdel.
Qed.

(** On a reliable store, for a pair that has no bookmark: [addBookmark]
    returns the id it minted, [isBookmarked] then answers [true],
    [removeBookmark] succeeds, [isBookmarked] then answers [false], and the
    store is the one the round trip started from. *)
Theorem bookmark_round_trip (userId postId : string) (w : World) :
  userId ≠ "" → postId ≠ "" → Posts.reliable w →
  bookmarks_of (db w) userId postId = ∅ →
  db w !! (BOOKMARKS_COLLECTION, autoId w (minted w)) = None →
  let a := addBookmark userId postId w in
  let r := removeBookmark userId postId a.2 in
  a.1 = Ok (autoId w (minted w)) ∧
  (isBookmarked userId postId a.2).1 = Ok true ∧
  r.1 = Ok tt ∧
  (isBookmarked userId postId r.2).1 = Ok false ∧
  db r.2 = db w.
Proof.
  intros Hu Hp Hrel Hnone Hfresh a r.
  set (key := (BOOKMARKS_COLLECTION, autoId w (minted w))).
  set (doc := newBookmark userId postId (now w)).
  assert (Hempty : run_query (bookmarkQuery userId postId) (db w) = [])
    by (by apply run_query_bookmark_nil).
  assert (Hone : run_query (bookmarkQuery userId postId) (<[key := doc]> (db w))
                 = [(autoId w (minted w), doc)]).
  { apply (run_query_bookmark_singleton _ _ _ key).
    unfold doc, key. rewrite bookmarks_of_insert_match, Hnone. done. }
  assert (Hback : delete key (<[key := doc]> (db w)) = db w).
  { rewrite delete_insert_eq. by apply delete_id. }
  subst a r.
  rewrite (addBookmark_ok userId postId w Hu Hp (Hrel _ _) Hempty (Hrel _ _)).
  cbn [fst snd]. fold key doc.
  set (w1 := set_db (insert key doc) _).
  assert (Hdb1 : db w1 = <[key := doc]> (db w)) by done.
  rewrite (isBookmarked_run userId postId w1 Hu Hp (Hrel _ _)).
  rewrite (removeBookmark_ok userId postId w1 (autoId w (minted w)) doc [] Hu Hp
             (Hrel _ _)) by (by rewrite ?Hdb1 || apply Hrel).
  cbn [fst snd]. fold key.
  set (w2 := set_db (delete key) _).
  assert (Hdb2 : db w2 = db w) by (unfold w2; cbn [db set_db log]; by rewrite Hdb1).
  rewrite (isBookmarked_run userId postId w2 Hu Hp (Hrel _ _)).
  cbn [fst snd]. rewrite Hdb1, Hone, Hdb2, Hempty. done.
Qed.

Lemma bookmark_round_trip_witness :
  let a := addBookmark "u2" "p1" Posts.w_posts in
  let r := removeBookmark "u2" "p1" a.2 in
  a.1 = Ok "auto0" ∧
  (isBookmarked "u2" "p1" a.2).1 = Ok true ∧
  r.1 = Ok tt ∧
  (isBookmarked "u2" "p1" r.2).1 = Ok false ∧
  db r.2 = db Posts.w_posts.
Proof.
  apply (bookmark_round_trip "u2" "p1" Posts.w_posts); try done.
Defined.
End BookmarkEdges.

(** ** The settings document: who creates it *)

Module Settings.
Import Firestore.

Definition settingsKey : string * string := (SETTINGS_COLLECTION, GLOBAL_SETTINGS_ID).

(** The settings that [fetchCategoriesFromFirestore] writes when there are
    none. *)
Definition fallbackSettings (t : Z) : object :=
  [ ("categories",
     VArr [ VObj [ ("id", VStr "general"); ("name", VStr "자유게시판"); ("icon", VStr "📝") ] ]);
    ("createdAt", VTime (Timestamp_fromMillis t));
    ("updatedAt", VTime (Timestamp_fromMillis t)) ].

(** What the listing shows for a stored category. *)
Definition view_of (cat : value) : CategoryView :=
  match cat with
  | VObj o => mkCategoryView (obj_get "id" o) (obj_get "name" o) (obj_get "icon" o)
  | _ => mkCategoryView None None None
  end.

Lemma views_run (categories : list value) (w : World) :
  Forall (λ cat, cat ≠ VNull) categories →
  mapM (λ cat,
          let* i := prop "id" cat in
          let* n := prop "name" cat in
          let* c := prop "icon" cat in
          ret (mkCategoryView i n c)) categories w = (Ok (map view_of categories), w).
Proof.
  induction 1 as [|cat l Hcat _ IH]; [done|].
  cbn [mapM map]. unfold bind at 1. 
  assert (Hone : (let* i := prop "id" cat in
                  let* n := prop "name" cat in
                  let* c := prop "icon" cat in
                  ret (mkCategoryView i n c)) w = (Ok (view_of cat), w)).
  { by destruct cat. }
  rewrite Hone. cbv beta iota. unfold bind at 1. by rewrite IH.
Qed.

(** [fetchCategoriesFromFirestore] is a read that may write.  When the
    settings document is missing and the store reliable, it creates the
    document with the single category [general] and returns that category;
    the admin functions then find the category stored.  When the document
    is there and its categories form an array without [null], it returns
    the id, name and icon of each element in order and leaves the store as
    it was. *)
Theorem fetchCategoriesFromFirestore_result (w : World) :
  net w (length (trace w)) (ReqGet SETTINGS_COLLECTION GLOBAL_SETTINGS_ID) = None →
  match db w !! settingsKey with
  | None =>
      net w (S (length (trace w))) (ReqSet SETTINGS_COLLECTION GLOBAL_SETTINGS_ID) = None →
      ∃ w', fetchCategoriesFromFirestore w = (Ok defaultCategories, w') ∧
            db w' = <[settingsKey := fallbackSettings (now w)]> (db w) ∧
            CategoryAdmin.settings_hold w' (fallbackSettings (now w))
              [Categories.mkCategory "general" "자유게시판" (Some "📝")]
  | Some d =>
      ∀ categories,
        or_else (obj_get "categories" d) (VArr []) = VArr categories →
        Forall (λ cat, cat ≠ VNull) categories →
        ∃ w', fetchCategoriesFromFirestore w = (Ok (map view_of categories), w') ∧
              db w' = db w
  end.
Proof.
  intros Hnet.
  assert (Hrun : fetchCategoriesFromFirestore w =
            let w1 := log (Call (ReqGet SETTINGS_COLLECTION GLOBAL_SETTINGS_ID)) w in
            match db w !! settingsKey with
            | None =>
                match net w (S (length (trace w)))
                        (ReqSet SETTINGS_COLLECTION GLOBAL_SETTINGS_ID) with
                | None =>
                    (Ok defaultCategories,
                     set_db (insert settingsKey (fallbackSettings (now w)))
                       (log (Call (ReqSet SETTINGS_COLLECTION GLOBAL_SETTINGS_ID)) w1))
                | Some e => fetchCategoriesFromFirestore w
                end
            | Some d =>
                match or_else (obj_get "categories" d) (VArr []) with
                | VArr categories =>
                    if bool_decide (Forall (λ cat, cat ≠ VNull) categories)
                    then (Ok (map view_of categories), w1)
                    else fetchCategoriesFromFirestore w
                | _ => fetchCategoriesFromFirestore w
                end
            end).
  { cbv zeta. destruct (db w !! settingsKey) as [d|] eqn:Hd.
    - destruct (or_else (obj_get "categories" d) (VArr [])) as [| | | | | |categories|] eqn:Hc;
        try done.
      case_bool_decide as Hall; [|done].
      unfold fetchCategoriesFromFirestore. rewrite ReadRetry.retry_loop_S.
      change (0 <? MAX_RETRY_COUNT)%nat with true. cbv iota.
      unfold try_catch. rewrite CategoryAdmin.getDoc_run, Hnet.
      change (db (log _ w)) with (db w). unfold settingsKey in Hd. rewrite Hd, Hc.
      by rewrite views_run.
    - destruct (net w (S (length (trace w))) _) as [e|] eqn:Hset; [done|].
      unfold fetchCategoriesFromFirestore. rewrite ReadRetry.retry_loop_S.
      change (0 <? MAX_RETRY_COUNT)%nat with true. cbv iota.
      unfold try_catch at 1. rewrite CategoryAdmin.getDoc_run, Hnet.
      change (db (log _ w)) with (db w). unfold settingsKey in Hd. rewrite Hd.
      mrun. simpl. by rewrite Hset. }
  rewrite Hrun. clear Hrun. cbv zeta.
  destruct (db w !! settingsKey) as [d|] eqn:Hd.
  - intros categories -> Hall. rewrite bool_decide_eq_true_2 by done. by eexists.
  - intros ->. eexists. split; [reflexivity|]. split; [done|].
    split; [|done]. simpl. apply lookup_insert_eq.
Qed.

Definition w_blank : World := quiet_world 1700000200000 ∅ ∅ iso_parse.

Lemma fetchCategoriesFromFirestore_result_witness :
  ∃ w', fetchCategoriesFromFirestore w_blank = (Ok defaultCategories, w') ∧
        db w' = <[settingsKey := fallbackSettings (now w_blank)]> (db w_blank) ∧
        CategoryAdmin.settings_hold w' (fallbackSettings (now w_blank))
          [Categories.mkCategory "general" "자유게시판" (Some "📝")].
Proof.
  pose proof (fetchCategoriesFromFirestore_result w_blank eq_refl) as H.
  change (db w_blank !! settingsKey) with (@None object) in H. cbv iota in H.
  apply H. reflexivity.
Defined.
End Settings.

(** ** initFirestore.ts: what a run of the set-up script adds *)

Module Seeding.
Import InitFirestore.

(** The documents of the collection [posts]. *)
Definition posts_of (store : gmap (string * string) object) : gmap (string * string) object :=
  filter (λ kd, kd.1.1 = "posts") store.

(** The oldest sample post is dated three days back: the clock is such that
    all four dates are in the range of a [Timestamp]. *)
Definition clock_in_range (w : World) : Prop :=
  -62135596800 + 3 * 86400 ≤ now w `div` 1000 < 253402300800.

(** The next [n] generated ids are distinct and name no stored post. *)
Definition fresh_ids (n : nat) (w : World) : Prop :=
  NoDup (map (λ i, autoId w (minted w + i)) (seq 0 n)) ∧
  ∀ i, (i < n)%nat → db w !! ("posts", autoId w (minted w + i)%nat) = None.

(** The write that [forEach] buffers for the [i]-th post after [index]. *)
Definition write_at (w : World) (index i : nat) (post : object) : Write :=
  let createdAt :=
    mkTimestamp (now w `div` 1000 - Z.of_nat (index + i) * 86400)
                (now w `mod` 1000 * 1000000) in
  TxSet "posts" (autoId w (minted w + i))
    (post ++ [ ("createdAt", VTime createdAt); ("updatedAt", VTime createdAt) ])%list.

Fixpoint writes_from (w : World) (index i : nat) (posts : list object) : list Write :=
  match posts with
  | [] => []
  | post :: posts' => write_at w index i post :: writes_from w index (S i) posts'
  end.

Lemma iter_mint_fields n w :
  now (Nat.iter n mint w) = now w ∧ db (Nat.iter n mint w) = db w ∧
  trace (Nat.iter n mint w) = trace w ∧ net (Nat.iter n mint w) = net w ∧
  autoId (Nat.iter n mint w) = autoId w ∧
  minted (Nat.iter n mint w) = (minted w + n)%nat.
Proof.
  induction n as [|n IH]; simpl; [repeat split; lia|].
  destruct IH as (-> & -> & -> & -> & -> & ->). repeat split. lia.
Qed.

Lemma forEach_run (posts : list object) :
  ∀ (index i : nat) (w0 w : World),
    now w = now w0 → autoId w = autoId w0 → minted w = (minted w0 + i)%nat →
    (∀ j, (j < length posts)%nat →
        -62135596800 ≤ now w0 `div` 1000 - Z.of_nat (index + (i + j)) * 86400 < 253402300800) →
    forEach posts (index + i) w =
      (Ok (writes_from w0 index i posts), Nat.iter (length posts) mint w).
Proof.
  induction posts as [|post posts IH]; intros index i w0 w Hnow Hauto Hmint Hrange; [done|].
  cbn [forEach writes_from length].
  assert (Hone : sample_write post (index + i) w = (Ok (write_at w0 index i post), mint w)).
  { unfold sample_write, write_at, newDocId, Timestamp_now, Timestamp_new. mrun.
    cbn [seconds nanoseconds Timestamp_fromMillis]. rewrite Hnow, Hauto, Hmint.
    assert (0 ≤ now w0 `mod` 1000 * 1000000 < 1000000000)
      by (pose proof (Z.mod_pos_bound (now w0) 1000); lia).
    specialize (Hrange 0%nat ltac:(simpl; lia)). rewrite Nat.add_0_r in Hrange.
    rewrite !decide_True by done. done. }
  unfold bind at 1. rewrite Hone. unfold bind at 1.
  replace (S (index + i)) with (index + S i)%nat by lia.
  rewrite (IH index (S i) w0 (mint w)); [| done | done | simpl; lia |].
  - unfold ret. f_equal. by rewrite Nat.iter_succ_r.
  - intros j Hj. specialize (Hrange (S j) ltac:(simpl; lia)).
    by replace (S i + j)%nat with (i + S j)%nat by lia.
Qed.

(** The store after the writes [writes_from w index i posts]. *)
Fixpoint seeded (w : World) (index i : nat) (posts : list object)
    (store : gmap (string * string) object) : gmap (string * string) object :=
  match posts with
  | [] => store
  | post :: posts' =>
      seeded w index (S i) posts'
        (match write_at w index i post with
         | TxSet c id data => <[(c, id) := data]> store
         | _ => store
         end)
  end.

Lemma apply_writes_seeded w index posts :
  ∀ i store, apply_writes (writes_from w index i posts) store = Some (seeded w index i posts store).
Proof. induction posts as [|post posts IH]; intros i store; [done|]. simpl. apply IH. Qed.

Lemma seeded_lookup_other w index posts :
  ∀ i store k,
    (∀ j, (j < length posts)%nat → k ≠ ("posts", autoId w (minted w + (i + j))%nat)) →
    seeded w index i posts store !! k = store !! k.
Proof.
  induction posts as [|post posts IH]; intros i store k Hk; [done|].
  simpl. rewrite IH.
  - apply lookup_insert_ne. specialize (Hk 0%nat ltac:(simpl; lia)).
    rewrite Nat.add_0_r in Hk. done.
  - intros j Hj. specialize (Hk (S j) ltac:(simpl; lia)).
    by replace (S i + j)%nat with (i + S j)%nat by lia.
Qed.

Lemma seeded_size w index posts :
  ∀ i store,
    NoDup (map (λ j, autoId w (minted w + j)) (seq i (length posts))) →
    (∀ j, (j < length posts)%nat →
        store !! ("posts", autoId w (minted w + (i + j))%nat) = None) →
    size (posts_of (seeded w index i posts store)) =
      (size (posts_of store) + length posts)%nat.
Proof.
  induction posts as [|post posts IH]; intros i store Hnd Hfresh; [simpl; lia|].
  cbn [length seq map] in Hnd. apply NoDup_cons in Hnd as [Hnotin Hnd].
  cbn [seeded write_at length]. rewrite IH; [| done |].
  - unfold posts_of at 1. rewrite map_filter_insert_True by done.
    rewrite map_size_insert_None; [fold (posts_of store); lia|].
    apply map_lookup_filter_None. left.
    specialize (Hfresh 0%nat ltac:(simpl; lia)). by rewrite Nat.add_0_r in Hfresh.
  - intros j Hj. rewrite lookup_insert_ne.
    + specialize (Hfresh (S j) ltac:(simpl; lia)).
      by replace (S i + j)%nat with (i + S j)%nat by lia.
    + intros [=Heq]. apply Hnotin. rewrite Heq.
      apply list_elem_of_fmap. exists (S i + j)%nat. split; [done|].
      apply elem_of_seq. lia.
Qed.

Lemma seeded_keeps w index posts :
  ∀ i store k d,
    (∀ j, (j < length posts)%nat →
        store !! ("posts", autoId w (minted w + (i + j))%nat) = None) →
    store !! k = Some d → seeded w index i posts store !! k = Some d.
Proof.
  intros i store k d Hfresh Hk. rewrite seeded_lookup_other; [done|].
  intros j Hj ->. rewrite Hfresh in Hk by done. done.
Qed.
Definition settingsKey : string * string := ("settings", "global-settings").

Lemma addSamplePosts_run (w : World) :
  clock_in_range w →
  addSamplePosts w =
    let w4 := Nat.iter 4 mint w in
    match net w (length (trace w)) ReqCommit with
    | Some e => (Throw e, log (Call ReqCommit) w4)
    | None =>
        (Ok tt, set_db (λ _, seeded w 0 0 samplePosts (db w)) (log (Call ReqCommit) w4))
    end.
Proof.
  intros Hclock. unfold addSamplePosts, try_catch. unfold bind at 1.
  assert (Hrun : forEach samplePosts 0 w =
                   (Ok (writes_from w 0 0 samplePosts), Nat.iter 4 mint w)).
  { apply (forEach_run samplePosts 0 0 w w); [done | done | lia |].
    change (length samplePosts) with 4%nat. intros j Hj.
    unfold clock_in_range in Hclock. lia. }
  rewrite Hrun. clear Hrun. unfold commit.
  destruct (writes_from w 0 0 samplePosts) as [|wr ws] eqn:Hws; [discriminate Hws|].
  rewrite <- Hws. clear wr ws Hws. unfold bind at 1. unfold rpc.
  destruct (iter_mint_fields 4 w) as (_ & Hdb & Htrace & Hnet & _).
  rewrite Hnet, Htrace. destruct (net w _ _) as [e|]; [done|].
  unfold bind at 1, get.
  change (db (log (Call ReqCommit) (Nat.iter 4 mint w))) with (db (Nat.iter 4 mint w)).
  rewrite Hdb, apply_writes_seeded. done.
Qed.

Lemma initSettings_run (loaded1 loaded2 : Timestamp) (w : World) :
  net w (length (trace w)) (ReqGet "settings" "global-settings") = None →
  net w (S (length (trace w))) (ReqSet "settings" "global-settings") = None →
  initSettings loaded1 loaded2 w =
    (Ok tt,
     match db w !! settingsKey with
     | Some _ => log (Call (ReqGet "settings" "global-settings")) w
     | None =>
         set_db (insert settingsKey (defaultSettings loaded1 loaded2))
           (log (Call (ReqSet "settings" "global-settings"))
              (log (Call (ReqGet "settings" "global-settings")) w))
     end).
Proof.
  intros Hget Hset. unfold initSettings, try_catch.
  rewrite CategoryAdmin.getDoc_run, Hget. unfold settingsKey.
  destruct (db w !! _); [done|]. mrun. simpl. by rewrite Hset.
Qed.

(** A batch is all or nothing: whatever the network does, [addSamplePosts]
    either fails and leaves every document as it was, or returns and has
    added the four sample posts.  In both cases four ids are used up. *)
Theorem addSamplePosts_all_or_nothing (w : World) :
  clock_in_range w → fresh_ids 4 w →
  ∃ r w', addSamplePosts w = (r, w') ∧ minted w' = (minted w + 4)%nat ∧
    match r with
    | Throw _ => db w' = db w
    | Ok _ =>
        size (posts_of (db w')) = (size (posts_of (db w)) + 4)%nat ∧
        ∀ k d, db w !! k = Some d → db w' !! k = Some d
    end.
Proof.
  intros Hclock [Hnd Hfresh]. rewrite addSamplePosts_run by done. cbv zeta.
  destruct (net w _ _) as [e|]; eexists _, _; (split; [reflexivity|]);
    (split; [simpl; lia|]).
  - done.
  - cbn [db set_db log]. split.
    + apply (seeded_size w 0 samplePosts 0 (db w)); done.
    + intros k d. apply seeded_keeps. done.
Qed.

Definition w_blank : World := quiet_world 1700000200000 ∅ ∅ iso_parse.

Lemma addSamplePosts_all_or_nothing_witness :
  ∃ r w', addSamplePosts w_blank = (r, w') ∧ minted w' = (minted w_blank + 4)%nat ∧
    match r with
    | Throw _ => db w' = db w_blank
    | Ok _ =>
        size (posts_of (db w')) = (size (posts_of (db w_blank)) + 4)%nat ∧
        ∀ k d, db w_blank !! k = Some d → db w' !! k = Some d
    end.
Proof.
  apply addSamplePosts_all_or_nothing.
  - unfold clock_in_range. vm_compute. split; [discriminate | reflexivity].
  - split; [|done]. vm_compute. repeat (apply NoDup_cons; split; [set_solver|]). apply NoDup_nil_2.
Defined.

(** The set-up script is not guarded against a second run.  On a reliable
    store, every run of [initFirestore] adds four more posts, whether or not
    the store was set up before; only the settings document is written once:
    an existing one is kept, as is every other stored document. *)
Theorem initFirestore_adds_four_posts_every_run (loaded1 loaded2 : Timestamp) (w : World) :
  AdminRetry.reliable w → clock_in_range w → fresh_ids 4 w →
  ∃ w', initFirestore loaded1 loaded2 w = (Ok tt, w') ∧
        size (posts_of (db w')) = (size (posts_of (db w)) + 4)%nat ∧
        (∀ k d, db w !! k = Some d → db w' !! k = Some d) ∧
        db w' !! settingsKey =
          Some (default (defaultSettings loaded1 loaded2) (db w !! settingsKey)).
Proof.
  intros Hnet Hclock [Hnd Hfresh]. unfold initFirestore, try_catch. unfold bind at 1.
  rewrite initSettings_run by apply Hnet.
  set (w1 := match db w !! settingsKey with Some _ => _ | None => _ end).
  assert (Hw1 : now w1 = now w ∧ autoId w1 = autoId w ∧ minted w1 = minted w ∧
                net w1 = net w ∧
                db w1 = match db w !! settingsKey with
                        | Some _ => db w
                        | None => <[settingsKey := defaultSettings loaded1 loaded2]> (db w)
                        end).
  { subst w1. by destruct (db w !! settingsKey). }
  clearbody w1. destruct Hw1 as (Hnow & Hauto & Hmint & Hnet1 & Hdb).
  assert (Hposts : ∀ i, db w1 !! ("posts", autoId w (minted w + i)%nat) =
                        db w !! ("posts", autoId w (minted w + i)%nat)).
  { intros i. rewrite Hdb. destruct (db w !! settingsKey); [done|].
    by apply lookup_insert_ne. }
  assert (Hsize : size (posts_of (db w1)) = size (posts_of (db w))).
  { rewrite Hdb. destruct (db w !! settingsKey) eqn:Hs; [done|]. unfold posts_of.
    rewrite map_filter_insert_False by (by intros [=]).
    by rewrite delete_id. }
  rewrite addSamplePosts_run by (unfold clock_in_range; by rewrite Hnow).
  cbv zeta. rewrite Hnet1, Hnet. eexists. split; [reflexivity|].
  cbn [db set_db log].
  assert (Hfresh1 : ∀ j, (j < length samplePosts)%nat →
            db w1 !! ("posts", autoId w1 (minted w1 + (0 + j))%nat) = None).
  { intros j Hj. rewrite Hauto, Hmint, Hposts. by apply Hfresh. }
  split; [|split].
  - rewrite (seeded_size w1 0 samplePosts 0 (db w1)); [by rewrite Hsize | | done].
    by rewrite Hauto, Hmint.
  - intros k d Hk. apply seeded_keeps; [done|]. rewrite Hdb.
    destruct (db w !! settingsKey) eqn:Hs; [done|].
    rewrite lookup_insert_ne; [done|]. intros <-. by rewrite Hs in Hk.
  - rewrite seeded_lookup_other by (by intros j _ [=]).
    rewrite Hdb. destruct (db w !! settingsKey) eqn:Hs; [done|]. apply lookup_insert_eq.
Qed.

Lemma initFirestore_adds_four_posts_every_run_witness :
  ∃ w', initFirestore (mkTimestamp 1700000000 0) (mkTimestamp 1700000000 0) w_blank = (Ok tt, w') ∧
        size (posts_of (db w')) = (size (posts_of (db w_blank)) + 4)%nat ∧
        (∀ k d, db w_blank !! k = Some d → db w' !! k = Some d) ∧
        db w' !! settingsKey =
          Some (default (defaultSettings (mkTimestamp 1700000000 0) (mkTimestamp 1700000000 0))
                  (db w_blank !! settingsKey)).
Proof.
  apply initFirestore_adds_four_posts_every_run.
  - done.
  - unfold clock_in_range. vm_compute. split; [discriminate | reflexivity].
  - split; [|done]. vm_compute. repeat (apply NoDup_cons; split; [set_solver|]). apply NoDup_nil_2.
Defined.
End Seeding.

(** ** services/admin/posts.ts: deleting posts with their comments *)

Module PostAdmin.
Import AdminPosts Gate.

(** What deleting the listed posts is to remove: the posts themselves and
    every comment whose [postId] is one of the listed ids. *)
Definition doomed (postIds : list string) (kd : (string * string) * object) : Prop :=
  (kd.1.1 = POSTS_COLLECTION ∧ kd.1.2 ∈ postIds) ∨
  (kd.1.1 = COMMENTS_COLLECTION ∧
   Exists (λ p, obj_get "postId" kd.2 = Some (VStr p)) postIds).

#[global] Instance doomed_dec postIds kd : Decision (doomed postIds kd).
Proof. unfold doomed. apply _. Defined.

Definition purged (postIds : list string) (store : gmap (string * string) object)
    : gmap (string * string) object :=
  filter (λ kd, ¬ doomed postIds kd) store.

(** The listed ids that name a stored post, in order and as often as they
    are listed. *)
Definition found (postIds : list string) (store : gmap (string * string) object)
    : list string :=
  List.filter (λ p, bool_decide (is_Some (store !! (POSTS_COLLECTION, p)))) postIds.

(** Only the trace differs. *)
Definition later (w w' : World) : Prop :=
  db w' = db w ∧ net w' = net w ∧ now w' = now w.

Definition delete_all (ks : list (string * string)) (store : gmap (string * string) object)
    : gmap (string * string) object :=
  foldl (λ s k, delete k s) store ks.

Lemma delete_all_lookup ks : ∀ store k,
  delete_all ks store !! k = if decide (k ∈ ks) then None else store !! k.
Proof.
  induction ks as [|k0 ks IH]; intros store k.
  - rewrite decide_False by set_solver. done.
  - cbn [delete_all foldl]. fold (delete_all ks (delete k0 store)). rewrite IH.
    destruct (decide (k ∈ ks)) as [Hin|Hin].
    + rewrite decide_True by set_solver. done.
    + destruct (decide (k = k0)) as [->|Hne].
      * rewrite decide_True by set_solver. apply lookup_delete_eq.
      * rewrite decide_False by set_solver. by apply lookup_delete_ne.
Qed.

Lemma apply_writes_deletes (c : string) (ids : list string) : ∀ store,
  apply_writes (map (TxDelete c) ids) store = Some (delete_all (map (pair c) ids) store).
Proof. induction ids as [|i ids IH]; intros store; [done|]. simpl. apply IH. Qed.

Lemma delete_each_ids (docs : list (string * object)) :
  delete_each docs = map (TxDelete COMMENTS_COLLECTION) docs.*1.
Proof. unfold delete_each. by rewrite <- list_fmap_compose. Qed.

(** The comments that a query for [postId] finds are those that reference
    [postId]. *)
Lemma comment_found (postId : string) (store : gmap (string * string) object)
    (k : string * string) :
  k ∈ map (pair COMMENTS_COLLECTION) (run_query (commentsQuery postId) store).*1 ↔
  k.1 = COMMENTS_COLLECTION ∧
  ∃ d, store !! k = Some d ∧ obj_get "postId" d = Some (VStr postId).
Proof.
  rewrite list_elem_of_fmap. split.
  - intros (i & -> & Hi). apply list_elem_of_fmap in Hi as ([i' d] & -> & Hin).
    apply CategoryAdmin.run_query_elem in Hin as [Hl Hw]; [|done].
    split; [done|]. exists d. split; [done|]. by inversion Hw.
  - intros [Hc (d & Hl & Hp)]. destruct k as [c i]. simpl in Hc. subst c.
    exists i. split; [done|]. apply list_elem_of_fmap. exists (i, d). split; [done|].
    apply CategoryAdmin.run_query_elem; [done|]. split; [done|].
    by repeat constructor.
Qed.

Lemma collect_run (postIds : list string) :
  Forall Posts.valid_id postIds →
  ∀ (deletedCount : nat) (batch : list Write) (w : World),
    (∀ n c i, net w n (ReqGet c i) = None) →
    ∃ w', collect postIds deletedCount batch w =
            (Ok ((deletedCount + length (found postIds (db w)))%nat,
                 (batch ++ map (TxDelete POSTS_COLLECTION) (found postIds (db w)))%list), w') ∧
          later w w' ∧ localStorage w' = localStorage w.
Proof.
  induction 1 as [|postId rest Hid _ IH]; intros deletedCount batch w Hnet.
  - exists w. cbn. rewrite Nat.add_0_r, app_nil_r. done.
  - cbn [collect found List.filter]. unfold bind at 1. rewrite Posts.doc_valid by done.
    rewrite CategoryAdmin.getDoc_run, Hnet.
    set (w1 := log _ w).
    destruct (IH (S deletedCount) (batch ++ [TxDelete POSTS_COLLECTION postId])%list w1 Hnet)
      as (w' & Hrun & Hlater & Hls).
    destruct (IH deletedCount batch w1 Hnet) as (w'' & Hrun' & Hlater' & Hls').
    change (db w1) with (db w) in *. 
    destruct (db w !! (POSTS_COLLECTION, postId)) as [d|] eqn:Hd.
    + rewrite bool_decide_eq_true_2 by done. exists w'. rewrite Hrun.
      split; [|done]. cbn [length map]. rewrite <- app_assoc.
      by replace (S deletedCount + length (found rest (db w)))%nat
        with (deletedCount + S (length (found rest (db w))))%nat by lia.
    + rewrite bool_decide_eq_false_2 by (by intros [? ?]). exists w''. by rewrite Hrun'.
Qed.
Lemma commit_deletes (c : string) (ids : list string) (w : World) :
  (∀ n, net w n ReqCommit = None) →
  ∃ w', InitFirestore.commit (map (TxDelete c) ids) w = (Ok tt, w') ∧
        db w' = delete_all (map (pair c) ids) (db w) ∧ net w' = net w ∧ now w' = now w.
Proof.
  intros Hnet. destruct ids as [|i ids]; [by exists w|].
  unfold InitFirestore.commit. cbn [map]. unfold bind at 1, rpc. rewrite Hnet.
  unfold bind at 1, get. change (db (log (Call ReqCommit) w)) with (db w).
  change (TxDelete c i :: map (TxDelete c) ids) with (map (TxDelete c) (i :: ids)).
  rewrite apply_writes_deletes. by eexists.
Qed.

(** Comments that reference one of the listed ids. *)
Definition comment_of (postIds : list string) (k : string * string) (d : object) : Prop :=
  k.1 = COMMENTS_COLLECTION ∧ Exists (λ p, obj_get "postId" d = Some (VStr p)) postIds.

Lemma deleteComments_run (postIds : list string) : ∀ w,
  AdminRetry.reliable w →
  ∃ w', deleteComments postIds w = (Ok tt, w') ∧
        ∀ k d, db w' !! k = Some d ↔ db w !! k = Some d ∧ ¬ comment_of postIds k d.
Proof.
  induction postIds as [|postId rest IH]; intros w Hnet.
  - exists w. split; [done|]. intros k d. unfold comment_of.
    rewrite Exists_nil. tauto.
  - cbn [deleteComments]. rewrite CategoryAdmin.getDocs_run, Hnet.
    set (w1 := log _ w). change (db w) with (db w1).
    set (docs := run_query (commentsQuery postId) (db w1)).
    assert (Hstep : ∃ w2,
              (if bool_decide (0 < length docs)%nat
               then InitFirestore.commit (delete_each docs) else ret tt) w1 = (Ok tt, w2) ∧
              db w2 = delete_all (map (pair COMMENTS_COLLECTION) docs.*1) (db w1) ∧
              net w2 = net w1 ∧ now w2 = now w1).
    { case_bool_decide as Hlen.
      - rewrite delete_each_ids. apply commit_deletes. intros n. apply Hnet.
      - destruct docs; [by exists w1 | simpl in Hlen; lia]. }
    destruct Hstep as (w2 & Hstep & Hdb & Hnet2 & _).
    unfold bind at 1. rewrite Hstep.
    destruct (IH w2) as (w' & Hrun & Hiff).
    { intros n r. rewrite Hnet2. apply Hnet. }
    exists w'. split; [done|]. intros k d. rewrite Hiff, Hdb, delete_all_lookup.
    unfold comment_of. rewrite Exists_cons. subst docs.
    destruct (decide (k ∈ _)) as [Hin|Hin].
    + apply comment_found in Hin as [Hc (d' & Hl & Hp)]. split; [by intros [? _]|].
      intros [Hk Hno]. exfalso. apply Hno. split; [done|]. left.
      change (db w1) with (db w) in Hl, Hk. congruence.
    + rewrite comment_found in Hin. change (db w1) with (db w) in *.
      split.
      * intros [Hk Hno]. split; [done|]. intros [Hc [Hp|Hex]]; [|by apply Hno].
        apply Hin. split; [done|]. by exists d.
      * intros [Hk Hno]. split; [done|]. intros [Hc Hex]. apply Hno. split; [done|]. by right.
Qed.

(** The store without the listed posts; the comments are kept. *)
Definition without_posts (postIds : list string) (store : gmap (string * string) object)
    : gmap (string * string) object :=
  filter (λ kd, ¬ (kd.1.1 = POSTS_COLLECTION ∧ kd.1.2 ∈ postIds)) store.

Lemma found_deleted (postIds : list string) (store : gmap (string * string) object) :
  delete_all (map (pair POSTS_COLLECTION) (found postIds store)) store =
  without_posts postIds store.
Proof.
  apply map_eq. intros k. apply option_eq. intros d.
  unfold without_posts. rewrite map_lookup_filter_Some, delete_all_lookup.
  destruct (decide (k ∈ _)) as [Hin|Hin].
  - split; [done|]. intros [Hk Hno]. exfalso. apply Hno.
    apply list_elem_of_fmap in Hin as (i & -> & Hi).
    apply list_elem_of_In, filter_In in Hi as [Hi _]. apply list_elem_of_In in Hi. done.
  - split; [|by intros [? _]]. intros Hk. split; [done|]. intros [Hc Hi]. apply Hin.
    destruct k as [c i]. simpl in *. subst c. apply list_elem_of_fmap. exists i.
    split; [done|]. apply list_elem_of_In, filter_In. split; [by apply list_elem_of_In|].
    apply bool_decide_eq_true_2. by exists d.
Qed.

Lemma purged_lookup (postIds : list string) (store : gmap (string * string) object) k d :
  purged postIds store !! k = Some d ↔
  (store !! k = Some d ∧ ¬ (k.1 = POSTS_COLLECTION ∧ k.2 ∈ postIds)) ∧
  ¬ comment_of postIds k d.
Proof.
  unfold purged, doomed, comment_of. rewrite map_lookup_filter_Some. simpl. tauto.
Qed.
Lemma verifyAdminAuth_run (w : World) :
  ∃ r w0, verifyAdminAuth w = (r, w0) ∧ db w0 = db w ∧
          (session_valid w → r = Ok tt ∧ w0 = w).
Proof.
  destruct (verifyAdminAuth w) as [r w0] eqn:Hrun. exists r, w0. split; [done|]. split.
  - pose proof (Frames.reads_verifyAdminAuth w) as Hdb. unfold Frames.same_db in Hdb.
    change Backup.verifyAdminAuth with verifyAdminAuth in Hdb. by rewrite Hrun in Hdb.
  - intros Hs. unfold verifyAdminAuth, bind in Hrun.
    rewrite (isAdminAuthenticated_granted w Hs) in Hrun. by injection Hrun as <- <-.
Qed.

Definition deleteFailed (error : JsError) : JsError :=
  Error ("게시물 삭제 중 오류가 발생했습니다: " +:+ message error).

(** The body of [deletePostAdmin], after the gate. *)
Definition deletePostAdmin_attempt (postId : string) : M unit :=
  try_catch (
    let* postRef := Firestore.doc POSTS_COLLECTION postId in
    let* postSnap := getDoc POSTS_COLLECTION postRef in
    match postSnap with
    | None => throw (Error ("ID가 " +:+ postId +:+ "인 게시물을 찾을 수 없습니다."))
    | Some _ =>
        runTransaction (
          let* commentsSnap := getDocs (commentsQuery postId) in
          ret (tt, TxDelete POSTS_COLLECTION postRef :: delete_each commentsSnap))
    end)
    (λ error, throw (deleteFailed error)).

Lemma deletePostAdmin_eq (postId : string) :
  deletePostAdmin postId = let* _ := verifyAdminAuth in deletePostAdmin_attempt postId.
Proof. reflexivity. Qed.

Lemma deletePostAdmin_body (postId : string) (w : World) :
  ∃ r w',
    deletePostAdmin_attempt postId w = (r, w') ∧
    match r with
    | Ok _ => db w' = purged [postId] (db w)
    | Throw _ => db w' = db w
    end ∧
    (AdminRetry.reliable w → Posts.valid_id postId →
     is_Some (db w !! (POSTS_COLLECTION, postId)) → r = Ok tt).
Proof.
  unfold deletePostAdmin_attempt, try_catch. unfold bind at 1. unfold Firestore.doc.
  destruct (bool_decide (postId = "") || includes "/" postId) eqn:Hid.
  { eexists _, _. split; [reflexivity|]. split; [done|]. intros _ [Hne Hsl] _.
    rewrite bool_decide_eq_false_2, Hsl in Hid by done. done. }
  unfold ret at 1. rewrite CategoryAdmin.getDoc_run.
  destruct (net w _ _) as [e|] eqn:Hget.
  { eexists _, _. split; [reflexivity|]. split; [done|]. intros Hnet. by rewrite Hnet in Hget. }
  set (w1 := log _ w).
  destruct (db w !! (POSTS_COLLECTION, postId)) as [d|] eqn:Hd.
  2: { eexists _, _. split; [reflexivity|]. split; [done|]. by intros _ _ [? ?]. }
  unfold runTransaction. unfold bind at 1. rewrite CategoryAdmin.getDocs_run.
  destruct (net w1 _ _) as [e|] eqn:Hq.
  { eexists _, _. split; [reflexivity|]. split; [done|]. intros Hnet.
    change (net w1) with (net w) in Hq. by rewrite Hnet in Hq. }
  set (w2 := log _ w1). set (docs := run_query (commentsQuery postId) (db w1)).
  unfold ret at 1. unfold bind at 1, rpc.
  destruct (net w2 _ _) as [e|] eqn:Hc.
  { eexists _, _. split; [reflexivity|]. split; [done|]. intros Hnet.
    change (net w2) with (net w) in Hc. by rewrite Hnet in Hc. }
  unfold bind at 1, get. cbn [snd fst]. rewrite delete_each_ids.
  change (TxDelete POSTS_COLLECTION postId :: map (TxDelete COMMENTS_COLLECTION) docs.*1)
    with ([TxDelete POSTS_COLLECTION postId] ++ map (TxDelete COMMENTS_COLLECTION) docs.*1)%list.
  rewrite CategoryAdmin.apply_writes_app. cbn [apply_writes apply_write mbind option_bind].
  rewrite apply_writes_deletes. mrun.
  eexists _, _. split; [reflexivity|]. split; [|done].
  cbn [db]. apply map_eq. intros k. apply option_eq. intros d0.
  rewrite purged_lookup, delete_all_lookup. subst docs. unfold comment_of.
  rewrite Exists_cons, Exists_nil, list_elem_of_singleton.
  destruct (decide (k ∈ _)) as [Hin|Hin].
  - apply comment_found in Hin as [Hk (d' & Hl & Hp)]. split; [done|].
    intros [[Hk0 _] Hno]. exfalso. apply Hno. split; [done|]. left.
    change (db w1) with (db w) in Hl. congruence.
  - rewrite comment_found in Hin. change (db w1) with (db w) in Hin.
    change (db (log (Call ReqCommit) w2)) with (db w).
    destruct (decide (k = (POSTS_COLLECTION, postId))) as [->|Hne].
    + rewrite lookup_delete_eq. split; [done|]. intros [[_ Hno] _]. exfalso. by apply Hno.
    + rewrite lookup_delete_ne by done. split.
      * intros Hk. repeat split; [done| |].
        -- intros [Hc1 Hc2]. apply Hne. destruct k. simpl in *. by subst.
        -- intros [Hc1 [Hp|[]]]. apply Hin. split; [done|]. by exists d0.
      * by intros [[Hk _] _].
Qed.

(** [deletePostAdmin] removes a post together with its comments, in one
    transaction: when it returns, the store is the old one without the
    post and without every comment whose [postId] is the post's id, and
    nothing else has changed; when it throws, whatever the reason, nothing
    has changed.  With a valid session and a reliable store it returns for
    every stored post. *)
Theorem deletePostAdmin_cascade (postId : string) (w : World) :
  let r := deletePostAdmin postId w in
  match r.1 with
  | Ok _ => db r.2 = purged [postId] (db w)
  | Throw _ => db r.2 = db w
  end ∧
  (session_valid w → AdminRetry.reliable w → Posts.valid_id postId →
   is_Some (db w !! (POSTS_COLLECTION, postId)) → r.1 = Ok tt).
Proof.
  cbv zeta. rewrite deletePostAdmin_eq. unfold bind.
  destruct (verifyAdminAuth_run w) as (r0 & w0 & Hauth & Hdb0 & Hvalid). rewrite Hauth.
  destruct r0 as [[]|e].
  - destruct (deletePostAdmin_body postId w0) as (r & w' & Hrun & Hdb & Hok).
    rewrite Hrun. cbn [fst snd]. rewrite <- Hdb0. split; [done|].
    intros Hs Hnet Hid Hpost. destruct (Hvalid Hs) as [_ ->]. by apply Hok.
  - cbn [fst snd]. split; [done|]. intros Hs. by destruct (Hvalid Hs).
Qed.

Definition comment2 : object :=
  [ ("postId", VStr "p2"); ("content", VStr "other"); ("authorId", VStr "u3") ].

(** A post with one comment, and a comment on another post. *)
Definition w_thread : World :=
  RoundTrip.admin_world
    {[ (POSTS_COLLECTION, "p1") := RoundTrip.post1;
       (COMMENTS_COLLECTION, "c1") := RoundTrip.comment1;
       (COMMENTS_COLLECTION, "c2") := comment2 ]}.

Lemma deletePostAdmin_cascade_witness : (deletePostAdmin "p1" w_thread).1 = Ok tt.
Proof.
  apply (deletePostAdmin_cascade "p1" w_thread).
  - apply RoundTrip.admin_world_valid.
  - done.
  - split; [done | reflexivity].
  - by eexists.
Defined.
Definition bulkFailed (error : JsError) : JsError :=
  Error ("게시물 일괄 삭제 중 오류가 발생했습니다: " +:+ message error).

(** The body of [bulkDeletePostsAdmin], after the gate and the test for the
    empty list. *)
Definition bulkDeletePostsAdmin_attempt (postIds : list string) : M nat :=
  try_catch (
    let* r := collect postIds 0 [] in
    let* _ := InitFirestore.commit r.2 in
    let* _ := deleteComments postIds in
    ret r.1)
    (λ error, throw (bulkFailed error)).

Lemma bulkDeletePostsAdmin_eq (postIds : list string) :
  bulkDeletePostsAdmin postIds =
  let* _ := verifyAdminAuth in
  if bool_decide (length postIds = 0%nat) then ret 0%nat
  else bulkDeletePostsAdmin_attempt postIds.
Proof. reflexivity. Qed.

(** With a valid session, on a reliable store, [bulkDeletePostsAdmin]
    removes every listed post that is stored and every comment whose
    [postId] is a listed id, whether or not that post is stored, and nothing
    else.  The number it returns counts the listed ids that name a stored
    post, each as often as it is listed. *)
Theorem bulkDeletePostsAdmin_result (postIds : list string) (w : World) :
  session_valid w → AdminRetry.reliable w → Forall Posts.valid_id postIds →
  ∃ w', bulkDeletePostsAdmin postIds w = (Ok (length (found postIds (db w))), w') ∧
        db w' = purged postIds (db w).
Proof.
  intros Hs Hnet Hids. rewrite bulkDeletePostsAdmin_eq. unfold bind.
  destruct (verifyAdminAuth_run w) as (r0 & w0 & Hauth & _ & Hvalid). rewrite Hauth.
  destruct (Hvalid Hs) as [-> ->]. clear Hauth Hvalid.
  case_bool_decide as Hlen.
  { destruct postIds; [|done]. exists w. split; [done|]. 
    apply map_eq. intros k. apply option_eq. intros d. rewrite purged_lookup.
    unfold comment_of. rewrite Exists_nil. set_solver. }
  unfold bulkDeletePostsAdmin_attempt, try_catch. unfold bind at 1.
  destruct (collect_run postIds Hids 0%nat [] w) as (w1 & Hrun & (Hdb1 & Hnet1 & _) & _).
  { intros n c i. apply Hnet. }
  rewrite Hrun. cbn [fst snd app]. unfold bind at 1.
  destruct (commit_deletes POSTS_COLLECTION (found postIds (db w)) w1)
    as (w2 & Hcommit & Hdb2 & Hnet2 & _).
  { intros n. rewrite Hnet1. apply Hnet. }
  rewrite Hcommit. unfold bind at 1.
  destruct (deleteComments_run postIds w2) as (w3 & Hdel & Hiff).
  { intros n r. rewrite Hnet2, Hnet1. apply Hnet. }
  rewrite Hdel. exists w3. split; [done|].
  apply map_eq. intros k. apply option_eq. intros d.
  rewrite Hiff, Hdb2, Hdb1, found_deleted, purged_lookup.
  unfold without_posts. by rewrite map_lookup_filter_Some.
Qed.

Lemma bulkDeletePostsAdmin_result_witness :
  ∃ w', bulkDeletePostsAdmin ["p1"; "p1"; "p2"] w_thread =
          (Ok (length (found ["p1"; "p1"; "p2"] (db w_thread))), w') ∧
        db w' = purged ["p1"; "p1"; "p2"] (db w_thread).
Proof.
  apply bulkDeletePostsAdmin_result.
  - apply RoundTrip.admin_world_valid.
  - done.
  - repeat (apply Forall_cons; split; [split; [done | reflexivity]|]). apply Forall_nil_2.
Defined.

(** Reading a document and committing a batch work, but every query on the
    comments fails with [e], as when the rules or an index refuse it. *)
Definition comments_unreadable (e : JsError) (w : World) : Prop :=
  (∀ n c i, net w n (ReqGet c i) = None) ∧ (∀ n, net w n ReqCommit = None) ∧
  ∀ n, net w n (ReqQuery COMMENTS_COLLECTION) = Some e.

(** [bulkDeletePostsAdmin] is not atomic: the posts are committed before
    the comments are looked up.  When the comments cannot be queried, the
    call fails with the wrapped error although every listed post has been
    deleted, and all comments are still stored. *)
Theorem bulkDeletePostsAdmin_fails_after_deleting (postIds : list string) (e : JsError)
    (w : World) :
  session_valid w → comments_unreadable e w → Forall Posts.valid_id postIds →
  postIds ≠ [] →
  ∃ w', bulkDeletePostsAdmin postIds w = (Throw (bulkFailed e), w') ∧
        db w' = without_posts postIds (db w).
Proof.
  intros Hs (Hget & Hcommit & Hquery) Hids Hne. rewrite bulkDeletePostsAdmin_eq. unfold bind.
  destruct (verifyAdminAuth_run w) as (r0 & w0 & Hauth & _ & Hvalid). rewrite Hauth.
  destruct (Hvalid Hs) as [-> ->]. clear Hauth Hvalid.
  rewrite bool_decide_eq_false_2 by (by destruct postIds).
  unfold bulkDeletePostsAdmin_attempt, try_catch. unfold bind at 1.
  destruct (collect_run postIds Hids 0%nat [] w Hget) as (w1 & Hrun & (Hdb1 & Hnet1 & _) & _).
  rewrite Hrun. cbn [fst snd app]. unfold bind at 1.
  destruct (commit_deletes POSTS_COLLECTION (found postIds (db w)) w1)
    as (w2 & Hc & Hdb2 & Hnet2 & _).
  { intros n. rewrite Hnet1. apply Hcommit. }
  rewrite Hc. unfold bind at 1.
  destruct postIds as [|postId rest]; [done|].
  cbn [deleteComments]. rewrite CategoryAdmin.getDocs_run.
  change (q_from (commentsQuery postId)) with COMMENTS_COLLECTION.
  rewrite Hnet2, Hnet1, Hquery. eexists. split; [reflexivity|].
  cbn [db]. change (db (log _ w2)) with (db w2). by rewrite Hdb2, Hdb1, found_deleted.
Qed.

(** The store of [w_thread], where no comment can be queried. *)
Definition w_orphans : World :=
  mkWorld (now w_thread) (db w_thread) (localStorage w_thread) []
    (λ _ r, match r with
            | ReqQuery _ => Some (mkError (Some "permission-denied") "denied")
            | _ => None
            end)
    (autoId w_thread) 0 (λ _, 0) (Date_parse w_thread).

Lemma bulkDeletePostsAdmin_fails_after_deleting_witness :
  ∃ w', bulkDeletePostsAdmin ["p1"] w_orphans =
          (Throw (bulkFailed (mkError (Some "permission-denied") "denied")), w') ∧
        db w' = without_posts ["p1"] (db w_orphans).
Proof.
  apply bulkDeletePostsAdmin_fails_after_deleting.
  - destruct (RoundTrip.admin_world_valid (db w_thread)) as (o & Hls & Hexp).
    exists o. split; [exact Hls | exact Hexp].
  - done.
  - repeat (apply Forall_cons; split; [split; [done | reflexivity]|]). apply Forall_nil_2.
  - done.
Defined.

(** The gate of the two deletions: with no stored session, or an expired
    one, neither reaches the store, not even for an empty list. *)
Theorem admin_post_deletions_gated (w : World) :
  session_missing w ∨ session_expired w →
  (∀ postId, denied (deletePostAdmin postId) w) ∧
  (∀ postIds, denied (bulkDeletePostsAdmin postIds) w).
Proof.
  intros H. split; intros; by apply gated_denied.
Qed.

Lemma admin_post_deletions_gated_witness :
  (∀ postId, denied (deletePostAdmin postId) w_expired) ∧
  (∀ postIds, denied (bulkDeletePostsAdmin postIds) w_expired).
Proof.
  apply admin_post_deletions_gated. right.
  exists [ ("id", JStr "admin"); ("isAdmin", JBool true);
           ("loggedInAt", JStr "2024-06-15T10:30:45.122Z");
           ("expiresAt", JStr "2024-06-15T12:30:45.122Z") ],
         (JStr "2024-06-15T12:30:45.122Z"), 1718454645122.
  split; [reflexivity|]. split; [reflexivity|]. split; [vm_compute; reflexivity|].
  vm_compute. reflexivity.
Defined.
End PostAdmin.

(** ** services/admin/categories.ts: adding and renaming a category *)

Module CategoryEdits.
Import Categories Gate AdminRetry CategoryAdmin.

Definition noId : JsError :=
  Error "유효한 카테고리 ID를 생성할 수 없습니다. 카테고리 이름을 확인해주세요.".

(** One attempt of [addCategory] for a new id and a new name. *)
Lemma addCategory_attempt_adds (category : CategoryInput) (w : World) (d : object)
    (cs : list CategoryItem) :
  reliable w → settings_hold w d cs →
  let i := newId (in_name category) in
  let c := mkCategory i (in_name category) (in_icon category) in
  i ≠ "" → i ∉ map id cs → in_name category ∉ map name cs →
  addCategory_attempt category w =
    (Ok i, set_db (insert settingsKey (reordered d (cs ++ [c]) (now w)))
             (log (Call (ReqUpdate SETTINGS_COLLECTION GLOBAL_SETTINGS_ID))
                (log (Call (ReqGet SETTINGS_COLLECTION GLOBAL_SETTINGS_ID)) w))).
Proof.
  intros Hrel [Hd Hcs] i c Hne Hid Hname. unfold addCategory_attempt. cbv zeta.
  fold i. rewrite bool_decide_eq_false_2 by done.
  rewrite getDoc_run, Hrel. fold settingsKey. rewrite Hd.
  unfold bind at 1. rewrite (categories_of_items d cs) by done.
  unfold bind at 1. rewrite someM_id. rewrite bool_decide_eq_false_2 by done.
  unfold bind at 1. rewrite someM_name. rewrite bool_decide_eq_false_2 by done.
  mrun. simpl. rewrite Hrel. fold settingsKey. simpl. rewrite Hd.
  unfold reordered. by rewrite map_app.
Qed.

(** With a valid session and a reliable store, [addCategory] for a name
    that is not in use, and whose derived id is neither empty nor in use,
    returns the derived id at the first attempt and appends the category,
    with the name as given, to the stored list; the categories that were
    there keep their order, and no other document is touched. *)
Theorem addCategory_appends (category : CategoryInput) (w : World) (d : object)
    (cs : list CategoryItem) :
  session_valid w → reliable w → settings_hold w d cs →
  let i := newId (in_name category) in
  let c := mkCategory i (in_name category) (in_icon category) in
  i ≠ "" → i ∉ map id cs → in_name category ∉ map name cs →
  ∃ w', addCategory category w = (Ok i, w') ∧
        db w' = <[settingsKey := reordered d (cs ++ [c]) (now w)]> (db w) ∧
        settings_hold w' (reordered d (cs ++ [c]) (now w)) (cs ++ [c]).
Proof.
  intros Hs Hrel Hset i c Hne Hid Hname. unfold addCategory.
  rewrite gated_granted by done.
  erewrite retry_loop_ok;
    [| unfold MAX_RETRY_COUNT; lia | by apply addCategory_attempt_adds].
  eexists. split; [reflexivity|]. split; [done|]. split.
  - apply lookup_insert_eq.
  - unfold reordered. rewrite obj_get_set_ne by done. apply obj_get_set_eq.
Qed.

Lemma addCategory_appends_witness :
  let c := mkCategory "q-a" "Q & A" (Some "help") in
  ∃ w', addCategory (mkInput "Q & A" (Some "help")) w_admin = (Ok "q-a", w') ∧
        db w' = <[settingsKey := reordered settings1 ([general; tech] ++ [c]) (now w_admin)]>
                  (db w_admin) ∧
        settings_hold w' (reordered settings1 ([general; tech] ++ [c]) (now w_admin))
          ([general; tech] ++ [c]).
Proof.
  apply (addCategory_appends (mkInput "Q & A" (Some "help")) w_admin settings1 [general; tech]).
  - apply w_admin_valid.
  - apply w_admin_reliable.
  - apply w_admin_settings.
  - done.
  - vm_compute. set_solver.
  - vm_compute. set_solver.
Defined.

(** A name from which no id can be derived, the derived id being empty (as
    for a name written in Hangul), cannot be added: with a valid session
    [addCategory] runs its check five times, sleeping in between for thirty
    seconds in all, then fails, without a single round-trip to the store. *)
Theorem addCategory_without_derived_id (category : CategoryInput) (w : World) :
  session_valid w → newId (in_name category) = "" →
  exhausted (addCategory category) "카테고리 추가 중 오류가 발생했습니다" 0 (λ e, e = noId) w.
Proof.
  intros Hs Hid. unfold exhausted, addCategory. rewrite gated_granted by done.
  apply (retry_loop_exhausts _ _ (λ _, True)); [| done | done].
  intros w1 _. exists noId, w1. split.
  - unfold addCategory_attempt. cbv zeta. by rewrite Hid.
  - repeat split; unfold after_calls; lia.
Qed.

(** The name of the board's default category, in UTF-8. *)
Lemma addCategory_without_derived_id_witness :
  exhausted (addCategory (mkInput "자유게시판" None))
    "카테고리 추가 중 오류가 발생했습니다" 0 (λ e, e = noId) w_admin.
Proof.
  apply addCategory_without_derived_id.
  - apply w_admin_valid.
  - vm_compute. reflexivity.
Defined.
(** The predicates of the array searches read a property and compare:
    they leave the world alone. *)
Lemma prop_is_world k s cat w : (prop_is k s cat w).2 = w.
Proof. unfold prop_is, property, bind. by destruct cat. Qed.

Lemma findIndexM_world k s xs : ∀ i w, (findIndexM (prop_is k s) xs i w).2 = w.
Proof.
  induction xs as [|x xs IH]; intros i w; [done|].
  cbn [findIndexM]. unfold bind. pose proof (prop_is_world k s x w) as Hp.
  destruct (prop_is k s x w) as [[[]|e] w1]; simpl in Hp; subst w1; [done | apply IH | done].
Qed.

Lemma some_otherM_world s skip xs : ∀ i w, (some_otherM s skip xs i w).2 = w.
Proof.
  induction xs as [|x xs IH]; intros i w; [done|].
  cbn [some_otherM]. unfold bind. pose proof (prop_is_world "name" s x w) as Hp.
  destruct (prop_is "name" s x w) as [[b|e] w1]; simpl in Hp; subst w1; [|done].
  destruct (b && negb (bool_decide (i = skip))); [done | apply IH].
Qed.

(** One attempt to set the icon to the empty string, which the code turns
    into [undefined]: it fails after its one read, whatever is stored. *)
Lemma updateCategory_attempt_clear_icon (categoryId updatedName : string) (w : World) :
  ∃ e, updateCategory_attempt categoryId updatedName (Some "") w =
         (Throw e, log (Call (ReqGet SETTINGS_COLLECTION GLOBAL_SETTINGS_ID)) w).
Proof.
  unfold updateCategory_attempt. rewrite getDoc_run.
  destruct (net w _ _) as [e|]; [by eexists|].
  destruct (db w !! _) as [d|]; [|by eexists].
  set (w1 := log _ w). unfold bind at 1. unfold categories_of.
  destruct (Firestore.or_else _ _) as [| | | | | |categories|]; try by eexists.
  unfold ret at 1. unfold bind at 1.
  pose proof (findIndexM_world "id" categoryId categories 0 w1) as Hf.
  destruct (findIndexM _ categories 0 w1) as [[[i|]|e] w2]; simpl in Hf; subst w2;
    [| by eexists | by eexists].
  unfold bind at 1.
  pose proof (some_otherM_world updatedName i categories 0 w1) as Ho.
  destruct (some_otherM updatedName i categories 0 w1) as [[[]|e] w2]; simpl in Ho; subst w2;
    by eexists.
Qed.

(** An icon cannot be cleared.  [updateCategory] with the empty string as
    icon, which is how a caller asks for no icon, never succeeds: in every
    world, for every id and name, it throws, and the store is as it was. *)
Theorem updateCategory_cannot_clear_icon (categoryId updatedName : string) (w : World) :
  ∃ e w', updateCategory categoryId updatedName (Some "") w = (Throw e, w') ∧
          db w' = db w.
Proof.
  unfold updateCategory. unfold bind at 1.
  destruct (PostAdmin.verifyAdminAuth_run w) as (r0 & w0 & Hauth & Hdb0 & _).
  change AdminPosts.verifyAdminAuth with verifyAdminAuth in Hauth. rewrite Hauth.
  destruct r0 as [[]|e]; [|by eexists _, _].
  destruct (retry_loop_exhausts (updateCategory_attempt categoryId updatedName (Some ""))
              "카테고리 수정 중 오류가 발생했습니다" (λ _, True) (λ _, True) 1)
    with (w := w0) as (e & w' & Hrun & _ & Hdb & _); [| done | done |].
  - intros w1 _. destruct (updateCategory_attempt_clear_icon categoryId updatedName w1)
      as (e & Hrun).
    exists e, (log (Call (ReqGet SETTINGS_COLLECTION GLOBAL_SETTINGS_ID)) w1).
    split; [done|]. split; [done|]. split; [done|]. apply after_calls_log.
  - rewrite Hrun. eexists _, _. split; [reflexivity|]. congruence.
Qed.

(** The list with the category at [i] renamed, and given the icon [icon]
    when there is one. *)
Definition renamed (i : nat) (updatedName : string) (icon : option string)
    (cs : list CategoryItem) : list CategoryItem :=
  match cs !! i with
  | Some c =>
      <[i := mkCategory (id c) updatedName
               (match icon with Some x => Some x | None => Categories.icon c end)]> cs
  | None => cs
  end.

Lemma findIndexM_id s cs : ∀ n i w,
  (∀ j c, (j < i)%nat → cs !! j = Some c → id c ≠ s) →
  (∃ c, cs !! i = Some c ∧ id c = s) →
  findIndexM (prop_is "id" s) (map item cs) n w = (Ok (Some (n + i)%nat), w).
Proof.
  induction cs as [|c cs IH]; intros n i w Hfirst (c0 & Hi & Hc0); [done|].
  cbn [findIndexM map]. unfold bind. rewrite prop_is_id.
  destruct i as [|i].
  - injection Hi as ->. rewrite bool_decide_eq_true_2 by done.
    by rewrite Nat.add_0_r.
  - rewrite bool_decide_eq_false_2 by (apply (Hfirst 0%nat); [lia | done]).
    rewrite (IH (S n) i); [by replace (S n + i)%nat with (n + S i)%nat by lia | |].
    + intros j c' Hj Hc'. apply (Hfirst (S j)); [lia | done].
    + by exists c0.
Qed.

Lemma some_otherM_name s skip cs : ∀ n w,
  (∀ j c, cs !! j = Some c → (n + j)%nat ≠ skip → name c ≠ s) →
  some_otherM s skip (map item cs) n w = (Ok false, w).
Proof.
  induction cs as [|c cs IH]; intros n w Hfree; [done|].
  cbn [some_otherM map]. unfold bind. rewrite prop_is_name.
  destruct (decide ((n + 0)%nat = skip)) as [Heq|Hne].
  - rewrite Nat.add_0_r in Heq. rewrite (bool_decide_eq_true_2 (n = skip)) by done.
    rewrite andb_false_r. apply IH. intros j c' Hc' Hj.
    apply (Hfree (S j)); [done | lia].
  - rewrite bool_decide_eq_false_2 by (apply (Hfree 0%nat); done).
    cbn [andb]. apply IH. intros j c' Hc' Hj.
    apply (Hfree (S j)); [done | lia].
Qed.

Lemma renamed_item (c : CategoryItem) (updatedName : string) (icon : option string) :
  VObj (match icon with
        | Some i => obj_set "icon" (VStr i) (obj_set "name" (VStr updatedName) (spread (item c)))
        | None => obj_set "name" (VStr updatedName) (spread (item c))
        end) =
  item (mkCategory (id c) updatedName
          (match icon with Some x => Some x | None => Categories.icon c end)).
Proof. destruct c as [i n [ic|]], icon as [x|]; reflexivity. Qed.

(** With a valid session and a reliable store, [updateCategory] for the id
    of a stored category, a name that no other category has and an icon
    that is absent or not empty returns [true] at the first attempt: the
    category keeps its id and its place, takes the new name, and takes the
    new icon when one is given and keeps its own otherwise.  The other
    categories and every other document are as they were; in particular no
    post is changed, since posts name their category by id. *)
Theorem updateCategory_renames (categoryId updatedName : string) (icon : option string)
    (w : World) (d : object) (cs : list CategoryItem) (i : nat) (c : CategoryItem) :
  session_valid w → reliable w → settings_hold w d cs →
  cs !! i = Some c → id c = categoryId →
  (∀ j c', (j < i)%nat → cs !! j = Some c' → id c' ≠ categoryId) →
  (∀ j c', cs !! j = Some c' → j ≠ i → name c' ≠ updatedName) →
  icon ≠ Some "" →
  ∃ w', updateCategory categoryId updatedName icon w = (Ok true, w') ∧
        db w' = <[settingsKey :=
                    reordered d (renamed i updatedName icon cs) (now w)]> (db w).
Proof.
  intros Hs Hrel [Hd Hcs] Hi Hc Hfirst Hfree Hicon. unfold updateCategory.
  rewrite gated_granted by done.
  exists (set_db (insert settingsKey (reordered d (renamed i updatedName icon cs) (now w)))
            (log (Call (ReqUpdate SETTINGS_COLLECTION GLOBAL_SETTINGS_ID))
               (log (Call (ReqGet SETTINGS_COLLECTION GLOBAL_SETTINGS_ID)) w))).
  split; [|done].
  apply retry_loop_ok; [unfold MAX_RETRY_COUNT; lia|].
  unfold updateCategory_attempt. rewrite getDoc_run, Hrel. fold settingsKey. rewrite Hd.
  unfold bind at 1. rewrite (categories_of_items d cs) by done.
  unfold bind at 1. rewrite (findIndexM_id categoryId cs 0 i); [| done | by exists c].
  cbn [Nat.add]. unfold bind at 1. rewrite some_otherM_name by (intros; by eapply Hfree).
  rewrite list_lookup_fmap, Hi. cbn [fmap option_fmap option_map default].
  assert (Hupd : ∀ cat,
            (let* now := Timestamp_now in
             let* _ := updateDoc SETTINGS_COLLECTION GLOBAL_SETTINGS_ID
                         [ ("categories", Plain (VArr (<[i := cat]> (map item cs))));
                           ("updatedAt", Plain (VTime now)) ] in
             ret true) (log (Call (ReqGet SETTINGS_COLLECTION GLOBAL_SETTINGS_ID)) w) =
            (Ok true,
             set_db (insert settingsKey
                       (obj_set "updatedAt" (VTime (Timestamp_fromMillis (now w)))
                          (obj_set "categories" (VArr (<[i := cat]> (map item cs))) d)))
               (log (Call (ReqUpdate SETTINGS_COLLECTION GLOBAL_SETTINGS_ID))
                  (log (Call (ReqGet SETTINGS_COLLECTION GLOBAL_SETTINGS_ID)) w)))).
  { intros cat. mrun. simpl. rewrite Hrel. fold settingsKey. simpl. by rewrite Hd. }
  unfold renamed, reordered. rewrite Hi, list_fmap_insert, <- renamed_item.
  destruct icon as [x|].
  - destruct x as [|a x]; [done|]. apply Hupd.
  - apply Hupd.
Qed.

Lemma updateCategory_renames_witness :
  ∃ w', updateCategory "tech" "Technology" None w_admin = (Ok true, w') ∧
        db w' = <[settingsKey :=
                    reordered settings1 (renamed 1 "Technology" None [general; tech])
                      (now w_admin)]> (db w_admin).
Proof.
  apply (updateCategory_renames "tech" "Technology" None w_admin settings1
           [general; tech] 1 tech).
  - apply w_admin_valid.
  - apply w_admin_reliable.
  - apply w_admin_settings.
  - reflexivity.
  - reflexivity.
  - intros [|j] c' Hj; [|lia]. by intros [= <-].
  - intros [|[|j]] c' Hc' Hj; [by injection Hc' as <- | done | done].
  - done.
Defined.
End CategoryEdits.

(** ** services/admin/backup.ts: emptying a collection *)

Module Clearing.
Import Backup.

(** The store without the documents of one collection. *)
Definition without_collection (c : string) (store : gmap (string * string) object)
    : gmap (string * string) object :=
  filter (λ kd, kd.1.1 ≠ c) store.

Lemma snapshot_take (c : string) (n : nat) (store : gmap (string * string) object) :
  run_query (mkQuery c [] (Some n)) store = take n (run_query (mkQuery c [] None) store).
Proof. reflexivity. Qed.

Lemma all_elem (c : string) (store : gmap (string * string) object) (i : string) (d : object) :
  (i, d) ∈ run_query (mkQuery c [] None) store ↔ store !! (c, i) = Some d.
Proof.
  rewrite CategoryAdmin.run_query_elem by done. cbn [q_from q_where].
  split; [by intros [? _] | intros ?; split; [done | constructor]].
Qed.

Lemma delete_all_size ks : ∀ store : gmap (string * string) object,
  (size (PostAdmin.delete_all ks store) ≤ size store)%nat.
Proof.
  induction ks as [|k ks IH]; intros store; [done|].
  cbn [PostAdmin.delete_all foldl]. fold (PostAdmin.delete_all ks (delete k store)).
  etrans; [apply IH|]. apply map_subseteq_size, delete_subseteq.
Qed.

(** The loop of [clearCollection] with enough fuel for the store. *)
Lemma clear_loop_run (c : string) : ∀ (fuel : nat) (w : World),
  AdminRetry.reliable w → (size (db w) < fuel)%nat →
  ∃ w', clear_loop fuel c w = (Ok tt, w') ∧ net w' = net w ∧
        ∀ k, db w' !! k = if decide (k.1 = c) then None else db w !! k.
Proof.
  induction fuel as [|fuel IH]; intros w Hnet Hsize; [lia|].
  cbn [clear_loop]. rewrite CategoryAdmin.getDocs_run, Hnet.
  set (w1 := log _ w). change (db w) with (db w1). rewrite snapshot_take.
  set (hits := run_query (mkQuery c [] None) (db w1)).
  assert (Hhits : ∀ i d, (i, d) ∈ hits ↔ db w !! (c, i) = Some d)
    by (intros; apply all_elem).
  case_bool_decide as Hempty.
  { exists w1. split; [done|]. split; [done|]. intros [c' i]. cbn [fst]. destruct (decide (c' = c)) as [->|]; [|done].
    destruct (db w1 !! (c, i)) as [d|] eqn:Hd; [|done]. exfalso.
    apply Hhits in Hd. destruct hits as [|h hits']; [by apply elem_of_nil in Hd|].
    unfold batchSize in Hempty. simpl in Hempty. lia. }
  set (snapshot := take batchSize hits) in *.
  assert (Hcommit : commitBatch (map (λ doc : string * object, TxDelete c doc.1) snapshot) w1 =
            (Ok tt, set_db (λ _, PostAdmin.delete_all (map (pair c) snapshot.*1) (db w1))
                      (log (Call ReqCommit) w1))).
  { unfold commitBatch, bind, rpc, get. change (net w1) with (net w). rewrite Hnet.
    change (db (log (Call ReqCommit) w1)) with (db w1).
    replace (map (λ doc : string * object, TxDelete c doc.1) snapshot)
      with (map (TxDelete c) snapshot.*1) by (by rewrite <- list_fmap_compose).
    by rewrite PostAdmin.apply_writes_deletes. }
  unfold bind at 1. rewrite Hcommit.
  set (w2 := set_db _ _).
  assert (Hin : ∀ k, k ∈ map (pair c) snapshot.*1 ↔
                     k.1 = c ∧ ∃ d, (k.2, d) ∈ snapshot).
  { intros [c' i]. rewrite list_elem_of_fmap. split.
    - intros (i' & [= -> ->] & Hi). apply list_elem_of_fmap in Hi as ([i'' d] & -> & Hi).
      split; [done|]. by exists d.
    - intros [Hc (d & Hi)]. simpl in Hc, Hi. subst c'. exists i. split; [done|].
      apply list_elem_of_fmap. by exists (i, d). }
  assert (Hdb2 : ∀ k, db w2 !! k =
                      if decide (k ∈ map (pair c) snapshot.*1) then None else db w !! k).
  { intros k. apply PostAdmin.delete_all_lookup. }
  case_bool_decide as Hlast.
  - exists w2. split; [done|]. split; [done|]. intros k. rewrite Hdb2.
    assert (snapshot = hits) as Hall.
    { apply take_ge. unfold snapshot in Hlast. rewrite length_take in Hlast. lia. }
    change (db w1) with (db w).
    destruct (decide (k ∈ _)) as [Hk|Hk].
    + apply Hin in Hk as [-> _]. by rewrite decide_True.
    + destruct (decide (k.1 = c)) as [Hc|]; [|done].
      destruct (db w !! k) as [d|] eqn:Hd; [|done]. exfalso. apply Hk, Hin.
      split; [done|]. exists d. rewrite Hall. apply Hhits. destruct k. simpl in Hc. by subst.
  - destruct (IH w2) as (w' & Hrun & Hnet' & Hdb'); [done | |].
    + destruct snapshot as [|[i0 d0] rest] eqn:Hsnap; [done|].
      assert ((i0, d0) ∈ hits) as Hi0.
      { apply (subseteq_take batchSize). fold snapshot. rewrite Hsnap. apply list_elem_of_here. }
      apply Hhits in Hi0.
      assert (size (db w2) < size (db w))%nat; [|lia].
      cbn [map fmap list_fmap PostAdmin.delete_all foldl db w2 set_db].
      fold (PostAdmin.delete_all (map (pair c) rest.*1) (delete (c, i0) (db w1))).
      eapply Nat.le_lt_trans; [apply delete_all_size|].
      apply map_subset_size, delete_subset. by exists d0.
    + exists w'. split; [done|]. split; [done|]. intros k. rewrite Hdb', Hdb2.
      destruct (decide (k.1 = c)) as [Hc|Hc]; [done|].
      rewrite decide_False; [done|]. intros Hk. by apply Hin in Hk as [? _].
Qed.

Lemma clearCollection_run (collectionName : string) (w : World) :
  collection_name collectionName → AdminRetry.reliable w →
  ∃ w', clearCollection collectionName w = (Ok tt, w') ∧ net w' = net w ∧
        db w' = without_collection collectionName (db w).
Proof.
  intros Hname Hnet. unfold clearCollection, try_catch. unfold bind at 1.
  rewrite collection_run by done. unfold bind at 1, get.
  destruct (clear_loop_run collectionName (S (size (db w))) w Hnet)
    as (w' & Hrun & Hnet' & Hdb); [lia|].
  rewrite Hrun. exists w'. split; [done|]. split; [done|].
  apply map_eq. intros k. rewrite Hdb. unfold without_collection.
  destruct (decide (k.1 = collectionName)) as [Hc|Hc].
  - symmetry. apply map_lookup_filter_None. right. intros d _. simpl. tauto.
  - apply option_eq. intros d. rewrite map_lookup_filter_Some. simpl. tauto.
Qed.

(** On a reliable store [clearCollection] of a collection with a plain
    name (not empty and without a slash) removes every document of the
    collection, however many there are, in rounds of at most 500, and
    leaves the documents of the other collections as they were. *)
Theorem clearCollection_empties (collectionName : string) (w : World) :
  collection_name collectionName → AdminRetry.reliable w →
  ∃ w', clearCollection collectionName w = (Ok tt, w') ∧
        db w' = without_collection collectionName (db w).
Proof.
  intros Hname Hnet.
  destruct (clearCollection_run collectionName w Hname Hnet) as (w' & Hrun & _ & Hdb).
  by exists w'.
Qed.

Lemma clearCollection_empties_witness :
  ∃ w', clearCollection "comments" PostAdmin.w_thread = (Ok tt, w') ∧
        db w' = without_collection "comments" (db PostAdmin.w_thread).
Proof. apply clearCollection_empties; [by split | done]. Defined.

(** The store without the documents of the listed collections. *)
Definition without_collections (cs : list string) (store : gmap (string * string) object)
    : gmap (string * string) object :=
  filter (λ kd, kd.1.1 ∉ cs) store.

(** The loop of [restoreData] over collections that the backup lists as
    empty arrays, with [deleteBeforeRestore]. *)
Lemma restore_empty_collections (bd : list (string * json)) (overwrite : bool)
    (collections : list string) :
  Forall (λ c, collection_name c ∧ obj_get c bd = Some (JArr [])) collections →
  ∀ (t : Tally) (w : World),
    AdminRetry.reliable w →
    RoundTrip.none_failed t →
    ∃ t' w', restore_collections (JObj bd) overwrite true collections t w = (Ok t', w') ∧
             RoundTrip.none_failed t' ∧
             ∀ k, db w' !! k = if decide (k.1 ∈ collections) then None else db w !! k.
Proof.
  induction 1 as [|c cs [Hname Hc] _ IH]; intros t w Hnet Ht.
  - exists t, w. split; [done|]. split; [done|]. intros k.
    rewrite decide_False; [done | apply not_elem_of_nil].
  - cbn [restore_collections collection_of]. rewrite Hc. cbn [json_truthy].
    destruct (clearCollection_run c w Hname Hnet) as (w1 & Hclear & Hsame & Hdb1).
    assert (Hnet1 : AdminRetry.reliable w1).
    { intros n r. rewrite Hsame. apply Hnet. }
    unfold bind at 1. unfold try_catch. unfold bind at 1. rewrite Hclear.
    unfold ret at 1. unfold bind at 1. unfold iterate, ret at 1. unfold bind at 1.
    cbn [restore_items]. unfold ret at 1.
    destruct (IH (mkTally (obj_set c 0%nat (restoredCounts t))
                    (obj_set c 0%nat (failedCounts t)) (t_warnings t)) w1 Hnet1)
      as (t' & w' & Hrun & Hwarn & Hdb).
    { destruct Ht as [Hzero Hw]. split; [|done]. cbn [failedCounts].
      by apply RoundTrip.obj_set_Forall. }
    cbn [restoredCount failedCount warnings]. rewrite Hrun.
    exists t', w'. split; [done|]. split; [done|]. intros k. rewrite Hdb, Hdb1.
    unfold without_collection.
    destruct (decide (k.1 ∈ cs)) as [Hin|Hin].
    + rewrite decide_True; [done | by apply list_elem_of_further].
    + destruct (decide (k.1 = c)) as [Heq|Hne].
      * rewrite decide_True by (rewrite Heq; apply list_elem_of_here).
        apply map_lookup_filter_None. right. intros d _. simpl. tauto.
      * rewrite decide_False by (rewrite elem_of_cons; tauto).
        apply option_eq. intros d. rewrite map_lookup_filter_Some. simpl. tauto.
Qed.

(** A backup in which a collection is an empty array is not skipped: an
    empty array counts as data.  With [deleteBeforeRestore], a valid
    session and a reliable store, restoring a backup that lists every
    requested collection as an empty array, the requested collections
    having plain names (not empty and without a slash), reports success
    without a warning and leaves none of their documents in the store; the
    other collections are as they were. *)
Theorem restoreData_of_empty_collections_clears (o bd : list (string * json))
    (collections : option (list string)) (overwrite : option bool) (w : World) :
  Gate.session_valid w → AdminRetry.reliable w →
  obj_get "data" o = Some (JObj bd) →
  Forall (λ c, collection_name c ∧ obj_get c bd = Some (JArr []))
    (default default_collections collections) →
  ∃ r w', restoreData (JsonText (JObj o)) collections overwrite (Some true) w = (Ok r, w') ∧
          success r = true ∧ r_warnings r = None ∧
          db w' = without_collections (default default_collections collections) (db w).
Proof.
  intros Hs Hnet Hdata Hempty. unfold restoreData.
  change verifyAdminAuth with Categories.verifyAdminAuth. rewrite Gate.gated_granted by done.
  unfold try_catch. unfold bind at 1.
  assert (Hparse : parse_backup (JsonText (JObj o)) w = (Ok (JObj o), w)) by done.
  rewrite Hparse. unfold bind at 1. unfold AdminAuth.property, ret at 1. rewrite Hdata.
  cbn [default]. unfold bind at 1.
  destruct (restore_empty_collections bd (default false overwrite) _ Hempty
              (mkTally [] [] []) w Hnet) as (t & w' & Hrun & Ht & Hdb); [by split|].
  change (id true) with true. rewrite Hrun. unfold ret.
  rewrite (RoundTrip.none_failed_total t Ht).
  destruct Ht as [_ Hwarn]. rewrite Hwarn.
  rewrite bool_decide_eq_false_2 by lia.
  eexists _, w'. split; [reflexivity|]. split; [done|]. split; [done|].
  apply map_eq. intros k. rewrite Hdb. unfold without_collections.
  destruct (decide (k.1 ∈ _)) as [Hin|Hin].
  - symmetry. apply map_lookup_filter_None. right. intros d _. simpl. tauto.
  - apply option_eq. intros d. rewrite map_lookup_filter_Some. simpl. tauto.
Qed.

(** A backup of an empty board, restored over the board of [w_source]. *)
Definition empty_backup : list (string * json) :=
  [ ("metadata", JObj [("version", JStr "1.0")]);
    ("data", JObj [ ("posts", JArr []); ("comments", JArr []); ("settings", JArr []);
                    ("bookmarks", JArr []) ]) ].

Lemma restoreData_of_empty_collections_clears_witness :
  ∃ r w', restoreData (JsonText (JObj empty_backup)) None None (Some true) RoundTrip.w_source
            = (Ok r, w') ∧
          success r = true ∧ r_warnings r = None ∧
          db w' = without_collections (default default_collections None)
                    (db RoundTrip.w_source).
Proof.
  apply (restoreData_of_empty_collections_clears empty_backup
           [ ("posts", JArr []); ("comments", JArr []); ("settings", JArr []);
             ("bookmarks", JArr []) ]).
  - apply RoundTrip.admin_world_valid.
  - done.
  - reflexivity.
  - repeat (apply Forall_cons; split; [by split|]). apply Forall_nil_2.
Defined.
End Clearing.

(** ** A new post, read back *)

Module PostLife.
Import Firestore.




(** What [createPost] stores for a complete input. *)
Definition created (title content category authorId : string) (author : object)
    (tags : option (list value)) (t : Z) : object :=
  [ ("title", VStr title); ("content", VStr content); ("category", VStr category);
    ("author", VObj author); ("authorId", VStr authorId);
    ("tags", VArr (default [] tags));
    ("createdAt", VTime (Timestamp_fromMillis t));
    ("updatedAt", VTime (Timestamp_fromMillis t));
    ("commentCount", VNum 0); ("viewCount", VNum 0) ].


End PostLife.
